(** * Writer.cpp of the EOSIO WebAssembly linker: embedding and properties

    The development follows [wasm/Writer.cpp]: the segment planner
    ([getOutputDataSegmentName], [createOutputSegments]), the memory layout
    ([layoutMemory]), the init-function list and [__wasm_call_ctors], the two
    contract dispatchers ([createDispatchFunction],
    [createCallDispatchFunction]) and the ABI side file ([writeABI]).

    Machine integers are [Z] with the wrap-around written out, bytes are [Z]
    in [0, 256), streams are lists of bytes. *)

From Stdlib Require Import ZArith Lia Bool DecimalString.
From Stdlib Require OrderedTypeEx Sorted.
From stdpp Require Import base option list strings gmap.

Set Warnings "-clear-no-such-hyp".

Local Open Scope Z_scope.

(** ** Machine integers *)

Definition u8 (x : Z) : Z := x mod 256.
Definition u32 (x : Z) : Z := x mod 2 ^ 32.
Definition u64 (x : Z) : Z := x mod 2 ^ 64.
(** [(int64_t) x] for an unsigned 64-bit [x]. *)
Definition to_int64 (x : Z) : Z :=
  let y := x mod 2 ^ 64 in if y <? 2 ^ 63 then y else y - 2 ^ 64.

#[global] Arguments u8 : simpl never.
#[global] Arguments u32 : simpl never.
#[global] Arguments u64 : simpl never.
#[global] Arguments to_int64 : simpl never.

(** ** LEB128 primitive emitters *)

Module LEB128.

(** Modelled from the spec: [encodeULEB128] of llvm/Support/LEB128.h is not
    part of the sources at hand; it is the standard unsigned LEB128 encoder:
    [do { Byte = Value & 0x7f; Value >>= 7; if (Value != 0) Byte |= 0x80;
    emit Byte; } while (Value != 0)].  A 64-bit value takes at most ten
    rounds, which is the fuel. *)
Fixpoint encodeULEB128_loop (fuel : nat) (Value : Z) : list Z :=
  match fuel with
  | O => []
  | S fuel' =>
      let Byte := Z.land Value 127 in
      let Value' := Z.shiftr Value 7 in
      if Value' =? 0 then [Byte]
      else Z.lor Byte 128 :: encodeULEB128_loop fuel' Value'
  end.

Definition encodeULEB128 (Value : Z) : list Z :=
  encodeULEB128_loop 10 (u64 Value).

(** Modelled from the spec: [encodeSLEB128] of llvm/Support/LEB128.h, the
    standard signed LEB128 encoder on [int64_t]:
    [do { Byte = Value & 0x7f; Value >>= 7;
          More = !((Value == 0 && (Byte & 0x40) == 0) ||
                   (Value == -1 && (Byte & 0x40) != 0));
          if (More) Byte |= 0x80; emit Byte; } while (More)]. *)
Fixpoint encodeSLEB128_loop (fuel : nat) (Value : Z) : list Z :=
  match fuel with
  | O => []
  | S fuel' =>
      let Byte := Z.land Value 127 in
      let Value' := Z.shiftr Value 7 in
      let More :=
        negb (((Value' =? 0) && (Z.land Byte 64 =? 0))
              || ((Value' =? -1) && negb (Z.land Byte 64 =? 0))) in
      if More then Z.lor Byte 128 :: encodeSLEB128_loop fuel' Value'
      else [Byte]
  end.

Definition encodeSLEB128 (Value : Z) : list Z :=
  encodeSLEB128_loop 10 Value.

(** Readers of the two formats, as the WebAssembly binary format defines
    them: seven payload bits per byte, least significant group first, bit 7
    the continuation flag; the signed reader extends bit 6 of the last
    byte. *)
Fixpoint decodeULEB128 (bs : list Z) : option (Z * list Z) :=
  match bs with
  | [] => None
  | b :: rest =>
      if b <? 128 then Some (b, rest)
      else match decodeULEB128 rest with
           | Some (v, rest') => Some (b - 128 + 128 * v, rest')
           | None => None
           end
  end.

Fixpoint decodeSLEB128 (bs : list Z) : option (Z * list Z) :=
  match bs with
  | [] => None
  | b :: rest =>
      if b <? 128 then Some (if b <? 64 then b else b - 128, rest)
      else match decodeSLEB128 rest with
           | Some (v, rest') => Some (b - 128 + 128 * v, rest')
           | None => None
           end
  end.

(** What the signed reader makes of a value the unsigned writer wrote (the
    writer puts an [i32.const] operand through [writeUleb128]). *)
Definition uleb_read_signed (v : Z) : Z :=
  match decodeSLEB128 (encodeULEB128 v) with
  | Some (z, _) => z
  | None => 0
  end.

End LEB128.
Export LEB128.
#[global] Arguments encodeULEB128 : simpl never.
#[global] Arguments encodeSLEB128 : simpl never.

(** ** The output stream and the ways a writer function can end *)

(** A function of the writer appends to a [raw_string_ostream] that it never
    reads back, and either finishes, or calls [fatal] (the link stops), or
    throws, or calls a member of a null [Symbol*]. *)
Inductive outcome (A : Type) : Type :=
| Ok (a : A) (out : list Z)
| Fatal (msg : string)
| Throw (msg : string)
| NullDeref.
Arguments Ok {A} a out.
Arguments Fatal {A} msg.
Arguments Throw {A} msg.
Arguments NullDeref {A}.

#[global] Instance outcome_ret : MRet outcome := fun A a => Ok a [].
#[global] Instance outcome_bind : MBind outcome := fun A B f m =>
  match m with
  | Ok a out =>
      match f a with
      | Ok b out' => Ok b (out ++ out')
      | Fatal msg => Fatal msg
      | Throw msg => Throw msg
      | NullDeref => NullDeref
      end
  | Fatal msg => Fatal msg
  | Throw msg => Throw msg
  | NullDeref => NullDeref
  end.

(** A function that does not throw, and one that stops the link ([fatal])
    or runs into the null pointer. *)
Definition no_throw {A} (m : outcome A) : Prop :=
  match m with
  | Throw _ => False
  | _ => True
  end.
Definition halts {A} (m : outcome A) : Prop :=
  match m with
  | Fatal _ | NullDeref => True
  | _ => False
  end.

Definition emit (bs : list Z) : outcome unit := Ok tt bs.
Definition fatal {A} (msg : string) : outcome A := Fatal msg.
Definition throw {A} (msg : string) : outcome A := Throw msg.
Definition when (b : bool) (m : outcome unit) : outcome unit :=
  if b then m else mret tt.

(** Modelled from the spec: the byte emitters of WriterUtils.h are not part
    of the sources at hand.  [writeU8] takes a [uint8_t] and writes it,
    [writeUleb128] takes a [uint32_t] and writes its ULEB128 encoding. *)
Definition writeU8 (byte : Z) : outcome unit := emit [u8 byte].
Definition writeUleb128 (number : Z) : outcome unit :=
  emit (encodeULEB128 (u32 number)).
Definition writeSLEB128 (Value : Z) : outcome unit :=
  emit (encodeSLEB128 Value).

(** ** Opcodes and constants of Writer.cpp *)

Definition OPCODE_CALL : Z := 0x10.
Definition OPCODE_IF : Z := 0x4.
Definition OPCODE_ELSE : Z := 0x5.
Definition OPCODE_END : Z := 0xb.
Definition OPCODE_RETURN : Z := 0xf.
Definition OPCODE_GET_LOCAL : Z := 0x20.
Definition OPCODE_SET_LOCAL : Z := 0x21.
Definition OPCODE_GET_GLOBAL : Z := 0x23.
Definition OPCODE_SET_GLOBAL : Z := 0x24.
Definition OPCODE_I32_LOAD : Z := 0x28.
Definition OPCODE_I32_CONST : Z := 0x41.
Definition OPCODE_I32_ADD : Z := 0x6a.
Definition OPCODE_I32_TYPE : Z := 0x7f.
Definition OPCODE_I64_EQ : Z := 0x51.
Definition OPCODE_I64_NE : Z := 0x52.
Definition OPCODE_I64_CONST : Z := 0x42.
Definition OPCODE_I64_STORE : Z := 0x37.
Definition OPCODE_I64_LOAD : Z := 0x29.
Definition OPCODE_I64_ADD : Z := 0x7c.
Definition EOSIO_COMPILER_ERROR_BASE : Z := 8000000000000000000.
Definition EOSIO_ERROR_NO_ACTION : Z := EOSIO_COMPILER_ERROR_BASE.
Definition EOSIO_ERROR_ONERROR : Z := EOSIO_COMPILER_ERROR_BASE + 1.
Definition EOSIO_CANARY_FAILURE : Z := EOSIO_COMPILER_ERROR_BASE + 2.
Definition SYNC_CALL_EXECUTED : Z := 0.
Definition SYNC_CALL_UNSUPPORTED_HEADER_VERSION : Z := -10000.
Definition SYNC_CALL_UNKNOWN_FUNCTION : Z := -10001.
Definition UINT32_MAX : Z := 2 ^ 32 - 1.

(** ** Symbols, object files, configuration *)

(** A [Symbol] as the writer uses it.  The accessors are those the writer
    calls; which of them is meaningful depends on the symbol's kind, and the
    writer casts freely between [FunctionSymbol*] and [GlobalSymbol*]. *)
Record Symbol : Type := {
  getName : string;
  getFunctionIndex : Z;
  getGlobalIndex : Z;
  isLive : bool;
  isDiscarded : bool;
  (* [*sym->signature == WasmSignature{{}, {}}] *)
  signatureIsVoid : bool
}.

Record InputSegment : Type := {
  segName : string;
  live : bool;
  segAlignment : Z;
  segSize : Z
}.

(** One entry of the linking data's [InitFunctions]. *)
Record WasmInitFunc : Type := {
  initSymbol : nat;
  Priority : Z
}.

Record ObjFile : Type := {
  fileName : string;
  getEosioABI : string;
  getEosioActions : list string;
  getEosioNotify : list string;
  getEosioCalls : list string;
  segments : list InputSegment;
  InitFunctions : list WasmInitFunc;
  getFunctionSymbol : nat -> Symbol
}.

Record SymbolTable : Type := {
  getSymbols : list Symbol;
  objectFiles : list ObjFile
}.

(** [symtab->find(name)]: the symbol of that name, or null. *)
Definition find (symtab : SymbolTable) (name : string) : option Symbol :=
  List.find (fun s => String.eqb (getName s) name) (getSymbols symtab).

Definition numSymbols (symtab : SymbolTable) : Z :=
  Z.of_nat (length (getSymbols symtab)).

(** [p->f()] through a pointer that may be null. *)
Definition deref {A} (p : option Symbol) (f : Symbol -> A) : outcome A :=
  match p with
  | Some s => mret (f s)
  | None => NullDeref
  end.

Record Configuration : Type := {
  isPic : bool;
  mergeDataSegments : bool;
  passiveSegments : bool;
  relocatable : bool;
  shared : bool;
  sharedMemory : bool;
  stackFirst : bool;
  stackCanary : bool;
  globalBase : Z;
  zStackSize : Z;
  initialMemory : Z;
  maxMemory : Z;
  outputFile : string
}.

(** ** std::string helpers *)

(** [s.find(":")], with [None] for [npos]. *)
Definition find_colon (s : string) : option nat := String.index 0 ":" s.

(** [s.substr(0, s.find(":"))]; a count of [npos] takes the whole string. *)
Definition substr_to_colon (s : string) : string :=
  match find_colon s with
  | Some i => String.substring 0 i s
  | None => s
  end.

(** [s.substr(pos)], which throws [std::out_of_range] when [pos > size()]. *)
Definition substr_from (pos : nat) (s : string) : outcome string :=
  if (String.length s <? pos)%nat then throw "basic_string::substr"
  else mret (String.substring pos (String.length s - pos) s).

(** [s.substr(s.find(":") + 1)]; [npos + 1] wraps to 0. *)
Definition substr_after_colon (s : string) : string :=
  match find_colon s with
  | Some i => String.substring (i + 1) (String.length s - (i + 1)) s
  | None => s
  end.

(** [for (x : l)] with a state threaded through the body. *)
Fixpoint for_each {A S : Type} (body : A -> S -> outcome S)
    (l : list A) (s : S) : outcome S :=
  match l with
  | [] => mret s
  | x :: l' => s' ← body x s; for_each body l' s'
  end.

(** [for (int i = 0; i < n; i++) writeU8(OS, OPCODE_END, "END")]. *)
Fixpoint write_ends (n : nat) : outcome unit :=
  match n with
  | O => mret tt
  | S n' => writeU8 OPCODE_END;; write_ends n'
  end.

(** [std::map<std::string, std::vector<std::string>>]: the entries in
    ascending key order.  [map_push k v m] is [m[k].push_back(v)]. *)
Fixpoint map_push (k v : string) (m : list (string * list string))
    : list (string * list string) :=
  match m with
  | [] => [(k, [v])]
  | (k', vs) :: m' =>
      match String.compare k k' with
      | Eq => (k', vs ++ [v]) :: m'
      | Lt => (k, [v]) :: (k', vs) :: m'
      | Gt => (k', vs) :: map_push k v m'
      end
  end.

(** [m[k]] read as a value; a missing key reads as the empty vector. *)
Definition map_at (k : string) (m : list (string * list string))
    : list string :=
  match List.find (fun e => String.eqb (fst e) k) m with
  | Some e => snd e
  | None => []
  end.

(** ** The contract dispatchers *)

Section Dispatchers.

(** [eosio::cdt::string_to_name] and [eosio::cdt::to_hash_id] of
    eosio/utils.hpp, which the sources at hand only call. *)
Variable string_to_name : string -> Z.
Variable to_hash_id : string -> Z.
Variable config : Configuration.
Variable symtab : SymbolTable.

(** The state of the two de-duplicating loops: [has_dispatched],
    [need_else] and the counter. *)
Definition loop_state : Type := gset string * bool * nat.

(** *** Writer::createDispatchFunction *)

(** The lambda [create_if]; the result is the new value of [need_else].
    [index >= 0] holds for every [uint32_t], so the [throw] of the source is
    dead code. *)
Definition create_if (str : string) (need_else : bool) : outcome bool :=
  when need_else (writeU8 OPCODE_ELSE);;
  let nm := string_to_name (substr_to_colon str) in
  writeU8 OPCODE_I64_CONST;;
  writeSLEB128 (to_int64 nm);;
  writeU8 OPCODE_GET_LOCAL;;
  writeUleb128 2;;
  writeU8 OPCODE_I64_EQ;;
  writeU8 OPCODE_IF;;
  writeU8 0x40;;
  writeU8 OPCODE_GET_LOCAL;;
  writeUleb128 0;;
  writeU8 OPCODE_GET_LOCAL;;
  writeUleb128 1;;
  writeU8 OPCODE_CALL;;
  index ← deref (find symtab (substr_after_colon str)) getFunctionIndex;
  writeUleb128 index;;
  mret true.

Definition assert_sym : option Symbol := find symtab "eosio_assert_code".
Definition assert_idx : Z :=
  match assert_sym with
  | Some s => getFunctionIndex s
  | None => UINT32_MAX
  end.
Definition post_sym : option Symbol := find symtab "post_dispatch".

(** The call of [post_dispatch(receiver, code, action)]. *)
Definition call_post_dispatch (p : Symbol) : outcome unit :=
  let post_idx := getFunctionIndex p in
  writeU8 OPCODE_GET_LOCAL;;
  writeUleb128 0;;
  writeU8 OPCODE_GET_LOCAL;;
  writeUleb128 1;;
  writeU8 OPCODE_GET_LOCAL;;
  writeUleb128 2;;
  writeU8 OPCODE_CALL;;
  writeUleb128 post_idx.

(** The body of the loop over one file's actions. *)
Definition dispatch_action (act : string) (st : loop_state)
    : outcome loop_state :=
  let '(has_dispatched, need_else, act_cnt) := st in
  if decide (act ∈ has_dispatched) then mret st
  else
    need_else' ← create_if act need_else;
    mret ({[act]} ∪ has_dispatched, need_else', S act_cnt).

(** The lambda [create_action_dispatch]. *)
Definition create_action_dispatch : outcome unit :=
  '(_, _, act_cnt) ←
    for_each (fun File st =>
                match getEosioActions File with
                | [] => mret st
                | acts => for_each dispatch_action acts st
                end)
             (objectFiles symtab) (∅, false, O);
  when (0 <? act_cnt)%nat (writeU8 OPCODE_ELSE);;
  writeU8 OPCODE_GET_LOCAL;;
  writeUleb128 0;;
  writeU8 OPCODE_I64_CONST;;
  writeSLEB128 (to_int64 (string_to_name "eosio"));;
  writeU8 OPCODE_I64_NE;;
  writeU8 OPCODE_IF;;
  writeU8 0x40;;
  (if bool_decide (is_Some assert_sym) && (assert_idx <? numSymbols symtab)
   then
     writeU8 OPCODE_I32_CONST;;
     writeUleb128 0;;
     writeU8 OPCODE_I64_CONST;;
     writeSLEB128 (to_int64 EOSIO_ERROR_NO_ACTION);;
     writeU8 OPCODE_CALL;;
     writeUleb128 assert_idx
   else
     fatal "fatal failure: contract with no actions and trying to create dispatcher");;
  match post_sym with
  | Some p => writeU8 OPCODE_ELSE;; call_post_dispatch p
  | None => mret tt
  end;;
  writeU8 OPCODE_END;;
  write_ends act_cnt.

(** The registration loop of [create_notify_dispatch]: the state is
    [has_dispatched], [not_cnt] and [notify_handlers]. *)
Definition register_notify (notif : string)
    (st : gset string * nat * list (string * list string))
    : outcome (gset string * nat * list (string * list string)) :=
  let '(has_dispatched, not_cnt, notify_handlers) := st in
  if decide (notif ∈ has_dispatched) then mret st
  else
    let code_name := substr_to_colon notif in
    rest ← substr_from (match find_colon notif with
                        | Some idx => idx + 2
                        | None => 1 (* npos + 2 *)
                        end) notif;
    mret ({[notif]} ∪ has_dispatched, S not_cnt,
          map_push code_name rest notify_handlers).

Definition has_onerror_handler (not_cnt : nat)
    (notify_handlers : list (string * list string)) : bool :=
  (0 <? not_cnt)%nat &&
  existsb (fun notif0 =>
             String.eqb (fst notif0) "eosio" &&
             existsb (fun notif1 =>
                        String.eqb (substr_to_colon notif1) "onerror")
                     (snd notif0))
          notify_handlers.

(** The guard emitted when no handler for [eosio::onerror] exists. *)
Definition assert_on_onerror : outcome unit :=
  writeU8 OPCODE_I64_CONST;;
  writeSLEB128 (to_int64 (string_to_name "eosio"));;
  writeU8 OPCODE_GET_LOCAL;;
  writeUleb128 1;;
  writeU8 OPCODE_I64_EQ;;
  writeU8 OPCODE_IF;;
  writeU8 0x40;;
  writeU8 OPCODE_I64_CONST;;
  writeSLEB128 (to_int64 (string_to_name "onerror"));;
  writeU8 OPCODE_GET_LOCAL;;
  writeUleb128 2;;
  writeU8 OPCODE_I64_EQ;;
  writeU8 OPCODE_IF;;
  writeU8 0x40;;
  writeU8 OPCODE_I32_CONST;;
  writeUleb128 0;;
  writeU8 OPCODE_I64_CONST;;
  writeSLEB128 (to_int64 EOSIO_ERROR_ONERROR);;
  writeU8 OPCODE_CALL;;
  writeUleb128 assert_idx;;
  writeU8 OPCODE_END;;
  writeU8 OPCODE_END.

(** The loop over the handlers of one code name; the state is
    [(has_written, notify0_need_else)]. *)
Definition dispatch_code_name (notif0 : string * list string)
    (st : bool * bool) : outcome (bool * bool) :=
  let '(has_written, notify0_need_else) := st in
  let nm := string_to_name (fst notif0) in
  if String.eqb (fst notif0) "*" then mret st
  else
    when notify0_need_else (writeU8 OPCODE_ELSE);;
    writeU8 OPCODE_I64_CONST;;
    writeSLEB128 (to_int64 nm);;
    writeU8 OPCODE_GET_LOCAL;;
    writeUleb128 1;;
    writeU8 OPCODE_I64_EQ;;
    writeU8 OPCODE_IF;;
    writeU8 0x40;;
    for_each create_if (snd notif0) false;;
    write_ends (length (snd notif0));;
    mret (true, true).

(** The lambda [create_notify_dispatch]. *)
Definition create_notify_dispatch : outcome unit :=
  '(_, not_cnt, notify_handlers) ←
    for_each (fun File st =>
                match getEosioNotify File with
                | [] => mret st
                | notifs => for_each register_notify notifs st
                end)
             (objectFiles symtab) (∅, O, []);
  when (negb (has_onerror_handler not_cnt notify_handlers))
       assert_on_onerror;;
  when (0 <? not_cnt)%nat
       ('(has_written, _) ←
          for_each dispatch_code_name notify_handlers (false, false);
        when has_written (writeU8 OPCODE_ELSE));;
  for_each create_if (map_at "*" notify_handlers) false;;
  match post_sym with
  | Some p =>
      writeU8 OPCODE_ELSE;;
      call_post_dispatch p;;
      writeU8 OPCODE_END
  | None => mret tt
  end;;
  write_ends (length (map_at "*" notify_handlers)).

(** *** The blocks the two dispatchers share word for word *)

(** [if (ctors_sym) { if (ctors_idx != 0) { CALL ctors_idx } }]. *)
Definition call_ctors : outcome unit :=
  match find symtab "__wasm_call_ctors" with
  | Some ctors_sym =>
      let ctors_idx := getFunctionIndex ctors_sym in
      when (negb (ctors_idx =? 0))
           (writeU8 OPCODE_CALL;;
            writeUleb128 ctors_idx)
  | None => mret tt
  end.

(** The block under the first [if (config->stackCanary)]. *)
Definition stack_canary_prologue : outcome unit :=
  let gsym := find symtab "__stack_canary" in
  time_idx ← match find symtab "current_time" with
             | Some time_sym => mret (getFunctionIndex time_sym)
             | None => fatal "internal error, current_time not found"
             end;
  writeU8 OPCODE_CALL;;
  writeU8 time_idx;;
  writeU8 OPCODE_SET_GLOBAL;;
  g ← deref gsym getGlobalIndex;
  writeUleb128 g;;
  let desym := find symtab "__data_end" in
  writeU8 OPCODE_I32_CONST;;
  de ← deref desym getGlobalIndex;
  writeUleb128 (de + 8);;
  writeU8 OPCODE_GET_GLOBAL;;
  g' ← deref gsym getGlobalIndex;
  writeUleb128 g';;
  writeU8 OPCODE_I64_STORE;;
  writeUleb128 3;;
  writeUleb128 0.

(** The block under the second [if (config->stackCanary)]. *)
Definition stack_canary_epilogue : outcome unit :=
  let gsym := find symtab "__stack_canary" in
  let desym := find symtab "__data_end" in
  writeU8 OPCODE_GET_GLOBAL;;
  g ← deref gsym getGlobalIndex;
  writeUleb128 g;;
  writeU8 OPCODE_I32_CONST;;
  de ← deref desym getGlobalIndex;
  writeUleb128 (de + 8);;
  writeU8 OPCODE_I64_LOAD;;
  writeUleb128 3;;
  writeUleb128 0;;
  writeU8 OPCODE_I64_NE;;
  writeU8 OPCODE_IF;;
  writeU8 0x40;;
  let assert_sym := find symtab "eosio_assert_code" in
  writeU8 OPCODE_I32_CONST;;
  writeUleb128 0;;
  writeU8 OPCODE_I64_CONST;;
  writeSLEB128 (to_int64 EOSIO_CANARY_FAILURE);;
  writeU8 OPCODE_CALL;;
  a ← deref assert_sym getFunctionIndex;
  writeUleb128 a;;
  writeU8 OPCODE_END.

(** [if (dtors_sym) { if (dtors_idx != 0 && dtors_idx < size) {...} }]. *)
Definition call_cxa_finalize : outcome unit :=
  match find symtab "__cxa_finalize" with
  | Some dtors_sym =>
      let dtors_idx := getFunctionIndex dtors_sym in
      when (negb (dtors_idx =? 0) && (dtors_idx <? numSymbols symtab))
           (writeU8 OPCODE_I32_CONST;;
            writeUleb128 0;;
            writeU8 OPCODE_CALL;;
            writeUleb128 dtors_idx)
  | None => mret tt
  end.

(** [BodyContent] of [createDispatchFunction]. *)
Definition dispatch_BodyContent : outcome unit :=
  writeUleb128 0;;
  contract_idx ← deref (find symtab "eosio_set_contract_name")
                       getFunctionIndex;
  writeU8 OPCODE_GET_LOCAL;;
  writeUleb128 0;;
  writeU8 OPCODE_CALL;;
  writeUleb128 contract_idx;;
  call_ctors;;
  when (stackCanary config) stack_canary_prologue;;
  let pre_sym := find symtab "pre_dispatch" in
  match pre_sym with
  | Some p =>
      let pre_idx := getFunctionIndex p in
      writeU8 OPCODE_GET_LOCAL;;
      writeUleb128 0;;
      writeU8 OPCODE_GET_LOCAL;;
      writeUleb128 1;;
      writeU8 OPCODE_GET_LOCAL;;
      writeUleb128 2;;
      writeU8 OPCODE_CALL;;
      writeUleb128 pre_idx;;
      writeU8 OPCODE_IF;;
      writeU8 0x40
  | None => mret tt
  end;;
  writeU8 OPCODE_GET_LOCAL;;
  writeUleb128 0;;
  writeU8 OPCODE_GET_LOCAL;;
  writeUleb128 1;;
  writeU8 OPCODE_I64_EQ;;
  writeU8 OPCODE_IF;;
  writeU8 0x40;;
  create_action_dispatch;;
  writeU8 OPCODE_ELSE;;
  create_notify_dispatch;;
  writeU8 OPCODE_END;;
  when (stackCanary config) stack_canary_epilogue;;
  call_cxa_finalize;;
  when (bool_decide (is_Some pre_sym)) (writeU8 OPCODE_END);;
  writeU8 OPCODE_END.

(** [createFunction(func, bodyContent)]: the body installed in the synthetic
    function is the content behind its ULEB128 size. *)
Definition createFunction (bodyContent : list Z) : list Z :=
  encodeULEB128 (u32 (Z.of_nat (length bodyContent))) ++ bodyContent.

(** [createDispatchFunction]; on [Ok] the stream is the body installed in
    [WasmSym::entryFunc]. *)
Definition createDispatchFunction : outcome unit :=
  match dispatch_BodyContent with
  | Ok _ BodyContent => Ok tt (createFunction BodyContent)
  | other => other
  end.

(** *** Writer::createCallDispatchFunction *)

(** A symbol the sync-call [create_if] needs; the source throws when it is
    missing. *)
Definition function_index_or_throw (name msg : string) : outcome Z :=
  match find symtab name with
  | Some s => mret (getFunctionIndex s)
  | None => throw msg
  end.

(** The lambda [create_if] of [createCallDispatchFunction]. *)
Definition create_call_if (call_name : string) (need_else : bool)
    : outcome bool :=
  when need_else (writeU8 OPCODE_ELSE);;
  get_call_data_idx ←
    function_index_or_throw "__eos_get_sync_call_data_"
      "wasm_ld internal error: __eos_get_sync_call_data_ not found";
  writeU8 OPCODE_GET_LOCAL;;
  writeUleb128 2;;
  writeU8 OPCODE_CALL;;
  writeUleb128 get_call_data_idx;;
  writeU8 OPCODE_SET_LOCAL;;
  writeUleb128 3;;
  get_header_idx ←
    function_index_or_throw "__eos_get_sync_call_data_header_"
      "wasm_ld internal error: __eos_get_sync_call_data_header_ not found";
  writeU8 OPCODE_GET_LOCAL;;
  writeUleb128 3;;
  writeU8 OPCODE_CALL;;
  writeUleb128 get_header_idx;;
  writeU8 OPCODE_SET_LOCAL;;
  writeUleb128 4;;
  writeU8 OPCODE_GET_LOCAL;;
  writeUleb128 4;;
  writeU8 OPCODE_I32_LOAD;;
  writeUleb128 2;;
  writeUleb128 0;;
  writeU8 OPCODE_IF;;
  writeU8 0x40;;
  writeU8 OPCODE_I64_CONST;;
  writeSLEB128 SYNC_CALL_UNSUPPORTED_HEADER_VERSION;;
  writeU8 OPCODE_RETURN;;
  writeU8 OPCODE_END;;
  writeU8 OPCODE_GET_LOCAL;;
  writeUleb128 4;;
  writeU8 OPCODE_I32_CONST;;
  writeUleb128 8;;
  writeU8 OPCODE_I32_ADD;;
  writeU8 OPCODE_I64_LOAD;;
  writeUleb128 3;;
  writeUleb128 0;;
  let id := to_hash_id (substr_to_colon call_name) in
  writeU8 OPCODE_I64_CONST;;
  writeSLEB128 (to_int64 id);;
  writeU8 OPCODE_I64_EQ;;
  writeU8 OPCODE_IF;;
  writeU8 0x40;;
  writeU8 OPCODE_GET_LOCAL;;
  writeUleb128 0;;
  writeU8 OPCODE_GET_LOCAL;;
  writeUleb128 1;;
  writeU8 OPCODE_GET_LOCAL;;
  writeUleb128 2;;
  writeU8 OPCODE_GET_LOCAL;;
  writeUleb128 3;;
  writeU8 OPCODE_CALL;;
  match find symtab (substr_after_colon call_name) with
  | Some func_sym =>
      let index := getFunctionIndex func_sym in
      if index <? numSymbols symtab then writeUleb128 index
      else throw "wasm_ld internal error sync call function index out of bound"
  | None => throw "wasm_ld internal error sync call function not found"
  end;;
  mret true.

Definition dispatch_call (call : string) (st : loop_state)
    : outcome loop_state :=
  let '(has_dispatched, need_else, call_cnt) := st in
  if decide (call ∈ has_dispatched) then mret st
  else
    need_else' ← create_call_if call need_else;
    mret ({[call]} ∪ has_dispatched, need_else', S call_cnt).

(** The lambda [create_call_dispatch]. *)
Definition create_call_dispatch : outcome unit :=
  '(_, _, call_cnt) ←
    for_each (fun File st =>
                match getEosioCalls File with
                | [] => mret st
                | calls => for_each dispatch_call calls st
                end)
             (objectFiles symtab) (∅, false, O);
  (if (call_cnt =? 0)%nat
   then throw "wasm_ld internal error: call_cnt must be greater than 0"
   else mret tt);;
  writeU8 OPCODE_ELSE;;
  writeU8 OPCODE_I64_CONST;;
  writeSLEB128 SYNC_CALL_UNKNOWN_FUNCTION;;
  writeU8 OPCODE_RETURN;;
  write_ends call_cnt.

(** [BodyContent] of [createCallDispatchFunction]. *)
Definition call_dispatch_BodyContent : outcome unit :=
  writeUleb128 1;;
  writeUleb128 2;;
  writeU8 OPCODE_I32_TYPE;;
  contract_idx ← deref (find symtab "eosio_set_contract_name")
                       getFunctionIndex;
  writeU8 OPCODE_GET_LOCAL;;
  writeUleb128 1;;
  writeU8 OPCODE_CALL;;
  writeUleb128 contract_idx;;
  call_ctors;;
  when (stackCanary config) stack_canary_prologue;;
  create_call_dispatch;;
  when (stackCanary config) stack_canary_epilogue;;
  call_cxa_finalize;;
  writeU8 OPCODE_I64_CONST;;
  writeSLEB128 SYNC_CALL_EXECUTED;;
  writeU8 OPCODE_END.

(** [createCallDispatchFunction]; on [Ok] the stream is the body installed
    in [WasmSym::syncCallFunc]. *)
Definition createCallDispatchFunction : outcome unit :=
  match call_dispatch_BodyContent with
  | Ok _ BodyContent => Ok tt (createFunction BodyContent)
  | other => other
  end.

End Dispatchers.

#[global] Arguments call_ctors : simpl never.
#[global] Arguments stack_canary_prologue : simpl never.
#[global] Arguments stack_canary_epilogue : simpl never.
#[global] Arguments call_cxa_finalize : simpl never.
#[global] Arguments create_action_dispatch : simpl never.
#[global] Arguments create_notify_dispatch : simpl never.
#[global] Arguments create_call_dispatch : simpl never.

(** ** The WebAssembly fragment the dispatchers are written in

    To say what an emitted body does, the bytes are read back with the
    WebAssembly binary format (the opcodes of Writer.cpp, indices in
    ULEB128, constants in SLEB128) and run on a small machine.  The emitted
    code has no loops, so running it is structural. *)

Module Wasm.

Inductive op : Type :=
| Call (f : Z)
| LocalGet (i : Z)
| LocalSet (i : Z)
| GlobalGet (i : Z)
| GlobalSet (i : Z)
| I32Const (z : Z)
| I64Const (z : Z)
| I32Load (align offset : Z)
| I64Load (align offset : Z)
| I64Store (align offset : Z)
| I32Add
| I64Eq
| I64Ne
| Return.

(** The instruction stream as the binary format has it: [if] (with the
    empty block type 0x40), [else] and [end] are bytes like any other. *)
Inductive token : Type :=
| Op (o : op)
| If
| Else
| End.


(** The same stream with its blocks nested; the last argument of each
    constructor is what follows. *)
Inductive code : Type :=
| Done
| Seq (o : op) (k : code)
| IfThen (t : code) (k : code)
| IfThenElse (t e : code) (k : code).

Fixpoint flatten (c : code) : list token :=
  match c with
  | Done => []
  | Seq o k => Op o :: flatten k
  | IfThen t k => If :: flatten t ++ End :: flatten k
  | IfThenElse t e k => If :: flatten t ++ Else :: flatten e ++ End :: flatten k
  end.

(** [seq os k]: the plain instructions [os], then [k]. *)
Fixpoint seq (os : list op) (k : code) : code :=
  match os with
  | [] => k
  | o :: os' => Seq o (seq os' k)
  end.

(** [c1 +++ c2]: [c1], then [c2]. *)
Fixpoint append (c1 c2 : code) : code :=
  match c1 with
  | Done => c2
  | Seq o k => Seq o (append k c2)
  | IfThen t k => IfThen t (append k c2)
  | IfThenElse t e k => IfThenElse t e (append k c2)
  end.

(** *** Reading the binary format *)

Definition decode_memarg (mk : Z -> Z -> op) (bs : list Z)
    : option (token * list Z) :=
  '(a, bs1) ← decodeULEB128 bs;
  '(o, bs2) ← decodeULEB128 bs1;
  Some (Op (mk a o), bs2).

Definition decode_index (mk : Z -> op) (bs : list Z)
    : option (token * list Z) :=
  '(i, bs1) ← decodeULEB128 bs;
  Some (Op (mk i), bs1).

Definition decode_const (mk : Z -> op) (bs : list Z)
    : option (token * list Z) :=
  '(z, bs1) ← decodeSLEB128 bs;
  Some (Op (mk z), bs1).

Definition decode_token (bs : list Z) : option (token * list Z) :=
  match bs with
  | [] => None
  | opcode :: rest =>
      if opcode =? 0x04 then
        match rest with
        | blocktype :: rest' =>
            if blocktype =? 0x40 then Some (If, rest') else None
        | [] => None
        end
      else if opcode =? 0x05 then Some (Else, rest)
      else if opcode =? 0x0b then Some (End, rest)
      else if opcode =? 0x0f then Some (Op Return, rest)
      else if opcode =? 0x10 then decode_index Call rest
      else if opcode =? 0x20 then decode_index LocalGet rest
      else if opcode =? 0x21 then decode_index LocalSet rest
      else if opcode =? 0x23 then decode_index GlobalGet rest
      else if opcode =? 0x24 then decode_index GlobalSet rest
      else if opcode =? 0x28 then decode_memarg I32Load rest
      else if opcode =? 0x29 then decode_memarg I64Load rest
      else if opcode =? 0x37 then decode_memarg I64Store rest
      else if opcode =? 0x41 then decode_const I32Const rest
      else if opcode =? 0x42 then decode_const I64Const rest
      else if opcode =? 0x51 then Some (Op I64Eq, rest)
      else if opcode =? 0x52 then Some (Op I64Ne, rest)
      else if opcode =? 0x6a then Some (Op I32Add, rest)
      else None
  end.

(** Every token takes at least one byte, so the length of the input is
    fuel enough. *)
Fixpoint decode_tokens (fuel : nat) (bs : list Z) : option (list token) :=
  match bs with
  | [] => Some []
  | _ =>
      match fuel with
      | O => None
      | S fuel' =>
          '(t, rest) ← decode_token bs;
          ts ← decode_tokens fuel' rest;
          Some (t :: ts)
      end
  end.

Definition decode (bs : list Z) : option (list token) :=
  decode_tokens (length bs) bs.

(** The first [n] tokens of a stream, and what follows them. *)
Fixpoint decode_first (n : nat) (bs : list Z)
    : option (list token * list Z) :=
  match n with
  | O => Some ([], bs)
  | S n' =>
      '(t, rest) ← decode_token bs;
      '(ts, rest') ← decode_first n' rest;
      Some (t :: ts, rest')
  end.

(** [encodes bs t]: the bytes [bs] read as the one token [t], whatever
    follows; [Encodes bs ts]: [bs] is the tokens [ts] one after the other. *)
Definition encodes (bs : list Z) (t : token) : Prop :=
  forall rest, decode_token (bs ++ rest) = Some (t, rest).

Inductive Encodes : list Z -> list token -> Prop :=
| Encodes_nil : Encodes [] []
| Encodes_cons bs t bs' ts :
    encodes bs t -> Encodes bs' ts -> Encodes (bs ++ bs') (t :: ts).

(** A function body: the vector of local groups (count, type), then the
    code. *)
Fixpoint decode_locals (n : nat) (bs : list Z)
    : option (list (Z * Z) * list Z) :=
  match n with
  | O => Some ([], bs)
  | S n' =>
      '(count, bs1) ← decodeULEB128 bs;
      match bs1 with
      | ty :: bs2 =>
          '(groups, bs3) ← decode_locals n' bs2;
          Some ((count, ty) :: groups, bs3)
      | [] => None
      end
  end.

Definition decode_body (bs : list Z) : option (list (Z * Z) * list token) :=
  '(n, bs1) ← decodeULEB128 bs;
  '(groups, bs2) ← decode_locals (Z.to_nat n) bs1;
  ts ← decode bs2;
  Some (groups, ts).

(** *** Running the code *)

Inductive val : Type :=
| I32 (n : Z)
| I64 (n : Z).

Record store : Type := {
  globals : Z -> val;
  memory : Z -> Z;
  mem_size : Z
}.

(** One call: the callee and the operand stack it found, top first. *)
Definition event : Type := Z * list val.

Record machine : Type := {
  stack : list val;
  locals : list val;
  st : store;
  trace : list event
}.

Inductive result : Type :=
| Normal (m : machine)
| Returned (m : machine)
| Trapped (m : machine).

(** The functions that can be called: given the operand stack and the
    store, a callee pops its arguments and pushes its results, or traps
    (or aborts the transaction, as [eosio_assert_code] may). *)
Definition host : Type := Z -> list val -> store -> option (list val * store).

Definition set_stack (m : machine) (s : list val) : machine :=
  {| stack := s; locals := locals m; st := st m; trace := trace m |}.
Definition push (v : val) (m : machine) : machine :=
  set_stack m (v :: stack m).

(** Little-endian reads and writes of [n] bytes. *)
Fixpoint load_bytes (n : nat) (mem : Z -> Z) (a : Z) : Z :=
  match n with
  | O => 0
  | S n' => mem a mod 256 + 256 * load_bytes n' mem (a + 1)
  end.

Fixpoint store_bytes (n : nat) (mem : Z -> Z) (a v : Z) : Z -> Z :=
  match n with
  | O => mem
  | S n' =>
      store_bytes n' (fun x => if x =? a then v mod 256 else mem x)
                  (a + 1) (v / 256)
  end.

Definition load (n : nat) (s : store) (a : Z) : option Z :=
  if (0 <=? a) && (a + Z.of_nat n <=? mem_size s)
  then Some (load_bytes n (memory s) a)
  else None.

Definition store_at (n : nat) (s : store) (a v : Z) : option store :=
  if (0 <=? a) && (a + Z.of_nat n <=? mem_size s)
  then Some {| globals := globals s;
               memory := store_bytes n (memory s) a v;
               mem_size := mem_size s |}
  else None.

Definition step (h : host) (o : op) (m : machine) : result :=
  match o, stack m with
  | Call f, s =>
      let m' := {| stack := s; locals := locals m; st := st m;
                   trace := trace m ++ [(f, s)] |} in
      match h f s (st m) with
      | Some (s', st') =>
          Normal {| stack := s'; locals := locals m; st := st';
                    trace := trace m' |}
      | None => Trapped m'
      end
  | LocalGet i, s =>
      match locals m !! Z.to_nat i with
      | Some v => Normal (push v m)
      | None => Trapped m
      end
  | LocalSet i, v :: s =>
      if (Z.to_nat i <? length (locals m))%nat
      then Normal {| stack := s; locals := <[Z.to_nat i := v]> (locals m);
                     st := st m; trace := trace m |}
      else Trapped m
  | GlobalGet i, s => Normal (push (globals (st m) i) m)
  | GlobalSet i, v :: s =>
      Normal {| stack := s; locals := locals m;
                st := {| globals := fun j => if j =? i then v
                                             else globals (st m) j;
                         memory := memory (st m);
                         mem_size := mem_size (st m) |};
                trace := trace m |}
  | I32Const z, s => Normal (push (I32 (u32 z)) m)
  | I64Const z, s => Normal (push (I64 (u64 z)) m)
  | I32Load _ off, I32 a :: s =>
      match load 4 (st m) (a + off) with
      | Some v => Normal (set_stack m (I32 v :: s))
      | None => Trapped m
      end
  | I64Load _ off, I32 a :: s =>
      match load 8 (st m) (a + off) with
      | Some v => Normal (set_stack m (I64 v :: s))
      | None => Trapped m
      end
  | I64Store _ off, I64 v :: I32 a :: s =>
      match store_at 8 (st m) (a + off) v with
      | Some st' => Normal {| stack := s; locals := locals m; st := st';
                              trace := trace m |}
      | None => Trapped m
      end
  | I32Add, I32 b :: I32 a :: s =>
      Normal (set_stack m (I32 (u32 (a + b)) :: s))
  | I64Eq, I64 b :: I64 a :: s =>
      Normal (set_stack m (I32 (if a =? b then 1 else 0) :: s))
  | I64Ne, I64 b :: I64 a :: s =>
      Normal (set_stack m (I32 (if a =? b then 0 else 1) :: s))
  | Return, _ => Returned m
  | _, _ => Trapped m
  end.

Fixpoint exec (h : host) (c : code) (m : machine) : result :=
  match c with
  | Done => Normal m
  | Seq o k =>
      match step h o m with
      | Normal m' => exec h k m'
      | r => r
      end
  | IfThen t k =>
      match stack m with
      | I32 c :: s =>
          if c =? 0 then exec h k (set_stack m s)
          else match exec h t (set_stack m s) with
               | Normal m' => exec h k m'
               | r => r
               end
      | _ => Trapped m
      end
  | IfThenElse t e k =>
      match stack m with
      | I32 c :: s =>
          match exec h (if c =? 0 then e else t) (set_stack m s) with
          | Normal m' => exec h k m'
          | r => r
          end
      | _ => Trapped m
      end
  end.

(** Code without a [return]. *)
Fixpoint returns_free (c : code) : bool :=
  match c with
  | Done => true
  | Seq Return _ => false
  | Seq _ k => returns_free k
  | IfThen t k => returns_free t && returns_free k
  | IfThenElse t e k => returns_free t && returns_free e && returns_free k
  end.

(** A function body is its local declarations, then its code, then the
    closing [end]; the value a function returns is the top of the stack
    when it returns or falls off its end. *)
Definition returns (r : result) (v : val) : Prop :=
  match r with
  | Normal m | Returned m => hd_error (stack m) = Some v
  | Trapped _ => False
  end.

(** The value handed back by an explicit [return], and the value left on
    top when the code runs off its end. *)
Definition returned_value (r : result) : option val :=
  match r with
  | Returned m => hd_error (stack m)
  | _ => None
  end.
Definition final_value (r : result) : option val :=
  match r with
  | Normal m => hd_error (stack m)
  | _ => None
  end.

Definition trace_of (r : result) : list event :=
  match r with
  | Normal m | Returned m | Trapped m => trace m
  end.

End Wasm.
Export Wasm.
#[global] Arguments load : simpl never.
#[global] Arguments store_at : simpl never.

(** ** The code the dispatchers are meant to be

    The nested form of what the two dispatchers write, against which the
    emitted bytes are read back. *)

(** The strings of a list in the order of their first occurrence. *)
Fixpoint first_occurrences (l : list string) : list string :=
  match l with
  | [] => []
  | x :: l' => x :: filter (fun y => y <> x) (first_occurrences l')
  end.

(** The flat stream of an if/else chain: the block of each element, every
    block but the first behind an [else]. *)
Fixpoint chain_tokens (blk : string -> list token) (need_else : bool)
    (l : list string) : list token :=
  match l with
  | [] => []
  | x :: l' =>
      (if need_else then [Else] else []) ++ blk x ++ chain_tokens blk true l'
  end.

Section Programs.

Variable string_to_name : string -> Z.
Variable to_hash_id : string -> Z.
Variable config : Configuration.
Variable symtab : SymbolTable.

(** The actions and sync calls of all object files, in iteration order. *)
Definition all_actions : list string :=
  concat (map getEosioActions (objectFiles symtab)).
Definition all_calls : list string :=
  concat (map getEosioCalls (objectFiles symtab)).

(** The function index written for the symbol [name]. *)
Definition index_of (name : string) : Z :=
  match find symtab name with
  | Some s => u32 (getFunctionIndex s)
  | None => 0
  end.
Definition global_index_of (name : string) : Z :=
  match find symtab name with
  | Some s => u32 (getGlobalIndex s)
  | None => 0
  end.

(** The 64-bit name an action string is tested against. *)
Definition action_name (str : string) : Z :=
  u64 (string_to_name (substr_to_colon str)).
Definition call_id (call_name : string) : Z :=
  u64 (to_hash_id (substr_to_colon call_name)).

(** [if (action == name) handler(receiver, code)], with what follows on a
    mismatch. *)
Definition action_block (str : string) (otherwise : code) : code :=
  seq [I64Const (to_int64 (string_to_name (substr_to_colon str)));
       LocalGet 2; I64Eq]
    (IfThenElse
       (seq [LocalGet 0; LocalGet 1;
             Call (index_of (substr_after_colon str))] Done)
       otherwise
       Done).

(** The tokens of the action block up to the [else]. *)
Definition action_tokens (str : string) : list token :=
  [Op (I64Const (to_int64 (string_to_name (substr_to_colon str))));
   Op (LocalGet 2); Op I64Eq; If;
   Op (LocalGet 0); Op (LocalGet 1);
   Op (Call (index_of (substr_after_colon str)))].

Fixpoint action_chain (acts : list string) (last : code) : code :=
  match acts with
  | [] => last
  | act :: acts' => action_block act (action_chain acts' last)
  end.

Definition post_dispatch_call (p : Symbol) : code :=
  seq [LocalGet 0; LocalGet 1; LocalGet 2; Call (u32 (getFunctionIndex p))]
      Done.

(** [if (receiver != "eosio") eosio_assert_code(0, EOSIO_ERROR_NO_ACTION)],
    with [post_dispatch] in the [else] when that symbol exists. *)
Definition no_action_code : code :=
  let complain :=
    seq [I32Const 0; I64Const EOSIO_ERROR_NO_ACTION;
         Call (index_of "eosio_assert_code")] Done in
  seq [LocalGet 0; I64Const (to_int64 (string_to_name "eosio")); I64Ne]
    match find symtab "post_dispatch" with
    | Some p => IfThenElse complain (post_dispatch_call p) Done
    | None => IfThen complain Done
    end.

Definition action_dispatch_code (acts : list string) : code :=
  action_chain acts no_action_code.

(** One sync call: fetch the data and its header, refuse a header version
    other than 0, compare the function name, call the target. *)
Definition call_block (call_name : string) (otherwise : code) : code :=
  seq [LocalGet 2; Call (index_of "__eos_get_sync_call_data_"); LocalSet 3;
       LocalGet 3; Call (index_of "__eos_get_sync_call_data_header_");
       LocalSet 4;
       LocalGet 4; I32Load 2 0]
    (IfThen
       (seq [I64Const SYNC_CALL_UNSUPPORTED_HEADER_VERSION; Return] Done)
       (seq [LocalGet 4; I32Const 8; I32Add; I64Load 3 0;
             I64Const (to_int64 (to_hash_id (substr_to_colon call_name)));
             I64Eq]
          (IfThenElse
             (seq [LocalGet 0; LocalGet 1; LocalGet 2; LocalGet 3;
                   Call (index_of (substr_after_colon call_name))] Done)
             otherwise
             Done))).

(** The tokens of the call block up to the [else]. *)
Definition call_tokens (call_name : string) : list token :=
  [Op (LocalGet 2); Op (Call (index_of "__eos_get_sync_call_data_"));
   Op (LocalSet 3);
   Op (LocalGet 3); Op (Call (index_of "__eos_get_sync_call_data_header_"));
   Op (LocalSet 4);
   Op (LocalGet 4); Op (I32Load 2 0);
   If; Op (I64Const SYNC_CALL_UNSUPPORTED_HEADER_VERSION); Op Return; End;
   Op (LocalGet 4); Op (I32Const 8); Op I32Add; Op (I64Load 3 0);
   Op (I64Const (to_int64 (to_hash_id (substr_to_colon call_name))));
   Op I64Eq; If;
   Op (LocalGet 0); Op (LocalGet 1); Op (LocalGet 2); Op (LocalGet 3);
   Op (Call (index_of (substr_after_colon call_name)))].

Fixpoint call_chain (calls : list string) (last : code) : code :=
  match calls with
  | [] => last
  | c :: calls' => call_block c (call_chain calls' last)
  end.

Definition call_dispatch_code (calls : list string) : code :=
  call_chain calls (seq [I64Const SYNC_CALL_UNKNOWN_FUNCTION; Return] Done).

(** The address constant of the canary code: [__data_end]'s index plus 8,
    written by [writeUleb128] and read as the signed operand of
    [i32.const]. *)
Definition canary_address : Z :=
  match find symtab "__data_end" with
  | Some desym => uleb_read_signed (u32 (getGlobalIndex desym + 8))
  | None => 0
  end.

Definition canary_prologue_code : code :=
  seq [Call (index_of "current_time");
       GlobalSet (global_index_of "__stack_canary");
       I32Const canary_address;
       GlobalGet (global_index_of "__stack_canary");
       I64Store 3 0] Done.

Definition canary_epilogue_code : code :=
  seq [GlobalGet (global_index_of "__stack_canary");
       I32Const canary_address;
       I64Load 3 0;
       I64Ne]
    (IfThen
       (seq [I32Const 0; I64Const EOSIO_CANARY_FAILURE;
             Call (index_of "eosio_assert_code")] Done)
       Done).

Definition finalize_code : code :=
  match find symtab "__cxa_finalize" with
  | Some dtors_sym =>
      let dtors_idx := getFunctionIndex dtors_sym in
      if negb (dtors_idx =? 0) && (dtors_idx <? numSymbols symtab)
      then seq [I32Const 0; Call (u32 dtors_idx)] Done
      else Done
  | None => Done
  end.

(** What runs in [sync_call] once the dispatch has fallen through. *)
Definition call_epilogue_code : code :=
  append (if stackCanary config then canary_epilogue_code else Done)
         finalize_code.

(** [sync_call] from the dispatch on: the dispatch, the epilogue, and the
    status the function ends with. *)
Definition sync_call_code (calls : list string) : code :=
  append (call_dispatch_code calls)
         (append call_epilogue_code
                 (Seq (I64Const SYNC_CALL_EXECUTED) Done)).

(** The calls of [__wasm_call_ctors] and [__cxa_finalize] in a dispatcher
    body: the first right behind the call of [eosio_set_contract_name] that
    opens the body, the second at the very end, before the closing [end]s.
    [guarded] adds the conditions the writer puts on the two function
    indices. *)
Definition calls_ctors_and_finalize (guarded : bool) (body : list Z) : Prop :=
  (forall s,
     find symtab "__wasm_call_ctors" = Some s ->
     (guarded = true -> getFunctionIndex s <> 0) ->
     exists start rest,
       body = encodeULEB128 0 ++ start ++ rest
       /\ Encodes start
            [Op (LocalGet 0); Op (Call (index_of "eosio_set_contract_name"));
             Op (Call (u32 (getFunctionIndex s)))])
  /\ (forall s,
        find symtab "__cxa_finalize" = Some s ->
        (guarded = true ->
         getFunctionIndex s <> 0 /\ getFunctionIndex s < numSymbols symtab) ->
        exists front finish,
          body = front ++ finish
          /\ Encodes finish
               ([Op (I32Const 0); Op (Call (u32 (getFunctionIndex s)))]
                ++ match find symtab "pre_dispatch" with
                   | Some _ => [End]
                   | None => []
                   end
                ++ [End])).

End Programs.

#[global] Arguments index_of : simpl never.
#[global] Arguments global_index_of : simpl never.
#[global] Arguments canary_address : simpl never.

(** ** The name encoding, and inputs to run the definitions on *)

(** Modelled from the spec: [eosio::cdt::string_to_name] of eosio/utils.hpp
    is not part of the sources at hand.  The spec gives the encoding: the
    alphabet [.12345abcdefghijklmnopqrstuvwxyz], five bits per character,
    up to twelve characters from the most significant bit down, and a
    thirteenth character in the low four bits. *)
Definition char_to_symbol (c : Ascii.ascii) : Z :=
  let n := Z.of_N (Ascii.N_of_ascii c) in
  if (97 <=? n) && (n <=? 122) then n - 97 + 6
  else if (49 <=? n) && (n <=? 53) then n - 49 + 1
  else 0.

Fixpoint string_to_name_from (i : nat) (s : string) : Z :=
  match s with
  | EmptyString => 0
  | String c s' =>
      if (i <? 12)%nat then
        Z.lor (Z.shiftl (Z.land (char_to_symbol c) 31)
                        (64 - 5 * (Z.of_nat i + 1)))
              (string_to_name_from (S i) s')
      else Z.land (char_to_symbol c) 15
  end.

Definition string_to_name_spec (s : string) : Z := string_to_name_from 0 s.

Module Examples.

Definition symbol (name : string) (index : Z) : Symbol :=
  {| getName := name; getFunctionIndex := index; getGlobalIndex := index;
     isLive := true; isDiscarded := false; signatureIsVoid := true |}.

Definition object (actions notify calls : list string) : ObjFile :=
  {| fileName := "contract.o"; getEosioABI := "";
     getEosioActions := actions; getEosioNotify := notify;
     getEosioCalls := calls; segments := []; InitFunctions := [];
     getFunctionSymbol := fun _ => symbol "" 0 |}.

(** A contract with the actions [hi] and [bye], the first declared in both
    of its object files, and the sync call [withdraw]. *)
Definition contract : SymbolTable :=
  {| getSymbols :=
       [symbol "eosio_set_contract_name" 1;
        symbol "eosio_assert_code" 2;
        symbol "current_time" 3;
        symbol "__eos_get_sync_call_data_" 4;
        symbol "__eos_get_sync_call_data_header_" 5;
        symbol "__wasm_call_ctors" 6;
        symbol "__cxa_finalize" 7;
        symbol "hi_handler" 8;
        symbol "bye_handler" 9;
        symbol "withdraw_handler" 10;
        symbol "__stack_canary" 1;
        symbol "__data_end" 8192];
     objectFiles :=
       [object ["hi:hi_handler"; "bye:bye_handler"] [] ["withdraw:withdraw_handler"];
        object ["hi:hi_handler"] [] []] |}.

(** A link in which [__wasm_call_ctors] is function 0, and the index of
    [__cxa_finalize] is beyond the number of symbols. *)
Definition guarded : SymbolTable :=
  {| getSymbols :=
       [symbol "eosio_set_contract_name" 1;
        symbol "eosio_assert_code" 2;
        symbol "__wasm_call_ctors" 0;
        symbol "__cxa_finalize" 100];
     objectFiles := [object [] [] []] |}.

(** A link in which only [eosio_set_contract_name] is known. *)
Definition bare : SymbolTable :=
  {| getSymbols := [symbol "eosio_set_contract_name" 1];
     objectFiles := [object [] [] []] |}.

(** A link in which [current_time] is function 128. *)
Definition late_clock : SymbolTable :=
  {| getSymbols :=
       [symbol "eosio_set_contract_name" 1;
        symbol "eosio_assert_code" 2;
        symbol "current_time" 128;
        symbol "__stack_canary" 1;
        symbol "__data_end" 8];
     objectFiles := [object [] [] []] |}.

Definition options (canary : bool) : Configuration :=
  {| isPic := false; mergeDataSegments := true; passiveSegments := false;
     relocatable := false; shared := false; sharedMemory := false;
     stackFirst := true; stackCanary := canary; globalBase := 1024;
     zStackSize := 8192; initialMemory := 0; maxMemory := 0;
     outputFile := "contract.wasm" |}.

(** A store of 64 KiB of zeroes, and a host whose every call traps. *)
Definition blank : store :=
  {| globals := fun _ => I64 0; memory := fun _ => 0; mem_size := 65536 |}.
Definition no_host : host := fun _ _ _ => None.

(** A stand-in for [to_hash_id]: FNV-1a on the characters. *)
Fixpoint fnv1a (s : string) (hash : Z) : Z :=
  match s with
  | EmptyString => hash
  | String c s' =>
      fnv1a s' (u64 (Z.lxor hash (Z.of_N (Ascii.N_of_ascii c))
                     * 1099511628211))
  end.
Definition hash_id (s : string) : Z := fnv1a s 14695981039346656037.

(** A runtime for [sync_call]: function 4 hands out the data at 1024,
    function 5 the header at 2048, with the given version and function
    name in it; the call target 10 takes its four arguments,
    [__cxa_finalize] (7) its one; every other call traps. *)
Definition header_store (version fname : Z) : store :=
  {| globals := fun _ => I64 0;
     memory := store_bytes 8 (store_bytes 4 (fun _ => 0) 2048 version)
                           2056 fname;
     mem_size := 65536 |}.
Definition runtime (version fname : Z) : host := fun f stk σ =>
  match f, stk with
  | 4, I32 _ :: s => Some (I32 1024 :: s, σ)
  | 5, I32 _ :: s => Some (I32 2048 :: s, header_store version fname)
  | 10, _ :: _ :: _ :: _ :: s => Some (s, σ)
  | 7, _ :: s => Some (s, σ)
  | _, _ => None
  end.

(** [sync_call(3, 5, 16)] about to run the dispatch. *)
Definition incoming_call : machine :=
  {| stack := [];
     locals := [I64 3; I64 5; I32 16; I32 0; I32 0];
     st := blank; trace := [] |}.

(** [apply(5, 5, 7)] about to run the action dispatch. *)
Definition unknown_action : machine :=
  {| stack := []; locals := [I64 5; I64 5; I64 7]; st := blank;
     trace := [] |}.

End Examples.

(** * The writer's tables: segments, init functions, memory, ABI *)

Definition stackAlignment : Z := 16.
Definition WasmPageSize : Z := 65536.
Definition WASM_SEGMENT_IS_PASSIVE : Z := 0x01.
Definition WASM_OPCODE_CALL : Z := 0x10.
Definition WASM_OPCODE_END : Z := 0x0b.

(** [llvm::alignTo(value, align)], on [uint64_t]:
    [(value + align - 1) / align * align]. *)
Definition alignTo (value align : Z) : Z :=
  u64 (u64 (value + align - 1) / align * align).

(** [s.empty()] and [name.startswith(p)]. *)
Definition empty (s : string) : bool :=
  match s with
  | EmptyString => true
  | String _ _ => false
  end.
Definition startswith (name p : string) : bool := String.prefix p name.

Module OutputSegment.

Record t : Type := make {
  name : string;
  index : nat;
  initFlags : Z;
  inputSegments : list InputSegment;
  alignment : Z;
  size : Z;
  startVA : Z
}.

(** Modelled from the spec: the constructor [OutputSegment(name, index)] of
    OutputSegment.h, which is not part of the sources at hand; a new segment
    is active, empty and of alignment 0. *)
Definition create (n : string) (i : nat) : t :=
  {| name := n; index := i; initFlags := 0; inputSegments := [];
     alignment := 0; size := 0; startVA := 0 |}.

(** Modelled from the spec: [addInputSegment] of OutputSegment.h; the
    alignment is the maximum of the inputs, the input is put at the aligned
    end of the segment. *)
Definition addInputSegment (s : t) (inSeg : InputSegment) : t :=
  {| name := name s; index := index s; initFlags := initFlags s;
     inputSegments := inputSegments s ++ [inSeg];
     alignment := Z.max (alignment s) (segAlignment inSeg);
     size := u32 (u32 (alignTo (size s)
                         (u64 (Z.shiftl 1 (segAlignment inSeg))))
                  + segSize inSeg);
     startVA := startVA s |}.

Definition set_initFlags (s : t) (flags : Z) : t :=
  {| name := name s; index := index s; initFlags := flags;
     inputSegments := inputSegments s; alignment := alignment s;
     size := size s; startVA := startVA s |}.

Definition set_startVA (s : t) (va : Z) : t :=
  {| name := name s; index := index s; initFlags := initFlags s;
     inputSegments := inputSegments s; alignment := alignment s;
     size := size s; startVA := va |}.

End OutputSegment.

(** [struct WasmInitEntry]. *)
Record WasmInitEntry : Type := {
  sym : Symbol;
  priority : Z
}.

(** The static members of [WasmSym] the writer uses; [None] is the null
    pointer.  Of a data symbol the virtual address is kept, of a global the
    value of its init expression. *)
Module WasmSym.

Record t : Type := make {
  callCtors : option Symbol;
  initMemory : option Symbol;
  applyRelocs : option Symbol;
  globalBase : option Z;
  dsoHandle : option Z;
  dataEnd : option Z;
  heapBase : option Z;
  stackPointer : option Z;
  tlsSize : option Z
}.

(** [if (p) p->setVirtualAddress(va)]. *)
Definition setVirtualAddress (p : option Z) (va : Z) : option Z :=
  match p with
  | Some _ => Some va
  | None => None
  end.

Definition set_globalBase (s : t) (va : Z) : t :=
  make (callCtors s) (initMemory s) (applyRelocs s)
    (setVirtualAddress (globalBase s) va) (dsoHandle s) (dataEnd s)
    (heapBase s) (stackPointer s) (tlsSize s).
Definition set_dsoHandle (s : t) (va : Z) : t :=
  make (callCtors s) (initMemory s) (applyRelocs s) (globalBase s)
    (setVirtualAddress (dsoHandle s) va) (dataEnd s) (heapBase s)
    (stackPointer s) (tlsSize s).
Definition set_dataEnd (s : t) (va : Z) : t :=
  make (callCtors s) (initMemory s) (applyRelocs s) (globalBase s)
    (dsoHandle s) (setVirtualAddress (dataEnd s) va) (heapBase s)
    (stackPointer s) (tlsSize s).
Definition set_heapBase (s : t) (va : Z) : t :=
  make (callCtors s) (initMemory s) (applyRelocs s) (globalBase s)
    (dsoHandle s) (dataEnd s) (setVirtualAddress (heapBase s) va)
    (stackPointer s) (tlsSize s).
Definition set_stackPointer (s : t) (v : Z) : t :=
  make (callCtors s) (initMemory s) (applyRelocs s) (globalBase s)
    (dsoHandle s) (dataEnd s) (heapBase s) (Some v) (tlsSize s).
Definition set_tlsSize (s : t) (v : Z) : t :=
  make (callCtors s) (initMemory s) (applyRelocs s) (globalBase s)
    (dsoHandle s) (dataEnd s) (heapBase s) (stackPointer s) (Some v).

End WasmSym.

(** The members of [Writer] the functions below use.  [segmentMap] holds, for
    a name, the position in [segments] of the segment its pointer points
    to. *)
Module Writer.

Record t : Type := make {
  abis : list string;
  segments : list OutputSegment.t;
  segmentMap : gmap string nat;
  initFunctions : list WasmInitEntry
}.

Definition initial : t := make [] [] ∅ [].

End Writer.

(** [out.dylinkSec] and [out.memorySec]. *)
Module Out.

Record t : Type := make {
  memAlign : Z;
  memSize : Z;
  numMemoryPages : Z;
  maxMemoryPages : Z
}.

End Out.

(** What a link is made of besides its configuration and its symbol table:
    the writer, the [WasmSym] statics, the output sections, the errors
    reported so far with [error()] and the files written. *)
Record Linker : Type := {
  writer : Writer.t;
  wasmSym : WasmSym.t;
  out : Out.t;
  errors : list string;
  files : gmap string string
}.

Definition set_writer (l : Linker) (w : Writer.t) : Linker :=
  {| writer := w; wasmSym := wasmSym l; out := out l; errors := errors l;
     files := files l |}.
Definition set_wasmSym (l : Linker) (s : WasmSym.t) : Linker :=
  {| writer := writer l; wasmSym := s; out := out l; errors := errors l;
     files := files l |}.
Definition set_out (l : Linker) (o : Out.t) : Linker :=
  {| writer := writer l; wasmSym := wasmSym l; out := o; errors := errors l;
     files := files l |}.
Definition set_files (l : Linker) (f : gmap string string) : Linker :=
  {| writer := writer l; wasmSym := wasmSym l; out := out l;
     errors := errors l; files := f |}.

(** [error(msg)]: the message is reported and the link goes on. *)
Definition error (l : Linker) (msg : string) : Linker :=
  {| writer := writer l; wasmSym := wasmSym l; out := out l;
     errors := errors l ++ [msg]; files := files l |}.

(** [Twine(n)]: the number in decimal. *)
Definition Twine (n : Z) : string :=
  DecimalString.NilZero.string_of_int (Z.to_int n).

(** [llvm::stable_sort(range, less)], by its contract (a sorted
    rearrangement in which elements that [less] does not order keep their
    places relative to each other), as an insertion sort. *)
Fixpoint insert_sorted {A} (less : A -> A -> bool) (x : A) (l : list A)
    : list A :=
  match l with
  | [] => [x]
  | y :: l' => if less y x then y :: insert_sorted less x l' else x :: l
  end.
Definition stable_sort {A} (less : A -> A -> bool) (l : list A) : list A :=
  foldr (insert_sorted less) [] l.

Section Writer_functions.

Variable config : Configuration.
Variable symtab : SymbolTable.

(** ** getOutputDataSegmentName and Writer::createOutputSegments *)

Definition getOutputDataSegmentName (name : string) : string :=
  if isPic config then ".data"
  else if startswith name ".tdata" || startswith name ".tbss" then ".tdata"
  else if negb (mergeDataSegments config) then name
  else if startswith name ".text." then ".text"
  else if startswith name ".data." then ".data"
  else if startswith name ".bss." then ".bss"
  else if startswith name ".rodata." then ".rodata"
  else name.

(** The body of the loop over the segments of a file. *)
Definition placeInputSegment (w : Writer.t) (segment : InputSegment)
    : Writer.t :=
  if negb (live segment) then w
  else
    let name := getOutputDataSegmentName (segName segment) in
    match Writer.segmentMap w !! name with
    | None =>
        let s := OutputSegment.create name (length (Writer.segments w)) in
        let s :=
          if passiveSegments config || String.eqb name ".tdata"
          then OutputSegment.set_initFlags s WASM_SEGMENT_IS_PASSIVE
          else s in
        Writer.make (Writer.abis w)
          (Writer.segments w ++ [OutputSegment.addInputSegment s segment])
          (<[name := length (Writer.segments w)]> (Writer.segmentMap w))
          (Writer.initFunctions w)
    | Some i =>
        Writer.make (Writer.abis w)
          (alter (fun s => OutputSegment.addInputSegment s segment) i
                 (Writer.segments w))
          (Writer.segmentMap w) (Writer.initFunctions w)
    end.

(** The body of the loop over the object files. *)
Definition placeObjFile (w : Writer.t) (file : ObjFile) : Writer.t :=
  let w :=
    if negb (empty (getEosioABI file))
    then Writer.make (Writer.abis w ++ [getEosioABI file])
           (Writer.segments w) (Writer.segmentMap w) (Writer.initFunctions w)
    else w in
  foldl placeInputSegment w (segments file).

Definition createOutputSegments (w : Writer.t) : Writer.t :=
  foldl placeObjFile w (objectFiles symtab).

(** ** Writer::calculateInitFunctions and Writer::createCallCtorsFunction *)

(** The body of the loop over the init functions of a file; a failed
    [assert] stops the program unless [NDEBUG] compiled it out. *)
Definition addInitFunction (NDEBUG : bool) (file : ObjFile)
    (f : WasmInitFunc) (l : Linker) : outcome Linker :=
  let sym := getFunctionSymbol file (initSymbol f) in
  if isDiscarded sym then mret l
  else
    (if NDEBUG || isLive sym then mret tt
     else fatal "Assertion `sym->isLive()' failed.");;
    let l :=
      if negb (signatureIsVoid sym)
      then error l ("invalid signature for init func: " +:+ getName sym)
      else l in
    let w := writer l in
    mret (set_writer l
            (Writer.make (Writer.abis w) (Writer.segments w)
               (Writer.segmentMap w)
               (Writer.initFunctions w
                ++ [{| sym := sym; priority := Priority f |}]))).

(** The comparison handed to [llvm::stable_sort]. *)
Definition lower_priority (l r : WasmInitEntry) : bool :=
  priority l <? priority r.

Definition calculateInitFunctions (NDEBUG : bool) (l : Linker)
    : outcome Linker :=
  skip ← (if relocatable config then mret false
          else live ← deref (WasmSym.callCtors (wasmSym l)) isLive;
               mret (negb live));
  if skip : bool then mret l
  else
    l ← for_each
          (fun file l => for_each (addInitFunction NDEBUG file)
                           (InitFunctions file) l)
          (objectFiles symtab) l;
    let w := writer l in
    mret (set_writer l
            (Writer.make (Writer.abis w) (Writer.segments w)
               (Writer.segmentMap w)
               (stable_sort lower_priority (Writer.initFunctions w)))).

(** [bodyContent] of [createCallCtorsFunction]. *)
Definition callCtors_bodyContent (l : Linker) : outcome unit :=
  writeUleb128 0;;
  when (passiveSegments config)
    (writeU8 WASM_OPCODE_CALL;;
     idx ← deref (WasmSym.initMemory (wasmSym l)) getFunctionIndex;
     writeUleb128 idx);;
  when (isPic config)
    (writeU8 WASM_OPCODE_CALL;;
     idx ← deref (WasmSym.applyRelocs (wasmSym l)) getFunctionIndex;
     writeUleb128 idx);;
  for_each
    (fun f _ => writeU8 WASM_OPCODE_CALL;;
                writeUleb128 (getFunctionIndex (sym f)))
    (Writer.initFunctions (writer l)) tt;;
  writeU8 WASM_OPCODE_END.

(** [createCallCtorsFunction]; the stream of the outcome is the body
    installed in [WasmSym::callCtors], empty when none is. *)
Definition createCallCtorsFunction (l : Linker) : outcome unit :=
  live ← deref (WasmSym.callCtors (wasmSym l)) isLive;
  if negb live then mret tt
  else
    match callCtors_bodyContent l with
    | Ok _ bodyContent => Ok tt (createFunction bodyContent)
    | other => other
    end.

(** ** Writer::layoutMemory *)

(** The lambda [placeStack]; [memoryPtr], which it captures by reference, is
    passed in and handed back. *)
Definition placeStack (memoryPtr : Z) (l : Linker) : outcome (Z * Linker) :=
  if relocatable config || isPic config then mret (memoryPtr, l)
  else
    let memoryPtr := u32 (alignTo memoryPtr stackAlignment) in
    let l :=
      if negb (zStackSize config =? alignTo (zStackSize config) stackAlignment)
      then error l ("stack size must be " +:+ Twine stackAlignment
                    +:+ "-byte aligned")
      else l in
    let memoryPtr := u32 (memoryPtr + zStackSize config) in
    match WasmSym.stackPointer (wasmSym l) with
    | Some _ =>
        mret (memoryPtr,
              set_wasmSym l (WasmSym.set_stackPointer (wasmSym l) memoryPtr))
    | None => NullDeref
    end.

(** The loop over [segments]: every segment gets its start address, and the
    segments behind it are laid out after it. *)
Fixpoint layoutSegments (segs : list OutputSegment.t) (memoryPtr : Z)
    (l : Linker) : list OutputSegment.t * Z * Linker :=
  match segs with
  | [] => ([], memoryPtr, l)
  | seg :: rest =>
      let o := out l in
      let l :=
        set_out l
          (Out.make (Z.max (Out.memAlign o) (OutputSegment.alignment seg))
             (Out.memSize o) (Out.numMemoryPages o) (Out.maxMemoryPages o)) in
      let memoryPtr :=
        u32 (alignTo memoryPtr
               (u64 (Z.shiftl 1 (OutputSegment.alignment seg)))) in
      let seg' := OutputSegment.set_startVA seg memoryPtr in
      let memoryPtr := u32 (memoryPtr + OutputSegment.size seg) in
      let l :=
        if bool_decide (is_Some (WasmSym.tlsSize (wasmSym l)))
           && String.eqb (OutputSegment.name seg) ".tdata"
        then set_wasmSym l
               (WasmSym.set_tlsSize (wasmSym l) (OutputSegment.size seg))
        else l in
      let '(rest', memoryPtr, l) := layoutSegments rest memoryPtr l in
      (seg' :: rest', memoryPtr, l)
  end.

Definition set_memSize (l : Linker) (memoryPtr : Z) : Linker :=
  let o := out l in
  set_out l
    (Out.make (Out.memAlign o) memoryPtr (Out.numMemoryPages o)
       (Out.maxMemoryPages o)).

Definition layoutMemory (l : Linker) : outcome Linker :=
  let memoryPtr := 0 in
  '(memoryPtr, l) ← (if stackFirst config then placeStack memoryPtr l
                     else mret (u32 (globalBase config), l));
  let l :=
    set_wasmSym l (WasmSym.set_globalBase (wasmSym l) (globalBase config)) in
  let dataStart := memoryPtr in
  let l := set_wasmSym l (WasmSym.set_dsoHandle (wasmSym l) dataStart) in
  let o := out l in
  let l :=
    set_out l
      (Out.make 0 (Out.memSize o) (Out.numMemoryPages o)
         (Out.maxMemoryPages o)) in
  let '(segs, memoryPtr, l) :=
    layoutSegments (Writer.segments (writer l)) memoryPtr l in
  let w := writer l in
  let l :=
    set_writer l
      (Writer.make (Writer.abis w) segs (Writer.segmentMap w)
         (Writer.initFunctions w)) in
  let l := set_wasmSym l (WasmSym.set_dataEnd (wasmSym l) memoryPtr) in
  if shared config then mret (set_memSize l memoryPtr)
  else
    '(memoryPtr, l) ← (if negb (stackFirst config)
                       then placeStack memoryPtr l
                       else mret (memoryPtr, l));
    let l := set_wasmSym l (WasmSym.set_heapBase (wasmSym l) memoryPtr) in
    let '(memoryPtr, l) :=
      if negb (initialMemory config =? 0) then
        let l :=
          if negb (initialMemory config
                   =? alignTo (initialMemory config) WasmPageSize)
          then error l ("initial memory must be " +:+ Twine WasmPageSize
                        +:+ "-byte aligned")
          else l in
        if initialMemory config <? memoryPtr
        then (memoryPtr,
              error l ("initial memory too small, " +:+ Twine memoryPtr
                       +:+ " bytes needed"))
        else (initialMemory config, l)
      else (memoryPtr, l) in
    let l := set_memSize l memoryPtr in
    let o := out l in
    let l :=
      set_out l
        (Out.make (Out.memAlign o) (Out.memSize o)
           (alignTo memoryPtr WasmPageSize / WasmPageSize)
           (Out.maxMemoryPages o)) in
    let l :=
      if negb (maxMemory config =? 0) || sharedMemory config then
        let l :=
          if negb (maxMemory config
                   =? alignTo (maxMemory config) WasmPageSize)
          then error l ("maximum memory must be " +:+ Twine WasmPageSize
                        +:+ "-byte aligned")
          else l in
        let l :=
          if maxMemory config <? memoryPtr
          then error l ("maximum memory too small, " +:+ Twine memoryPtr
                        +:+ " bytes needed")
          else l in
        let o := out l in
        set_out l
          (Out.make (Out.memAlign o) (Out.memSize o) (Out.numMemoryPages o)
             (maxMemory config / WasmPageSize))
      else l in
    mret l.

End Writer_functions.

(** ** Writer::writeABI *)

(** What the [try] block of [writeABI] can catch. *)
Inductive exception : Type :=
| runtime_error (what : string)
| json_exception.

(** A computation that returns or throws. *)
Definition try (A : Type) : Type := exception + A.
#[global] Instance try_ret : MRet try := fun A a => inr a.
#[global] Instance try_bind : MBind try := fun A B f m =>
  match m with
  | inl e => inl e
  | inr a => f a
  end.

Section ABI.

(** The JSON library, the ABI merger and the file system are used through
    their interfaces only: a parser, the merger's constructor, [merge],
    [set_abi] and [get_abi_string], [replace_extension], and whether
    [FileOutputBuffer::create] and [commit] fail, and with what message, at a
    path. *)
Variables ojson ABIMerger : Type.
Variable parse : string -> try ojson.
Variable new_ABIMerger : ojson -> try ABIMerger.
Variable merge : ABIMerger -> ojson -> try ojson.
Variable set_abi : ABIMerger -> ojson -> ABIMerger.
Variable get_abi_string : ABIMerger -> string.
Variable replace_extension : string -> string -> string.
Variable create_error : string -> option string.
Variable commit_error : string -> option string.

Variable config : Configuration.

(** [for (const auto& abi : abis) merger.set_abi(merger.merge(parse(abi)))]. *)
Fixpoint merge_abis (merger : ABIMerger) (abis : list string)
    : try ABIMerger :=
  match abis with
  | [] => mret merger
  | abi :: rest =>
      j ← parse abi;
      merged ← merge merger j;
      merge_abis (set_abi merger merged) rest
  end.

(** The merger at the end of the loop; [abis] is not empty here. *)
Definition merged_abis (abis : list string) : try ABIMerger :=
  seed ← parse (List.last abis EmptyString);
  merger ← new_ABIMerger seed;
  merge_abis merger abis.

Definition writeABI (l : Linker) : outcome Linker :=
  let abis := Writer.abis (writer l) in
  if bool_decide (abis = []) then mret l
  else
    match merged_abis abis with
    | inr merger =>
        let path := replace_extension (outputFile config) ".abi" in
        match create_error path with
        | Some e =>
            mret (error l ("failed to open " +:+ outputFile config
                           +:+ ": " +:+ e))
        | None =>
            match commit_error path with
            | Some e => fatal ("failed to write the output file: " +:+ e)
            | None =>
                mret (set_files l
                        (<[path := get_abi_string merger]> (files l)))
            end
        end
    | inl (runtime_error what) => fatal ("failed to write abi: " +:+ what)
    | inl json_exception => mret l
    end.

(** [folded merger abis merger']: every ABI of the list, in its order, was
    parsed and merged into what [merger] held, and the result set as the new
    content; [merger'] is what is left at the end. *)
Inductive folded : ABIMerger -> list string -> ABIMerger -> Prop :=
| folded_nil merger : folded merger [] merger
| folded_cons merger abi j merged rest merger' :
    parse abi = inr j ->
    merge merger j = inr merged ->
    folded (set_abi merger merged) rest merger' ->
    folded merger (abi :: rest) merger'.

(** A merger seeded with the last ABI of the list and then fed the list. *)
Definition seeded_and_folded (abis : list string) (merger : ABIMerger)
    : Prop :=
  exists seed j merger0,
    last abis = Some seed
    /\ parse seed = inr j
    /\ new_ABIMerger j = inr merger0
    /\ folded merger0 abis merger.

End ABI.

Arguments merge_abis {ojson ABIMerger}.
Arguments merged_abis {ojson ABIMerger}.
Arguments writeABI {ojson ABIMerger}.
Arguments folded {ojson ABIMerger}.
Arguments seeded_and_folded {ojson ABIMerger}.

(** ** What the tables are expected to hold *)

(** A name that begins with [p]. *)
Definition begins_with (name p : string) : Prop :=
  exists rest, name = p +:+ rest.

(** The ABIs of the object files, in the order of the files, the empty ones
    left out. *)
Definition collected_abis (symtab : SymbolTable) : list string :=
  List.filter (fun abi => negb (empty abi))
    (map getEosioABI (objectFiles symtab)).

(** A live input segment is placed when an output segment of its output name
    lists it. *)
Definition placed (config : Configuration) (w : Writer.t)
    (segment : InputSegment) : Prop :=
  exists s,
    s ∈ Writer.segments w
    /\ OutputSegment.name s
       = getOutputDataSegmentName config (segName segment)
    /\ segment ∈ OutputSegment.inputSegments s.

(** The init functions in the order of their discovery: file by file, the
    list of each file in its order, the discarded ones left out. *)
Definition discovered (symtab : SymbolTable) : list WasmInitEntry :=
  file ← objectFiles symtab;
  f ← InitFunctions file;
  let sym := getFunctionSymbol file (initSymbol f) in
  if isDiscarded sym then [] else [{| sym := sym; priority := Priority f |}].

Definition ascending (fs : list WasmInitEntry) : Prop :=
  forall i j a b,
    fs !! i = Some a -> fs !! j = Some b -> (i < j)%nat ->
    priority a <= priority b.

(** The entries of one priority, in the order they have in the list. *)
Definition of_priority (p : Z) (fs : list WasmInitEntry)
    : list WasmInitEntry :=
  List.filter (fun f => priority f =? p) fs.

(** The code of [__wasm_call_ctors]. *)
Definition static_index (s : option Symbol) : Z :=
  match s with
  | Some s => u32 (getFunctionIndex s)
  | None => 0
  end.
Definition call_ctors_tokens (config : Configuration) (s : WasmSym.t)
    (fs : list WasmInitEntry) : list token :=
  (if passiveSegments config
   then [Op (Call (static_index (WasmSym.initMemory s)))] else [])
  ++ (if isPic config
      then [Op (Call (static_index (WasmSym.applyRelocs s)))] else [])
  ++ map (fun f => Op (Call (u32 (getFunctionIndex (sym f))))) fs
  ++ [End].

(** The bounds on [__heap_base], with [stack] bytes between it and
    [__data_end]. *)
Definition heap_base_bounds (config : Configuration) (stack : Z)
    (l : Linker) : Prop :=
  forall heap_base data_end,
    WasmSym.heapBase (wasmSym l) = Some heap_base ->
    WasmSym.dataEnd (wasmSym l) = Some data_end ->
    data_end + stack <= heap_base
    /\ (initialMemory config <> 0 -> heap_base <= initialMemory config).

(** What [createOutputSegments] keeps true of the writer. *)
Definition flags_as_required (config : Configuration)
    (s : OutputSegment.t) : Prop :=
  (OutputSegment.initFlags s = WASM_SEGMENT_IS_PASSIVE
   <-> passiveSegments config = true \/ OutputSegment.name s = ".tdata")
  /\ (OutputSegment.initFlags s = WASM_SEGMENT_IS_PASSIVE
      \/ OutputSegment.initFlags s = 0).

Definition segments_consistent (config : Configuration) (w : Writer.t)
    : Prop :=
  (forall n i,
     Writer.segmentMap w !! n = Some i ->
     exists s, Writer.segments w !! i = Some s /\ OutputSegment.name s = n)
  /\ (forall i s,
        Writer.segments w !! i = Some s ->
        Writer.segmentMap w !! OutputSegment.name s = Some i
        /\ OutputSegment.index s = i
        /\ flags_as_required config s
        /\ forall segment,
             segment ∈ OutputSegment.inputSegments s ->
             live segment = true
             /\ getOutputDataSegmentName config (segName segment)
                = OutputSegment.name s).

(** ** Links to run the functions on *)

Module Links.

Definition segment (name : string) (alive : bool) (align size : Z)
    : InputSegment :=
  {| segName := name; live := alive; segAlignment := align;
     segSize := size |}.

Definition init (index : nat) (p : Z) : WasmInitFunc :=
  {| initSymbol := index; Priority := p |}.

(** Function [i] of an object file; number 13 was discarded. *)
Definition function (i : nat) : Symbol :=
  {| getName := "ctor"; getFunctionIndex := Z.of_nat i;
     getGlobalIndex := 0; isLive := true;
     isDiscarded := Nat.eqb i 13; signatureIsVoid := true |}.

Definition a_o : ObjFile :=
  {| fileName := "a.o"; getEosioABI := "{a}"; getEosioActions := [];
     getEosioNotify := []; getEosioCalls := [];
     segments := [segment ".data.counter" true 2 12;
                  segment ".tbss.slot" true 3 8;
                  segment ".rodata.unused" false 0 5];
     InitFunctions := [init 20 65535; init 21 101];
     getFunctionSymbol := function |}.

Definition b_o : ObjFile :=
  {| fileName := "b.o"; getEosioABI := EmptyString; getEosioActions := [];
     getEosioNotify := []; getEosioCalls := [];
     segments := [segment ".data.table" true 4 100];
     InitFunctions := [init 13 1; init 22 101];
     getFunctionSymbol := function |}.

Definition c_o : ObjFile :=
  {| fileName := "c.o"; getEosioABI := "{c}"; getEosioActions := [];
     getEosioNotify := []; getEosioCalls := [];
     segments := []; InitFunctions := [];
     getFunctionSymbol := function |}.

Definition objects : SymbolTable :=
  {| getSymbols := []; objectFiles := [a_o; b_o; c_o] |}.

Definition statics : WasmSym.t :=
  WasmSym.make (Some (Examples.symbol "__wasm_call_ctors" 6))
    (Some (Examples.symbol "__wasm_init_memory" 11))
    (Some (Examples.symbol "__wasm_apply_relocs" 12))
    (Some 0) (Some 0) (Some 0) (Some 0) (Some 0) (Some 0).

Definition fresh : Linker :=
  {| writer := Writer.initial; wasmSym := statics;
     out := Out.make 0 0 0 0; errors := []; files := ∅ |}.

(** Two pages of memory, the stack behind the data. *)
Definition two_pages : Configuration :=
  {| isPic := false; mergeDataSegments := true; passiveSegments := false;
     relocatable := false; shared := false; sharedMemory := false;
     stackFirst := false; stackCanary := false; globalBase := 1024;
     zStackSize := 8192; initialMemory := 131072; maxMemory := 0;
     outputFile := "contract.wasm" |}.

(** A position-independent executable with a stack of one page. *)
Definition pie : Configuration :=
  {| isPic := true; mergeDataSegments := true; passiveSegments := false;
     relocatable := false; shared := false; sharedMemory := false;
     stackFirst := false; stackCanary := false; globalBase := 1024;
     zStackSize := 65536; initialMemory := 0; maxMemory := 0;
     outputFile := "contract.wasm" |}.

(** The example files, placed in output segments and about to be laid
    out. *)
Definition placed_objects : Linker :=
  set_writer fresh (createOutputSegments two_pages objects Writer.initial).

(** A merger that keeps the text of what it was given: [merge] puts the new
    ABI behind the held one, and nothing fails. *)
Definition parse (abi : string) : try string := inr abi.
Definition new_ABIMerger (j : string) : try string := inr j.
Definition merge (held j : string) : try string := inr (held +:+ j).
Definition set_abi (held merged : string) : string := merged.
Definition get_abi_string (held : string) : string := held.
Definition replace_extension (path ext : string) : string :=
  match String.index 0 "." path with
  | Some i => String.substring 0 i path +:+ ext
  | None => path +:+ ext
  end.
Definition no_error (path : string) : option string := None.

End Links.

(** The live input segments of a link, in the order the object files and
    their segment lists have them. *)
Definition live_segments (symtab : SymbolTable) : list InputSegment :=
  List.filter live (concat (map segments (objectFiles symtab))).

(** Whether an input segment goes to the output segment called [name]. *)
Definition goes_to (config : Configuration) (name : string)
    (segment : InputSegment) : bool :=
  String.eqb (getOutputDataSegmentName config (segName segment)) name.

(** [createOutputSegments] seen from its result: the output names in the
    order they first occur, each with the inputs it collects. *)
Definition segments_in_order (config : Configuration) (w : Writer.t)
    (placed_so_far : list InputSegment) : Prop :=
  map OutputSegment.name (Writer.segments w)
  = first_occurrences
      (map (fun segment => getOutputDataSegmentName config (segName segment))
         (List.filter live placed_so_far))
  /\ forall s,
       s ∈ Writer.segments w ->
       OutputSegment.inputSegments s
       = List.filter (goes_to config (OutputSegment.name s))
           (List.filter live placed_so_far).

(** ** What the memory layout is expected to be *)

(** The stack is placed unless the link is relocatable or PIC. *)
Definition stack_is_placed (config : Configuration) : bool :=
  negb (relocatable config || isPic config).

(** Where the data starts: behind the stack when the stack comes first, else
    at the global base. *)
Definition data_start (config : Configuration) : Z :=
  if stackFirst config then
    if stack_is_placed config
    then u32 (u32 (alignTo 0 stackAlignment) + zStackSize config)
    else 0
  else u32 (globalBase config).

(** The segments from [from] to [to]: each starts at the first address at or
    behind the end of the one before that its alignment allows. *)
Fixpoint laid_out (from : Z) (segs : list OutputSegment.t) (to : Z) : Prop :=
  match segs with
  | [] => from = to
  | seg :: rest =>
      from <= OutputSegment.startVA seg
      /\ OutputSegment.startVA seg < from + 2 ^ OutputSegment.alignment seg
      /\ OutputSegment.startVA seg mod 2 ^ OutputSegment.alignment seg = 0
      /\ laid_out (OutputSegment.startVA seg + OutputSegment.size seg) rest to
  end.

(** The end of the data when no address wraps around 32 bits. *)
Fixpoint unbounded_data_end (from : Z) (segs : list OutputSegment.t) : Z :=
  match segs with
  | [] => from
  | seg :: rest =>
      unbounded_data_end
        ((from + 2 ^ OutputSegment.alignment seg - 1)
           / 2 ^ OutputSegment.alignment seg * 2 ^ OutputSegment.alignment seg
         + OutputSegment.size seg)
        rest
  end.

(** A segment with a size and an alignment the loop can work with. *)
Definition sized (seg : OutputSegment.t) : Prop :=
  0 <= OutputSegment.size seg /\ 0 <= OutputSegment.alignment seg < 32.

(** The same segment but for its start address. *)
Definition same_but_startVA (a b : OutputSegment.t) : Prop :=
  OutputSegment.set_startVA a 0 = OutputSegment.set_startVA b 0.

(** The errors [calculateInitFunctions] reports: one for each discovered
    init function whose signature is not [() -> ()]. *)
Definition invalid_signature_errors (fs : list WasmInitEntry) : list string :=
  map (fun f => "invalid signature for init func: " +:+ getName (sym f))
    (List.filter (fun f => negb (signatureIsVoid (sym f))) fs).

(** The link but for its init functions and its errors. *)
Definition same_but_init_functions (l l' : Linker) : Prop :=
  Writer.abis (writer l') = Writer.abis (writer l)
  /\ Writer.segments (writer l') = Writer.segments (writer l)
  /\ Writer.segmentMap (writer l') = Writer.segmentMap (writer l)
  /\ wasmSym l' = wasmSym l /\ out l' = out l /\ files l' = files l.

(** A link with an init function of the wrong signature. *)
Module Reports.

(** Function [i] of the object file; number 30 takes an argument. *)
Definition function (i : nat) : Symbol :=
  {| getName := if Nat.eqb i 30 then "with_argument" else "ctor";
     getFunctionIndex := Z.of_nat i;
     getGlobalIndex := 0; isLive := true;
     isDiscarded := Nat.eqb i 13; signatureIsVoid := negb (Nat.eqb i 30) |}.

Definition d_o : ObjFile :=
  {| fileName := "d.o"; getEosioABI := EmptyString; getEosioActions := [];
     getEosioNotify := []; getEosioCalls := [];
     segments := [];
     InitFunctions := [Links.init 30 200; Links.init 13 1; Links.init 31 100];
     getFunctionSymbol := function |}.

Definition objects : SymbolTable :=
  {| getSymbols := []; objectFiles := [d_o] |}.

End Reports.

(** Hosts and calls to run the dispatchers on. *)
Module Runs.

(** A host whose functions take two operands and hand back nothing. *)
Definition handlers : host := fun f stk σ =>
  match stk with
  | _ :: _ :: s => Some (s, σ)
  | _ => None
  end.

(** [apply(5, 5, "bye")] about to run the action dispatch. *)
Definition bye : machine :=
  {| stack := [];
     locals := [I64 5; I64 5; I64 (u64 (string_to_name_spec "bye"))];
     st := Examples.blank; trace := [] |}.

End Runs.

(** ** The part of Writer::run that writes [sync_call] *)

(** The loop of [run] that looks for a file with sync calls. *)
Definition hasCalls (symtab : SymbolTable) : bool :=
  existsb (fun File => match getEosioCalls File with
                       | [] => false
                       | _ => true
                       end) (objectFiles symtab).

(** [if (hasCalls && symtab->syncCallEntryIsUndefined)
    createCallDispatchFunction();] *)
Definition run_sync_call (to_hash_id : string -> Z) (config : Configuration)
    (symtab : SymbolTable) (syncCallEntryIsUndefined : bool) : outcome unit :=
  if hasCalls symtab && syncCallEntryIsUndefined
  then createCallDispatchFunction to_hash_id config symtab
  else mret tt.

(** The target of a sync call is a symbol whose function index is below the
    number of symbols. *)
Definition target_in_bounds (symtab : SymbolTable) (call_name : string)
    : bool :=
  match find symtab (substr_after_colon call_name) with
  | Some func_sym => getFunctionIndex func_sym <? numSymbols symtab
  | None => false
  end.

(** What a function throws, if it throws. *)
Definition throws_only {A} (P : string -> Prop) (m : outcome A) : Prop :=
  match m with
  | Throw msg => P msg
  | _ => True
  end.

(** The complaints of the sync-call [create_if]. *)
Definition sync_call_complaints : list string :=
  ["wasm_ld internal error: __eos_get_sync_call_data_ not found";
   "wasm_ld internal error: __eos_get_sync_call_data_header_ not found";
   "wasm_ld internal error sync call function index out of bound";
   "wasm_ld internal error sync call function not found"].

(** Links with sync calls that cannot be dispatched. *)
Module Calls.

(** The second call names a handler that is no symbol. *)
Definition dangling : SymbolTable :=
  {| getSymbols :=
       [Examples.symbol "eosio_set_contract_name" 0;
        Examples.symbol "__eos_get_sync_call_data_" 1;
        Examples.symbol "__eos_get_sync_call_data_header_" 2;
        Examples.symbol "deposit_handler" 3];
     objectFiles :=
       [Examples.object [] [] ["deposit:deposit_handler"];
        Examples.object [] []
          ["deposit:deposit_handler"; "withdraw:withdraw_handler"]] |}.

End Calls.

(** ** The notification handlers *)

(** The notification strings of all object files, in iteration order. *)
Definition all_notify (symtab : SymbolTable) : list string :=
  concat (map getEosioNotify (objectFiles symtab)).

(** [idx + 2] of the registration loop, for [idx = snotif.find(":")]. *)
Definition notify_pos (notif : string) : nat :=
  match find_colon notif with
  | Some idx => idx + 2
  | None => 1
  end.

(** [snotif.substr(idx + 2)] is out of range. *)
Definition malformed_notify (notif : string) : bool :=
  (String.length notif <? notify_pos notif)%nat.

(** [snotif.substr(idx + 2)] when it is in range. *)
Definition notify_rest (notif : string) : string :=
  String.substring (notify_pos notif)
    (String.length notif - notify_pos notif) notif.

(** [notify_handlers[code_name].push_back(rest)]. *)
Definition push_notify (notify_handlers : list (string * list string))
    (notif : string) : list (string * list string) :=
  map_push (substr_to_colon notif) (notify_rest notif) notify_handlers.


Section Notify_programs.

Variable string_to_name : string -> Z.
Variable symtab : SymbolTable.

(** The handlers as the registration loop leaves them: the first
    occurrences of the notification strings, pushed in that order. *)
Definition registered_handlers : list (string * list string) :=
  foldl push_notify [] (first_occurrences (all_notify symtab)).

(** Some notification string is [eosio::onerror:...]. *)
Definition handles_onerror (notif : string) : bool :=
  String.eqb (substr_to_colon notif) "eosio"
  && String.eqb (substr_to_colon (notify_rest notif)) "onerror".

(** [if (code == "eosio") if (action == "onerror")
      eosio_assert_code(0, EOSIO_ERROR_ONERROR)]. *)
Definition onerror_guard_code : code :=
  seq [I64Const (to_int64 (string_to_name "eosio")); LocalGet 1; I64Eq]
    (IfThen
       (seq [I64Const (to_int64 (string_to_name "onerror")); LocalGet 2;
             I64Eq]
          (IfThen
             (seq [I32Const 0; I64Const EOSIO_ERROR_ONERROR;
                   Call (u32 (assert_idx symtab))] Done)
             Done))
       Done).

(** What is written for one code name: the test of the code, the chain of
    its handlers, and one [end] for each handler. *)
Definition code_name_tokens (notif0 : string * list string) : list token :=
  [Op (I64Const (to_int64 (string_to_name (fst notif0))));
   Op (LocalGet 1); Op I64Eq; If]
  ++ chain_tokens (action_tokens string_to_name symtab) false (snd notif0)
  ++ replicate (length (snd notif0)) End.

Fixpoint code_names_tokens (need_else : bool)
    (notify_handlers : list (string * list string)) : list token :=
  match notify_handlers with
  | [] => []
  | notif0 :: rest =>
      if String.eqb (fst notif0) "*" then code_names_tokens need_else rest
      else (if need_else then [Else] else [])
           ++ code_name_tokens notif0 ++ code_names_tokens true rest
  end.

(** The code names other than [*]. *)
Definition concrete_code_names
    (notify_handlers : list (string * list string)) : list string :=
  List.filter (fun code_name => negb (String.eqb code_name "*"))
    (map fst notify_handlers).

(** What [create_notify_dispatch] writes behind the guard. *)
Definition notify_dispatch_tokens
    (notify_handlers : list (string * list string)) : list token :=
  code_names_tokens false notify_handlers
  ++ (match concrete_code_names notify_handlers with
      | [] => []
      | _ => [Else]
      end)
  ++ chain_tokens (action_tokens string_to_name symtab) false
       (map_at "*" notify_handlers)
  ++ match find symtab "post_dispatch" with
     | Some p => Else :: flatten (post_dispatch_call p) ++ [End]
     | None => []
     end
  ++ replicate (length (map_at "*" notify_handlers)) End.

End Notify_programs.



(** A contract that listens to the transfers and issues of [token] and to
    the transfers of [bank]; [token::transfer] is declared in both of its
    object files. *)
Module Notifications.

Definition listener : SymbolTable :=
  {| getSymbols :=
       [Examples.symbol "eosio_set_contract_name" 1;
        Examples.symbol "eosio_assert_code" 2;
        Examples.symbol "on_transfer" 3;
        Examples.symbol "on_issue" 4;
        Examples.symbol "on_bank_transfer" 5;
        Examples.symbol "__cxa_finalize" 0];
     objectFiles :=
       [Examples.object [] ["token::transfer:on_transfer";
                            "token::issue:on_issue"] [];
        Examples.object [] ["token::transfer:on_transfer";
                            "bank::transfer:on_bank_transfer"] []] |}.

(** The notification of [eosio]'s [onerror] to the account 5. *)
Definition onerror : machine :=
  {| stack := [];
     locals := [I64 5; I64 (u64 (string_to_name_spec "eosio"));
                I64 (u64 (string_to_name_spec "onerror"))];
     st := Examples.blank; trace := [] |}.

End Notifications.

(** A value registered under a key. *)
Definition registered (k v : string) (m : list (string * list string))
    : Prop :=
  exists e, e ∈ m /\ fst e = k /\ v ∈ snd e.


(** ** Writer::populateTargetFeatures *)

Module TargetFeatures.

(** Modelled from llvm/BinaryFormat/Wasm.h, which is not part of the
    sources at hand: the three policy prefixes are the characters [+], [=]
    and [-]. *)
Definition WASM_FEATURE_PREFIX_USED : Z := 43.
Definition WASM_FEATURE_PREFIX_REQUIRED : Z := 61.
Definition WASM_FEATURE_PREFIX_DISALLOWED : Z := 45.

(** One entry of an object file's target features section. *)
Record WasmFeatureEntry : Type := {
  Prefix : Z;
  Name : string
}.

(** [StringMap<std::string>]: [insert] leaves an entry that is there,
    [count] tells if a key is there, [m[k]] of a missing key is the empty
    string, and [keys()] come in an order of the map's own. *)
Definition insert (k v : string) (m : gmap string string)
    : gmap string string :=
  match m !! k with
  | Some _ => m
  | None => <[k := v]> m
  end.
Definition count (k : string) (m : gmap string string) : bool :=
  bool_decide (is_Some (m !! k)).
Definition at_key (k : string) (m : gmap string string) : string :=
  default EmptyString (m !! k).
Definition keys (m : gmap string string) : list string :=
  map fst (map_to_list m).

(** The three maps from a feature to the first file that names it. *)
Record policies : Type := {
  used : gmap string string;
  required : gmap string string;
  disallowed : gmap string string
}.

Section Populate.

Variable config : Configuration.
Variable symtab : SymbolTable.
(** [config->features] and [config->checkFeatures], and the target features
    section of an object file. *)
Variable features : option (list string).
Variable checkFeatures : bool.
Variable getTargetFeatures : ObjFile -> list WasmFeatureEntry.

(** The body of the loop over a file's features (the [switch]). *)
Definition scan_feature (fileName : string) (st : policies * Linker)
    (feature : WasmFeatureEntry) : policies * Linker :=
  let '(p, l) := st in
  if Prefix feature =? WASM_FEATURE_PREFIX_USED then
    ({| used := insert (Name feature) fileName (used p);
        required := required p; disallowed := disallowed p |}, l)
  else if Prefix feature =? WASM_FEATURE_PREFIX_REQUIRED then
    ({| used := insert (Name feature) fileName (used p);
        required := insert (Name feature) fileName (required p);
        disallowed := disallowed p |}, l)
  else if Prefix feature =? WASM_FEATURE_PREFIX_DISALLOWED then
    ({| used := used p; required := required p;
        disallowed := insert (Name feature) fileName (disallowed p) |}, l)
  else
    (p, error l ("Unrecognized feature policy prefix "
                 +:+ Twine (Prefix feature))).

(** A live segment of thread-local data. *)
Definition tls_segment (segment : InputSegment) : bool :=
  live segment
  && (startswith (segName segment) ".tdata"
      || startswith (segName segment) ".tbss").

(** The body of the first loop over the object files. *)
Definition scan_file (st : policies * bool * Linker) (file : ObjFile)
    : policies * bool * Linker :=
  let '(p, tlsUsed, l) := st in
  let '(p', l') :=
    foldl (scan_feature (fileName file)) (p, l) (getTargetFeatures file) in
  (p', tlsUsed || existsb tls_segment (segments file), l').

(** The body of the last loop over the object files. *)
Definition check_feature (p : policies) (fileName : string)
    (st : gset string * Linker) (feature : WasmFeatureEntry)
    : gset string * Linker :=
  let '(objectFeatures, l) := st in
  if Prefix feature =? WASM_FEATURE_PREFIX_DISALLOWED then st
  else
    ({[Name feature]} ∪ objectFeatures,
     if count (Name feature) (disallowed p)
     then error l ("Target feature '" +:+ Name feature +:+ "' used in "
                   +:+ fileName +:+ " is disallowed by "
                   +:+ at_key (Name feature) (disallowed p)
                   +:+ ". Use --no-check-features to suppress.")
     else l).

Definition check_required (p : policies) (fileName : string)
    (objectFeatures : gset string) (l : Linker) (feature : string) : Linker :=
  if bool_decide (feature ∈ objectFeatures) then l
  else error l ("Missing target feature '" +:+ feature +:+ "' in "
                +:+ fileName +:+ ", required by "
                +:+ at_key feature (required p)
                +:+ ". Use --no-check-features to suppress.").

Definition check_file (p : policies) (l : Linker) (file : ObjFile) : Linker :=
  let '(objectFeatures, l') :=
    foldl (check_feature p (fileName file)) (∅, l) (getTargetFeatures file) in
  foldl (check_required p (fileName file) objectFeatures) l'
    (keys (required p)).

(** The loop that validates the used features against the given ones. *)
Definition check_allowed (p : policies) (out_features : gset string)
    (l : Linker) (feature : string) : Linker :=
  if bool_decide (feature ∈ out_features) then l
  else error l ("Target feature '" +:+ feature +:+ "' used by "
                +:+ at_key feature (used p) +:+ " is not allowed.").

(** [populateTargetFeatures]; the first argument and the first result are
    [out.targetFeaturesSec->features]. *)
Definition populateTargetFeatures (out_features : gset string) (l : Linker)
    : gset string * Linker :=
  let inferFeatures := negb (bool_decide (is_Some features)) in
  let out_features :=
    match features with
    | Some fs => list_to_set fs ∪ out_features
    | None => out_features
    end in
  if negb inferFeatures && negb checkFeatures then (out_features, l)
  else
    let '(p, tlsUsed, l) :=
      foldl scan_file
        ({| used := ∅; required := ∅; disallowed := ∅ |}, false, l)
        (objectFiles symtab) in
    let out_features :=
      if inferFeatures then list_to_set (keys (used p)) ∪ out_features
      else out_features in
    let l :=
      if bool_decide ("atomics" ∈ out_features) && negb (sharedMemory config)
      then
        if inferFeatures
        then error l ("'atomics' feature is used by "
                      +:+ at_key "atomics" (used p)
                      +:+ ", so --shared-memory must be used")
        else error l "'atomics' feature is used, so --shared-memory must be used"
      else l in
    if negb checkFeatures then (out_features, l)
    else
      let l :=
        if count "atomics" (disallowed p) && sharedMemory config
        then error l ("'atomics' feature is disallowed by "
                      +:+ at_key "atomics" (disallowed p)
                      +:+ ", so --shared-memory must not be used")
        else l in
      let l :=
        if negb (count "bulk-memory" (used p)) && passiveSegments config
        then error l "'bulk-memory' feature must be used in order to emit passive segments"
        else l in
      let l :=
        if negb (count "bulk-memory" (used p)) && tlsUsed
        then error l "'bulk-memory' feature must be used in order to use thread-local storage"
        else l in
      let l :=
        if negb inferFeatures
        then foldl (check_allowed p out_features) l (keys (used p))
        else l in
      (out_features, foldl (check_file p) l (objectFiles symtab)).

End Populate.

End TargetFeatures.

(** Two object files and their target features: both use [bulk-memory],
    the first requires [mutable-globals], which the second uses, and the
    second disallows [atomics]. *)
Module Toolchains.

Import TargetFeatures.

Definition a_o : ObjFile :=
  {| fileName := "a.o"; getEosioABI := EmptyString; getEosioActions := [];
     getEosioNotify := []; getEosioCalls := [];
     segments := [Links.segment ".tbss.slot" true 3 8];
     InitFunctions := []; getFunctionSymbol := Links.function |}.

Definition b_o : ObjFile :=
  {| fileName := "b.o"; getEosioABI := EmptyString; getEosioActions := [];
     getEosioNotify := []; getEosioCalls := [];
     segments := [Links.segment ".data.table" true 4 100];
     InitFunctions := []; getFunctionSymbol := Links.function |}.

Definition objects : SymbolTable :=
  {| getSymbols := []; objectFiles := [a_o; b_o] |}.

Definition used_by (name : string) : WasmFeatureEntry :=
  {| Prefix := WASM_FEATURE_PREFIX_USED; Name := name |}.
Definition required_by (name : string) : WasmFeatureEntry :=
  {| Prefix := WASM_FEATURE_PREFIX_REQUIRED; Name := name |}.
Definition disallowed_by (name : string) : WasmFeatureEntry :=
  {| Prefix := WASM_FEATURE_PREFIX_DISALLOWED; Name := name |}.

Definition getTargetFeatures (file : ObjFile) : list WasmFeatureEntry :=
  if String.eqb (fileName file) "a.o"
  then [used_by "bulk-memory"; required_by "mutable-globals"]
  else [used_by "mutable-globals"; disallowed_by "atomics";
        used_by "bulk-memory"].

(** The same files, the second without [mutable-globals]. *)
Definition getTargetFeatures_without (file : ObjFile)
    : list WasmFeatureEntry :=
  if String.eqb (fileName file) "a.o"
  then [used_by "bulk-memory"; required_by "mutable-globals"]
  else [disallowed_by "atomics"; used_by "bulk-memory"].

End Toolchains.

Section Target_feature_facts.

Import TargetFeatures.

Variable getTargetFeatures : ObjFile -> list WasmFeatureEntry.

(** An entry of the list names the feature with the policy prefix. *)
Definition named (prefix : Z) (feature : string)
    (entries : list WasmFeatureEntry) : Prop :=
  exists e, e ∈ entries /\ Name e = feature /\ Prefix e = prefix.

(** The feature is used ([+]) or required ([=]), required, disallowed
    ([-]) by the entries. *)
Definition feature_used (feature : string) (entries : list WasmFeatureEntry)
    : Prop :=
  named WASM_FEATURE_PREFIX_USED feature entries
  \/ named WASM_FEATURE_PREFIX_REQUIRED feature entries.
Definition feature_required (feature : string)
    (entries : list WasmFeatureEntry) : Prop :=
  named WASM_FEATURE_PREFIX_REQUIRED feature entries.
Definition feature_disallowed (feature : string)
    (entries : list WasmFeatureEntry) : Prop :=
  named WASM_FEATURE_PREFIX_DISALLOWED feature entries.

(** The feature is in a file's entries under a prefix other than [-]. *)
Definition feature_present (feature : string)
    (entries : list WasmFeatureEntry) : Prop :=
  exists e, e ∈ entries /\ Name e = feature
            /\ Prefix e <> WASM_FEATURE_PREFIX_DISALLOWED.

Definition recognized (e : WasmFeatureEntry) : Prop :=
  Prefix e = WASM_FEATURE_PREFIX_USED
  \/ Prefix e = WASM_FEATURE_PREFIX_REQUIRED
  \/ Prefix e = WASM_FEATURE_PREFIX_DISALLOWED.

(** The entries of all object files. *)
Definition all_features (symtab : SymbolTable) : list WasmFeatureEntry :=
  concat (map getTargetFeatures (objectFiles symtab)).

(** Some live segment of some file is thread-local data. *)
Definition tls_used (symtab : SymbolTable) : bool :=
  existsb (fun file => existsb tls_segment (segments file))
    (objectFiles symtab).

(** The maps hold the features the entries name. *)
Definition policies_of (p : policies) (entries : list WasmFeatureEntry)
    : Prop :=
  (forall f, is_Some (used p !! f) <-> feature_used f entries)
  /\ (forall f, is_Some (required p !! f) <-> feature_required f entries)
  /\ (forall f, is_Some (disallowed p !! f) <-> feature_disallowed f entries).

(** The link but for its errors. *)
Definition same_but_errors (l l' : Linker) : Prop :=
  writer l' = writer l /\ wasmSym l' = wasmSym l /\ out l' = out l
  /\ files l' = files l.

(** [l'] is [l] with the errors [es] added. *)
Definition reports (l l' : Linker) (es : list string) : Prop :=
  same_but_errors l l' /\ errors l' = errors l ++ es.

End Target_feature_facts.

(** The alignment of the memory and the size of the thread-local data as
    the loop of [layoutMemory] leaves them. *)
Definition memAlign_of (segs : list OutputSegment.t) : Z :=
  foldl (fun a seg => Z.max a (OutputSegment.alignment seg)) 0 segs.

Definition tlsSize_after (tlsSize : option Z) (segs : list OutputSegment.t)
    : option Z :=
  foldl (fun ts seg =>
           if bool_decide (is_Some ts)
              && String.eqb (OutputSegment.name seg) ".tdata"
           then Some (OutputSegment.size seg) else ts)
    tlsSize segs.

(** The first statement of [Writer::run]:
    [if (config->relocatable || config->isPic) config->globalBase = 0;]. *)
Definition run_globalBase (config : Configuration) : Configuration :=
  if relocatable config || isPic config
  then {| isPic := isPic config;
          mergeDataSegments := mergeDataSegments config;
          passiveSegments := passiveSegments config;
          relocatable := relocatable config;
          shared := shared config;
          sharedMemory := sharedMemory config;
          stackFirst := stackFirst config;
          stackCanary := stackCanary config;
          globalBase := 0;
          zStackSize := zStackSize config;
          initialMemory := initialMemory config;
          maxMemory := maxMemory config;
          outputFile := outputFile config |}
  else config.

(** ** The custom sections that are copied *)

Module CustomSections.

(** A custom section of an object file: its name and its content. *)
Record InputSection : Type := {
  getName : string;
  Content : list Z
}.

Section Calculate.

(** [config->stripDebug], [config->stripAll] and [file->customSections]. *)
Variable stripDebug stripAll : bool.
Variable customSections : ObjFile -> list InputSection.

(** [customSectionMapping[name].push_back(section)]: [operator[]] makes an
    empty vector for a name that has none. *)
Definition push_back (name : string) (section : InputSection)
    (m : gmap string (list InputSection)) : gmap string (list InputSection) :=
  <[name := default [] (m !! name) ++ [section]]> m.

(** The body of the inner loop of [calculateCustomSections]. *)
Definition placeSection (strip : bool)
    (m : gmap string (list InputSection)) (section : InputSection)
    : gmap string (list InputSection) :=
  let name := getName section in
  if String.eqb name "linking" || String.eqb name "name"
     || String.eqb name "producers" || String.eqb name "target_features"
     || startswith name "reloc."
  then m
  else if strip && startswith name ".debug_"
  then m
  else push_back name section m.

Definition calculateCustomSections (symtab : SymbolTable)
    (customSectionMapping : gmap string (list InputSection))
    : gmap string (list InputSection) :=
  let strip := stripDebug || stripAll in
  foldl (fun m file => foldl (placeSection strip) m (customSections file))
    customSectionMapping (objectFiles symtab).

End Calculate.

End CustomSections.

(** The custom sections of the object files, in the order of the files and,
    in a file, of its sections. *)
Definition input_custom_sections
    (customSections : ObjFile -> list CustomSections.InputSection)
    (symtab : SymbolTable) : list CustomSections.InputSection :=
  concat (map customSections (objectFiles symtab)).

(** The names of the sections the linker makes itself. *)
Definition synthesized (name : string) : Prop :=
  name = "linking" \/ name = "name" \/ name = "producers"
  \/ name = "target_features" \/ begins_with name "reloc.".

Definition named_sections (name : string)
    (secs : list CustomSections.InputSection)
    : list CustomSections.InputSection :=
  List.filter (fun s => String.eqb (CustomSections.getName s) name) secs.

Module Objects.

Definition a_o : ObjFile :=
  {| fileName := "a.o"; getEosioABI := EmptyString; getEosioActions := [];
     getEosioNotify := []; getEosioCalls := []; segments := [];
     InitFunctions := [];
     getFunctionSymbol := fun _ => Examples.symbol "f" 0 |}.
Definition b_o : ObjFile :=
  {| fileName := "b.o"; getEosioABI := EmptyString; getEosioActions := [];
     getEosioNotify := []; getEosioCalls := []; segments := [];
     InitFunctions := [];
     getFunctionSymbol := fun _ => Examples.symbol "f" 0 |}.
Definition objects : SymbolTable :=
  {| getSymbols := []; objectFiles := [a_o; b_o] |}.

Definition section (name : string) (byte : Z)
    : CustomSections.InputSection :=
  {| CustomSections.getName := name; CustomSections.Content := [byte] |}.

Definition customSections (file : ObjFile)
    : list CustomSections.InputSection :=
  if String.eqb (fileName file) "a.o"
  then [section ".debug_info" 1; section "notes" 2; section "name" 3;
        section "reloc.CODE" 4]
  else [section "notes" 5; section "producers" 6; section ".debug_info" 7].

End Objects.

(** ** The output sections *)

Module Sections.

(** [llvm/BinaryFormat/Wasm.h]. *)
Definition WASM_SEC_CUSTOM : Z := 0.
Definition WASM_SEC_CODE : Z := 10.
Definition WASM_SEC_DATA : Z := 11.
Definition WasmMagic : list Z := [0; 97; 115; 109].
Definition WasmVersion : Z := 1.

(** An [OutputSection] as the writer sees it: its type and name, where it
    was put ([sectionIndex], [UINT32_MAX] until it is added, and [offset])
    and what its virtual functions [isNeeded], [getNumRelocations] and
    [getSize] answer. *)
Record OutputSection : Type := {
  type : Z;
  name : string;
  sectionIndex : Z;
  offset : Z;
  isNeeded : bool;
  getNumRelocations : Z;
  getSize : Z
}.

Definition set_sectionIndex (sec : OutputSection) (i : Z) : OutputSection :=
  {| type := type sec; name := name sec; sectionIndex := i;
     offset := offset sec; isNeeded := isNeeded sec;
     getNumRelocations := getNumRelocations sec; getSize := getSize sec |}.

(** [sec->setOffset(newOffset)]. *)
Definition setOffset (sec : OutputSection) (newOffset : Z) : OutputSection :=
  {| type := type sec; name := name sec; sectionIndex := sectionIndex sec;
     offset := newOffset; isNeeded := isNeeded sec;
     getNumRelocations := getNumRelocations sec; getSize := getSize sec |}.

(** The members of [Writer] that hold the layout of the file. *)
Record t : Type := make {
  fileSize : Z;
  header : list Z;
  outputSections : list OutputSection
}.

(** A new [Writer]. *)
Definition initial : t := make 0 [] [].

Definition addSection (sec : OutputSection) (w : t) : t :=
  if negb (isNeeded sec) then w
  else
    let sec := set_sectionIndex sec
                 (u32 (Z.of_nat (length (outputSections w)))) in
    make (fileSize w) (header w) (outputSections w ++ [sec]).

Section Layout.

(** [make<RelocSection>(name, sec)] and [s->finalizeContents()]. *)
Variable RelocSection : string -> OutputSection -> OutputSection.
Variable finalizeContents : OutputSection -> OutputSection.

(** The loop of [createRelocSections], at [i] with [n] rounds to go; [None]
    is [llvm_unreachable]. *)
Fixpoint createRelocSections_from (n i : nat) (w : t) : option t :=
  match n with
  | O => Some w
  | S n =>
      sec ← outputSections w !! i;
      let count := u32 (getNumRelocations sec) in
      if count =? 0 then createRelocSections_from n (S i) w
      else
        name ←
          (if type sec =? WASM_SEC_DATA then Some "reloc.DATA"
           else if type sec =? WASM_SEC_CODE then Some "reloc.CODE"
           else if type sec =? WASM_SEC_CUSTOM
           then Some ("reloc." +:+ name sec)
           else None);
        createRelocSections_from n (S i)
          (addSection (RelocSection name sec) w)
  end.

Definition createRelocSections (w : t) : option t :=
  let origSize := length (outputSections w) in
  createRelocSections_from origSize 0 w.

(** [writeU32(os, number, msg)]: four bytes, the lowest first. *)
Definition writeU32 (number : Z) : list Z :=
  [u8 number; u8 (number / 2 ^ 8); u8 (number / 2 ^ 16);
   u8 (number / 2 ^ 24)].

Definition createHeader (w : t) : t :=
  let header := header w ++ WasmMagic ++ writeU32 WasmVersion in
  make (u64 (fileSize w + Z.of_nat (length header))) header
    (outputSections w).

(** One round of the loop of [finalizeSections]. *)
Definition finalizeSection (st : list OutputSection * Z)
    (s : OutputSection) : list OutputSection * Z :=
  let '(done, fileSize) := st in
  let s := finalizeContents (setOffset s fileSize) in
  (done ++ [s], u64 (fileSize + getSize s)).

Definition finalizeSections (w : t) : t :=
  let '(sections, fileSize) :=
    foldl finalizeSection ([], fileSize w) (outputSections w) in
  make fileSize (header w) sections.

End Layout.

End Sections.

(** [addSection] called on each section of [secs] in turn, as [addSections]
    and [createCustomSections] do. *)
Definition addSection_each (secs : list Sections.OutputSection)
    (w : Sections.t) : Sections.t :=
  foldl (fun w sec => Sections.addSection sec w) w secs.

(** The relocation sections of [secs], one for each section that has
    relocations. *)
Definition reloc_name (sec : Sections.OutputSection) : option string :=
  if Sections.type sec =? Sections.WASM_SEC_DATA then Some "reloc.DATA"
  else if Sections.type sec =? Sections.WASM_SEC_CODE then Some "reloc.CODE"
  else if Sections.type sec =? Sections.WASM_SEC_CUSTOM
  then Some ("reloc." +:+ Sections.name sec)
  else None.

Definition has_relocations (sec : Sections.OutputSection) : bool :=
  negb (u32 (Sections.getNumRelocations sec) =? 0).

Definition reloc_sections
    (RelocSection : string -> Sections.OutputSection -> Sections.OutputSection)
    (secs : list Sections.OutputSection) : list Sections.OutputSection :=
  omap (fun sec => if has_relocations sec
                   then (fun n => RelocSection n sec) <$> reloc_name sec
                   else None) secs.

(** Two sections that differ in their [sectionIndex] at most. *)
Definition same_but_sectionIndex (a b : Sections.OutputSection) : Prop :=
  b = Sections.set_sectionIndex a (Sections.sectionIndex b).

(** The sizes of sections, added up. *)
Definition total_size (secs : list Sections.OutputSection) : Z :=
  foldr (fun s n => Sections.getSize s + n) 0 secs.

(** The sections of [l] are needed ones and stand, from [from] on, each at
    the place its [sectionIndex] says. *)
Definition placed_at (from : nat) (l : list Sections.OutputSection) : Prop :=
  forall i s, l !! i = Some s ->
    Sections.sectionIndex s = u32 (Z.of_nat (from + i))
    /\ Sections.isNeeded s = true.

(** A section that has relocations and is of no type that can have any. *)
Definition stray (sec : Sections.OutputSection) : Prop :=
  has_relocations sec = true /\ reloc_name sec = None.

(** [s'] is [s] finalized at the offset it has. *)
Definition finalized
    (finalizeContents : Sections.OutputSection -> Sections.OutputSection)
    (s s' : Sections.OutputSection) : Prop :=
  s' = finalizeContents (Sections.setOffset s (Sections.offset s')).

Module Files.

Import Sections.

Definition section (type : Z) (name : string) (needed : bool)
    (relocations size : Z) : OutputSection :=
  {| type := type; name := name; sectionIndex := UINT32_MAX; offset := 0;
     isNeeded := needed; getNumRelocations := relocations;
     getSize := size |}.

Definition RelocSection (name : string) (sec : OutputSection)
    : OutputSection :=
  section WASM_SEC_CUSTOM name (0 <? getNumRelocations sec) 0
    (3 + getNumRelocations sec).

Definition finalizeContents (sec : OutputSection) : OutputSection := sec.

Definition type_sec : OutputSection := section 1 "TYPE" true 0 10.
Definition event_sec : OutputSection := section 13 "EVENT" false 0 0.
Definition code_sec : OutputSection := section 10 "CODE" true 2 100.
Definition data_sec : OutputSection := section 11 "DATA" true 0 30.
Definition name_sec : OutputSection := section 0 "name" true 0 20.

End Files.

(** ** Reading and running an installed function body

    What [createFunction] installs is the size of the body, the
    declarations of the locals and the instructions up to the [end] that
    closes the function.  [read_function] reads that back, [parse_function]
    nests the blocks of the instructions, and [call_function] runs the
    result on the machine above, from the state a call enters the function
    in. *)



(** An installed body: its size, which has to be the number of bytes that
    follow, then the local groups and the instructions. *)
Definition read_function (body : list Z)
    : option (list (Z * Z) * list token) :=
  '(size, content) ← decodeULEB128 body;
  if size =? Z.of_nat (length content) then decode_body content else None.



(** ** The exports *)

Module Exports.

(** [llvm/BinaryFormat/Wasm.h] and [functionTableName]. *)
Definition WASM_EXTERNAL_FUNCTION : Z := 0.
Definition WASM_EXTERNAL_TABLE : Z := 1.
Definition WASM_EXTERNAL_MEMORY : Z := 2.
Definition WASM_EXTERNAL_GLOBAL : Z := 3.
Definition WASM_EXTERNAL_EVENT : Z := 4.
Definition functionTableName : string := "__indirect_function_table".

Record WasmExport : Type := {
  Name : string;
  Kind : Z;
  Index : Z
}.

(** What the casts of [calculateExports] find a symbol to be:
    [dyn_cast<DefinedFunction>], [dyn_cast<DefinedGlobal>] (with
    [getGlobalType()->Mutable]), [dyn_cast<DefinedEvent>], and
    [cast<DefinedData>], which is not defined on anything else. *)
Inductive defined_as : Type :=
  | AsDefinedFunction
  | AsDefinedGlobal (Mutable : bool)
  | AsDefinedEvent
  | AsDefinedData
  | AsOther.

(** What [calculateExports] asks a symbol besides its name, its indices and
    [isLive()]; the last is [g == WasmSym::stackPointer ||
    g == WasmSym::tlsBase]. *)
Record asked : Type := {
  isDefined : bool;
  isHidden : bool;
  isLocal : bool;
  cast : defined_as;
  getEventIndex : Z;
  isStackPointerOrTlsBase : bool
}.

(** How [calculateExports] ends: it returns; or, in a build with
    assertions, an [assert] fails (that of line 549, or the one inside
    [llvm::cast]); or, in a build without them ([NDEBUG]), [cast] is used on
    what it is not defined on. *)
Inductive ending (A : Type) : Type :=
| Returns (a : A)
| AssertionFailed (what : string)
| Undefined.
Arguments Returns {A} a.
Arguments AssertionFailed {A} what.
Arguments Undefined {A}.

(** [out.exportSec->exports] and [out.globalSec->definedFakeGlobals]. *)
Record t : Type := make {
  exports : list WasmExport;
  definedFakeGlobals : list Symbol
}.

Definition push_back (e : WasmExport) (o : t) : t :=
  make (exports o ++ [e]) (definedFakeGlobals o).

Section Calculate.

Variable NDEBUG : bool.
Variable config : Configuration.
Variable symtab : SymbolTable.
(** [config->exportAll], [config->importMemory], [config->exportTable]. *)
Variable exportAll importMemory exportTable : bool.
Variable ask : Symbol -> asked.
(** [out.importSec->getNumImportedGlobals()] and
    [out.globalSec->inputGlobals.size()]. *)
Variable getNumImportedGlobals numInputGlobals : Z.

(** The body of the loop over the symbols. *)
Definition exportSymbol (st : t * Z) (sym : Symbol) : ending (t * Z) :=
  let '(o, fakeGlobalIndex) := st in
  if negb (isDefined (ask sym)) then Returns st
  else if isHidden (ask sym) && negb exportAll then Returns st
  else if isLocal (ask sym) then Returns st
  else if negb (isLive sym) then Returns st
  else
    let name := getName sym in
    match cast (ask sym) with
    | AsDefinedFunction =>
        Returns (push_back {| Name := name; Kind := WASM_EXTERNAL_FUNCTION;
                              Index := getFunctionIndex sym |} o,
                 fakeGlobalIndex)
    | AsDefinedGlobal Mutable =>
        if Mutable then
          if NDEBUG || isStackPointerOrTlsBase (ask sym) then Returns st
          else AssertionFailed
                 "g == WasmSym::stackPointer || g == WasmSym::tlsBase"
        else
          Returns (push_back {| Name := name; Kind := WASM_EXTERNAL_GLOBAL;
                                Index := getGlobalIndex sym |} o,
                   fakeGlobalIndex)
    | AsDefinedEvent =>
        Returns (push_back {| Name := name; Kind := WASM_EXTERNAL_EVENT;
                              Index := getEventIndex (ask sym) |} o,
                 fakeGlobalIndex)
    | AsDefinedData =>
        let o := make (exports o) (definedFakeGlobals o ++ [sym]) in
        Returns (push_back {| Name := name; Kind := WASM_EXTERNAL_GLOBAL;
                              Index := fakeGlobalIndex |} o,
                 u32 (fakeGlobalIndex + 1))
    | AsOther =>
        if NDEBUG then Undefined
        else AssertionFailed "cast<Ty>() argument of incompatible type!"
    end.

Fixpoint exportSymbols (syms : list Symbol) (st : t * Z) : ending (t * Z) :=
  match syms with
  | [] => Returns st
  | sym :: syms =>
      match exportSymbol st sym with
      | Returns st => exportSymbols syms st
      | AssertionFailed what => AssertionFailed what
      | Undefined => Undefined
      end
  end.

Definition calculateExports (o : t) : ending t :=
  if relocatable config then Returns o
  else
    let o :=
      if negb (relocatable config) && negb importMemory
      then push_back {| Name := "memory"; Kind := WASM_EXTERNAL_MEMORY;
                        Index := 0 |} o
      else o in
    let o :=
      if negb (relocatable config) && exportTable
      then push_back {| Name := functionTableName;
                        Kind := WASM_EXTERNAL_TABLE; Index := 0 |} o
      else o in
    let fakeGlobalIndex := u32 (getNumImportedGlobals + numInputGlobals) in
    match exportSymbols (getSymbols symtab) (o, fakeGlobalIndex) with
    | Returns (o, _) => Returns o
    | AssertionFailed what => AssertionFailed what
    | Undefined => Undefined
    end.

End Calculate.

End Exports.

(** The export of the [k]-th fake global after [base] other globals. *)
Definition fake_global_export (base : Z) (k : nat) (d : Symbol)
    : Exports.WasmExport :=
  {| Exports.Name := getName d; Exports.Kind := Exports.WASM_EXTERNAL_GLOBAL;
     Exports.Index := u32 (base + Z.of_nat k) |}.

Section Exported.

Variable NDEBUG : bool.
Variable exportAll : bool.
Variable ask : Symbol -> Exports.asked.

(** A symbol that is up for export: defined, not hidden unless everything is
    exported, not local, live. *)
Definition exportable (sym : Symbol) : bool :=
  Exports.isDefined (ask sym)
  && (negb (Exports.isHidden (ask sym)) || exportAll)
  && negb (Exports.isLocal (ask sym)) && isLive sym.

Definition is_mutable_global (sym : Symbol) : bool :=
  match Exports.cast (ask sym) with
  | Exports.AsDefinedGlobal Mutable => Mutable
  | _ => false
  end.

Definition is_data (sym : Symbol) : bool :=
  match Exports.cast (ask sym) with
  | Exports.AsDefinedData => true
  | _ => false
  end.

(** The symbols that are exported, in the order of the symbol table. *)
Definition exported (syms : list Symbol) : list Symbol :=
  List.filter (fun sym => exportable sym && negb (is_mutable_global sym))
    syms.

(** A symbol up for export that stops [calculateExports]: it is none of
    what the casts know, or, in a build with assertions, a mutable global
    other than [__stack_pointer] and [__tls_base]. *)
Definition stops_export (sym : Symbol) : Prop :=
  exportable sym = true
  /\ (Exports.cast (ask sym) = Exports.AsOther
      \/ (NDEBUG = false
          /\ Exports.cast (ask sym) = Exports.AsDefinedGlobal true
          /\ Exports.isStackPointerOrTlsBase (ask sym) = false)).

(** An ending other than a return, as the build has it. *)
Definition stopped {A} (r : Exports.ending A) : Prop :=
  match r with
  | Exports.Returns _ => False
  | Exports.AssertionFailed _ => NDEBUG = false
  | Exports.Undefined => NDEBUG = true
  end.

(** The export of a symbol; the index of a data symbol is said apart. *)
Definition export_of (sym : Symbol) (e : Exports.WasmExport) : Prop :=
  Exports.Name e = getName sym
  /\ match Exports.cast (ask sym) with
     | Exports.AsDefinedFunction =>
         Exports.Kind e = Exports.WASM_EXTERNAL_FUNCTION
         /\ Exports.Index e = getFunctionIndex sym
     | Exports.AsDefinedGlobal _ =>
         Exports.Kind e = Exports.WASM_EXTERNAL_GLOBAL
         /\ Exports.Index e = getGlobalIndex sym
     | Exports.AsDefinedEvent =>
         Exports.Kind e = Exports.WASM_EXTERNAL_EVENT
         /\ Exports.Index e = Exports.getEventIndex (ask sym)
     | Exports.AsDefinedData =>
         Exports.Kind e = Exports.WASM_EXTERNAL_GLOBAL
     | Exports.AsOther => False
     end.

(** What the loop over [syms] has added: the exports [es], with [n] fake
    globals there before. *)
Definition exports_added (base : Z) (syms : list Symbol) (n : nat)
    (es : list Exports.WasmExport) : Prop :=
  Forall (fun sym => ~ stops_export sym) syms
  /\ Forall2 export_of (exported syms) es
  /\ forall k d,
       List.filter is_data (exported syms) !! k = Some d ->
       exists i, exported syms !! i = Some d
         /\ es !! i = Some (fake_global_export base (n + k) d).

End Exported.

(** The exports of the memory and of the table. *)
Definition fixed_exports (importMemory exportTable : bool)
    : list Exports.WasmExport :=
  (if importMemory then []
   else [{| Exports.Name := "memory";
            Exports.Kind := Exports.WASM_EXTERNAL_MEMORY;
            Exports.Index := 0 |}])
  ++ (if exportTable
      then [{| Exports.Name := "__indirect_function_table";
               Exports.Kind := Exports.WASM_EXTERNAL_TABLE;
               Exports.Index := 0 |}]
      else []).

Module Exporting.

Definition symbol (name : string) (index : Z) (alive : bool) : Symbol :=
  {| getName := name; getFunctionIndex := index; getGlobalIndex := index;
     isLive := alive; isDiscarded := false; signatureIsVoid := true |}.

(** A function, a hidden function, two data symbols, the mutable
    [__stack_pointer], a dead data symbol and an undefined function. *)
Definition symbols : SymbolTable :=
  {| getSymbols :=
       [symbol "apply" 7 true; symbol "helper" 8 true;
        symbol "table" 0 true; symbol "__stack_pointer" 0 true;
        symbol "unused" 0 false; symbol "version" 0 true;
        symbol "printf" 1 true];
     objectFiles := [] |}.

Definition cast (sym : Symbol) : Exports.defined_as :=
  if String.eqb (getName sym) "apply" || String.eqb (getName sym) "helper"
  then Exports.AsDefinedFunction
  else if String.eqb (getName sym) "__stack_pointer"
  then Exports.AsDefinedGlobal true
  else if String.eqb (getName sym) "printf" then Exports.AsOther
  else Exports.AsDefinedData.

Definition ask (sym : Symbol) : Exports.asked :=
  {| Exports.isDefined := negb (String.eqb (getName sym) "printf");
     Exports.isHidden := String.eqb (getName sym) "helper";
     Exports.isLocal := false;
     Exports.cast := cast sym;
     Exports.getEventIndex := 0;
     Exports.isStackPointerOrTlsBase :=
       String.eqb (getName sym) "__stack_pointer" |}.

(** The same, but [__stack_pointer] is neither of the two statics. *)
Definition ask_counter (sym : Symbol) : Exports.asked :=
  {| Exports.isDefined := negb (String.eqb (getName sym) "printf");
     Exports.isHidden := String.eqb (getName sym) "helper";
     Exports.isLocal := false;
     Exports.cast := cast sym;
     Exports.getEventIndex := 0;
     Exports.isStackPointerOrTlsBase := false |}.

End Exporting.

(** ** The two dispatcher bodies as a whole *)

Section Whole_bodies.

Variable string_to_name : string -> Z.
Variable to_hash_id : string -> Z.
Variable config : Configuration.
Variable symtab : SymbolTable.







End Whole_bodies.

(** *** What the runtime is expected to do *)










(** A contract with the stack canary and one sync call: [__stack_canary] is
    global 1 and [__data_end] global 2, so that the canary is kept at
    address 10. *)
Module Guards.

Definition contract : SymbolTable :=
  {| getSymbols :=
       [Examples.symbol "eosio_set_contract_name" 1;
        Examples.symbol "eosio_assert_code" 2;
        Examples.symbol "current_time" 3;
        Examples.symbol "__eos_get_sync_call_data_" 4;
        Examples.symbol "__eos_get_sync_call_data_header_" 5;
        Examples.symbol "withdraw_handler" 6;
        Examples.symbol "__stack_canary" 1;
        Examples.symbol "__data_end" 2];
     objectFiles :=
       [Examples.object [] [] ["withdraw:withdraw_handler"]] |}.

(** The store with its memory, of 64 KiB, set to [mem]. *)
Definition with_memory (σ : store) (mem : Z -> Z) : store :=
  {| globals := globals σ; memory := mem; mem_size := 65536 |}.

(** A runtime with 64 KiB of memory: [eosio_set_contract_name] (1) takes
    its argument, the time (3) is 77, the data (4) are at 1024 and their
    header (5) at 2048 with version 0 and the given function name, the call
    target (6) takes its four arguments and, when [overflow] is set, writes
    over the canary; [eosio_assert_code] (2) and every other call end the
    transaction. *)
Definition runtime (overflow : bool) (fname : Z) : host := fun f stk σ =>
  if f =? 1 then
    match stk with _ :: s => Some (s, σ) | _ => None end
  else if f =? 3 then Some (I64 77 :: stk, with_memory σ (memory σ))
  else if f =? 4 then
    match stk with I32 _ :: s => Some (I32 1024 :: s, σ) | _ => None end
  else if f =? 5 then
    match stk with
    | I32 _ :: s =>
        Some (I32 2048 :: s,
              with_memory σ
                (store_bytes 8 (store_bytes 4 (memory σ) 2048 0) 2056 fname))
    | _ => None
    end
  else if f =? 6 then
    match stk with
    | _ :: _ :: _ :: _ :: s =>
        Some (s, if overflow
                 then with_memory σ (store_bytes 8 (memory σ) 10 0)
                 else σ)
    | _ => None
    end
  else None.


End Guards.

(** A contract with the action [hi] and a [pre_dispatch]. *)
Module Gates.

Definition contract : SymbolTable :=
  {| getSymbols :=
       [Examples.symbol "eosio_set_contract_name" 1;
        Examples.symbol "eosio_assert_code" 2;
        Examples.symbol "pre_dispatch" 3;
        Examples.symbol "hi_handler" 4];
     objectFiles := [Examples.object ["hi:hi_handler"] [] []] |}.

(** A runtime: [eosio_set_contract_name] (1) takes its argument,
    [pre_dispatch] (3) answers [go], the handler (4) takes its two
    arguments; [eosio_assert_code] (2) ends the transaction. *)
Definition runtime (go : Z) : host := fun f stk σ =>
  if f =? 1 then
    match stk with _ :: s => Some (s, σ) | _ => None end
  else if f =? 3 then
    match stk with
    | _ :: _ :: _ :: s => Some (I32 go :: s, σ)
    | _ => None
    end
  else if f =? 4 then
    match stk with _ :: _ :: s => Some (s, σ) | _ => None end
  else None.

End Gates.

(** * Properties *)

(** ** LEB128: what a reader gets back *)

Section LEB128_facts.

Lemma land_127 v : Z.land v 127 = v mod 128.
Proof. change 127 with (Z.ones 7). by rewrite Z.land_ones. Qed.

Lemma shiftr_7 v : Z.shiftr v 7 = v / 128.
Proof. by rewrite Z.shiftr_div_pow2. Qed.

Lemma lor_128 v : Z.lor (v mod 128) 128 = v mod 128 + 128.
Proof.
  rewrite <- Z.lxor_lor, <- Z.add_nocarry_lxor; try done;
    rewrite <- land_127, <- Z.land_assoc; apply Z.land_0_r.
Qed.

Lemma land_64 v : (Z.land (v mod 128) 64 =? 0) = (v mod 128 <? 64).
Proof.
  pose proof (Z.mod_pos_bound v 128 ltac:(lia)) as Hb.
  assert (Hall : Forall (fun b => (Z.land b 64 =? 0) = (b <? 64)) (seqZ 0 128))
    by (by apply (bool_decide_unpack _); vm_compute).
  rewrite Forall_forall in Hall. apply Hall, elem_of_seqZ. lia.
Qed.

Lemma encodeULEB128_loop_step fuel v :
  encodeULEB128_loop (S fuel) v =
    if v / 128 =? 0 then [v mod 128]
    else (v mod 128 + 128) :: encodeULEB128_loop fuel (v / 128).
Proof. cbn [encodeULEB128_loop]. by rewrite land_127, shiftr_7, lor_128. Qed.

Lemma encodeSLEB128_loop_step fuel v :
  encodeSLEB128_loop (S fuel) v =
    if ((v / 128 =? 0) && (v mod 128 <? 64))
       || ((v / 128 =? -1) && (64 <=? v mod 128))
    then [v mod 128]
    else (v mod 128 + 128) :: encodeSLEB128_loop fuel (v / 128).
Proof.
  cbn [encodeSLEB128_loop]. rewrite land_127, shiftr_7, lor_128, land_64.
  replace (negb (v mod 128 <? 64)) with (64 <=? v mod 128) by lia.
  by destruct (_ || _).
Qed.

(** The unsigned reader returns what the unsigned writer was given. *)
Lemma decodeULEB128_encode_loop fuel v rest :
  0 <= v < 128 ^ Z.of_nat (S fuel) ->
  decodeULEB128 (encodeULEB128_loop (S fuel) v ++ rest) = Some (v, rest).
Proof.
  revert v. induction fuel as [|fuel IH]; intros v Hv;
    rewrite encodeULEB128_loop_step;
    pose proof (Z.mod_pos_bound v 128 ltac:(lia));
    pose proof (Z.div_mod v 128 ltac:(lia)).
  - change (128 ^ Z.of_nat 1) with 128 in Hv.
    rewrite (Z.div_small v 128) by lia. cbn.
    rewrite Z.mod_small by lia. by case_match; [|lia].
  - destruct (Z.eqb_spec (v / 128) 0) as [Hz|Hz]; cbn [app decodeULEB128].
    + case_match; [|lia]. do 2 f_equal. lia.
    + case_match; [lia|]. rewrite IH.
      * do 2 f_equal. lia.
      * rewrite Nat2Z.inj_succ, Z.pow_succ_r in Hv by lia.
        split; [apply Z.div_pos; lia|apply Z.div_lt_upper_bound; lia].
Qed.

Lemma decodeULEB128_encode v rest :
  0 <= v < 2 ^ 64 ->
  decodeULEB128 (encodeULEB128 v ++ rest) = Some (v, rest).
Proof.
  intros Hv. unfold encodeULEB128, u64. rewrite Z.mod_small by done.
  apply decodeULEB128_encode_loop. change (128 ^ Z.of_nat 10) with (2 ^ 70).
  lia.
Qed.

(** The signed reader returns what the signed writer was given. *)
Lemma decodeSLEB128_encode_loop fuel v rest :
  - (64 * 128 ^ Z.of_nat fuel) <= v < 64 * 128 ^ Z.of_nat fuel ->
  decodeSLEB128 (encodeSLEB128_loop (S fuel) v ++ rest) = Some (v, rest).
Proof.
  revert v. induction fuel as [|fuel IH]; intros v Hv;
    rewrite encodeSLEB128_loop_step;
    pose proof (Z.mod_pos_bound v 128 ltac:(lia));
    pose proof (Z.div_mod v 128 ltac:(lia)).
  - change (128 ^ Z.of_nat 0) with 1 in Hv.
    destruct (Z.eqb_spec (v / 128) 0), (Z.ltb_spec (v mod 128) 64),
      (Z.eqb_spec (v / 128) (-1)), (Z.leb_spec 64 (v mod 128));
      cbn; try lia; repeat case_match; try lia; do 2 f_equal; lia.
  - assert (- (64 * 128 ^ Z.of_nat fuel) <= v / 128
            < 64 * 128 ^ Z.of_nat fuel).
    { rewrite Nat2Z.inj_succ, Z.pow_succ_r in Hv by lia.
      split; [apply Z.div_le_lower_bound; lia
             |apply Z.div_lt_upper_bound; lia]. }
    destruct (Z.eqb_spec (v / 128) 0), (Z.ltb_spec (v mod 128) 64),
      (Z.eqb_spec (v / 128) (-1)), (Z.leb_spec 64 (v mod 128));
      cbn [orb andb app decodeSLEB128]; try lia;
      rewrite ?IH by done;
      repeat case_match; try lia; do 2 f_equal; lia.
Qed.

Lemma decodeSLEB128_encode v rest :
  - 2 ^ 63 <= v < 2 ^ 63 ->
  decodeSLEB128 (encodeSLEB128 v ++ rest) = Some (v, rest).
Proof.
  intros Hv. apply decodeSLEB128_encode_loop.
  change (64 * 128 ^ Z.of_nat 9) with (2 ^ 69). lia.
Qed.

Lemma decodeSLEB128_encodeULEB128_loop fuel v :
  0 <= v < 128 ^ Z.of_nat (S fuel) ->
  exists z, forall rest,
    decodeSLEB128 (encodeULEB128_loop (S fuel) v ++ rest) = Some (z, rest).
Proof.
  revert v. induction fuel as [|fuel IH]; intros v Hv;
    rewrite encodeULEB128_loop_step;
    pose proof (Z.mod_pos_bound v 128 ltac:(lia)).
  - change (128 ^ Z.of_nat 1) with 128 in Hv.
    rewrite (Z.div_small v 128) by lia. cbn. eexists. intros rest.
    by case_match; [|lia].
  - destruct (Z.eqb_spec (v / 128) 0) as [Hz|Hz]; cbn [app decodeSLEB128].
    + eexists. intros rest. by case_match; [|lia].
    + destruct (IH (v / 128)) as [z Hz'].
      { rewrite Nat2Z.inj_succ, Z.pow_succ_r in Hv by lia.
        split; [apply Z.div_pos; lia|apply Z.div_lt_upper_bound; lia]. }
      eexists. intros rest. case_match; [lia|]. by rewrite Hz'.
Qed.

(** The signed reader, given what the unsigned writer wrote. *)
Lemma decodeSLEB128_encodeULEB128 v rest :
  0 <= v < 2 ^ 64 ->
  decodeSLEB128 (encodeULEB128 v ++ rest) = Some (uleb_read_signed v, rest).
Proof.
  intros Hv. unfold uleb_read_signed, encodeULEB128, u64.
  rewrite Z.mod_small by done.
  destruct (decodeSLEB128_encodeULEB128_loop 9 v) as [z Hz].
  { change (128 ^ Z.of_nat 10) with (2 ^ 70). lia. }
  rewrite (Hz rest). specialize (Hz []). rewrite app_nil_r in Hz.
  by rewrite Hz.
Qed.

(** Below 64 the two formats agree. *)
Lemma uleb_read_signed_small v : 0 <= v < 64 -> uleb_read_signed v = v.
Proof.
  intros Hv. unfold uleb_read_signed, encodeULEB128, u64.
  rewrite Z.mod_small by lia. rewrite encodeULEB128_loop_step.
  rewrite Z.div_small, Z.mod_small by lia. cbn.
  destruct (Z.ltb_spec v 128), (Z.ltb_spec v 64); lia.
Qed.

End LEB128_facts.

(** ** Reading emitted bytes back as instructions *)

Section Encoding.

Lemma Encodes_app bs1 ts1 bs2 ts2 :
  Encodes bs1 ts1 -> Encodes bs2 ts2 -> Encodes (bs1 ++ bs2) (ts1 ++ ts2).
Proof.
  induction 1 as [|bs t bs' ts Ht _ IH]; intros H2; [done|].
  rewrite <- app_assoc. cbn. constructor; auto.
Qed.

Lemma encodes_nonempty bs t : encodes bs t -> bs <> [].
Proof. intros H ->. specialize (H []). discriminate H. Qed.

Lemma Encodes_decode_tokens bs ts :
  Encodes bs ts ->
  forall fuel, (length bs <= fuel)%nat -> decode_tokens fuel bs = Some ts.
Proof.
  induction 1 as [|bs t bs' ts Ht _ IH]; intros fuel Hfuel; [by destruct fuel|].
  pose proof (encodes_nonempty _ _ Ht).
  destruct bs as [|b bs]; [done|]. cbn in Hfuel.
  destruct fuel as [|fuel]; [lia|].
  change (decode_tokens (S fuel) ((b :: bs) ++ bs'))
    with ('(t, rest) ← decode_token ((b :: bs) ++ bs');
          ts ← decode_tokens fuel rest; Some (t :: ts)).
  rewrite Ht. cbn. rewrite IH; [done|]. rewrite length_app in Hfuel. lia.
Qed.

(** What [Encodes] is for: the reader returns exactly these tokens. *)
Lemma Encodes_decode bs ts : Encodes bs ts -> decode bs = Some ts.
Proof. intros H. by apply Encodes_decode_tokens. Qed.

Lemma Encodes_one bs t : encodes bs t -> Encodes bs [t].
Proof.
  intros H. rewrite <- (app_nil_r bs). constructor; [done|constructor].
Qed.

(** One lemma per instruction form the writer emits. *)
Lemma encodes_index opcode mk i :
  (forall rest, decode_token (opcode :: rest) = decode_index mk rest) ->
  0 <= i < 2 ^ 64 ->
  encodes (opcode :: encodeULEB128 i) (Op (mk i)).
Proof.
  intros Hop Hi rest. cbn [app]. rewrite Hop. unfold decode_index.
  by rewrite decodeULEB128_encode.
Qed.

Lemma encodes_memarg opcode mk a o :
  (forall rest, decode_token (opcode :: rest) = decode_memarg mk rest) ->
  0 <= a < 2 ^ 64 -> 0 <= o < 2 ^ 64 ->
  encodes (opcode :: encodeULEB128 a ++ encodeULEB128 o) (Op (mk a o)).
Proof.
  intros Hop Ha Ho rest. cbn [app]. rewrite Hop. unfold decode_memarg.
  rewrite <- app_assoc, decodeULEB128_encode by done. cbn.
  by rewrite decodeULEB128_encode.
Qed.

Lemma encodes_const opcode mk z :
  (forall rest, decode_token (opcode :: rest) = decode_const mk rest) ->
  - 2 ^ 63 <= z < 2 ^ 63 ->
  encodes (opcode :: encodeSLEB128 z) (Op (mk z)).
Proof.
  intros Hop Hz rest. cbn [app]. rewrite Hop. unfold decode_const.
  by rewrite decodeSLEB128_encode.
Qed.

(** A constant whose operand went through the unsigned writer. *)
Lemma encodes_const_uleb opcode mk v :
  (forall rest, decode_token (opcode :: rest) = decode_const mk rest) ->
  0 <= v < 2 ^ 64 ->
  encodes (opcode :: encodeULEB128 v) (Op (mk (uleb_read_signed v))).
Proof.
  intros Hop Hz rest. cbn [app]. rewrite Hop. unfold decode_const.
  by rewrite decodeSLEB128_encodeULEB128.
Qed.


Lemma u32_range x : 0 <= u32 x < 2 ^ 64.
Proof. unfold u32. pose proof (Z.mod_pos_bound x (2 ^ 32)). lia. Qed.

Lemma to_int64_range x : - 2 ^ 63 <= to_int64 x < 2 ^ 63.
Proof.
  unfold to_int64. pose proof (Z.mod_pos_bound x (2 ^ 64)).
  cbn zeta. case_match; lia.
Qed.

Lemma to_int64_u64 x : u64 (to_int64 x) = u64 x.
Proof.
  unfold to_int64, u64. pose proof (Z.mod_pos_bound x (2 ^ 64)).
  cbn zeta. case_match.
  - rewrite Z.mod_mod; lia.
  - rewrite <- (Z.mod_add _ 1) by lia.
    replace (x mod 2 ^ 64 - 2 ^ 64 + 1 * 2 ^ 64) with (x mod 2 ^ 64) by lia.
    rewrite Z.mod_mod; lia.
Qed.

(** The same, in the shape the emitted streams have: a token, then the
    rest. *)
Lemma Encodes_else rest ts :
  Encodes rest ts -> Encodes (u8 OPCODE_ELSE :: rest) (Else :: ts).
Proof. by apply (Encodes_cons [_]). Qed.

Lemma Encodes_end rest ts :
  Encodes rest ts -> Encodes (u8 OPCODE_END :: rest) (End :: ts).
Proof. by apply (Encodes_cons [_]). Qed.

Lemma Encodes_return rest ts :
  Encodes rest ts -> Encodes (u8 OPCODE_RETURN :: rest) (Op Return :: ts).
Proof. by apply (Encodes_cons [_]). Qed.

Lemma Encodes_i64_eq rest ts :
  Encodes rest ts -> Encodes (u8 OPCODE_I64_EQ :: rest) (Op I64Eq :: ts).
Proof. by apply (Encodes_cons [_]). Qed.

Lemma Encodes_i64_ne rest ts :
  Encodes rest ts -> Encodes (u8 OPCODE_I64_NE :: rest) (Op I64Ne :: ts).
Proof. by apply (Encodes_cons [_]). Qed.

Lemma Encodes_i32_add rest ts :
  Encodes rest ts -> Encodes (u8 OPCODE_I32_ADD :: rest) (Op I32Add :: ts).
Proof. by apply (Encodes_cons [_]). Qed.

Lemma Encodes_if rest ts :
  Encodes rest ts -> Encodes (u8 OPCODE_IF :: u8 64 :: rest) (If :: ts).
Proof. by apply (Encodes_cons [_; _]). Qed.

Lemma Encodes_index opcode mk i rest ts :
  (forall rest, decode_token (opcode :: rest) = decode_index mk rest) ->
  Encodes rest ts ->
  Encodes (opcode :: encodeULEB128 (u32 i) ++ rest) (Op (mk (u32 i)) :: ts).
Proof.
  intros Hop. apply (Encodes_cons (_ :: _)), encodes_index; [done|].
  apply u32_range.
Qed.

Lemma Encodes_call i rest ts :
  Encodes rest ts ->
  Encodes (u8 OPCODE_CALL :: encodeULEB128 (u32 i) ++ rest)
          (Op (Call (u32 i)) :: ts).
Proof. by apply Encodes_index. Qed.


Lemma Encodes_local_get i rest ts :
  Encodes rest ts ->
  Encodes (u8 OPCODE_GET_LOCAL :: encodeULEB128 (u32 i) ++ rest)
          (Op (LocalGet (u32 i)) :: ts).
Proof. by apply Encodes_index. Qed.

Lemma Encodes_local_set i rest ts :
  Encodes rest ts ->
  Encodes (u8 OPCODE_SET_LOCAL :: encodeULEB128 (u32 i) ++ rest)
          (Op (LocalSet (u32 i)) :: ts).
Proof. by apply Encodes_index. Qed.

Lemma Encodes_global_get i rest ts :
  Encodes rest ts ->
  Encodes (u8 OPCODE_GET_GLOBAL :: encodeULEB128 (u32 i) ++ rest)
          (Op (GlobalGet (u32 i)) :: ts).
Proof. by apply Encodes_index. Qed.

Lemma Encodes_global_set i rest ts :
  Encodes rest ts ->
  Encodes (u8 OPCODE_SET_GLOBAL :: encodeULEB128 (u32 i) ++ rest)
          (Op (GlobalSet (u32 i)) :: ts).
Proof. by apply Encodes_index. Qed.

Lemma Encodes_memarg opcode mk a o rest ts :
  (forall rest, decode_token (opcode :: rest) = decode_memarg mk rest) ->
  Encodes rest ts ->
  Encodes (opcode :: encodeULEB128 (u32 a) ++ encodeULEB128 (u32 o) ++ rest)
          (Op (mk (u32 a) (u32 o)) :: ts).
Proof.
  intros Hop. rewrite app_assoc.
  apply (Encodes_cons (_ :: _)), encodes_memarg; [done|apply u32_range..].
Qed.

Lemma Encodes_i32_load a o rest ts :
  Encodes rest ts ->
  Encodes (u8 OPCODE_I32_LOAD :: encodeULEB128 (u32 a)
             ++ encodeULEB128 (u32 o) ++ rest)
          (Op (I32Load (u32 a) (u32 o)) :: ts).
Proof. by apply Encodes_memarg. Qed.

Lemma Encodes_i64_load a o rest ts :
  Encodes rest ts ->
  Encodes (u8 OPCODE_I64_LOAD :: encodeULEB128 (u32 a)
             ++ encodeULEB128 (u32 o) ++ rest)
          (Op (I64Load (u32 a) (u32 o)) :: ts).
Proof. by apply Encodes_memarg. Qed.

Lemma Encodes_i64_store a o rest ts :
  Encodes rest ts ->
  Encodes (u8 OPCODE_I64_STORE :: encodeULEB128 (u32 a)
             ++ encodeULEB128 (u32 o) ++ rest)
          (Op (I64Store (u32 a) (u32 o)) :: ts).
Proof. by apply Encodes_memarg. Qed.

Lemma Encodes_i64_const z rest ts :
  - 2 ^ 63 <= z < 2 ^ 63 ->
  Encodes rest ts ->
  Encodes (u8 OPCODE_I64_CONST :: encodeSLEB128 z ++ rest)
          (Op (I64Const z) :: ts).
Proof. intros Hz. by apply (Encodes_cons (_ :: _)), encodes_const. Qed.

Lemma Encodes_i32_const_uleb v rest ts :
  Encodes rest ts ->
  Encodes (u8 OPCODE_I32_CONST :: encodeULEB128 (u32 v) ++ rest)
          (Op (I32Const (uleb_read_signed (u32 v))) :: ts).
Proof.
  apply (Encodes_cons (_ :: _)), encodes_const_uleb; [done|apply u32_range].
Qed.

Lemma Encodes_ends n rest ts :
  Encodes rest ts ->
  Encodes (replicate n (u8 OPCODE_END) ++ rest) (replicate n End ++ ts).
Proof.
  intros H. induction n as [|n IH]; [done|].
  cbn [replicate app]. by apply Encodes_end.
Qed.

Lemma Encodes_ends_last n :
  Encodes (replicate n (u8 OPCODE_END) ++ []) (replicate n End).
Proof.
  rewrite <- (app_nil_r (replicate n End)). apply Encodes_ends. constructor.
Qed.

Lemma write_ends_eq n : write_ends n = emit (replicate n (u8 OPCODE_END)).
Proof.
  induction n as [|n IH]; [done|]. cbn [write_ends]. by rewrite IH.
Qed.

Lemma Encodes_decode_first bs ts rest :
  Encodes bs ts -> decode_first (length ts) (bs ++ rest) = Some (ts, rest).
Proof.
  induction 1 as [|bs t bs' ts Ht _ IH]; [done|].
  cbn [length decode_first]. rewrite <- app_assoc, Ht. cbn. by rewrite IH.
Qed.

End Encoding.

(** [Encodes] goals over an emitted stream: bring the stream into the
    shape [token bytes ++ rest] and read it token by token. *)
Ltac read_tokens :=
  repeat first
    [ apply Encodes_nil
    | apply Encodes_ends_last
    | apply Encodes_else | apply Encodes_end | apply Encodes_return
    | apply Encodes_i64_eq | apply Encodes_i64_ne | apply Encodes_i32_add
    | apply Encodes_if
    | apply Encodes_call | apply Encodes_local_get | apply Encodes_local_set
    | apply Encodes_global_get | apply Encodes_global_set
    | apply Encodes_i32_load | apply Encodes_i64_load
    | apply Encodes_i64_store
    | apply Encodes_i64_const; [first [apply to_int64_range | done]|]
    | apply Encodes_i32_const_uleb ].

Ltac stream_shape :=
  match goal with
  | |- Encodes ?bs _ => rewrite <- (app_nil_r bs)
  end;
  cbn [app]; repeat (rewrite <- app_assoc; cbn [app]).

(** ** The writer monad *)

Section Outcome_facts.

Context {A B C : Type}.

Lemma Ok_inj (a a' : A) o o' : Ok a o = Ok a' o' -> a = a' /\ o = o'.
Proof. by intros [= -> ->]. Qed.

Lemma bind_Ok (m : outcome A) (f : A -> outcome B) a o1 b o2 :
  m = Ok a o1 -> f a = Ok b o2 -> m ≫= f = Ok b (o1 ++ o2).
Proof. intros -> Hf. cbn. by rewrite Hf. Qed.

Lemma bind_Ok_inv (m : outcome A) (f : A -> outcome B) b out :
  m ≫= f = Ok b out ->
  exists a o1 o2, m = Ok a o1 /\ f a = Ok b o2 /\ out = o1 ++ o2.
Proof.
  destruct m as [a o1| | |]; cbn; try done.
  destruct (f a) as [b' o2| | |] eqn:Hf; try done.
  intros [= -> <-]. by exists a, o1, o2.
Qed.

Lemma bind_ret_l (a : A) (f : A -> outcome B) : mret a ≫= f = f a.
Proof. cbn. by destruct (f a). Qed.

Lemma bind_assoc (m : outcome A) (f : A -> outcome B) (g : B -> outcome C) :
  (m ≫= f) ≫= g = m ≫= (fun a => f a ≫= g).
Proof.
  destruct m as [a o1| | |]; cbn; try done.
  destruct (f a) as [b o2| | |]; cbn; try done.
  destruct (g b) as [c o3| | |]; cbn; try done.
  by rewrite app_assoc.
Qed.

Lemma no_throw_bind (m : outcome A) (f : A -> outcome B) :
  no_throw m -> (forall a, no_throw (f a)) -> no_throw (m ≫= f).
Proof.
  destruct m as [a o| | |]; cbn; try done. intros _ Hf. specialize (Hf a).
  by destruct (f a).
Qed.

Lemma halts_bind_l (m : outcome A) (f : A -> outcome B) :
  halts m -> halts (m ≫= f).
Proof. by destruct m. Qed.

Lemma halts_bind_r (m : outcome A) (f : A -> outcome B) :
  no_throw m -> (forall a, halts (f a)) -> halts (m ≫= f).
Proof.
  destruct m as [a o| | |]; cbn; try done. intros _ Hf. specialize (Hf a).
  by destruct (f a).
Qed.

End Outcome_facts.

Section Loop_facts.

Context {A S : Type}.

Lemma for_each_app (body : A -> S -> outcome S) l1 l2 s :
  for_each body (l1 ++ l2) s = for_each body l1 s ≫= for_each body l2.
Proof.
  revert s. induction l1 as [|x l1 IH]; intros s; cbn [for_each app].
  - by rewrite bind_ret_l.
  - rewrite bind_assoc. destruct (body x s) as [s' o| | |]; cbn; try done.
    by rewrite IH.
Qed.

Lemma for_each_cons (body : A -> S -> outcome S) x l s :
  for_each body (x :: l) s = body x s ≫= for_each body l.
Proof. done. Qed.

Lemma no_throw_for_each (body : A -> S -> outcome S) l s :
  (forall x s', no_throw (body x s')) -> no_throw (for_each body l s).
Proof.
  intros Hbody. revert s. induction l as [|x l IH]; intros s; [done|].
  rewrite for_each_cons. by apply no_throw_bind.
Qed.

End Loop_facts.

(** The loop over the files, each with its inner loop, is one loop over
    all the entries. *)
Lemma for_each_files {F A S : Type} (entries : F -> list A)
    (body : A -> S -> outcome S) files s :
  for_each (fun File st =>
              match entries File with
              | [] => mret st
              | es => for_each body es st
              end) files s
  = for_each body (concat (map entries files)) s.
Proof.
  revert s. induction files as [|File files IH]; intros s; [done|].
  rewrite for_each_cons. cbn [map concat]. rewrite for_each_app.
  assert (match entries File with
          | [] => mret s
          | a :: l => for_each body (a :: l) s
          end = for_each body (entries File) s) as ->
    by by destruct (entries File).
  destruct (for_each body (entries File) s) as [s' o| | |]; try done.
  unfold mbind, outcome_bind. by rewrite IH.
Qed.


(** ** First occurrences *)

Section First_occurrences.

Lemma elem_of_first_occurrences x l : x ∈ first_occurrences l <-> x ∈ l.
Proof.
  induction l as [|y l IH]; cbn; [done|].
  rewrite !elem_of_cons, list_elem_of_filter, IH.
  destruct (decide (x = y)); tauto.
Qed.


Lemma filter_not_seen (seen : gset string) (l : list string) :
  (forall x, x ∈ l -> x ∉ seen) -> filter (fun x => x ∉ seen) l = l.
Proof.
  induction l as [|x l IH]; intros Hl; [done|].
  rewrite filter_cons_True by (apply Hl; set_solver).
  rewrite IH; [done|]. intros y Hy. apply Hl. set_solver.
Qed.

End First_occurrences.

(** ** The de-duplicating loops *)

Section Dedup_loop.

(** The loop body of both dispatchers: skip a string seen before, else
    write its block and count it. *)
Variable block : string -> bool -> outcome bool.
Variable step : string -> loop_state -> outcome loop_state.
Variable blk : string -> list token.

Hypothesis step_eq : forall x seen need_else cnt,
  step x (seen, need_else, cnt) =
    if decide (x ∈ seen) then mret (seen, need_else, cnt)
    else need_else' ← block x need_else;
         mret ({[x]} ∪ seen, need_else', S cnt).

Hypothesis block_tokens : forall x need_else r bs,
  block x need_else = Ok r bs ->
  r = true /\ Encodes bs ((if need_else then [Else] else []) ++ blk x).

Lemma dedup_loop l : forall seen need_else cnt st' bs,
  for_each step l (seen, need_else, cnt) = Ok st' bs ->
  st' = (list_to_set l ∪ seen,
         need_else
         || bool_decide (filter (fun x => x ∉ seen) (first_occurrences l)
                         <> []),
         (cnt + length (filter (fun x => x ∉ seen)
                               (first_occurrences l)))%nat)
  /\ Encodes bs (chain_tokens blk need_else
                   (filter (fun x => x ∉ seen) (first_occurrences l))).
Proof.
  induction l as [|x l IH]; intros seen ne cnt st' bs Hrun.
  - cbn in Hrun. apply Ok_inj in Hrun as [<- <-]. cbn.
    rewrite orb_false_r, Nat.add_0_r, (left_id_L ∅ (∪)).
    split; [done|constructor].
  - rewrite for_each_cons, step_eq in Hrun. cbn [first_occurrences].
    destruct (decide (x ∈ seen)) as [Hx|Hx].
    + rewrite bind_ret_l in Hrun. apply IH in Hrun as [-> Henc].
      rewrite filter_cons_False by tauto.
      rewrite list_filter_filter_l by (intros y Hy ->; done).
      split; [|done]. do 2 f_equal. set_solver.
    + apply bind_Ok_inv in Hrun as (st1 & o1 & o2 & Hstep & Hrest & ->).
      apply bind_Ok_inv in Hstep as (ne' & o3 & o4 & Hblock & Hret & ->).
      apply Ok_inj in Hret as [<- <-]. rewrite app_nil_r.
      apply block_tokens in Hblock as [-> Hblk].
      apply IH in Hrest as [-> Henc].
      rewrite filter_cons_True by done.
      rewrite list_filter_filter.
      assert (filter (fun y => (y ∉ seen) /\ (y <> x)) (first_occurrences l)
              = filter (fun y => y ∉ {[x]} ∪ seen) (first_occurrences l))
        as -> by (apply list_filter_iff; set_solver).
      split.
      * rewrite orb_true_l, bool_decide_true by done.
        rewrite orb_true_r. cbn [length]. f_equal; [f_equal|lia]. set_solver.
      * cbn [chain_tokens]. rewrite app_assoc. by apply Encodes_app.
Qed.

End Dedup_loop.

Lemma Encodes_eq bs ts ts' : Encodes bs ts -> ts = ts' -> Encodes bs ts'.
Proof. by intros ? <-. Qed.

(** Read an explicit stream and compare with the tokens expected. *)
Ltac read_stream :=
  eapply Encodes_eq; [stream_shape; read_tokens|reflexivity].

(** ** If/else chains *)

Section Chain.

Variable block : string -> code -> code.
Variable toks : string -> list token.

Hypothesis flatten_block : forall x otherwise,
  flatten (block x otherwise)
  = toks x ++ (Else :: flatten otherwise) ++ [End].

(** The flat chain, the [else] before the last block, the last block and
    the closing [end]s are the nested chain. *)
Lemma flatten_chain l last :
  chain_tokens toks true l ++ Else :: flatten last ++ replicate (length l) End
  = Else :: flatten (foldr block last l).
Proof.
  induction l as [|x l IH]; cbn [chain_tokens length foldr].
  - cbn. by rewrite app_nil_r.
  - rewrite replicate_S_end, flatten_block, <- IH.
    cbn [app]. f_equal. rewrite <- !app_assoc. do 2 f_equal.
    cbn [app]. by rewrite <- !app_assoc.
Qed.

Lemma flatten_chain_first l last :
  chain_tokens toks false l
    ++ (if (0 <? length l)%nat then [Else] else [])
    ++ flatten last ++ replicate (length l) End
  = flatten (foldr block last l).
Proof.
  destruct l as [|x l]; cbn [chain_tokens length foldr].
  - cbn. by rewrite app_nil_r.
  - rewrite replicate_S_end, flatten_block.
    change ((0 <? S (length l))%nat) with true. cbn iota.
    rewrite <- flatten_chain.
    cbn [app]. rewrite <- !app_assoc. do 2 f_equal.
    cbn [app]. by rewrite <- !app_assoc.
Qed.

End Chain.

(** ** The action dispatcher *)

Section Action_dispatch.

Variable string_to_name : string -> Z.
Variable symtab : SymbolTable.

Lemma create_if_tokens str need_else r bs :
  create_if string_to_name symtab str need_else = Ok r bs ->
  r = true /\
  Encodes bs ((if need_else then [Else] else [])
              ++ action_tokens string_to_name symtab str).
Proof.
  unfold create_if, action_tokens, index_of.
  destruct (find symtab (substr_after_colon str)) as [s|];
    [|by destruct need_else].
  destruct need_else; cbn; intros [<- <-]%Ok_inj; (split; [done|]);
    read_stream.
Qed.

Lemma action_chain_foldr acts last :
  action_chain string_to_name symtab acts last
  = foldr (action_block string_to_name symtab) last acts.
Proof. induction acts as [|act acts IH]; cbn; by rewrite ?IH. Qed.

Lemma flatten_action_chain_first acts last :
  chain_tokens (action_tokens string_to_name symtab) false acts
    ++ (if (0 <? length acts)%nat then [Else] else [])
    ++ flatten last ++ replicate (length acts) End
  = flatten (action_chain string_to_name symtab acts last).
Proof. rewrite action_chain_foldr. by apply flatten_chain_first. Qed.

Lemma create_action_dispatch_tokens bs :
  create_action_dispatch string_to_name symtab = Ok tt bs ->
  Encodes bs
    (flatten (action_dispatch_code string_to_name symtab
                (first_occurrences (all_actions symtab)))).
Proof.
  unfold create_action_dispatch. rewrite for_each_files.
  intros (st' & o1 & o2 & Hloop & Hrest & ->)%bind_Ok_inv.
  eapply dedup_loop in Hloop as [-> Hchain];
    [|reflexivity|apply create_if_tokens].
  rewrite !filter_not_seen in * by set_solver. cbn [orb Nat.add] in *.
  fold (all_actions symtab) in *.
  unfold action_dispatch_code. rewrite <- flatten_action_chain_first.
  apply Encodes_app; [done|]. clear Hchain. revert Hrest.
  rewrite write_ends_eq.
  unfold assert_idx, assert_sym, post_sym, no_action_code, index_of.
  destruct (0 <? length (first_occurrences (all_actions symtab)))%nat,
    (find symtab "eosio_assert_code") as [a|]; try done;
    (destruct (getFunctionIndex a <? numSymbols symtab); [|done]);
    destruct (find symtab "post_dispatch") as [p|];
    cbn; intros [_ <-]%Ok_inj; read_stream.
Qed.

End Action_dispatch.

(** ** Running code: general facts *)

Section Exec_facts.

Variable h : host.


Lemma exec_append c1 c2 m :
  exec h (append c1 c2) m =
    match exec h c1 m with
    | Normal m' => exec h c2 m'
    | r => r
    end.
Proof.
  revert m.
  induction c1 as [|o k IH|t _ k IH|t _ e _ k IH]; intros m; cbn; try done.
  - by destruct (step h o m).
  - destruct (stack m) as [|[c|c] s]; try done.
    destruct (c =? 0); [done|]. by destruct (exec h t _).
  - destruct (stack m) as [|[c|c] s]; try done.
    by destruct (exec h (if c =? 0 then e else t) _).
Qed.

Lemma step_not_returned o m m' :
  o <> Return -> step h o m <> Returned m'.
Proof.
  intros Ho. destruct o; try done; cbn; repeat case_match; done.
Qed.

Lemma exec_returns_free c :
  returns_free c = true -> forall m m', exec h c m <> Returned m'.
Proof.
  induction c as [|o k IH|t IHt k IH|t IHt e IHe k IH]; intros Hfree m m';
    cbn in *; try done.
  - destruct (step h o m) as [m1|m1|m1] eqn:Hstep; try done.
    + apply IH. by destruct o.
    + destruct o; try done; by apply step_not_returned in Hstep.
  - apply andb_true_iff in Hfree as [Ht Hk].
    destruct (stack m) as [|[c|c] s]; try done.
    destruct (c =? 0); [by apply IH|].
    destruct (exec h t _) eqn:Hrun; try done; [by apply IH|].
    by apply IHt in Hrun.
  - apply andb_true_iff in Hfree as [[Ht He]%andb_true_iff Hk].
    destruct (stack m) as [|[c|c] s]; try done.
    destruct (exec h _ _) eqn:Hrun; try done; [by apply IH|].
    destruct (c =? 0); [by apply IHe in Hrun|by apply IHt in Hrun].
Qed.



End Exec_facts.

(** ** The blocks both dispatchers share *)

Section Shared_blocks.

Variable config : Configuration.
Variable symtab : SymbolTable.

Lemma call_ctors_Ok : exists bs, call_ctors symtab = Ok tt bs.
Proof.
  unfold call_ctors. destruct (find symtab "__wasm_call_ctors") as [s|];
    [destruct (negb _)|]; by eexists.
Qed.

Lemma call_cxa_finalize_tokens :
  exists bs, call_cxa_finalize symtab = Ok tt bs
             /\ Encodes bs (flatten (finalize_code symtab)).
Proof.
  unfold call_cxa_finalize, finalize_code.
  destruct (find symtab "__cxa_finalize") as [s|];
    [destruct (negb _ && _)|]; cbn; eexists; (split; [done|]);
    first [read_stream | constructor].
Qed.



End Shared_blocks.

(** ** The sync-call dispatcher *)

Section Call_dispatch.

Variable to_hash_id : string -> Z.
Variable config : Configuration.
Variable symtab : SymbolTable.

Lemma create_call_if_tokens call_name need_else r bs :
  create_call_if to_hash_id symtab call_name need_else = Ok r bs ->
  r = true /\
  Encodes bs ((if need_else then [Else] else [])
              ++ call_tokens to_hash_id symtab call_name).
Proof.
  unfold create_call_if, function_index_or_throw, call_tokens, index_of.
  destruct (find symtab "__eos_get_sync_call_data_") as [d|];
    [|by destruct need_else].
  destruct (find symtab "__eos_get_sync_call_data_header_") as [hd|];
    [|by destruct need_else].
  destruct (find symtab (substr_after_colon call_name)) as [f|];
    [|by destruct need_else].
  destruct (getFunctionIndex f <? numSymbols symtab);
    [|by destruct need_else].
  destruct need_else; cbn; intros [<- <-]%Ok_inj; (split; [done|]);
    read_stream.
Qed.




End Call_dispatch.

(** Run the machine on explicit code as far as the data allow. *)
Ltac run_step :=
  first
    [ progress cbn
    | progress unfold push, set_stack
    | match goal with
      | |- context [Z.to_nat (Zpos ?k)] =>
          let n := eval vm_compute in (Z.to_nat (Zpos k)) in
          change (Z.to_nat (Zpos k)) with n
      | |- context [Z.to_nat 0] => change (Z.to_nat 0) with O
      end ].
Ltac run := repeat run_step.

(** ** What the action dispatch does when run *)

Section Action_semantics.

Variable string_to_name : string -> Z.
Variable symtab : SymbolTable.
Variable h : host.

(** An action that matches no test reaches the end of the chain. *)
Lemma exec_action_chain_miss acts last stk receiver code action σ tr :
  (forall act, act ∈ acts -> action <> action_name string_to_name act) ->
  exec h (action_chain string_to_name symtab acts last)
       {| stack := stk; locals := [I64 receiver; I64 code; I64 action];
          st := σ; trace := tr |}
  = exec h last
       {| stack := stk; locals := [I64 receiver; I64 code; I64 action];
          st := σ; trace := tr |}.
Proof.
  induction acts as [|act acts IH]; intros Hmiss; [done|].
  run. rewrite to_int64_u64.
  destruct (Z.eqb_spec (u64 (string_to_name (substr_to_colon act))) action)
    as [Heq|_].
  { exfalso. eapply Hmiss; [left|]. by rewrite <- Heq. }
  run. rewrite IH by (intros; apply Hmiss; by right).
  by case_match.
Qed.



End Action_semantics.

(** ** The shape of the action/notification dispatcher body *)

Section Dispatch_body.

Variable string_to_name : string -> Z.
Variable config : Configuration.
Variable symtab : SymbolTable.

(** The body is the blocks of [createDispatchFunction] one after the
    other. *)
Lemma dispatch_BodyContent_shape body :
  dispatch_BodyContent string_to_name config symtab = Ok tt body ->
  exists c ctors prologue action notify epilogue fin,
    find symtab "eosio_set_contract_name" = Some c
    /\ call_ctors symtab = Ok tt ctors
    /\ when (stackCanary config) (stack_canary_prologue symtab)
       = Ok tt prologue
    /\ create_action_dispatch string_to_name symtab = Ok tt action
    /\ create_notify_dispatch string_to_name symtab = Ok tt notify
    /\ when (stackCanary config) (stack_canary_epilogue symtab)
       = Ok tt epilogue
    /\ call_cxa_finalize symtab = Ok tt fin
    /\ body =
         encodeULEB128 (u32 0)
         ++ (u8 OPCODE_GET_LOCAL :: encodeULEB128 (u32 0)
             ++ u8 OPCODE_CALL :: encodeULEB128 (u32 (getFunctionIndex c)))
         ++ ctors ++ prologue
         ++ match find symtab "pre_dispatch" with
            | Some p =>
                u8 OPCODE_GET_LOCAL :: encodeULEB128 (u32 0)
                ++ u8 OPCODE_GET_LOCAL :: encodeULEB128 (u32 1)
                ++ u8 OPCODE_GET_LOCAL :: encodeULEB128 (u32 2)
                ++ u8 OPCODE_CALL :: encodeULEB128 (u32 (getFunctionIndex p))
                ++ [u8 OPCODE_IF; u8 64]
            | None => []
            end
         ++ (u8 OPCODE_GET_LOCAL :: encodeULEB128 (u32 0)
             ++ u8 OPCODE_GET_LOCAL :: encodeULEB128 (u32 1)
             ++ [u8 OPCODE_I64_EQ; u8 OPCODE_IF; u8 64])
         ++ action ++ [u8 OPCODE_ELSE] ++ notify ++ [u8 OPCODE_END]
         ++ epilogue ++ fin
         ++ match find symtab "pre_dispatch" with
            | Some _ => [u8 OPCODE_END]
            | None => []
            end
         ++ [u8 OPCODE_END].
Proof.
  unfold dispatch_BodyContent. intros Hbody.
  destruct (find symtab "eosio_set_contract_name") as [c|]; [|done].
  destruct call_ctors_Ok with symtab as [ctors Hctors].
  destruct (call_cxa_finalize_tokens symtab) as (fin & Hfin & _).
  cbn in Hbody. rewrite Hctors, Hfin in Hbody. cbn in Hbody.
  destruct (when (stackCanary config) (stack_canary_prologue symtab))
    as [[] prologue| | |] eqn:Hprologue; try done.
  destruct (create_action_dispatch string_to_name symtab)
    as [[] action| | |] eqn:Haction;
    [|destruct (find symtab "pre_dispatch"); done..].
  destruct (create_notify_dispatch string_to_name symtab)
    as [[] notify| | |] eqn:Hnotify;
    [|destruct (find symtab "pre_dispatch"); done..].
  destruct (when (stackCanary config) (stack_canary_epilogue symtab))
    as [[] epilogue| | |] eqn:Hepilogue;
    [|destruct (find symtab "pre_dispatch"); done..].
  exists c, ctors, prologue, action, notify, epilogue, fin.
  repeat (split; [done|]).
  destruct (find symtab "pre_dispatch") as [p|]; cbn in Hbody;
    apply Ok_inj in Hbody as [_ <-]; cbn [app];
    repeat (rewrite <- app_assoc; cbn [app]); done.
Qed.

End Dispatch_body.

(** ** How the action/notification dispatcher can fail *)

Section Dispatch_failure.

Variable string_to_name : string -> Z.
Variable config : Configuration.
Variable symtab : SymbolTable.

Lemma no_throw_create_if str need_else :
  no_throw (create_if string_to_name symtab str need_else).
Proof.
  unfold create_if.
  by destruct need_else, (find symtab (substr_after_colon str)).
Qed.

Lemma no_throw_stack_canary_prologue :
  no_throw (when (stackCanary config) (stack_canary_prologue symtab)).
Proof.
  unfold stack_canary_prologue.
  by destruct (stackCanary config), (find symtab "current_time"),
    (find symtab "__stack_canary"), (find symtab "__data_end").
Qed.

(** Without a usable [eosio_assert_code] the action dispatch never gets
    past its [fatal]. *)
Lemma halts_create_action_dispatch :
  negb (bool_decide (is_Some (assert_sym symtab))
        && (assert_idx symtab <? numSymbols symtab)) = true ->
  halts (create_action_dispatch string_to_name symtab).
Proof.
  intros Hassert%negb_true_iff. unfold create_action_dispatch.
  apply halts_bind_r.
  - apply no_throw_for_each. intros File st.
    destruct (getEosioActions File); [done|].
    apply no_throw_for_each. intros act [[seen ne] cnt].
    unfold dispatch_action. case_decide; [done|].
    apply no_throw_bind; [apply no_throw_create_if|done].
  - intros [[seen ne] cnt]. rewrite Hassert. by destruct (0 <? cnt)%nat.
Qed.

Lemma halts_dispatch_BodyContent :
  negb (bool_decide (is_Some (assert_sym symtab))
        && (assert_idx symtab <? numSymbols symtab)) = true ->
  halts (dispatch_BodyContent string_to_name config symtab).
Proof.
  intros Hassert. unfold dispatch_BodyContent.
  destruct (find symtab "eosio_set_contract_name") as [c|]; [|done].
  destruct call_ctors_Ok with symtab as [ctors Hctors].
  cbn. rewrite Hctors. cbn.
  pose proof no_throw_stack_canary_prologue as Hprologue.
  pose proof (halts_create_action_dispatch Hassert) as Haction.
  destruct (when (stackCanary config) (stack_canary_prologue symtab));
    try done.
  destruct (find symtab "pre_dispatch"); cbn;
    by destruct (create_action_dispatch string_to_name symtab).
Qed.

End Dispatch_failure.

(** ** What the sync-call dispatch does when run *)

Section Call_semantics.

Variable to_hash_id : string -> Z.
Variable symtab : SymbolTable.
Variable h : host.

(** The call under way: its parameters, where the runtime put the data and
    the header, and what the header holds. *)
Variables sender receiver data_size data header version fname : Z.

Hypothesis get_data : forall stk σ, exists σ',
  h (index_of symtab "__eos_get_sync_call_data_") (I32 data_size :: stk) σ
  = Some (I32 data :: stk, σ').

Hypothesis get_header : forall stk σ, exists σ',
  h (index_of symtab "__eos_get_sync_call_data_header_") (I32 data :: stk) σ
  = Some (I32 header :: stk, σ')
  /\ load 4 σ' header = Some version
  /\ load 8 σ' (u32 (header + 8)) = Some fname.






End Call_semantics.

Section Call_epilogue.

Variable config : Configuration.
Variable symtab : SymbolTable.
Variable h : host.

Lemma returns_free_call_epilogue :
  returns_free (append (call_epilogue_code config symtab)
                       (Seq (I64Const SYNC_CALL_EXECUTED) Done)) = true.
Proof.
  unfold call_epilogue_code, finalize_code.
  destruct (stackCanary config), (find symtab "__cxa_finalize") as [s|];
    try destruct (negb _ && _); done.
Qed.

(** The epilogue ends with the status 0 on top of the stack, unless
    something in it traps. *)
Lemma exec_call_epilogue m :
  match exec h (append (call_epilogue_code config symtab)
                       (Seq (I64Const SYNC_CALL_EXECUTED) Done)) m with
  | Normal m' => hd_error (stack m') = Some (I64 0)
  | Returned _ => False
  | Trapped _ => True
  end.
Proof.
  pose proof (exec_returns_free h _ returns_free_call_epilogue m) as Hfree.
  rewrite exec_append in *.
  destruct (exec h (call_epilogue_code config symtab) m); try done.
  by eapply Hfree.
Qed.

Lemma exec_call_epilogue_empty m :
  stackCanary config = false ->
  finalize_code symtab = Done ->
  exec h (append (call_epilogue_code config symtab)
                 (Seq (I64Const SYNC_CALL_EXECUTED) Done)) m
  = Normal (push (I64 0) m).
Proof. unfold call_epilogue_code. by intros -> ->. Qed.

End Call_epilogue.

(** * The claims *)



(** The three outcomes on the example contract, run. *)
Example sync_call_executed :
  final_value
    (exec (Examples.runtime 0
             (call_id Examples.hash_id "withdraw:withdraw_handler"))
          (sync_call_code Examples.hash_id (Examples.options false)
             Examples.contract
             (first_occurrences (all_calls Examples.contract)))
          Examples.incoming_call)
  = Some (I64 0).
Proof. by vm_compute. Qed.

Example sync_call_bad_version :
  returned_value
    (exec (Examples.runtime 1
             (call_id Examples.hash_id "withdraw:withdraw_handler"))
          (sync_call_code Examples.hash_id (Examples.options false)
             Examples.contract
             (first_occurrences (all_calls Examples.contract)))
          Examples.incoming_call)
  = Some (I64 (2 ^ 64 - 10000)).
Proof. by vm_compute. Qed.

Example sync_call_unknown_function :
  returned_value
    (exec (Examples.runtime 0 77)
          (sync_call_code Examples.hash_id (Examples.options false)
             Examples.contract
             (first_occurrences (all_calls Examples.contract)))
          Examples.incoming_call)
  = Some (I64 (2 ^ 64 - 10001)).
Proof. by vm_compute. Qed.

(** C10: when the action/notification dispatcher is written, a missing
    [current_time] under [stackCanary], and a missing [eosio_assert_code]
    (or one whose function index is not below the number of symbols), each
    stop the link with [fatal]. *)
Theorem dispatcher_missing_helper_is_fatal string_to_name config symtab :
  createDispatchFunction string_to_name config symtab <> NullDeref ->
  (stackCanary config = true ->
   find symtab "current_time" = None ->
   createDispatchFunction string_to_name config symtab
   = Fatal "internal error, current_time not found")
  /\ (find symtab "eosio_assert_code" = None
      \/ (exists s, find symtab "eosio_assert_code" = Some s
                    /\ numSymbols symtab <= getFunctionIndex s) ->
      exists msg,
        createDispatchFunction string_to_name config symtab = Fatal msg).
Proof.
  unfold createDispatchFunction. intros Hdefined. split.
  - intros Hcanary Htime. revert Hdefined.
    unfold dispatch_BodyContent, stack_canary_prologue.
    rewrite Hcanary, Htime.
    destruct (find symtab "eosio_set_contract_name") as [c|]; [|done].
    destruct call_ctors_Ok with symtab as [ctors Hctors].
    cbn. by rewrite Hctors.
  - intros Hassert.
    assert (halts (dispatch_BodyContent string_to_name config symtab))
      as Hhalts.
    { apply halts_dispatch_BodyContent. unfold assert_idx, assert_sym.
      destruct Hassert as [->|(s & -> & Hs)]; [done|].
      cbn. apply negb_true_iff, Z.ltb_ge. done. }
    destruct (dispatch_BodyContent string_to_name config symtab);
      try done. by eexists.
Qed.

Lemma dispatcher_missing_helper_is_fatal_witness :
  createDispatchFunction string_to_name_spec (Examples.options true)
    Examples.bare <> NullDeref
  /\ createDispatchFunction string_to_name_spec (Examples.options true)
       Examples.bare
     = Fatal "internal error, current_time not found"
  /\ exists msg,
       createDispatchFunction string_to_name_spec (Examples.options false)
         Examples.bare = Fatal msg.
Proof.
  split; [by vm_compute|]. split.
  - apply dispatcher_missing_helper_is_fatal; by vm_compute.
  - apply dispatcher_missing_helper_is_fatal; [by vm_compute|by left].
Defined.

(** C9, as stated, fails: with [__wasm_call_ctors] at function index 0 and
    [__cxa_finalize] at an index beyond the number of symbols, both symbols
    are present and neither call is written. *)
Lemma ctors_and_finalize_counterexample :
  exists body,
    dispatch_BodyContent string_to_name_spec (Examples.options false)
      Examples.guarded = Ok tt body
    /\ ~ calls_ctors_and_finalize Examples.guarded false body.
Proof.
  destruct (dispatch_BodyContent string_to_name_spec (Examples.options false)
              Examples.guarded) as [[] body| | |] eqn:Hbody;
    try (vm_compute in Hbody; discriminate Hbody).
  exists body. split; [done|]. intros [Hctors _].
  destruct (Hctors (Examples.symbol "__wasm_call_ctors" 0) eq_refl)
    as (start & rest & Hsplit & Hstart); [done|].
  apply (Encodes_decode_first _ _ rest) in Hstart.
  change (encodeULEB128 0) with [0] in Hsplit.
  apply (f_equal (fun bs => decode_first 3 (tl bs))) in Hsplit.
  cbn [tl app length] in *. rewrite Hstart in Hsplit.
  vm_compute in Hbody. apply Ok_inj in Hbody as [_ <-].
  clear Hctors. vm_compute in Hsplit. discriminate Hsplit.
Qed.

(** C9, amended: the call of [__wasm_call_ctors] follows the call of
    [eosio_set_contract_name] when the symbol is present with a function
    index other than 0, and [__cxa_finalize(NULL)] ends the body when that
    symbol is present with a function index other than 0 and below the
    number of symbols. *)
Theorem ctors_and_finalize_calls string_to_name config symtab body :
  dispatch_BodyContent string_to_name config symtab = Ok tt body ->
  calls_ctors_and_finalize symtab true body.
Proof.
  intros (c & ctors & prologue & action & notify & epilogue & fin
          & Hc & Hctors & _ & _ & _ & _ & Hfin & ->)
         %dispatch_BodyContent_shape.
  split.
  - intros s Hs Hguard. specialize (Hguard eq_refl).
    unfold call_ctors in Hctors. rewrite Hs in Hctors.
    destruct (Z.eqb_spec (getFunctionIndex s) 0); [done|].
    cbn in Hctors. apply Ok_inj in Hctors as [_ <-]. eexists (_ ++ _), _.
    split; [f_equal; apply app_assoc|].
    unfold index_of. rewrite Hc. read_stream.
  - intros s Hs Hguard. destruct (Hguard eq_refl) as [Hnz Hlt].
    unfold call_cxa_finalize in Hfin. rewrite Hs in Hfin.
    destruct (Z.eqb_spec (getFunctionIndex s) 0); [done|].
    destruct (Z.ltb_spec (getFunctionIndex s) (numSymbols symtab)); [|lia].
    cbn in Hfin. apply Ok_inj in Hfin as [_ <-].
    rewrite !app_assoc, <- !(app_assoc _ _ [u8 OPCODE_END]),
      <- (app_assoc _ (_ :: _)).
    eexists _, _. split; [done|].
    destruct (find symtab "pre_dispatch"); read_stream.
Qed.

Lemma ctors_and_finalize_calls_witness :
  exists body,
    dispatch_BodyContent string_to_name_spec (Examples.options true)
      Examples.contract = Ok tt body
    /\ calls_ctors_and_finalize Examples.contract true body.
Proof.
  destruct (dispatch_BodyContent string_to_name_spec (Examples.options true)
              Examples.contract) as [[] body| | |] eqn:Hbody;
    try (vm_compute in Hbody; discriminate Hbody).
  exists body. split; [done|]. by apply (ctors_and_finalize_calls _ _ _ _ Hbody).
Defined.

(** ** What the canary code does when run *)

Section Memory.



End Memory.

Section Canary_semantics.

Variable symtab : SymbolTable.
Variable h : host.


(** The epilogue: a changed canary reaches
    [eosio_assert_code(0, 8000000000000000002)], an intact one does not. *)
Lemma exec_canary_epilogue_mismatch stk ls σ tr held seen :
  globals σ (global_index_of symtab "__stack_canary") = I64 held ->
  load 8 σ (u32 (canary_address symtab)) = Some seen ->
  seen <> held ->
  (index_of symtab "eosio_assert_code",
   I64 8000000000000000002 :: I32 0 :: stk)
  ∈ trace_of (exec h (canary_epilogue_code symtab)
               {| stack := stk; locals := ls; st := σ; trace := tr |}).
Proof.
  intros Hheld Hseen Hne. unfold canary_epilogue_code. run.
  rewrite Hheld, Z.add_0_r, Hseen. run.
  destruct (Z.eqb_spec held seen); [done|]. run.
  destruct (h _ _ _) as [[s' σ']|]; run; apply elem_of_app; right; by left.
Qed.


End Canary_semantics.

(** C1, where it fails: in a link with the stack canary on and
    [current_time] at function index 128, the prologue written into the
    dispatcher starts with the bytes [0x10 0x80 0x24]; read as WebAssembly
    that is a call of function 4608, the byte after it is no instruction of
    the prologue at all, and so the body is not the code that stores
    [current_time()] in [__stack_canary] and in memory. *)
Theorem canary_prologue_with_late_clock :
  index_of Examples.late_clock "current_time" = 128
  /\ stack_canary_prologue Examples.late_clock
     = Ok tt [16; 128; 36; 1; 65; 16; 35; 1; 55; 3; 0]
  /\ (exists front back,
        dispatch_BodyContent string_to_name_spec (Examples.options true)
          Examples.late_clock
        = Ok tt (front ++ [16; 128; 36; 1; 65; 16; 35; 1; 55; 3; 0] ++ back))
  /\ decode_first 1 [16; 128; 36; 1; 65; 16; 35; 1; 55; 3; 0]
     = Some ([Op (Call 4608)], [1; 65; 16; 35; 1; 55; 3; 0])
  /\ decode [16; 128; 36; 1; 65; 16; 35; 1; 55; 3; 0]
     <> Some (flatten (canary_prologue_code Examples.late_clock)).
Proof.
  split; [reflexivity|]. split; [by vm_compute|]. split.
  - exists [0; 32; 0; 16; 1].
    eexists. vm_compute. reflexivity.
  - split; [by vm_compute|]. by vm_compute.
Qed.

(** The second slip of the same block: the operand of [i32.const] goes through
    [writeUleb128], so with [__data_end] at 8192 the address the code
    computes, 8200, is written as [0x88 0x40], and those bytes are the signed
    constant -8184. *)
Example canary_address_sign :
  stack_canary_prologue Examples.contract
  = Ok tt [16; 3; 36; 1; 65; 136; 64; 35; 1; 55; 3; 0]
  /\ decode [16; 3; 36; 1; 65; 136; 64; 35; 1; 55; 3; 0]
     = Some [Op (Call 3); Op (GlobalSet 1); Op (I32Const (-8184));
             Op (GlobalGet 1); Op (I64Store 3 0)].
Proof. split; by vm_compute. Qed.


Section Raw_byte.




End Raw_byte.



(** ** Output segments *)

Section Segment_names.

Lemma startswith_begins_with name p :
  startswith name p = true <-> begins_with name p.
Proof.
  unfold startswith, begins_with. revert name.
  induction p as [|c p IH]; intros name.
  - split; [by exists name|]. by destruct name.
  - destruct name as [|d name]; cbn [String.prefix].
    + split; [done|]. by intros [rest ?].
    + destruct (Ascii.ascii_dec c d) as [->|Hne].
      * rewrite IH. split; intros [rest Hrest]; exists rest.
        -- cbn. by rewrite Hrest.
        -- cbn in Hrest. by injection Hrest.
      * split; [done|]. intros [rest Hrest]. cbn in Hrest.
        injection Hrest as -> _. done.
Qed.

Lemma startswith_false name p :
  ~ begins_with name p -> startswith name p = false.
Proof.
  intros Hno. destruct (startswith name p) eqn:Hs; [|done].
  by apply startswith_begins_with in Hs.
Qed.

End Segment_names.

Section Output_segments.

Variable config : Configuration.

Lemma segments_consistent_initial : segments_consistent config Writer.initial.
Proof. split; [intros n i Hn|intros i s Hs]; done. Qed.

Lemma new_segment_flags n i :
  flags_as_required config
    (if passiveSegments config || String.eqb n ".tdata"
     then OutputSegment.set_initFlags (OutputSegment.create n i)
            WASM_SEGMENT_IS_PASSIVE
     else OutputSegment.create n i).
Proof.
  unfold flags_as_required.
  destruct (passiveSegments config); cbn.
  { split; [split; auto|auto]. }
  destruct (String.eqb_spec n ".tdata") as [->|Hne]; cbn.
  { split; [split; auto|auto]. }
  split; [|auto]. split; [done|]. by intros [|].
Qed.

Lemma placeInputSegment_consistent w segment :
  segments_consistent config w ->
  segments_consistent config (placeInputSegment config w segment)
  /\ (forall x, placed config w x ->
                placed config (placeInputSegment config w segment) x)
  /\ (live segment = true ->
      placed config (placeInputSegment config w segment) segment).
Proof.
  intros [Hmap Hsegs]. unfold placeInputSegment.
  destruct (live segment) eqn:Hlive; cbn [negb];
    [|split; [by split|split; [done|done]]].
  set (n := getOutputDataSegmentName config (segName segment)).
  destruct (Writer.segmentMap w !! n) as [i|] eqn:Hn; cbn.
  - (* the segment of that name exists *)
    destruct (Hmap n i Hn) as (s & Hs & Hname).
    split; [split|split].
    + intros n' i' Hn'. destruct (Hmap n' i' Hn') as (s' & Hs' & Hname').
      cbn. destruct (decide (i' = i)) as [->|Hne].
      * rewrite list_lookup_alter_eq, Hs'. cbn. by eexists.
      * rewrite list_lookup_alter_ne by (by intros ->). by eexists.
    + intros i' s'. cbn. destruct (decide (i' = i)) as [->|Hne].
      * rewrite list_lookup_alter_eq, Hs. intros [= <-]. cbn.
        destruct (Hsegs i s Hs) as (Hm & Hi & Hf & Hin).
        split; [done|]. split; [done|]. split; [done|].
        intros x [Hx|Hx%list_elem_of_singleton]%elem_of_app.
        -- by apply Hin.
        -- subst x. by rewrite Hname.
      * rewrite list_lookup_alter_ne by (by intros ->). apply Hsegs.
    + intros x (s' & [i' Hs']%list_elem_of_lookup & Hname' & Hx).
      destruct (decide (i' = i)) as [->|Hne].
      * exists (OutputSegment.addInputSegment s' segment).
        split; [|split; [done|]].
        -- apply list_elem_of_lookup. exists i. cbn.
           by rewrite list_lookup_alter_eq, Hs'.
        -- cbn. apply elem_of_app. by left.
      * exists s'. split; [|done]. apply list_elem_of_lookup. exists i'.
        cbn. by rewrite list_lookup_alter_ne.
    + intros _. exists (OutputSegment.addInputSegment s segment).
      split; [|split; [done|]].
      * apply list_elem_of_lookup. exists i. cbn.
        by rewrite list_lookup_alter_eq, Hs.
      * cbn. apply elem_of_app. right. by apply list_elem_of_singleton.
  - (* a new segment *)
    set (s0 := if passiveSegments config || String.eqb n ".tdata"
               then _ else _).
    assert (OutputSegment.name s0 = n) as Hname0
      by (unfold s0; by destruct (_ || _)).
    assert (OutputSegment.index s0 = length (Writer.segments w)) as Hindex0
      by (unfold s0; by destruct (_ || _)).
    assert (OutputSegment.inputSegments s0 = []) as Hin0
      by (unfold s0; by destruct (_ || _)).
    pose proof (new_segment_flags n (length (Writer.segments w))) as Hflags0.
    fold s0 in Hflags0.
    split; [split|split].
    + intros n' i'. cbn. destruct (decide (n' = n)) as [->|Hne].
      * rewrite lookup_insert_eq. intros [= <-].
        exists (OutputSegment.addInputSegment s0 segment). split; [|done].
        by rewrite lookup_app_r, Nat.sub_diag.
      * rewrite lookup_insert_ne by done. intros Hn'.
        destruct (Hmap n' i' Hn') as (s' & Hs' & Hname').
        exists s'. split; [|done]. by apply lookup_app_l_Some.
    + intros i' s'. cbn. rewrite lookup_app_Some.
      intros [Hs'|[Hle Hs']].
      * destruct (Hsegs i' s' Hs') as (Hm & Hrest).
        split; [|done]. rewrite lookup_insert_ne; [done|].
        intros Heq. rewrite <- Heq in Hm. by rewrite Hn in Hm.
      * apply list_lookup_singleton_Some in Hs' as [Hi' <-].
        assert (i' = length (Writer.segments w)) as -> by lia.
        cbn. rewrite Hname0, lookup_insert_eq, Hin0.
        split; [done|]. split; [done|]. split; [done|].
        by intros x ->%list_elem_of_singleton.
    + intros x (s' & Hs' & Hx). exists s'. split; [|done].
      cbn. apply elem_of_app. by left.
    + intros _. exists (OutputSegment.addInputSegment s0 segment).
      split; [|split].
      * cbn. apply elem_of_app. right. by apply list_elem_of_singleton.
      * done.
      * cbn. apply elem_of_app. right. by apply list_elem_of_singleton.
Qed.

Lemma placeInputSegments_consistent l w :
  segments_consistent config w ->
  segments_consistent config (foldl (placeInputSegment config) w l)
  /\ (forall x, placed config w x ->
                placed config (foldl (placeInputSegment config) w l) x)
  /\ (forall segment,
        segment ∈ l -> live segment = true ->
        placed config (foldl (placeInputSegment config) w l) segment).
Proof.
  revert w. induction l as [|segment l IH]; intros w Hw; cbn [foldl].
  { split; [done|]. split; [done|]. by intros segment ?%elem_of_nil. }
  destruct (placeInputSegment_consistent w segment Hw) as (Hw' & Hold & Hnew).
  destruct (IH _ Hw') as (Hw'' & Hold' & Hnew').
  split; [done|]. split; [by auto|].
  intros x [->|Hx]%elem_of_cons Hlive; [by auto|by apply Hnew'].
Qed.

Lemma placeInputSegments_abis l w :
  Writer.abis (foldl (placeInputSegment config) w l) = Writer.abis w.
Proof.
  revert w. induction l as [|segment l IH]; intros w; cbn [foldl]; [done|].
  rewrite IH. unfold placeInputSegment.
  destruct (negb (live segment)); [done|]. by destruct (_ !! _).
Qed.

Lemma placeObjFile_consistent w file :
  segments_consistent config w ->
  segments_consistent config (placeObjFile config w file)
  /\ (forall x, placed config w x ->
                placed config (placeObjFile config w file) x)
  /\ (forall segment,
        segment ∈ segments file -> live segment = true ->
        placed config (placeObjFile config w file) segment).
Proof.
  intros Hw. unfold placeObjFile.
  destruct (negb (empty (getEosioABI file)));
    [|by apply placeInputSegments_consistent].
  set (w' := Writer.make _ _ _ _).
  destruct (placeInputSegments_consistent (segments file) w' Hw)
    as (Hw' & Hold & Hnew).
  split; [done|]. split; [|done]. intros x Hx. exact (Hold x Hx).
Qed.

Lemma placeObjFile_abis w file :
  Writer.abis (placeObjFile config w file)
  = Writer.abis w
    ++ (if negb (empty (getEosioABI file)) then [getEosioABI file] else []).
Proof.
  unfold placeObjFile. rewrite placeInputSegments_abis.
  destruct (negb (empty (getEosioABI file))); [done|].
  by rewrite app_nil_r.
Qed.

Lemma placeObjFiles_consistent fs w :
  segments_consistent config w ->
  segments_consistent config (foldl (placeObjFile config) w fs)
  /\ (forall x, placed config w x ->
                placed config (foldl (placeObjFile config) w fs) x)
  /\ (forall file segment,
        file ∈ fs -> segment ∈ segments file -> live segment = true ->
        placed config (foldl (placeObjFile config) w fs) segment).
Proof.
  revert w. induction fs as [|file fs IH]; intros w Hw; cbn [foldl].
  { split; [done|]. split; [done|]. by intros file segment ?%elem_of_nil. }
  destruct (placeObjFile_consistent w file Hw) as (Hw' & Hold & Hnew).
  destruct (IH _ Hw') as (Hw'' & Hold' & Hnew').
  split; [done|]. split; [by auto|].
  intros f x [->|Hf]%elem_of_cons Hx Hlive; [by auto|by eapply Hnew'].
Qed.

Lemma placeObjFiles_abis fs w :
  Writer.abis (foldl (placeObjFile config) w fs)
  = Writer.abis w
    ++ List.filter (fun abi => negb (empty abi)) (map getEosioABI fs).
Proof.
  revert w. induction fs as [|file fs IH]; intros w;
    cbn [foldl map List.filter].
  { by rewrite app_nil_r. }
  rewrite IH, placeObjFile_abis.
  destruct (negb (empty (getEosioABI file))); [|by rewrite app_nil_r].
  by rewrite <- app_assoc.
Qed.

End Output_segments.

(** C5: the output name of a segment follows the four rules in their order:
    [.data] under PIC; else [.tdata] for a name that begins with [.tdata] or
    [.tbss]; else, when data segments are merged, [.text], [.data], [.bss]
    or [.rodata] for a name that begins with that and a dot; else the name
    itself.  After [createOutputSegments] every live input segment of every
    object file is listed in the output segment of that name, an output
    segment lists live input segments of its name only, no two output
    segments share a name, and an output segment is passive exactly when
    passive segments are asked for or its name is [.tdata]. *)
Theorem output_segment_name_and_passive_flag config symtab :
  (forall name,
     (isPic config = true -> getOutputDataSegmentName config name = ".data")
     /\ (isPic config = false ->
         begins_with name ".tdata" \/ begins_with name ".tbss" ->
         getOutputDataSegmentName config name = ".tdata")
     /\ (isPic config = false ->
         ~ begins_with name ".tdata" -> ~ begins_with name ".tbss" ->
         mergeDataSegments config = true ->
         (begins_with name ".text." ->
          getOutputDataSegmentName config name = ".text")
         /\ (begins_with name ".data." ->
             getOutputDataSegmentName config name = ".data")
         /\ (begins_with name ".bss." ->
             getOutputDataSegmentName config name = ".bss")
         /\ (begins_with name ".rodata." ->
             getOutputDataSegmentName config name = ".rodata")
         /\ (~ begins_with name ".text." -> ~ begins_with name ".data." ->
             ~ begins_with name ".bss." -> ~ begins_with name ".rodata." ->
             getOutputDataSegmentName config name = name))
     /\ (isPic config = false ->
         ~ begins_with name ".tdata" -> ~ begins_with name ".tbss" ->
         mergeDataSegments config = false ->
         getOutputDataSegmentName config name = name))
  /\ (forall file segment,
        file ∈ objectFiles symtab -> segment ∈ segments file ->
        live segment = true ->
        placed config (createOutputSegments config symtab Writer.initial)
          segment)
  /\ (forall i s,
        Writer.segments (createOutputSegments config symtab Writer.initial)
          !! i = Some s ->
        (OutputSegment.initFlags s = WASM_SEGMENT_IS_PASSIVE
         <-> passiveSegments config = true \/ OutputSegment.name s = ".tdata")
        /\ OutputSegment.index s = i
        /\ (forall segment,
              segment ∈ OutputSegment.inputSegments s ->
              live segment = true
              /\ getOutputDataSegmentName config (segName segment)
                 = OutputSegment.name s)
        /\ (forall j s',
              Writer.segments
                (createOutputSegments config symtab Writer.initial) !! j
              = Some s' ->
              OutputSegment.name s' = OutputSegment.name s -> j = i)).
Proof.
  split; [|split].
  - intros name. unfold getOutputDataSegmentName.
    split; [by intros ->|]. split; [|split].
    + intros -> [Ht|Ht]; apply startswith_begins_with in Ht; rewrite Ht;
        [done|by rewrite orb_true_r].
    + intros -> Htdata%startswith_false Htbss%startswith_false ->.
      rewrite Htdata, Htbss. cbn [orb negb].
      split; [|split; [|split; [|split]]].
      * by intros ->%startswith_begins_with.
      * intros [rest ->]. by destruct rest; vm_compute.
      * intros [rest ->]. by destruct rest; vm_compute.
      * intros [rest ->]. by destruct rest; vm_compute.
      * intros Ha%startswith_false Hb%startswith_false Hc%startswith_false
          Hd%startswith_false. by rewrite Ha, Hb, Hc, Hd.
    + intros -> Htdata%startswith_false Htbss%startswith_false ->.
      by rewrite Htdata, Htbss.
  - intros file segment Hfile Hsegment Hlive.
    by eapply (placeObjFiles_consistent config (objectFiles symtab)
                 Writer.initial (segments_consistent_initial config)).
  - intros i s Hs.
    destruct (placeObjFiles_consistent config (objectFiles symtab)
                Writer.initial (segments_consistent_initial config))
      as ([Hmap Hsegs] & _ & _).
    destruct (Hsegs i s Hs) as (Hm & Hi & [Hflags _] & Hin).
    split; [done|]. split; [done|]. split; [done|].
    intros j s' Hs' Hname. destruct (Hsegs j s' Hs') as (Hm' & _).
    rewrite Hname, Hm in Hm'. by injection Hm'.
Qed.

Lemma output_segment_name_and_passive_flag_witness :
  getOutputDataSegmentName Links.two_pages ".tbss.slot" = ".tdata"
  /\ getOutputDataSegmentName Links.two_pages ".data.table" = ".data"
  /\ placed Links.two_pages
       (createOutputSegments Links.two_pages Links.objects Writer.initial)
       (Links.segment ".data.table" true 4 100)
  /\ map (fun s => (OutputSegment.name s, OutputSegment.initFlags s,
                    map segName (OutputSegment.inputSegments s)))
       (Writer.segments
          (createOutputSegments Links.two_pages Links.objects Writer.initial))
     = [(".data", 0, [".data.counter"; ".data.table"]);
        (".tdata", 1, [".tbss.slot"])].
Proof.
  destruct (output_segment_name_and_passive_flag Links.two_pages
              Links.objects) as (Hname & Hplaced & _).
  split; [|split; [|split]].
  - apply (Hname ".tbss.slot"); [done|]. right. by exists ".slot".
  - apply (Hname ".data.table"); try done.
    + intros [rest [=]].
    + intros [rest [=]].
    + by exists "table".
  - apply (Hplaced Links.b_o); [|by left|done].
    right. by left.
  - by vm_compute.
Defined.

(** ** The init functions *)

Section Stable_sort.

Lemma ascending_nil : ascending [].
Proof. by intros i j a b ?. Qed.

Lemma ascending_cons x fs :
  ascending (x :: fs)
  <-> (forall y, y ∈ fs -> priority x <= priority y) /\ ascending fs.
Proof.
  split.
  - intros Hasc. split.
    + intros y [j Hj]%list_elem_of_lookup.
      apply (Hasc 0%nat (S j) x y); [done|done|lia].
    + intros i j a b Ha Hb Hij. apply (Hasc (S i) (S j) a b); [done|done|lia].
  - intros [Hx Hasc] [|i] [|j] a b Ha Hb Hij; try lia.
    + injection Ha as <-. apply Hx. apply list_elem_of_lookup. by exists j.
    + apply (Hasc i j a b); [done|done|lia].
Qed.

Lemma elem_of_insert_sorted y x fs :
  y ∈ insert_sorted lower_priority x fs <-> y = x \/ y ∈ fs.
Proof.
  induction fs as [|z fs IH]; cbn [insert_sorted].
  - rewrite list_elem_of_singleton, elem_of_nil. tauto.
  - case_match; rewrite !elem_of_cons; [rewrite IH|]; tauto.
Qed.

Lemma ascending_insert_sorted x fs :
  ascending fs -> ascending (insert_sorted lower_priority x fs).
Proof.
  induction fs as [|z fs IH]; cbn [insert_sorted]; intros Hasc.
  - apply ascending_cons. split; [by intros y ?%elem_of_nil|done].
  - apply ascending_cons in Hasc as [Hz Hasc].
    unfold lower_priority at 1.
    destruct (Z.ltb_spec (priority z) (priority x)) as [Hlt|Hge];
      apply ascending_cons.
    + split; [|by apply IH].
      intros y [->|Hy]%elem_of_insert_sorted; [lia|by apply Hz].
    + split; [|by apply ascending_cons].
      intros y [->|Hy]%elem_of_cons; [done|]. specialize (Hz y Hy). lia.
Qed.

Lemma of_priority_cons p x fs :
  of_priority p (x :: fs)
  = if priority x =? p then x :: of_priority p fs else of_priority p fs.
Proof. done. Qed.

Lemma of_priority_insert_sorted p x fs :
  of_priority p (insert_sorted lower_priority x fs) = of_priority p (x :: fs).
Proof.
  induction fs as [|z fs IH]; cbn [insert_sorted]; [done|].
  unfold lower_priority at 1.
  destruct (Z.ltb_spec (priority z) (priority x)) as [Hlt|Hge]; [|done].
  rewrite (of_priority_cons p z), IH, !of_priority_cons.
  destruct (Z.eqb_spec (priority x) p) as [Hx|Hx]; [|done].
  destruct (Z.eqb_spec (priority z) p) as [Hz|Hz]; [lia|done].
Qed.

Lemma insert_sorted_Permutation x fs : insert_sorted lower_priority x fs ≡ₚ x :: fs.
Proof.
  induction fs as [|z fs IH]; cbn [insert_sorted]; [done|].
  case_match; [|done]. rewrite IH. apply Permutation_swap.
Qed.

Lemma stable_sort_ascending fs : ascending (stable_sort lower_priority fs).
Proof.
  induction fs as [|x fs IH]; [apply ascending_nil|].
  by apply ascending_insert_sorted.
Qed.

Lemma stable_sort_of_priority p fs :
  of_priority p (stable_sort lower_priority fs) = of_priority p fs.
Proof.
  induction fs as [|x fs IH]; [done|].
  change (stable_sort lower_priority (x :: fs))
    with (insert_sorted lower_priority x (stable_sort lower_priority fs)).
  by rewrite of_priority_insert_sorted, !of_priority_cons, IH.
Qed.

Lemma stable_sort_Permutation fs : stable_sort lower_priority fs ≡ₚ fs.
Proof.
  induction fs as [|x fs IH]; [done|].
  change (stable_sort lower_priority (x :: fs))
    with (insert_sorted lower_priority x (stable_sort lower_priority fs)).
  rewrite insert_sorted_Permutation. by apply Permutation_skip.
Qed.

End Stable_sort.

Section Init_functions.

Variable config : Configuration.
Variable symtab : SymbolTable.
Variable NDEBUG : bool.

Lemma addInitFunction_Ok file f l l' o :
  addInitFunction NDEBUG file f l = Ok l' o ->
  Writer.initFunctions (writer l')
  = Writer.initFunctions (writer l)
    ++ (if isDiscarded (getFunctionSymbol file (initSymbol f)) then []
        else [{| sym := getFunctionSymbol file (initSymbol f);
                 priority := Priority f |}])
  /\ wasmSym l' = wasmSym l.
Proof.
  unfold addInitFunction.
  destruct (isDiscarded _); [intros [<- _]%Ok_inj; by rewrite app_nil_r|].
  destruct (NDEBUG || isLive _); cbn; [|done].
  by destruct (negb (signatureIsVoid _)); intros [<- _]%Ok_inj.
Qed.

Lemma collect_file file fs l l' o :
  for_each (addInitFunction NDEBUG file) fs l = Ok l' o ->
  Writer.initFunctions (writer l')
  = Writer.initFunctions (writer l)
    ++ (f ← fs;
        if isDiscarded (getFunctionSymbol file (initSymbol f)) then []
        else [{| sym := getFunctionSymbol file (initSymbol f);
                 priority := Priority f |}])
  /\ wasmSym l' = wasmSym l.
Proof.
  revert l o. induction fs as [|f fs IH]; intros l o.
  { intros [<- _]%Ok_inj. by rewrite app_nil_r. }
  rewrite for_each_cons.
  intros (l1 & o1 & o2 & [H1 Hs1]%addInitFunction_Ok & [H2 Hs2]%IH & _)
    %bind_Ok_inv.
  rewrite H2, H1, Hs2, Hs1, <- app_assoc. done.
Qed.

Lemma collect_files objs l l' o :
  for_each (fun file l => for_each (addInitFunction NDEBUG file)
                            (InitFunctions file) l) objs l = Ok l' o ->
  Writer.initFunctions (writer l')
  = Writer.initFunctions (writer l)
    ++ (file ← objs;
        f ← InitFunctions file;
        if isDiscarded (getFunctionSymbol file (initSymbol f)) then []
        else [{| sym := getFunctionSymbol file (initSymbol f);
                 priority := Priority f |}])
  /\ wasmSym l' = wasmSym l.
Proof.
  revert l o. induction objs as [|file objs IH]; intros l o.
  { intros [<- _]%Ok_inj. by rewrite app_nil_r. }
  rewrite for_each_cons.
  intros (l1 & o1 & o2 & [H1 Hs1]%collect_file & [H2 Hs2]%IH & _)
    %bind_Ok_inv.
  rewrite H2, H1, Hs2, Hs1, <- app_assoc. done.
Qed.

(** What [calculateInitFunctions] leaves in the writer. *)
Lemma calculateInitFunctions_Ok l l' o :
  calculateInitFunctions config symtab NDEBUG l = Ok l' o ->
  wasmSym l' = wasmSym l
  /\ ((relocatable config = false
       /\ (exists c, WasmSym.callCtors (wasmSym l) = Some c
                     /\ isLive c = false)
       /\ Writer.initFunctions (writer l') = Writer.initFunctions (writer l))
      \/ ((relocatable config = true
           \/ exists c, WasmSym.callCtors (wasmSym l) = Some c
                        /\ isLive c = true)
          /\ Writer.initFunctions (writer l')
             = stable_sort lower_priority
                 (Writer.initFunctions (writer l) ++ discovered symtab))).
Proof.
  unfold calculateInitFunctions.
  intros (skip & o1 & o2 & Hskip & Hrest & _)%bind_Ok_inv.
  destruct skip.
  - apply Ok_inj in Hrest as [<- _]. split; [done|]. left.
    destruct (relocatable config); [done|]. split; [done|].
    destruct (WasmSym.callCtors (wasmSym l)) as [c|]; [|done].
    cbn in Hskip. apply Ok_inj in Hskip as [Hlive _].
    split; [|done]. exists c. split; [done|]. by destruct (isLive c).
  - apply bind_Ok_inv in Hrest
      as (l1 & o3 & o4 & [H1 Hs1]%collect_files & [<- _]%Ok_inj & _).
    split; [done|]. right. split; [|cbn; by rewrite H1].
    destruct (relocatable config); [by left|]. right.
    destruct (WasmSym.callCtors (wasmSym l)) as [c|]; [|done].
    cbn in Hskip. apply Ok_inj in Hskip as [Hlive _].
    exists c. split; [done|]. by destruct (isLive c).
Qed.

(** With assertions compiled out, or every init function that is not
    discarded live, the function returns as soon as [callCtors] can be
    asked. *)
Lemma calculateInitFunctions_returns l :
  (relocatable config = true \/ is_Some (WasmSym.callCtors (wasmSym l))) ->
  (NDEBUG = true
   \/ forall file f,
        file ∈ objectFiles symtab -> f ∈ InitFunctions file ->
        isLive (getFunctionSymbol file (initSymbol f)) = true) ->
  exists l', calculateInitFunctions config symtab NDEBUG l = Ok l' [].
Proof.
  intros Hctors Hlive. unfold calculateInitFunctions.
  assert (exists skip,
            (if relocatable config then mret false
             else live ← deref (WasmSym.callCtors (wasmSym l)) isLive;
                  mret (negb live)) = Ok skip []) as [skip ->].
  { destruct (relocatable config); [by eexists|].
    destruct Hctors as [|[c ->]]; [done|]. by eexists. }
  destruct skip; [by eexists|].
  assert (forall objs l,
            (forall file, file ∈ objs -> file ∈ objectFiles symtab) ->
            exists l1,
              for_each (fun file l => for_each (addInitFunction NDEBUG file)
                                        (InitFunctions file) l) objs l
              = Ok l1 []) as Hfiles.
  { clear l Hctors. intros objs.
    induction objs as [|file objs IH]; intros l Hsub; [by eexists|].
    rewrite for_each_cons.
    assert (forall fs l,
              (forall f, f ∈ fs -> f ∈ InitFunctions file) ->
              exists l1,
                for_each (addInitFunction NDEBUG file) fs l = Ok l1 [])
      as Hfile.
    { clear l. intros fs.
      induction fs as [|f fs IHfs]; intros l Hfs; [by eexists|].
      rewrite for_each_cons.
      assert (exists l1, addInitFunction NDEBUG file f l = Ok l1 [])
        as [l1 ->].
      { unfold addInitFunction. destruct (isDiscarded _); [by eexists|].
        assert (NDEBUG || isLive (getFunctionSymbol file (initSymbol f))
                = true) as ->.
        { destruct Hlive as [->|Hlive]; [done|].
          rewrite Hlive; [by rewrite orb_true_r| |].
          - apply Hsub. by left.
          - apply Hfs. by left. }
        by eexists. }
      destruct (IHfs l1) as [l2 H2];
        [intros f' Hf'; apply Hfs; by right|].
      exists l2. by rewrite (bind_Ok _ _ _ _ _ _ eq_refl H2). }
    destruct (Hfile (InitFunctions file) l) as [l1 H1]; [done|].
    destruct (IH l1) as [l2 H2]; [intros f' Hf'; apply Hsub; by right|].
    exists l2. by rewrite (bind_Ok _ _ _ _ _ _ H1 H2). }
  destruct (Hfiles (objectFiles symtab) l) as [l1 H1]; [done|].
  eexists. cbn. rewrite H1. done.
Qed.

End Init_functions.

Section Call_ctors.

Variable config : Configuration.

Lemma call_init_functions fs :
  exists bs,
    for_each (fun f (_ : unit) =>
                writeU8 WASM_OPCODE_CALL;;
                writeUleb128 (getFunctionIndex (sym f))) fs tt = Ok tt bs
    /\ forall rest ts,
         Encodes rest ts ->
         Encodes (bs ++ rest)
           (map (fun f => Op (Call (u32 (getFunctionIndex (sym f))))) fs
            ++ ts).
Proof.
  induction fs as [|f fs (bs & Hbs & Henc)]; [by exists []|].
  exists ((u8 WASM_OPCODE_CALL
           :: encodeULEB128 (u32 (getFunctionIndex (sym f)))) ++ bs).
  rewrite for_each_cons. split.
  - by apply (bind_Ok _ _ tt).
  - intros rest ts Hrest. cbn [map app]. rewrite <- app_assoc.
    apply Encodes_call. by apply Henc.
Qed.

(** The body of [__wasm_call_ctors]: no locals, then the calls. *)
Lemma callCtors_bodyContent_tokens l :
  (passiveSegments config = true ->
   is_Some (WasmSym.initMemory (wasmSym l))) ->
  (isPic config = true -> is_Some (WasmSym.applyRelocs (wasmSym l))) ->
  exists bodyContent,
    callCtors_bodyContent config l = Ok tt bodyContent
    /\ decode_body bodyContent
       = Some ([], call_ctors_tokens config (wasmSym l)
                     (Writer.initFunctions (writer l))).
Proof.
  intros Hmem Hrelocs. unfold callCtors_bodyContent, call_ctors_tokens.
  destruct (call_init_functions (Writer.initFunctions (writer l)))
    as (calls & -> & Hcalls).
  assert (exists bs,
            when (passiveSegments config)
              (writeU8 WASM_OPCODE_CALL;;
               idx ← deref (WasmSym.initMemory (wasmSym l)) getFunctionIndex;
               writeUleb128 idx) = Ok tt bs
            /\ forall rest ts,
                 Encodes rest ts ->
                 Encodes (bs ++ rest)
                   ((if passiveSegments config
                     then [Op (Call (static_index
                                       (WasmSym.initMemory (wasmSym l))))]
                     else []) ++ ts)) as (mem & -> & Hmem').
  { destruct (passiveSegments config); [|by exists []].
    destruct Hmem as [s ->]; [done|]. eexists. split; [done|].
    intros rest ts Hrest. by apply Encodes_call. }
  assert (exists bs,
            when (isPic config)
              (writeU8 WASM_OPCODE_CALL;;
               idx ← deref (WasmSym.applyRelocs (wasmSym l)) getFunctionIndex;
               writeUleb128 idx) = Ok tt bs
            /\ forall rest ts,
                 Encodes rest ts ->
                 Encodes (bs ++ rest)
                   ((if isPic config
                     then [Op (Call (static_index
                                       (WasmSym.applyRelocs (wasmSym l))))]
                     else []) ++ ts)) as (relocs & -> & Hrelocs').
  { destruct (isPic config); [|by exists []].
    destruct Hrelocs as [s ->]; [done|]. eexists. split; [done|].
    intros rest ts Hrest. by apply Encodes_call. }
  eexists. split; [done|]. cbn [app].
  unfold decode_body.
  rewrite (decodeULEB128_encode (u32 0)) by done. cbn.
  change (Z.to_nat (u32 0)) with 0%nat. cbn.
  erewrite Encodes_decode; [done|].
  apply Hmem', Hrelocs', Hcalls. by apply (Encodes_end [] []), Encodes_nil.
Qed.

End Call_ctors.


(** The init functions of the three example files: number 13 is discarded,
    21 and 22 share a priority and keep their order, 20 comes last. *)
Example init_functions_of_three_files :
  (l' ← calculateInitFunctions Links.two_pages Links.objects false
          Links.fresh;
   mret (map (fun f => (getFunctionIndex (sym f), priority f))
           (Writer.initFunctions (writer l'))))
  = Ok [(21, 101); (22, 101); (20, 65535)] []
  /\ (l' ← calculateInitFunctions Links.two_pages Links.objects false
             Links.fresh;
      createCallCtorsFunction Links.two_pages l')
     = Ok tt [8; 0; 16; 21; 16; 22; 16; 20; 11].
Proof. split; by vm_compute. Qed.

(** ** The memory layout *)

Section Layout.

Lemma u32_bounds x : 0 <= u32 x < 2 ^ 32.
Proof. unfold u32. apply Z.mod_pos_bound. lia. Qed.

Lemma u32_small x : 0 <= x < 2 ^ 32 -> u32 x = x.
Proof. unfold u32. apply Z.mod_small. Qed.

(** Aligning up does not go down, and goes up by less than the alignment. *)
Lemma alignTo_bounds v a :
  0 <= v -> 0 < a -> v + a <= 2 ^ 64 -> v <= alignTo v a < v + a.
Proof.
  intros Hv Ha Hfit. unfold alignTo, u64.
  rewrite (Z.mod_small (v + a - 1)) by lia.
  pose proof (Z.div_mod (v + a - 1) a ltac:(lia)) as Hdiv.
  pose proof (Z.mod_pos_bound (v + a - 1) a ltac:(lia)) as Hmod.
  rewrite Z.mod_small; nia.
Qed.

Variable config : Configuration.

Lemma placeStack_Ok memoryPtr l memoryPtr' l' o :
  placeStack config memoryPtr l = Ok (memoryPtr', l') o ->
  memoryPtr'
  = (if relocatable config || isPic config then memoryPtr
     else u32 (u32 (alignTo memoryPtr stackAlignment) + zStackSize config))
  /\ WasmSym.heapBase (wasmSym l') = WasmSym.heapBase (wasmSym l)
  /\ WasmSym.dataEnd (wasmSym l') = WasmSym.dataEnd (wasmSym l)
  /\ writer l' = writer l
  /\ exists es, errors l' = errors l ++ es.
Proof.
  unfold placeStack. destruct (relocatable config || isPic config).
  { intros [[= <- <-] _]%Ok_inj. repeat split; try done.
    exists []. by rewrite app_nil_r. }
  destruct (negb _); cbn;
    (destruct (WasmSym.stackPointer (wasmSym l)); [|done]);
    intros [[= <- <-] _]%Ok_inj; cbn; repeat split; try done.
  - by eexists.
  - exists []. by rewrite app_nil_r.
Qed.

Lemma layoutSegments_facts segs memoryPtr l segs' memoryPtr' l' :
  layoutSegments segs memoryPtr l = (segs', memoryPtr', l') ->
  (0 <= memoryPtr < 2 ^ 32 -> 0 <= memoryPtr' < 2 ^ 32)
  /\ WasmSym.heapBase (wasmSym l') = WasmSym.heapBase (wasmSym l)
  /\ WasmSym.dataEnd (wasmSym l') = WasmSym.dataEnd (wasmSym l)
  /\ WasmSym.stackPointer (wasmSym l') = WasmSym.stackPointer (wasmSym l)
  /\ writer l' = writer l
  /\ errors l' = errors l.
Proof.
  revert memoryPtr l segs' memoryPtr' l'.
  induction segs as [|seg segs IH]; intros memoryPtr l segs' memoryPtr' l';
    cbn [layoutSegments].
  { by intros [= <- <- <-]. }
  destruct (layoutSegments segs _ _) as [[rest' mp] l1] eqn:Hrest.
  intros [= <- <- <-]. apply IH in Hrest as (Hmp & Hhb & Hde & Hsp & Hw & He).
  rewrite Hhb, Hde, Hsp, Hw, He.
  split; [intros _; apply Hmp, u32_bounds|].
  by destruct (bool_decide _ && _).
Qed.

Lemma layoutMemory_heap_base l l' o :
  layoutMemory config l = Ok l' o ->
  shared config = false ->
  exists data_end heap_base es,
    0 <= data_end < 2 ^ 32
    /\ WasmSym.dataEnd (wasmSym l')
       = WasmSym.setVirtualAddress (WasmSym.dataEnd (wasmSym l)) data_end
    /\ WasmSym.heapBase (wasmSym l')
       = WasmSym.setVirtualAddress (WasmSym.heapBase (wasmSym l)) heap_base
    /\ heap_base
       = (if stackFirst config || relocatable config || isPic config
          then data_end
          else u32 (u32 (alignTo data_end stackAlignment)
                    + zStackSize config))
    /\ errors l' = errors l ++ es
    /\ (initialMemory config <> 0 -> initialMemory config < heap_base ->
        es <> []).
Proof.
  unfold layoutMemory. intros Hlayout Hshared.
  apply bind_Ok_inv in Hlayout as ([mp1 l1] & o1 & o2 & H1 & Hlayout & _).
  assert (0 <= mp1 < 2 ^ 32
          /\ WasmSym.heapBase (wasmSym l1) = WasmSym.heapBase (wasmSym l)
          /\ WasmSym.dataEnd (wasmSym l1) = WasmSym.dataEnd (wasmSym l)
          /\ exists es1, errors l1 = errors l ++ es1)
    as (Hmp1 & Hhb1 & Hde1 & es1 & He1).
  { destruct (stackFirst config).
    - apply placeStack_Ok in H1 as (-> & ? & ? & ? & ?).
      split; [|done]. destruct (_ || _); [done|apply u32_bounds].
    - apply Ok_inj in H1 as [[= <- <-] _].
      split; [apply u32_bounds|]. split; [done|]. split; [done|].
      exists []. by rewrite app_nil_r. }
  cbv zeta in Hlayout.
  destruct (layoutSegments _ _ _) as [[segs data_end] l2] eqn:Hsegs.
  apply layoutSegments_facts in Hsegs as (Hmp2 & Hhb2 & Hde2 & _ & _ & He2).
  specialize (Hmp2 Hmp1). cbn in Hhb2, Hde2, He2.
  rewrite Hshared in Hlayout.
  apply bind_Ok_inv in Hlayout as ([heap_base l3] & o3 & o4 & H3 & Hlayout & _).
  exists data_end, heap_base.
  assert (heap_base
          = (if stackFirst config || relocatable config || isPic config
             then data_end
             else u32 (u32 (alignTo data_end stackAlignment)
                       + zStackSize config))
          /\ WasmSym.heapBase (wasmSym l3) = WasmSym.heapBase (wasmSym l)
          /\ WasmSym.dataEnd (wasmSym l3)
             = WasmSym.setVirtualAddress (WasmSym.dataEnd (wasmSym l))
                 data_end
          /\ exists es3, errors l3 = errors l ++ es3)
    as (Hheap & Hhb3 & Hde3 & es3 & He3).
  { destruct (stackFirst config); cbn [negb orb] in *.
    - apply Ok_inj in H3 as [[= <- <-] _]. cbn.
      rewrite Hhb2, Hde2, He2, Hhb1, Hde1, He1. by eauto.
    - apply placeStack_Ok in H3 as (-> & Hhb & Hde & _ & es & He).
      rewrite Hhb, Hde, He. cbn.
      rewrite Hhb2, Hde2, He2, Hhb1, Hde1, He1, <- app_assoc. by eauto. }
  clear H1 H3 Hhb1 Hde1 He1 Hhb2 Hde2 He2.
  set (l4 := set_wasmSym l3 _) in Hlayout.
  assert (wasmSym l4 = WasmSym.set_heapBase (wasmSym l3) heap_base
          /\ errors l4 = errors l ++ es3) as [Hsym4 He4] by done.
  clearbody l4.
  assert (wasmSym l' = wasmSym l4
          /\ exists es,
               errors l' = errors l ++ es
               /\ (initialMemory config <> 0 ->
                   initialMemory config < heap_base -> es <> []))
    as (Hsym & es & He & Hes).
  { destruct (Z.eqb_spec (initialMemory config) 0) as [Hzero|Hinit];
      cbn [negb] in Hlayout;
      [|destruct (Z.ltb_spec (initialMemory config) heap_base) as [Hlt|Hge]];
      repeat match type of Hlayout with
             | context [if ?c then _ else _] => destruct c
             end;
      apply Ok_inj in Hlayout as [<- _]; cbn; split; try done;
      rewrite He4, <- ?app_assoc; eexists; (split; [reflexivity|]);
      intros ? ?; try lia;
      intros Hnil; apply (f_equal length) in Hnil;
      rewrite ?length_app in Hnil; cbn in Hnil; lia. }
  exists es. rewrite Hsym, Hsym4. cbn. by rewrite Hhb3, Hde3.
Qed.

End Layout.

(** C4, as stated, fails: in a position-independent link that is not shared
    no stack is placed, so with the stack behind the data and a stack size
    of one page [__heap_base] is [__data_end], and not a page above it. *)
Lemma heap_base_counterexample :
  exists l',
    layoutMemory Links.pie Links.fresh = Ok l' []
    /\ shared Links.pie = false
    /\ errors l' = []
    /\ WasmSym.dataEnd (wasmSym l') = Some 1024
    /\ WasmSym.heapBase (wasmSym l') = Some 1024
    /\ ~ heap_base_bounds Links.pie
           (if stackFirst Links.pie then 0 else zStackSize Links.pie) l'.
Proof.
  destruct (layoutMemory Links.pie Links.fresh) as [l' o| | |] eqn:Hl';
    try (vm_compute in Hl'; discriminate Hl').
  vm_compute in Hl'. apply Ok_inj in Hl' as [<- <-].
  exists
    {| writer := Writer.initial;
       wasmSym :=
         WasmSym.make (Some (Examples.symbol "__wasm_call_ctors" 6))
           (Some (Examples.symbol "__wasm_init_memory" 11))
           (Some (Examples.symbol "__wasm_apply_relocs" 12))
           (Some 1024) (Some 1024) (Some 1024) (Some 1024) (Some 0) (Some 0);
       out := Out.make 0 1024 1 0; errors := []; files := ∅ |}.
  split; [by vm_compute|]. repeat (split; [done|]).
  intros Hbounds. destruct (Hbounds 1024 1024 eq_refl eq_refl) as [Hstack _].
  vm_compute in Hstack. by apply Hstack.
Qed.

(** C4, amended: in a link that is not shared and reports no error, the
    stack lies between [__data_end] and [__heap_base] only when it is placed
    behind the data (not [stackFirst]) and placed at all (neither
    relocatable nor PIC); then [__heap_base] is [__data_end], aligned to 16,
    plus the stack size, and, as long as that stays below 2^32, at least
    [__data_end] plus the stack size.  In every other case [__heap_base] is
    [__data_end].  A non-zero [initialMemory] is never below
    [__heap_base]. *)
Theorem heap_base_after_layout config l l' o :
  layoutMemory config l = Ok l' o ->
  shared config = false ->
  errors l' = errors l ->
  0 <= zStackSize config ->
  (stackFirst config || relocatable config || isPic config = false ->
   forall data_end,
     WasmSym.dataEnd (wasmSym l') = Some data_end ->
     alignTo data_end stackAlignment + zStackSize config < 2 ^ 32) ->
  heap_base_bounds config
    (if stackFirst config || relocatable config || isPic config
     then 0 else zStackSize config) l'
  /\ (is_Some (WasmSym.dataEnd (wasmSym l)) ->
      is_Some (WasmSym.dataEnd (wasmSym l')))
  /\ (is_Some (WasmSym.heapBase (wasmSym l)) ->
      is_Some (WasmSym.heapBase (wasmSym l')))
  /\ forall heap_base data_end,
       WasmSym.heapBase (wasmSym l') = Some heap_base ->
       WasmSym.dataEnd (wasmSym l') = Some data_end ->
       heap_base
       = if stackFirst config || relocatable config || isPic config
         then data_end
         else alignTo data_end stackAlignment + zStackSize config.
Proof.
  intros Hlayout Hshared Herrors Hstack Hfits.
  destruct (layoutMemory_heap_base config l l' o Hlayout Hshared)
    as (de & hb & es & Hde & Hend & Hbase & Hhb & Hes & Hsmall).
  assert (es = []) as ->.
  { rewrite Herrors in Hes. rewrite <- (app_nil_r (errors l)) in Hes at 1.
    by apply app_inv_head in Hes. }
  assert (forall heap_base data_end,
            WasmSym.heapBase (wasmSym l') = Some heap_base ->
            WasmSym.dataEnd (wasmSym l') = Some data_end ->
            heap_base = hb /\ data_end = de) as Hvalues.
  { intros heap_base data_end. rewrite Hbase, Hend.
    destruct (WasmSym.heapBase (wasmSym l)); [|done].
    destruct (WasmSym.dataEnd (wasmSym l)); [|done].
    cbn. by intros [= <-] [= <-]. }
  assert (forall heap_base data_end,
            WasmSym.heapBase (wasmSym l') = Some heap_base ->
            WasmSym.dataEnd (wasmSym l') = Some data_end ->
            data_end <= alignTo data_end stackAlignment
            /\ heap_base
               = if stackFirst config || relocatable config || isPic config
                 then data_end
                 else alignTo data_end stackAlignment + zStackSize config)
    as Hformula.
  { intros heap_base data_end Hheap Hdata.
    destruct (Hvalues _ _ Hheap Hdata) as [-> ->].
    pose proof (alignTo_bounds de stackAlignment ltac:(lia) eq_refl
                  ltac:(unfold stackAlignment; lia)) as Halign.
    split; [lia|]. rewrite Hhb.
    destruct (stackFirst config || relocatable config || isPic config)
      eqn:Hplaced; [done|].
    specialize (Hfits eq_refl de Hdata).
    rewrite (u32_small (alignTo _ _)) by lia. apply u32_small. lia. }
  split; [|split; [|split]].
  - intros heap_base data_end Hheap Hdata.
    destruct (Hformula _ _ Hheap Hdata) as [Halign Hvalue].
    destruct (Hvalues _ _ Hheap Hdata) as [-> ->]. split.
    + rewrite Hvalue. destruct (_ || _); lia.
    + intros Hinit.
      destruct (Z.le_gt_cases hb (initialMemory config)) as [|Hgt]; [done|].
      by destruct (Hsmall Hinit ltac:(lia)).
  - intros [d Hd]. rewrite Hend, Hd. by eexists.
  - intros [b Hb]. rewrite Hbase, Hb. by eexists.
  - intros heap_base data_end Hheap Hdata.
    by destruct (Hformula _ _ Hheap Hdata).
Qed.

Lemma heap_base_after_layout_witness :
  exists l',
    layoutMemory Links.two_pages Links.placed_objects = Ok l' []
    /\ WasmSym.dataEnd (wasmSym l') = Some 1152
    /\ WasmSym.heapBase (wasmSym l') = Some 9344
    /\ heap_base_bounds Links.two_pages 8192 l'.
Proof.
  destruct (layoutMemory Links.two_pages Links.placed_objects)
    as [l' o| | |] eqn:Hl'; try (vm_compute in Hl'; discriminate Hl').
  assert (o = [] /\ errors l' = []
          /\ WasmSym.dataEnd (wasmSym l') = Some 1152
          /\ WasmSym.heapBase (wasmSym l') = Some 9344)
    as (-> & Herrors & Hend & Hbase).
  { vm_compute in Hl'. apply Ok_inj in Hl' as [<- <-]. by vm_compute. }
  exists l'. split; [done|]. split; [done|]. split; [done|].
  apply (heap_base_after_layout Links.two_pages Links.placed_objects l' []
           Hl' eq_refl Herrors).
  - by vm_compute.
  - intros _ data_end Hdata. rewrite Hend in Hdata.
    injection Hdata as <-. by vm_compute.
Defined.

(** ** The ABI file *)

Section ABI_facts.

Context {ojson ABIMerger : Type}.
Variable parse : string -> try ojson.
Variable new_ABIMerger : ojson -> try ABIMerger.
Variable merge : ABIMerger -> ojson -> try ojson.
Variable set_abi : ABIMerger -> ojson -> ABIMerger.

(** The loop returns a merger exactly when every ABI was parsed and
    merged. *)
Lemma merge_abis_folded merger abis merger' :
  merge_abis parse merge set_abi merger abis = inr merger'
  <-> folded parse merge set_abi merger abis merger'.
Proof.
  split.
  - revert merger. induction abis as [|abi abis IH]; intros merger;
      cbn [merge_abis].
    + intros [= <-]. constructor.
    + destruct (parse abi) as [e|j] eqn:Hparse; [done|]. cbn.
      destruct (merge merger j) as [e|merged] eqn:Hmerge; [done|]. cbn.
      intros Hrest%IH. by econstructor.
  - induction 1 as [|merger abi j merged rest merger' Hparse Hmerge _ IH];
      [done|].
    cbn [merge_abis]. rewrite Hparse. cbn. rewrite Hmerge. cbn. done.
Qed.

Lemma last_back (abis : list string) seed :
  last abis = Some seed -> List.last abis EmptyString = seed.
Proof.
  induction abis as [|abi [|abi' abis] IH]; [done|by intros [= <-]|].
  intros Hlast. by apply IH.
Qed.

Lemma merged_abis_seeded abis merger :
  abis <> [] ->
  merged_abis parse new_ABIMerger merge set_abi abis = inr merger
  <-> seeded_and_folded parse new_ABIMerger merge set_abi abis merger.
Proof.
  intros Hne. unfold merged_abis, seeded_and_folded.
  destruct (last abis) as [seed|] eqn:Hlast;
    [|by apply last_None in Hlast].
  rewrite (last_back _ _ Hlast). split.
  - destruct (parse seed) as [e|j] eqn:Hparse; [done|]. cbn.
    destruct (new_ABIMerger j) as [e|merger0] eqn:Hnew; [done|]. cbn.
    intros Hfold%merge_abis_folded. by exists seed, j, merger0.
  - intros (seed' & j & merger0 & [= <-] & -> & Hnew & Hfold). cbn.
    rewrite Hnew. cbn. by apply merge_abis_folded.
Qed.

End ABI_facts.


(** ** The output segments, one by one *)

Section Segment_order.

Lemma first_occurrences_snoc l x :
  first_occurrences (l ++ [x])
  = if decide (x ∈ l) then first_occurrences l
    else first_occurrences l ++ [x].
Proof.
  induction l as [|y l IH]; [done|].
  cbn [app first_occurrences]. rewrite IH.
  destruct (decide (x ∈ l)) as [Hin|Hin].
  { by rewrite (decide_True (P := x ∈ y :: l)) by by right. }
  rewrite filter_app. destruct (decide (x = y)) as [->|Hne].
  - rewrite (decide_True (P := y ∈ y :: l)) by by left.
    by rewrite filter_cons_False, filter_nil, app_nil_r by tauto.
  - rewrite (decide_False (P := x ∈ y :: l))
      by (by intros [?|?]%elem_of_cons).
    by rewrite filter_cons_True, filter_nil by done.
Qed.

Variable config : Configuration.

Lemma filter_goes_to_none name l :
  name ∉ map (fun segment => getOutputDataSegmentName config (segName segment))
           l ->
  List.filter (goes_to config name) l = [].
Proof.
  induction l as [|segment l IH]; [done|]. cbn [map List.filter].
  intros Hname. unfold goes_to at 1.
  destruct (String.eqb_spec
              (getOutputDataSegmentName config (segName segment)) name)
    as [Heq|_].
  - exfalso. apply Hname. rewrite Heq. by left.
  - apply IH. intros Hin. apply Hname. by right.
Qed.

Lemma placeInputSegment_in_order w placed_so_far segment :
  segments_consistent config w ->
  segments_in_order config w placed_so_far ->
  segments_in_order config (placeInputSegment config w segment)
    (placed_so_far ++ [segment]).
Proof.
  intros [Hmap Hsegs] [Hnames Hinputs].
  unfold segments_in_order, placeInputSegment.
  rewrite List.filter_app. cbn [List.filter].
  destruct (live segment) eqn:Hlive; cbn [negb];
    [|by rewrite app_nil_r].
  set (n := getOutputDataSegmentName config (segName segment)).
  set (done := List.filter live placed_so_far) in *.
  rewrite map_app. cbn [map]. fold n. rewrite first_occurrences_snoc.
  destruct (Writer.segmentMap w !! n) as [i|] eqn:Hn; cbn.
  - destruct (Hmap n i Hn) as (s & Hs & Hname).
    assert (n ∈ map (fun segment =>
                       getOutputDataSegmentName config (segName segment))
                    done) as Hseen.
    { apply elem_of_first_occurrences. rewrite <- Hnames, <- Hname.
      apply list_elem_of_fmap. exists s. split; [done|].
      apply list_elem_of_lookup. by exists i. }
    rewrite decide_True by done. split.
    + rewrite <- Hnames. apply list_eq. intros j.
      rewrite !list_lookup_fmap.
      destruct (decide (j = i)) as [->|Hne].
      * by rewrite list_lookup_alter_eq, Hs.
      * by rewrite list_lookup_alter_ne by (by intros ->).
    + intros s' [j Hs']%list_elem_of_lookup.
      rewrite List.filter_app. cbn [List.filter].
      destruct (decide (j = i)) as [->|Hne].
      * rewrite list_lookup_alter_eq, Hs in Hs'. injection Hs' as <-. cbn.
        unfold goes_to at 2. fold n. rewrite Hname, String.eqb_refl.
        f_equal. rewrite <- Hname. apply Hinputs.
        apply list_elem_of_lookup. by exists i.
      * rewrite list_lookup_alter_ne in Hs' by (by intros ->).
        unfold goes_to at 2. fold n.
        destruct (String.eqb_spec n (OutputSegment.name s')) as [Heq|_].
        { destruct (Hsegs j s' Hs') as [Hm _]. rewrite <- Heq, Hn in Hm.
          by injection Hm as ->. }
        rewrite app_nil_r. apply Hinputs. apply list_elem_of_lookup.
        by exists j.
  - assert (n ∉ map (fun segment =>
                       getOutputDataSegmentName config (segName segment))
                    done) as Hnew.
    { intros Hin%elem_of_first_occurrences. rewrite <- Hnames in Hin.
      apply list_elem_of_fmap in Hin as (s & -> & [i Hs]%list_elem_of_lookup).
      destruct (Hsegs i s Hs) as [Hm _]. by rewrite Hn in Hm. }
    rewrite decide_False by done.
    set (s0 := if passiveSegments config || String.eqb n ".tdata"
               then _ else _).
    assert (OutputSegment.name s0 = n /\ OutputSegment.inputSegments s0 = [])
      as [Hname0 Hin0] by (unfold s0; by destruct (_ || _)).
    split.
    + rewrite map_app, Hnames. cbn. by rewrite Hname0.
    + intros s' [Hs'| ->%list_elem_of_singleton]%elem_of_app;
        rewrite List.filter_app; cbn [List.filter].
      * unfold goes_to at 2. fold n.
        destruct (String.eqb_spec n (OutputSegment.name s')) as [Heq|_].
        { exfalso. apply Hnew. apply elem_of_first_occurrences.
          rewrite <- Hnames, Heq. apply list_elem_of_fmap. by exists s'. }
        rewrite app_nil_r. by apply Hinputs.
      * cbn. rewrite Hname0, Hin0. unfold goes_to at 2. fold n.
        rewrite String.eqb_refl, filter_goes_to_none by done. done.
Qed.

Lemma placeInputSegments_in_order l w placed_so_far :
  segments_consistent config w ->
  segments_in_order config w placed_so_far ->
  segments_in_order config (foldl (placeInputSegment config) w l)
    (placed_so_far ++ l).
Proof.
  revert w placed_so_far.
  induction l as [|segment l IH]; intros w placed_so_far Hw Horder;
    cbn [foldl].
  { by rewrite app_nil_r. }
  rewrite (app_assoc placed_so_far [segment] l : _ ++ segment :: l = _).
  apply IH.
  - by apply placeInputSegment_consistent.
  - by apply placeInputSegment_in_order.
Qed.

Lemma placeObjFiles_in_order objs w placed_so_far :
  segments_consistent config w ->
  segments_in_order config w placed_so_far ->
  segments_in_order config (foldl (placeObjFile config) w objs)
    (placed_so_far ++ concat (map segments objs)).
Proof.
  revert w placed_so_far.
  induction objs as [|file objs IH]; intros w placed_so_far Hw Horder;
    cbn [foldl map concat].
  { by rewrite app_nil_r. }
  rewrite app_assoc. apply IH.
  - by apply placeObjFile_consistent.
  - unfold placeObjFile.
    destruct (negb (empty (getEosioABI file)));
      by apply placeInputSegments_in_order.
Qed.

End Segment_order.

(** X1: [createOutputSegments] makes one output segment for each output
    name, in the order in which the names first occur among the live input
    segments of the link; an output segment holds the live input segments
    of its name, each once and in link order, and so is never empty. *)
Theorem output_segments_in_first_seen_order config symtab :
  map OutputSegment.name
    (Writer.segments (createOutputSegments config symtab Writer.initial))
  = first_occurrences
      (map (fun segment => getOutputDataSegmentName config (segName segment))
         (live_segments symtab))
  /\ forall s,
       s ∈ Writer.segments
             (createOutputSegments config symtab Writer.initial) ->
       OutputSegment.inputSegments s
       = List.filter (goes_to config (OutputSegment.name s))
           (live_segments symtab)
       /\ OutputSegment.inputSegments s <> [].
Proof.
  destruct (placeObjFiles_in_order config (objectFiles symtab) Writer.initial
              [] (segments_consistent_initial config))
    as [Hnames Hinputs]; [split; [done|by intros s ?%elem_of_nil]|].
  cbn [app] in Hnames, Hinputs. fold (live_segments symtab) in *.
  split; [done|]. intros s Hs. split; [by apply Hinputs|].
  rewrite (Hinputs s Hs).
  assert (OutputSegment.name s
          ∈ map (fun segment =>
                   getOutputDataSegmentName config (segName segment))
                (live_segments symtab)) as Hname.
  { apply elem_of_first_occurrences.
    unfold createOutputSegments in Hs. rewrite <- Hnames.
    apply list_elem_of_fmap. by exists s. }
  apply list_elem_of_fmap in Hname as (segment & Hname & Hin).
  intros Hnone. apply list_elem_of_In in Hin.
  assert (In segment
            (List.filter (goes_to config (OutputSegment.name s))
               (live_segments symtab))) as Hfiltered.
  { apply List.filter_In. split; [done|]. unfold goes_to.
    rewrite <- Hname. apply String.eqb_refl. }
  by rewrite Hnone in Hfiltered.
Qed.

(** ** The memory layout, stage by stage *)

Section Layout_stages.

Variable config : Configuration.

Lemma alignTo_exact v a :
  0 <= v -> 0 < a -> v + a <= 2 ^ 64 ->
  alignTo v a = (v + a - 1) / a * a.
Proof.
  intros Hv Ha Hfit. unfold alignTo, u64.
  rewrite (Z.mod_small (v + a - 1)) by lia.
  pose proof (Z.div_mod (v + a - 1) a ltac:(lia)) as Hdiv.
  pose proof (Z.mod_pos_bound (v + a - 1) a ltac:(lia)) as Hmod.
  rewrite Z.mod_small; nia.
Qed.

Lemma alignTo_multiple v a :
  0 <= v -> 0 < a -> v + a <= 2 ^ 64 -> alignTo v a mod a = 0.
Proof.
  intros Hv Ha Hfit. rewrite alignTo_exact by done. apply Z.mod_mul. lia.
Qed.

Lemma unbounded_data_end_ge from segs :
  Forall sized segs -> from <= unbounded_data_end from segs.
Proof.
  intros Hsized. revert from.
  induction Hsized as [|seg segs [Hsize Halign] _ IH]; intros from; [done|].
  cbn [unbounded_data_end]. etrans; [|apply IH].
  assert (0 < 2 ^ OutputSegment.alignment seg) by (apply Z.pow_pos_nonneg; lia).
  pose proof (Z.div_mod (from + 2 ^ OutputSegment.alignment seg - 1)
                (2 ^ OutputSegment.alignment seg) ltac:(lia)) as Hdiv.
  pose proof (Z.mod_pos_bound (from + 2 ^ OutputSegment.alignment seg - 1)
                (2 ^ OutputSegment.alignment seg) ltac:(lia)) as Hmod.
  nia.
Qed.

(** The addresses the loop hands out do not depend on the rest of the
    link. *)
Lemma layoutSegments_addresses segs memoryPtr l la :
  (layoutSegments segs memoryPtr l).1 = (layoutSegments segs memoryPtr la).1.
Proof.
  revert memoryPtr l la.
  induction segs as [|seg segs IH]; intros memoryPtr l la; [done|].
  cbn [layoutSegments].
  match goal with
  | |- context [layoutSegments segs ?p ?l1] =>
      match goal with
      | |- context [layoutSegments segs p ?l2] =>
          lazymatch l1 with
          | l2 => fail
          | _ => specialize (IH p l1 l2)
          end
      end
  end.
  do 2 destruct (layoutSegments segs _ _) as [[? ?] ?].
  cbn in *. by injection IH as -> ->.
Qed.

Lemma layoutSegments_laid_out segs memoryPtr l segs' memoryPtr' l' :
  layoutSegments segs memoryPtr l = (segs', memoryPtr', l') ->
  0 <= memoryPtr ->
  Forall sized segs ->
  unbounded_data_end memoryPtr segs < 2 ^ 32 ->
  memoryPtr' = unbounded_data_end memoryPtr segs
  /\ Forall2 same_but_startVA segs segs'
  /\ laid_out memoryPtr segs' memoryPtr'.
Proof.
  revert memoryPtr l segs' memoryPtr' l'.
  induction segs as [|seg segs IH]; intros memoryPtr l segs' memoryPtr' l';
    cbn [layoutSegments unbounded_data_end].
  { intros [= <- <- <-] _ _ _. by repeat split. }
  intros Hlayout Hptr Hsized Hfits.
  apply Forall_cons in Hsized as [[Hsize Halign] Hsized].
  assert (0 < 2 ^ OutputSegment.alignment seg) as Hpos
    by (apply Z.pow_pos_nonneg; lia).
  assert (2 ^ OutputSegment.alignment seg <= 2 ^ 31) as Hsmall
    by (apply Z.pow_le_mono_r; lia).
  assert (u64 (2 ^ OutputSegment.alignment seg)
          = 2 ^ OutputSegment.alignment seg) as Hu64
    by (unfold u64; apply Z.mod_small; lia).
  rewrite Z.shiftl_1_l, Hu64 in Hlayout.
  pose proof (unbounded_data_end_ge
                ((memoryPtr + 2 ^ OutputSegment.alignment seg - 1)
                   / 2 ^ OutputSegment.alignment seg
                   * 2 ^ OutputSegment.alignment seg
                 + OutputSegment.size seg) segs Hsized) as Hge.
  assert (memoryPtr + 2 ^ OutputSegment.alignment seg <= 2 ^ 64) as Hfit64.
  { pose proof (Z.div_mod (memoryPtr + 2 ^ OutputSegment.alignment seg - 1)
                  (2 ^ OutputSegment.alignment seg) ltac:(lia)) as Hdiv.
    pose proof (Z.mod_pos_bound
                  (memoryPtr + 2 ^ OutputSegment.alignment seg - 1)
                  (2 ^ OutputSegment.alignment seg) ltac:(lia)) as Hmod.
    nia. }
  pose proof (alignTo_bounds memoryPtr _ Hptr Hpos Hfit64) as Hbounds.
  pose proof (alignTo_multiple memoryPtr _ Hptr Hpos Hfit64) as Hmult.
  rewrite alignTo_exact in Hlayout, Hbounds, Hmult by done.
  set (start := (memoryPtr + 2 ^ OutputSegment.alignment seg - 1)
                  / 2 ^ OutputSegment.alignment seg
                  * 2 ^ OutputSegment.alignment seg) in *.
  rewrite (u32_small start) in Hlayout by lia.
  rewrite (u32_small (start + OutputSegment.size seg)) in Hlayout by lia.
  destruct (layoutSegments segs _ _) as [[rest' mp] l1] eqn:Hrest.
  injection Hlayout as <- <- <-.
  apply IH in Hrest as (-> & Hsame & Hlaid); [|lia|done|done].
  split; [done|]. split.
  - by constructor.
  - cbn [laid_out OutputSegment.startVA OutputSegment.set_startVA
           OutputSegment.alignment OutputSegment.size].
    repeat split; try done; lia.
Qed.

(** What the loop leaves alone. *)
Lemma layoutSegments_keeps segs memoryPtr l segs' memoryPtr' l' :
  layoutSegments segs memoryPtr l = (segs', memoryPtr', l') ->
  writer l' = writer l /\ errors l' = errors l /\ files l' = files l
  /\ WasmSym.globalBase (wasmSym l') = WasmSym.globalBase (wasmSym l)
  /\ WasmSym.dsoHandle (wasmSym l') = WasmSym.dsoHandle (wasmSym l)
  /\ WasmSym.dataEnd (wasmSym l') = WasmSym.dataEnd (wasmSym l)
  /\ WasmSym.heapBase (wasmSym l') = WasmSym.heapBase (wasmSym l)
  /\ WasmSym.stackPointer (wasmSym l') = WasmSym.stackPointer (wasmSym l)
  /\ Out.memSize (out l') = Out.memSize (out l)
  /\ Out.numMemoryPages (out l') = Out.numMemoryPages (out l)
  /\ Out.maxMemoryPages (out l') = Out.maxMemoryPages (out l).
Proof.
  revert memoryPtr l segs' memoryPtr' l'.
  induction segs as [|seg segs IH]; intros memoryPtr l segs' memoryPtr' l';
    cbn [layoutSegments].
  { by intros [= <- <- <-]. }
  destruct (layoutSegments segs _ _) as [[rest' mp] l1] eqn:Hrest.
  intros [= <- <- <-].
  apply IH in Hrest
    as (-> & -> & -> & -> & -> & -> & -> & -> & -> & -> & ->).
  by destruct (bool_decide _ && _).
Qed.

(** What [placeStack] does. *)
Lemma placeStack_inv memoryPtr l memoryPtr' l' o :
  placeStack config memoryPtr l = Ok (memoryPtr', l') o ->
  memoryPtr'
  = (if stack_is_placed config
     then u32 (u32 (alignTo memoryPtr stackAlignment) + zStackSize config)
     else memoryPtr)
  /\ writer l' = writer l /\ out l' = out l /\ files l' = files l
  /\ WasmSym.globalBase (wasmSym l') = WasmSym.globalBase (wasmSym l)
  /\ WasmSym.dsoHandle (wasmSym l') = WasmSym.dsoHandle (wasmSym l)
  /\ WasmSym.dataEnd (wasmSym l') = WasmSym.dataEnd (wasmSym l)
  /\ WasmSym.heapBase (wasmSym l') = WasmSym.heapBase (wasmSym l)
  /\ WasmSym.stackPointer (wasmSym l')
     = (if stack_is_placed config then Some memoryPtr'
        else WasmSym.stackPointer (wasmSym l))
  /\ (stack_is_placed config = true ->
      is_Some (WasmSym.stackPointer (wasmSym l)))
  /\ exists es,
       errors l' = errors l ++ es
       /\ (es = []
           <-> (stack_is_placed config = true ->
                zStackSize config
                = alignTo (zStackSize config) stackAlignment)).
Proof.
  unfold placeStack, stack_is_placed.
  destruct (relocatable config || isPic config); cbn [negb].
  { intros [[= <- <-] _]%Ok_inj. repeat (split; [done|]).
    exists []. by rewrite app_nil_r. }
  destruct (Z.eqb_spec (zStackSize config)
              (alignTo (zStackSize config) stackAlignment)) as [Heq|Hne];
    cbn [negb];
    (destruct (WasmSym.stackPointer (wasmSym _)) as [sp|] eqn:Hsp; [|done]);
    intros [[= <- <-] _]%Ok_inj; cbn; cbn in Hsp;
    repeat (split; [by eauto|]).
  - exists []. by rewrite app_nil_r.
  - eexists. split; [done|]. split; [done|]. intros Haligned.
    by destruct Hne; apply Haligned.
Qed.

(** [layoutMemory] of a link that is not shared, field by field. *)
Lemma layoutMemory_Ok_inv l l' o :
  layoutMemory config l = Ok l' o ->
  shared config = false ->
  exists segs data_end heap_base mem_size es,
    (layoutSegments (Writer.segments (writer l)) (data_start config) l).1
    = (segs, data_end)
    /\ Writer.segments (writer l') = segs
    /\ WasmSym.globalBase (wasmSym l')
       = WasmSym.setVirtualAddress (WasmSym.globalBase (wasmSym l))
           (globalBase config)
    /\ WasmSym.dsoHandle (wasmSym l')
       = WasmSym.setVirtualAddress (WasmSym.dsoHandle (wasmSym l))
           (data_start config)
    /\ WasmSym.dataEnd (wasmSym l')
       = WasmSym.setVirtualAddress (WasmSym.dataEnd (wasmSym l)) data_end
    /\ WasmSym.heapBase (wasmSym l')
       = WasmSym.setVirtualAddress (WasmSym.heapBase (wasmSym l)) heap_base
    /\ heap_base
       = (if stackFirst config || negb (stack_is_placed config)
          then data_end
          else u32 (u32 (alignTo data_end stackAlignment)
                    + zStackSize config))
    /\ WasmSym.stackPointer (wasmSym l')
       = (if stack_is_placed config
          then Some (if stackFirst config then data_start config
                     else heap_base)
          else WasmSym.stackPointer (wasmSym l))
    /\ (stack_is_placed config = true ->
        is_Some (WasmSym.stackPointer (wasmSym l)))
    /\ mem_size
       = (if (initialMemory config =? 0)
             || (initialMemory config <? heap_base)
          then heap_base else initialMemory config)
    /\ Out.memSize (out l') = mem_size
    /\ Out.numMemoryPages (out l')
       = alignTo mem_size WasmPageSize / WasmPageSize
    /\ Out.maxMemoryPages (out l')
       = (if negb (maxMemory config =? 0) || sharedMemory config
          then maxMemory config / WasmPageSize
          else Out.maxMemoryPages (out l))
    /\ errors l' = errors l ++ es
    /\ (es = []
        <-> (stack_is_placed config = true ->
             zStackSize config = alignTo (zStackSize config) stackAlignment)
            /\ (initialMemory config <> 0 ->
                initialMemory config
                = alignTo (initialMemory config) WasmPageSize
                /\ heap_base <= initialMemory config)
            /\ (negb (maxMemory config =? 0) || sharedMemory config = true ->
                maxMemory config = alignTo (maxMemory config) WasmPageSize
                /\ mem_size <= maxMemory config)).
Proof.
  unfold layoutMemory. intros Hlayout Hshared.
  apply bind_Ok_inv in Hlayout as ([mp1 l1] & o1 & o2 & H1 & Hlayout & _).
  (* the stack, when it comes first *)
  assert (mp1 = data_start config
          /\ writer l1 = writer l /\ out l1 = out l
          /\ WasmSym.globalBase (wasmSym l1) = WasmSym.globalBase (wasmSym l)
          /\ WasmSym.dsoHandle (wasmSym l1) = WasmSym.dsoHandle (wasmSym l)
          /\ WasmSym.dataEnd (wasmSym l1) = WasmSym.dataEnd (wasmSym l)
          /\ WasmSym.heapBase (wasmSym l1) = WasmSym.heapBase (wasmSym l)
          /\ WasmSym.stackPointer (wasmSym l1)
             = (if stackFirst config && stack_is_placed config
                then Some (data_start config)
                else WasmSym.stackPointer (wasmSym l))
          /\ (stackFirst config && stack_is_placed config = true ->
              is_Some (WasmSym.stackPointer (wasmSym l)))
          /\ exists es1,
               errors l1 = errors l ++ es1
               /\ (es1 = []
                   <-> (stackFirst config && stack_is_placed config = true ->
                        zStackSize config
                        = alignTo (zStackSize config) stackAlignment)))
    as (-> & Hw1 & Ho1 & Hgb1 & Hdso1 & Hde1 & Hhb1 & Hsp1 & Hnn1
        & es1 & He1 & Hes1).
  { unfold data_start. destruct (stackFirst config); cbn [andb].
    - apply placeStack_inv in H1
        as (-> & ? & ? & _ & ? & ? & ? & ? & Hsp & ? & es & ? & ?).
      rewrite Hsp.
      repeat (split; [done || by destruct (stack_is_placed config)|]).
      by exists es.
    - apply Ok_inj in H1 as [[= <- <-] _]. repeat (split; [done|]).
      exists []. rewrite app_nil_r. by repeat split. }
  clear H1. cbv zeta in Hlayout.
  (* the segments *)
  destruct (layoutSegments _ _ _) as [[segs data_end] l2] eqn:Hsegs.
  match type of Hsegs with
  | layoutSegments ?sg ?p ?la = _ =>
      pose proof (layoutSegments_addresses sg p l la) as Haddr
  end.
  rewrite Hsegs in Haddr. cbn in Haddr. rewrite Hw1 in Haddr.
  apply layoutSegments_keeps in Hsegs
    as (Hw2 & He2 & _ & Hgb2 & Hdso2 & Hde2 & Hhb2 & Hsp2 & Hms2 & Hnp2
        & Hxp2).
  cbn in Hw2, He2, Hgb2, Hdso2, Hde2, Hhb2, Hsp2, Hms2, Hnp2, Hxp2.
  rewrite Hshared in Hlayout.
  (* the stack, when it comes last *)
  apply bind_Ok_inv in Hlayout as ([heap_base l3] & o3 & o4 & H3 & Hlayout & _).
  exists segs, data_end, heap_base.
  assert (heap_base
          = (if stackFirst config || negb (stack_is_placed config)
             then data_end
             else u32 (u32 (alignTo data_end stackAlignment)
                       + zStackSize config))
          /\ Writer.segments (writer l3) = segs
          /\ Out.memSize (out l3) = Out.memSize (out l)
          /\ Out.numMemoryPages (out l3) = Out.numMemoryPages (out l)
          /\ Out.maxMemoryPages (out l3) = Out.maxMemoryPages (out l)
          /\ WasmSym.globalBase (wasmSym l3)
             = WasmSym.setVirtualAddress (WasmSym.globalBase (wasmSym l))
                 (globalBase config)
          /\ WasmSym.dsoHandle (wasmSym l3)
             = WasmSym.setVirtualAddress (WasmSym.dsoHandle (wasmSym l))
                 (data_start config)
          /\ WasmSym.dataEnd (wasmSym l3)
             = WasmSym.setVirtualAddress (WasmSym.dataEnd (wasmSym l))
                 data_end
          /\ WasmSym.heapBase (wasmSym l3) = WasmSym.heapBase (wasmSym l)
          /\ WasmSym.stackPointer (wasmSym l3)
             = (if stack_is_placed config
                then Some (if stackFirst config then data_start config
                           else heap_base)
                else WasmSym.stackPointer (wasmSym l))
          /\ (stack_is_placed config = true ->
              is_Some (WasmSym.stackPointer (wasmSym l)))
          /\ exists es3,
               errors l3 = errors l ++ es3
               /\ (es3 = []
                   <-> (stack_is_placed config = true ->
                        zStackSize config
                        = alignTo (zStackSize config) stackAlignment)))
    as (Hheap & Hw3 & Hms3 & Hnp3 & Hxp3 & Hgb3 & Hdso3 & Hde3 & Hhb3 & Hsp3
        & Hnn3 & es3 & He3 & Hes3).
  { destruct (stackFirst config); cbn [negb orb andb] in *.
    - apply Ok_inj in H3 as [[= <- <-] _]. cbn.
      rewrite Hms2, Hnp2, Hxp2, Hgb2, Hdso2, Hde2, Hhb2, Hsp2, He2, Ho1,
        Hgb1, Hdso1, Hde1, Hhb1, Hsp1, He1.
      repeat (split; [done|]). by exists es1.
    - apply placeStack_inv in H3
        as (-> & -> & -> & _ & -> & -> & -> & -> & -> & Hnn & es & -> & Hes).
      cbn. cbn in Hnn.
      rewrite Hms2, Hnp2, Hxp2, Hgb2, Hdso2, Hde2, Hhb2, Hsp2, He2, Ho1,
        Hgb1, Hdso1, Hde1, Hhb1, Hsp1, He1 in *.
      assert (es1 = []) as -> by by apply Hes1.
      rewrite app_nil_r. split; [by destruct (stack_is_placed config)|].
      repeat (split; [done|]). by exists es. }
  clear H3 Hw1 Ho1 Hgb1 Hdso1 Hde1 Hhb1 Hsp1 Hnn1 He1 Hes1 Hw2 He2 Hgb2 Hdso2
    Hde2 Hhb2 Hsp2 Hms2 Hnp2 Hxp2.
  (* the heap base and the initial memory *)
  set (l4 := set_wasmSym l3 _) in Hlayout.
  assert (writer l4 = writer l3 /\ out l4 = out l3
          /\ wasmSym l4 = WasmSym.set_heapBase (wasmSym l3) heap_base
          /\ errors l4 = errors l ++ es3) as (Hw4 & Ho4 & Hsym4 & He4)
    by done.
  clearbody l4.
  destruct (if negb (initialMemory config =? 0) then _ else _)
    as [mem_size l5] eqn:Hinitial.
  exists mem_size.
  assert (mem_size
          = (if (initialMemory config =? 0)
                || (initialMemory config <? heap_base)
             then heap_base else initialMemory config)
          /\ writer l5 = writer l4 /\ out l5 = out l4
          /\ wasmSym l5 = wasmSym l4
          /\ exists es5,
               errors l5 = errors l4 ++ es5
               /\ (es5 = []
                   <-> (initialMemory config <> 0 ->
                        initialMemory config
                        = alignTo (initialMemory config) WasmPageSize
                        /\ heap_base <= initialMemory config)))
    as (Hmem & Hw5 & Ho5 & Hsym5 & es5 & He5 & Hes5).
  { destruct (Z.eqb_spec (initialMemory config) 0) as [Hzero|Hnonzero];
      cbn [negb orb] in *.
    { injection Hinitial as <- <-. repeat (split; [done|]).
      exists []. rewrite app_nil_r. by repeat split. }
    destruct (Z.eqb_spec (initialMemory config)
                (alignTo (initialMemory config) WasmPageSize)) as [Hal|Hmis],
      (Z.ltb_spec (initialMemory config) heap_base) as [Hlt|Hge];
      cbn [negb] in Hinitial; injection Hinitial as <- <-; cbn;
      repeat (split; [done|]).
    - eexists. split; [done|]. split; [done|]. intros Hok.
      destruct (Hok Hnonzero). lia.
    - exists []. rewrite app_nil_r. by repeat split.
    - eexists. rewrite <- app_assoc. split; [done|]. split; [done|].
      intros Hok. destruct (Hok Hnonzero). lia.
    - eexists. split; [done|]. split; [done|]. intros Hok.
      by destruct (Hok Hnonzero). }
  clear Hinitial.
  (* the maximum *)
  assert (writer l' = writer l5
          /\ wasmSym l' = wasmSym l5
          /\ Out.memSize (out l') = mem_size
          /\ Out.numMemoryPages (out l')
             = alignTo mem_size WasmPageSize / WasmPageSize
          /\ Out.maxMemoryPages (out l')
             = (if negb (maxMemory config =? 0) || sharedMemory config
                then maxMemory config / WasmPageSize
                else Out.maxMemoryPages (out l5))
          /\ exists es6,
               errors l' = errors l5 ++ es6
               /\ (es6 = []
                   <-> (negb (maxMemory config =? 0) || sharedMemory config
                        = true ->
                        maxMemory config
                        = alignTo (maxMemory config) WasmPageSize
                        /\ mem_size <= maxMemory config)))
    as (Hw6 & Hsym6 & Hms6 & Hnp6 & Hxp6 & es6 & He6 & Hes6).
  { destruct (negb (maxMemory config =? 0) || sharedMemory config).
    - destruct (Z.eqb_spec (maxMemory config)
                  (alignTo (maxMemory config) WasmPageSize)) as [Hal|Hmis],
        (Z.ltb_spec (maxMemory config) mem_size) as [Hlt|Hge];
        cbn [negb] in Hlayout; apply Ok_inj in Hlayout as [<- _]; cbn;
        repeat (split; [done|]).
      + eexists. split; [done|]. split; [done|]. intros Hok.
        destruct (Hok eq_refl). lia.
      + exists []. rewrite app_nil_r. by repeat split.
      + eexists. rewrite <- app_assoc. split; [done|]. split; [done|].
        intros Hok. destruct (Hok eq_refl). lia.
      + eexists. split; [done|]. split; [done|]. intros Hok.
        by destruct (Hok eq_refl).
    - apply Ok_inj in Hlayout as [<- _]. cbn. repeat (split; [done|]).
      exists []. rewrite app_nil_r. by repeat split. }
  exists (es3 ++ es5 ++ es6).
  rewrite Hw6, Hw5, Hw4, Hsym6, Hsym5, Hsym4, Hxp6, Ho5, Ho4, He6, He5, He4.
  cbn. rewrite Hgb3, Hdso3, Hde3, Hhb3, Hsp3, Hxp3, <- !app_assoc.
  repeat (split; [done|]).
  split.
  - intros (-> & (-> & ->)%app_eq_nil)%app_eq_nil.
    split; [by apply Hes3|]. split; [by apply Hes5|by apply Hes6].
  - intros (H3 & H5 & H6).
    apply Hes3 in H3 as ->. apply Hes5 in H5 as ->. by apply Hes6 in H6 as ->.
Qed.

(** [layoutMemory] of a shared link: it stops behind the data. *)
Lemma layoutMemory_shared_inv l l' o :
  layoutMemory config l = Ok l' o ->
  shared config = true ->
  exists segs data_end es,
    (layoutSegments (Writer.segments (writer l)) (data_start config) l).1
    = (segs, data_end)
    /\ Writer.segments (writer l') = segs
    /\ WasmSym.globalBase (wasmSym l')
       = WasmSym.setVirtualAddress (WasmSym.globalBase (wasmSym l))
           (globalBase config)
    /\ WasmSym.dsoHandle (wasmSym l')
       = WasmSym.setVirtualAddress (WasmSym.dsoHandle (wasmSym l))
           (data_start config)
    /\ WasmSym.dataEnd (wasmSym l')
       = WasmSym.setVirtualAddress (WasmSym.dataEnd (wasmSym l)) data_end
    /\ WasmSym.heapBase (wasmSym l') = WasmSym.heapBase (wasmSym l)
    /\ WasmSym.stackPointer (wasmSym l')
       = (if stackFirst config && stack_is_placed config
          then Some (data_start config)
          else WasmSym.stackPointer (wasmSym l))
    /\ (stackFirst config && stack_is_placed config = true ->
        is_Some (WasmSym.stackPointer (wasmSym l)))
    /\ Out.memSize (out l') = data_end
    /\ Out.numMemoryPages (out l') = Out.numMemoryPages (out l)
    /\ Out.maxMemoryPages (out l') = Out.maxMemoryPages (out l)
    /\ errors l' = errors l ++ es
    /\ (es = []
        <-> (stackFirst config && stack_is_placed config = true ->
             zStackSize config = alignTo (zStackSize config) stackAlignment)).
Proof.
  unfold layoutMemory. intros Hlayout Hshared.
  apply bind_Ok_inv in Hlayout as ([mp1 l1] & o1 & o2 & H1 & Hlayout & _).
  (* the stack, when it comes first *)
  assert (mp1 = data_start config
          /\ writer l1 = writer l /\ out l1 = out l
          /\ WasmSym.globalBase (wasmSym l1) = WasmSym.globalBase (wasmSym l)
          /\ WasmSym.dsoHandle (wasmSym l1) = WasmSym.dsoHandle (wasmSym l)
          /\ WasmSym.dataEnd (wasmSym l1) = WasmSym.dataEnd (wasmSym l)
          /\ WasmSym.heapBase (wasmSym l1) = WasmSym.heapBase (wasmSym l)
          /\ WasmSym.stackPointer (wasmSym l1)
             = (if stackFirst config && stack_is_placed config
                then Some (data_start config)
                else WasmSym.stackPointer (wasmSym l))
          /\ (stackFirst config && stack_is_placed config = true ->
              is_Some (WasmSym.stackPointer (wasmSym l)))
          /\ exists es1,
               errors l1 = errors l ++ es1
               /\ (es1 = []
                   <-> (stackFirst config && stack_is_placed config = true ->
                        zStackSize config
                        = alignTo (zStackSize config) stackAlignment)))
    as (-> & Hw1 & Ho1 & Hgb1 & Hdso1 & Hde1 & Hhb1 & Hsp1 & Hnn1
        & es1 & He1 & Hes1).
  { unfold data_start. destruct (stackFirst config); cbn [andb].
    - apply placeStack_inv in H1
        as (-> & ? & ? & _ & ? & ? & ? & ? & Hsp & ? & es & ? & ?).
      rewrite Hsp.
      repeat (split; [done || by destruct (stack_is_placed config)|]).
      by exists es.
    - apply Ok_inj in H1 as [[= <- <-] _]. repeat (split; [done|]).
      exists []. rewrite app_nil_r. by repeat split. }
  clear H1. cbv zeta in Hlayout.
  (* the segments *)
  destruct (layoutSegments _ _ _) as [[segs data_end] l2] eqn:Hsegs.
  match type of Hsegs with
  | layoutSegments ?sg ?p ?la = _ =>
      pose proof (layoutSegments_addresses sg p l la) as Haddr
  end.
  rewrite Hsegs in Haddr. cbn in Haddr. rewrite Hw1 in Haddr.
  apply layoutSegments_keeps in Hsegs
    as (Hw2 & He2 & _ & Hgb2 & Hdso2 & Hde2 & Hhb2 & Hsp2 & Hms2 & Hnp2
        & Hxp2).
  cbn in Hw2, He2, Hgb2, Hdso2, Hde2, Hhb2, Hsp2, Hms2, Hnp2, Hxp2.
  rewrite Hshared in Hlayout. apply Ok_inj in Hlayout as [<- _].
  exists segs, data_end, es1. cbn.
  rewrite ?Hnp2, ?Hxp2, ?Hgb2, ?Hdso2, ?Hde2, ?Hhb2, ?Hsp2, ?He2, ?Hgb1,
    ?Hdso1, ?Hde1, ?Hhb1, ?Hsp1, ?He1, ?Ho1.
  by repeat (split; [done|]).
Qed.

End Layout_stages.

Section Layout_facts.

Variable config : Configuration.

Lemma data_start_bounds : 0 <= data_start config < 2 ^ 32.
Proof.
  unfold data_start.
  destruct (stackFirst config); [destruct (stack_is_placed config)|];
    try apply u32_bounds. lia.
Qed.

(** The data end is an unsigned 32-bit number. *)
Lemma layoutSegments_end_bounds segs l segs' data_end :
  (layoutSegments segs (data_start config) l).1 = (segs', data_end) ->
  0 <= data_end < 2 ^ 32.
Proof.
  destruct (layoutSegments segs (data_start config) l) as [[a b] c] eqn:Hl.
  intros [= <- <-].
  apply layoutSegments_facts in Hl as [Hb _]. apply Hb, data_start_bounds.
Qed.

End Layout_facts.

(** X2: when no address wraps around 32 bits, [layoutMemory] puts the output
    segments one behind the other from the start of the data
    ([__dso_handle]) to [__data_end]: each segment starts at the first
    address at or behind the end of its predecessor that is a multiple of
    its alignment, so no two of them overlap, and nothing else of a segment
    changes. *)
Theorem data_segments_laid_out config l l' o :
  layoutMemory config l = Ok l' o ->
  Forall sized (Writer.segments (writer l)) ->
  unbounded_data_end (data_start config) (Writer.segments (writer l))
  < 2 ^ 32 ->
  Forall2 same_but_startVA (Writer.segments (writer l))
    (Writer.segments (writer l'))
  /\ laid_out (data_start config) (Writer.segments (writer l'))
       (unbounded_data_end (data_start config) (Writer.segments (writer l)))
  /\ WasmSym.dsoHandle (wasmSym l')
     = WasmSym.setVirtualAddress (WasmSym.dsoHandle (wasmSym l))
         (data_start config)
  /\ WasmSym.dataEnd (wasmSym l')
     = WasmSym.setVirtualAddress (WasmSym.dataEnd (wasmSym l))
         (unbounded_data_end (data_start config)
            (Writer.segments (writer l))).
Proof.
  intros Hlayout Hsized Hfits.
  assert (exists segs data_end,
            (layoutSegments (Writer.segments (writer l)) (data_start config)
               l).1 = (segs, data_end)
            /\ Writer.segments (writer l') = segs
            /\ WasmSym.dsoHandle (wasmSym l')
               = WasmSym.setVirtualAddress (WasmSym.dsoHandle (wasmSym l))
                   (data_start config)
            /\ WasmSym.dataEnd (wasmSym l')
               = WasmSym.setVirtualAddress (WasmSym.dataEnd (wasmSym l))
                   data_end)
    as (segs & data_end & Haddr & -> & -> & ->).
  { destruct (shared config) eqn:Hshared.
    - destruct (layoutMemory_shared_inv config l l' o Hlayout Hshared)
        as (segs & data_end & es & ? & ? & _ & ? & ? & _).
      by exists segs, data_end.
    - destruct (layoutMemory_Ok_inv config l l' o Hlayout Hshared)
        as (segs & data_end & hb & ms & es & ? & ? & _ & ? & ? & _).
      by exists segs, data_end. }
  destruct (layoutSegments _ _ _) as [[segs0 end0] l0] eqn:Hsegs.
  cbn in Haddr. injection Haddr as -> ->.
  pose proof (data_start_bounds config) as Hstart.
  apply layoutSegments_laid_out in Hsegs as (-> & Hsame & Hlaid);
    [|lia|done|done].
  done.
Qed.

Lemma data_segments_laid_out_witness :
  exists l',
    layoutMemory Links.two_pages Links.placed_objects = Ok l' []
    /\ map (fun seg => (OutputSegment.name seg, OutputSegment.startVA seg,
                        OutputSegment.size seg))
         (Writer.segments (writer l'))
       = [(".data", 1024, 116); (".tdata", 1144, 8)]
    /\ laid_out 1024 (Writer.segments (writer l')) 1152.
Proof.
  destruct (layoutMemory Links.two_pages Links.placed_objects)
    as [l' o| | |] eqn:Hl'; try (vm_compute in Hl'; discriminate Hl').
  assert (o = []
          /\ map (fun seg => (OutputSegment.name seg,
                              OutputSegment.startVA seg,
                              OutputSegment.size seg))
               (Writer.segments (writer l'))
             = [(".data", 1024, 116); (".tdata", 1144, 8)]) as [-> Hsegs].
  { vm_compute in Hl'. apply Ok_inj in Hl' as [<- <-]. by vm_compute. }
  exists l'. split; [done|]. split; [done|].
  apply (data_segments_laid_out Links.two_pages Links.placed_objects l' []
           Hl').
  - repeat constructor; by vm_compute.
  - by vm_compute.
Defined.

(** X3: in a link that is not shared, the memory section gets just the pages
    the memory needs: [numMemoryPages] pages of 64 KiB hold [memSize] bytes
    and one page less would not, and [memSize] is never below
    [__heap_base].  When no error is reported, a non-zero [initialMemory] is
    the memory size, and a maximum, where one applies, is a whole number of
    pages that is not below the initial number of pages. *)
Theorem memory_pages_cover_the_memory config l l' o :
  layoutMemory config l = Ok l' o ->
  shared config = false ->
  0 <= initialMemory config < 2 ^ 32 ->
  0 <= maxMemory config < 2 ^ 32 ->
  (Out.memSize (out l') <= Out.numMemoryPages (out l') * WasmPageSize
   < Out.memSize (out l') + WasmPageSize)
  /\ (forall heap_base,
        WasmSym.heapBase (wasmSym l') = Some heap_base ->
        heap_base <= Out.memSize (out l'))
  /\ (errors l' = errors l ->
      (initialMemory config <> 0 ->
       Out.memSize (out l') = initialMemory config
       /\ Out.numMemoryPages (out l') * WasmPageSize = initialMemory config)
      /\ (negb (maxMemory config =? 0) || sharedMemory config = true ->
          Out.maxMemoryPages (out l') * WasmPageSize = maxMemory config
          /\ Out.numMemoryPages (out l') <= Out.maxMemoryPages (out l'))).
Proof.
  intros Hlayout Hshared Hinitial Hmax.
  destruct (layoutMemory_Ok_inv config l l' o Hlayout Hshared)
    as (segs & data_end & hb & ms & es & Haddr & _ & _ & _ & _ & Hbase & Hhb
        & _ & _ & Hms & -> & -> & -> & -> & Hes).
  apply layoutSegments_end_bounds in Haddr.
  assert (0 <= hb < 2 ^ 32) as Hhb_bounds.
  { rewrite Hhb. destruct (_ || _); [done|apply u32_bounds]. }
  assert (hb <= ms < 2 ^ 32) as Hms_bounds.
  { rewrite Hms.
    destruct (Z.eqb_spec (initialMemory config) 0),
      (Z.ltb_spec (initialMemory config) hb); cbn [orb]; lia. }
  assert (alignTo ms WasmPageSize = (ms + 65535) / 65536 * 65536) as Hpages.
  { rewrite alignTo_exact by (unfold WasmPageSize; lia).
    unfold WasmPageSize. do 2 f_equal. lia. }
  assert (forall x, 0 <= x < 2 ^ 32 -> x = alignTo x WasmPageSize ->
                    x / 65536 * 65536 = x) as Haligned.
  { intros x Hx Hal.
    rewrite alignTo_exact in Hal by (unfold WasmPageSize; lia).
    unfold WasmPageSize in Hal.
    pose proof (Z.div_mod x 65536 ltac:(lia)).
    pose proof (Z.mod_pos_bound x 65536 ltac:(lia)).
    pose proof (Z.div_mod (x + 65536 - 1) 65536 ltac:(lia)).
    pose proof (Z.mod_pos_bound (x + 65536 - 1) 65536 ltac:(lia)).
    lia. }
  rewrite Hpages. unfold WasmPageSize. rewrite Z.div_mul by lia.
  pose proof (Z.div_mod (ms + 65535) 65536 ltac:(lia)).
  pose proof (Z.mod_pos_bound (ms + 65535) 65536 ltac:(lia)).
  split; [lia|]. split.
  { intros heap_base. rewrite Hbase.
    destruct (WasmSym.heapBase (wasmSym l)); [|done]. cbn.
    intros [= <-]. lia. }
  intros Herrors.
  assert (es = []) as Hnone.
  { rewrite <- (app_nil_r (errors l)) in Herrors at 2.
    by apply app_inv_head in Herrors. }
  apply Hes in Hnone as (_ & Hinit & Hmaximum). split.
  - intros Hnonzero. destruct (Hinit Hnonzero) as [Hal Hle].
    assert (ms = initialMemory config) as ->.
    { rewrite Hms.
      destruct (Z.eqb_spec (initialMemory config) 0),
        (Z.ltb_spec (initialMemory config) hb); cbn [orb]; lia. }
    split; [done|]. specialize (Haligned _ Hinitial Hal).
    pose proof (Z.div_mod (initialMemory config) 65536 ltac:(lia)).
    pose proof (Z.mod_pos_bound (initialMemory config) 65536 ltac:(lia)).
    lia.
  - intros Happlies. rewrite Happlies.
    destruct (Hmaximum Happlies) as [Hal Hle].
    specialize (Haligned _ Hmax Hal). split; [done|].
    pose proof (Z.div_mod (maxMemory config) 65536 ltac:(lia)).
    pose proof (Z.mod_pos_bound (maxMemory config) 65536 ltac:(lia)).
    lia.
Qed.

Lemma memory_pages_cover_the_memory_witness :
  exists l',
    layoutMemory Links.two_pages Links.placed_objects = Ok l' []
    /\ Out.memSize (out l') = 131072
    /\ Out.numMemoryPages (out l') = 2
    /\ (Out.memSize (out l') <= Out.numMemoryPages (out l') * WasmPageSize
        < Out.memSize (out l') + WasmPageSize).
Proof.
  destruct (layoutMemory Links.two_pages Links.placed_objects)
    as [l' o| | |] eqn:Hl'; try (vm_compute in Hl'; discriminate Hl').
  assert (o = [] /\ Out.memSize (out l') = 131072
          /\ Out.numMemoryPages (out l') = 2) as (-> & Hsize & Hpages).
  { vm_compute in Hl'. apply Ok_inj in Hl' as [<- <-]. by vm_compute. }
  exists l'. split; [done|]. split; [done|]. split; [done|].
  by apply (memory_pages_cover_the_memory Links.two_pages
              Links.placed_objects l' [] Hl').
Defined.

(** X4: in a link that is not shared, [layoutMemory] reports no error
    exactly when the stack size is a multiple of 16 (if a stack is placed),
    a non-zero [initialMemory] is a multiple of the page size and not below
    [__heap_base], and a maximum, where one applies (it is non-zero, or the
    memory is shared between threads), is a multiple of the page size and
    not below the memory size. *)
Theorem layout_is_error_free_exactly_when config l l' o :
  layoutMemory config l = Ok l' o ->
  shared config = false ->
  exists heap_base,
    WasmSym.heapBase (wasmSym l')
    = WasmSym.setVirtualAddress (WasmSym.heapBase (wasmSym l)) heap_base
    /\ (errors l' = errors l
        <-> (stack_is_placed config = true ->
             zStackSize config = alignTo (zStackSize config) stackAlignment)
            /\ (initialMemory config <> 0 ->
                initialMemory config
                = alignTo (initialMemory config) WasmPageSize
                /\ heap_base <= initialMemory config)
            /\ (negb (maxMemory config =? 0) || sharedMemory config = true ->
                maxMemory config = alignTo (maxMemory config) WasmPageSize
                /\ Out.memSize (out l') <= maxMemory config)).
Proof.
  intros Hlayout Hshared.
  destruct (layoutMemory_Ok_inv config l l' o Hlayout Hshared)
    as (segs & data_end & hb & ms & es & _ & _ & _ & _ & _ & Hbase & _
        & _ & _ & _ & -> & _ & _ & -> & Hes).
  exists hb. split; [done|]. rewrite <- Hes. split.
  - intros Herrors. rewrite <- (app_nil_r (errors l)) in Herrors at 2.
    by apply app_inv_head in Herrors.
  - intros ->. by rewrite app_nil_r.
Qed.

Lemma layout_is_error_free_exactly_when_witness :
  exists l' heap_base,
    layoutMemory Links.two_pages Links.placed_objects = Ok l' []
    /\ WasmSym.heapBase (wasmSym l') = Some heap_base
    /\ errors l' = []
    /\ heap_base <= initialMemory Links.two_pages.
Proof.
  destruct (layoutMemory Links.two_pages Links.placed_objects)
    as [l' o| | |] eqn:Hl'; try (vm_compute in Hl'; discriminate Hl').
  assert (o = [] /\ errors l' = []) as (-> & Herrors).
  { vm_compute in Hl'. apply Ok_inj in Hl' as [<- <-]. by vm_compute. }
  destruct (layout_is_error_free_exactly_when Links.two_pages
              Links.placed_objects l' [] Hl' eq_refl)
    as (heap_base & Hbase & Hiff).
  exists l', heap_base. split; [done|]. split; [done|]. split; [done|].
  destruct (proj1 Hiff Herrors) as (_ & Hinit & _). by apply Hinit.
Defined.

(** X5: where [layoutMemory] puts the stack.  A relocatable or PIC link gets
    none and keeps its stack pointer.  With [stackFirst] the stack is the
    first [zStackSize] bytes, the stack pointer starts at its top, and the
    data starts right there, whatever [globalBase] says.  Otherwise, in a
    link that is not shared, the data starts at [globalBase], the stack lies
    behind it and the stack pointer starts at [__heap_base].  A shared link
    without [stackFirst] stops behind the data: stack pointer, heap base and
    page count stay as they were.  [__global_base] is [globalBase] in every
    case. *)
Theorem stack_placement config l l' o :
  layoutMemory config l = Ok l' o ->
  WasmSym.globalBase (wasmSym l')
  = WasmSym.setVirtualAddress (WasmSym.globalBase (wasmSym l))
      (globalBase config)
  /\ (stack_is_placed config = false ->
      WasmSym.stackPointer (wasmSym l') = WasmSym.stackPointer (wasmSym l))
  /\ (stack_is_placed config = true -> stackFirst config = true ->
      WasmSym.stackPointer (wasmSym l') = Some (u32 (zStackSize config))
      /\ WasmSym.dsoHandle (wasmSym l')
         = WasmSym.setVirtualAddress (WasmSym.dsoHandle (wasmSym l))
             (u32 (zStackSize config)))
  /\ (stack_is_placed config = true -> stackFirst config = false ->
      shared config = false ->
      exists heap_base,
        WasmSym.heapBase (wasmSym l')
        = WasmSym.setVirtualAddress (WasmSym.heapBase (wasmSym l)) heap_base
        /\ WasmSym.stackPointer (wasmSym l') = Some heap_base
        /\ WasmSym.dsoHandle (wasmSym l')
           = WasmSym.setVirtualAddress (WasmSym.dsoHandle (wasmSym l))
               (u32 (globalBase config)))
  /\ (stackFirst config = false -> shared config = true ->
      WasmSym.stackPointer (wasmSym l') = WasmSym.stackPointer (wasmSym l)
      /\ WasmSym.heapBase (wasmSym l') = WasmSym.heapBase (wasmSym l)
      /\ Out.numMemoryPages (out l') = Out.numMemoryPages (out l)).
Proof.
  intros Hlayout.
  assert (stackFirst config = true -> stack_is_placed config = true ->
          data_start config = u32 (zStackSize config)) as Hfirst.
  { unfold data_start. by intros -> ->. }
  assert (stackFirst config = false ->
          data_start config = u32 (globalBase config)) as Hlast.
  { unfold data_start. by intros ->. }
  destruct (shared config) eqn:Hshared.
  - destruct (layoutMemory_shared_inv config l l' o Hlayout Hshared)
      as (segs & data_end & es & _ & _ & -> & -> & _ & -> & -> & _ & _ & ->
          & _).
    split; [done|]. split; [intros ->; by rewrite andb_false_r|].
    split; [intros Hplaced Hsf; by rewrite Hplaced, Hsf, Hfirst|].
    split; [done|]. by intros ->.
  - destruct (layoutMemory_Ok_inv config l l' o Hlayout Hshared)
      as (segs & data_end & hb & ms & es & _ & _ & -> & -> & _ & Hbase & _
          & -> & _).
    split; [done|]. split; [by intros ->|].
    split; [intros Hplaced Hsf; by rewrite Hplaced, Hsf, Hfirst|].
    split; [|done]. intros Hplaced Hsf _. exists hb.
    by rewrite Hplaced, Hsf, Hlast.
Qed.

Lemma stack_placement_witness :
  exists l',
    layoutMemory Links.two_pages Links.placed_objects = Ok l' []
    /\ WasmSym.heapBase (wasmSym l') = Some 9344
    /\ WasmSym.stackPointer (wasmSym l') = Some 9344
    /\ WasmSym.dsoHandle (wasmSym l') = Some 1024.
Proof.
  destruct (layoutMemory Links.two_pages Links.placed_objects)
    as [l' o| | |] eqn:Hl'; try (vm_compute in Hl'; discriminate Hl').
  assert (o = [] /\ WasmSym.heapBase (wasmSym l') = Some 9344)
    as (-> & Hheap).
  { vm_compute in Hl'. apply Ok_inj in Hl' as [<- <-]. by vm_compute. }
  exists l'. split; [done|]. split; [done|].
  destruct (stack_placement Links.two_pages Links.placed_objects l' [] Hl')
    as (_ & _ & _ & Hlast & _).
  destruct (Hlast eq_refl eq_refl eq_refl) as (heap_base & Hbase & Hsp & Hdso).
  rewrite Hheap in Hbase. injection Hbase as <-. by split.
Defined.

Section Layout_returns.

Variable config : Configuration.

Lemma bind_Ok_nil {A B} (a : A) (f : A -> outcome B) : Ok a [] ≫= f = f a.
Proof. apply (bind_ret_l a f). Qed.

Lemma placeStack_returns memoryPtr l :
  (stack_is_placed config = true ->
   is_Some (WasmSym.stackPointer (wasmSym l))) ->
  exists memoryPtr' l',
    placeStack config memoryPtr l = Ok (memoryPtr', l') [].
Proof.
  unfold placeStack, stack_is_placed. intros Hsp.
  destruct (relocatable config || isPic config); [by eexists _, _|].
  destruct (Hsp eq_refl) as [sp Hsome].
  destruct (negb (zStackSize config =? _)); unfold error; cbn [wasmSym];
    rewrite Hsome; by eexists _, _.
Qed.

Lemma placeStack_null memoryPtr l :
  stack_is_placed config = true ->
  WasmSym.stackPointer (wasmSym l) = None ->
  placeStack config memoryPtr l = NullDeref.
Proof.
  unfold placeStack, stack_is_placed. intros Hplaced Hnull.
  destruct (relocatable config || isPic config); [done|].
  destruct (negb (zStackSize config =? _)); unfold error; cbn [wasmSym];
    by rewrite Hnull.
Qed.

End Layout_returns.

(** X6: misaligned sizes and a memory that is too small are reported and
    never stop [layoutMemory]: it returns in every case but one, a stack to
    place (the link is neither relocatable nor PIC, and has [stackFirst] or
    is not shared) with no [__stack_pointer] to set, where the null pointer
    is used. *)
Theorem layoutMemory_returns_unless_stack_pointer_is_null config l :
  (stack_is_placed config && (stackFirst config || negb (shared config))
   = true ->
   WasmSym.stackPointer (wasmSym l) = None ->
   layoutMemory config l = NullDeref)
  /\ (stack_is_placed config && (stackFirst config || negb (shared config))
      = false
      \/ is_Some (WasmSym.stackPointer (wasmSym l)) ->
      exists l', layoutMemory config l = Ok l' []).
Proof.
  unfold layoutMemory. split.
  - intros [Hplaced Hneeded]%andb_true_iff Hnull.
    destruct (stackFirst config); cbn [orb negb] in *.
    { by rewrite placeStack_null. }
    rewrite bind_ret_l. cbv zeta.
    destruct (layoutSegments _ _ _) as [[segs data_end] l2] eqn:Hsegs.
    apply layoutSegments_keeps in Hsegs as (_ & _ & _ & _ & _ & _ & _ & Hsp
                                            & _).
    destruct (shared config); [done|]. rewrite placeStack_null; [done..|].
    cbn. by rewrite Hsp.
  - intros Hcan.
    destruct (stackFirst config) eqn:Hsf; cbn [orb negb] in *.
    + rewrite andb_true_r in Hcan.
      destruct (placeStack_returns config 0 l) as (mp1 & l1 & H1).
      { intros Hplaced. destruct Hcan as [Hno|Hsome]; [congruence|done]. }
      rewrite H1, bind_Ok_nil. cbv zeta.
      destruct (layoutSegments _ _ _) as [[segs data_end] l2].
      destruct (shared config); [by eexists|].
      cbn [negb]. rewrite bind_ret_l. repeat case_match; by eexists.
    + rewrite bind_ret_l. cbv zeta.
      destruct (layoutSegments _ _ _) as [[segs data_end] l2] eqn:Hsegs.
      apply layoutSegments_keeps in Hsegs as (_ & _ & _ & _ & _ & _ & _ & Hsp
                                              & _).
      destruct (shared config); [by eexists|]. cbn [negb] in *.
      rewrite andb_true_r in Hcan.
      match goal with
      | |- context [placeStack config ?p ?la] =>
          destruct (placeStack_returns config p la) as (hb & l3 & H3)
      end.
      { intros Hplaced. cbn. rewrite Hsp. cbn.
        destruct Hcan as [Hno|Hsome]; [congruence|done]. }
      rewrite H3, bind_Ok_nil.
      repeat case_match; by eexists.
Qed.

Lemma layoutMemory_returns_unless_stack_pointer_is_null_witness :
  (exists l', layoutMemory Links.two_pages Links.placed_objects = Ok l' [])
  /\ layoutMemory Links.two_pages
       (set_wasmSym Links.fresh
          (WasmSym.make None None None None None None None None None))
     = NullDeref.
Proof.
  split.
  - apply layoutMemory_returns_unless_stack_pointer_is_null. right.
    by eexists.
  - by apply layoutMemory_returns_unless_stack_pointer_is_null.
Defined.

(** ** The errors of the init functions *)

Section Init_function_errors.

Variable config : Configuration.
Variable symtab : SymbolTable.
Variable NDEBUG : bool.

Lemma same_but_init_functions_refl l : same_but_init_functions l l.
Proof. by repeat split. Qed.

Lemma same_but_init_functions_trans l1 l2 l3 :
  same_but_init_functions l1 l2 -> same_but_init_functions l2 l3 ->
  same_but_init_functions l1 l3.
Proof.
  intros (? & ? & ? & ? & ? & ?) (? & ? & ? & ? & ? & ?).
  repeat split; congruence.
Qed.

Lemma addInitFunction_reports file f l l' o :
  addInitFunction NDEBUG file f l = Ok l' o ->
  same_but_init_functions l l'
  /\ errors l'
     = errors l
       ++ invalid_signature_errors
            (if isDiscarded (getFunctionSymbol file (initSymbol f)) then []
             else [{| sym := getFunctionSymbol file (initSymbol f);
                      priority := Priority f |}]).
Proof.
  unfold addInitFunction, invalid_signature_errors.
  destruct (isDiscarded _).
  { intros [<- _]%Ok_inj. cbn. rewrite app_nil_r.
    split; [apply same_but_init_functions_refl|done]. }
  destruct (NDEBUG || isLive _); cbn; [|done].
  destruct (negb (signatureIsVoid _)); intros [<- _]%Ok_inj; cbn;
    rewrite ?app_nil_r; by repeat split.
Qed.

Lemma invalid_signature_errors_app fs gs :
  invalid_signature_errors (fs ++ gs)
  = invalid_signature_errors fs ++ invalid_signature_errors gs.
Proof.
  unfold invalid_signature_errors. by rewrite List.filter_app, map_app.
Qed.

Lemma collect_file_reports file fs l l' o :
  for_each (addInitFunction NDEBUG file) fs l = Ok l' o ->
  same_but_init_functions l l'
  /\ errors l'
     = errors l
       ++ invalid_signature_errors
            (f ← fs;
             if isDiscarded (getFunctionSymbol file (initSymbol f)) then []
             else [{| sym := getFunctionSymbol file (initSymbol f);
                      priority := Priority f |}]).
Proof.
  revert l o. induction fs as [|f fs IH]; intros l o.
  { intros [<- _]%Ok_inj. cbn. rewrite app_nil_r.
    split; [apply same_but_init_functions_refl|done]. }
  rewrite for_each_cons.
  intros (l1 & o1 & o2 & [Hs1 H1]%addInitFunction_reports & [Hs2 H2]%IH & _)
    %bind_Ok_inv.
  split; [by eapply same_but_init_functions_trans|].
  rewrite H2, H1, <- app_assoc, <- invalid_signature_errors_app. done.
Qed.

Lemma collect_files_reports objs l l' o :
  for_each (fun file l => for_each (addInitFunction NDEBUG file)
                            (InitFunctions file) l) objs l = Ok l' o ->
  same_but_init_functions l l'
  /\ errors l'
     = errors l
       ++ invalid_signature_errors
            (file ← objs;
             f ← InitFunctions file;
             if isDiscarded (getFunctionSymbol file (initSymbol f)) then []
             else [{| sym := getFunctionSymbol file (initSymbol f);
                      priority := Priority f |}]).
Proof.
  revert l o. induction objs as [|file objs IH]; intros l o.
  { intros [<- _]%Ok_inj. cbn. rewrite app_nil_r.
    split; [apply same_but_init_functions_refl|done]. }
  rewrite for_each_cons.
  intros (l1 & o1 & o2 & [Hs1 H1]%collect_file_reports & [Hs2 H2]%IH & _)
    %bind_Ok_inv.
  split; [by eapply same_but_init_functions_trans|].
  rewrite H2, H1, <- app_assoc, <- invalid_signature_errors_app. done.
Qed.

End Init_function_errors.

(** X7: [calculateInitFunctions] changes nothing of the link but the list
    of init functions and the errors.  When the link is not relocatable and
    [__wasm_call_ctors] is not live it changes nothing at all.  Otherwise
    the list gains the discovered init functions, and an init function with
    a signature other than [() -> ()] is reported, in the order of
    discovery, and kept in the list all the same. *)
Theorem init_functions_with_wrong_signature_are_reported
    config symtab NDEBUG l l' o :
  calculateInitFunctions config symtab NDEBUG l = Ok l' o ->
  same_but_init_functions l l'
  /\ (relocatable config = false ->
      (exists c, WasmSym.callCtors (wasmSym l) = Some c /\ isLive c = false) ->
      l' = l)
  /\ (relocatable config = true
      \/ (exists c, WasmSym.callCtors (wasmSym l) = Some c
                    /\ isLive c = true) ->
      errors l' = errors l ++ invalid_signature_errors (discovered symtab)
      /\ Writer.initFunctions (writer l')
         ≡ₚ Writer.initFunctions (writer l) ++ discovered symtab).
Proof.
  unfold calculateInitFunctions.
  intros (skip & o1 & o2 & Hskip & Hrest & _)%bind_Ok_inv.
  assert (skip = negb (relocatable config)
                 && match WasmSym.callCtors (wasmSym l) with
                    | Some c => negb (isLive c)
                    | None => false
                    end
          /\ (relocatable config = false ->
              is_Some (WasmSym.callCtors (wasmSym l)))) as [-> Hctors].
  { destruct (relocatable config); [by apply Ok_inj in Hskip as [<- _]|].
    destruct (WasmSym.callCtors (wasmSym l)) as [c|]; [|done].
    cbn in Hskip. apply Ok_inj in Hskip as [<- _]. by split. }
  clear Hskip.
  destruct (relocatable config) eqn:Hreloc; cbn [negb andb] in Hrest.
  - apply bind_Ok_inv in Hrest
      as (l1 & o3 & o4 & Hloop & [<- _]%Ok_inj & _).
    pose proof (collect_files _ _ _ _ _ Hloop) as [Hfs _].
    apply collect_files_reports in Hloop as [Hsame Herrors].
    split; [|split; [done|]].
    + destruct Hsame as (? & ? & ? & ? & ? & ?). by repeat split.
    + intros _. cbn. split; [done|].
      by rewrite stable_sort_Permutation, Hfs.
  - destruct (Hctors eq_refl) as [c Hc]. rewrite Hc in Hrest.
    destruct (isLive c) eqn:Hlive; cbn [negb] in Hrest.
    + apply bind_Ok_inv in Hrest
        as (l1 & o3 & o4 & Hloop & [<- _]%Ok_inj & _).
      pose proof (collect_files _ _ _ _ _ Hloop) as [Hfs _].
      apply collect_files_reports in Hloop as [Hsame Herrors].
      split; [|split].
      * destruct Hsame as (? & ? & ? & ? & ? & ?). by repeat split.
      * intros _ (c' & Hc' & Hdead). rewrite Hc in Hc'.
        injection Hc' as <-. congruence.
      * intros _. cbn. split; [done|].
        by rewrite stable_sort_Permutation, Hfs.
    + apply Ok_inj in Hrest as [<- _].
      split; [apply same_but_init_functions_refl|]. split; [done|].
      intros [|(c' & Hc' & Hlive')]; [done|]. rewrite Hc in Hc'.
      injection Hc' as <-. congruence.
Qed.

Lemma init_functions_with_wrong_signature_are_reported_witness :
  exists l',
    calculateInitFunctions Links.two_pages Reports.objects false Links.fresh
    = Ok l' []
    /\ errors l' = ["invalid signature for init func: with_argument"]
    /\ Writer.initFunctions (writer l')
       ≡ₚ discovered Reports.objects.
Proof.
  destruct (calculateInitFunctions Links.two_pages Reports.objects false
              Links.fresh) as [l' o| | |] eqn:Hl';
    try (vm_compute in Hl'; discriminate Hl').
  assert (o = []) as -> by (vm_compute in Hl'; by injection Hl').
  exists l'. split; [done|].
  destruct (init_functions_with_wrong_signature_are_reported Links.two_pages
              Reports.objects false Links.fresh l' [] Hl')
    as (_ & _ & Hcollect).
  destruct Hcollect as [Herrors Hfs].
  { right. eexists. split; reflexivity. }
  split; [exact Herrors|exact Hfs].
Defined.

(** ** An action that is registered *)

Section Action_hit.

Variable string_to_name : string -> Z.
Variable symtab : SymbolTable.
Variable h : host.

Lemma action_chain_app before rest last :
  action_chain string_to_name symtab (before ++ rest) last
  = action_chain string_to_name symtab before
      (action_chain string_to_name symtab rest last).
Proof. induction before as [|a before IH]; cbn; by rewrite ?IH. Qed.

Lemma exec_action_block_hit act otherwise stk receiver code action σ tr :
  action = action_name string_to_name act ->
  exec h (action_block string_to_name symtab act otherwise)
       {| stack := stk; locals := [I64 receiver; I64 code; I64 action];
          st := σ; trace := tr |}
  = let event := (index_of symtab (substr_after_colon act),
                  I64 code :: I64 receiver :: stk) in
    match h (index_of symtab (substr_after_colon act))
            (I64 code :: I64 receiver :: stk) σ with
    | Some (stk', σ') =>
        Normal {| stack := stk';
                  locals := [I64 receiver; I64 code; I64 action];
                  st := σ'; trace := tr ++ [event] |}
    | None =>
        Trapped {| stack := I64 code :: I64 receiver :: stk;
                   locals := [I64 receiver; I64 code; I64 action];
                   st := σ; trace := tr ++ [event] |}
    end.
Proof.
  intros ->. unfold action_name. run. rewrite to_int64_u64, Z.eqb_refl.
  run. by destruct (h _ _ _) as [[stk' σ']|].
Qed.

End Action_hit.

(** X8: in the code the action dispatcher writes, an action is handed to
    the handler of the first registered action string of that name, in the
    order of first occurrence over the object files: the handler is called
    with the receiver and the code, it is the only call made, and the
    dispatch ends as the handler does. *)
Theorem action_dispatch_calls_first_match string_to_name symtab bs
    (h : host) (m : machine) receiver code action before act after :
  create_action_dispatch string_to_name symtab = Ok tt bs ->
  first_occurrences (all_actions symtab) = before ++ act :: after ->
  locals m = [I64 receiver; I64 code; I64 action] ->
  Forall (fun a => action <> action_name string_to_name a) before ->
  action = action_name string_to_name act ->
  let dispatch :=
    action_dispatch_code string_to_name symtab
      (first_occurrences (all_actions symtab)) in
  let handler := index_of symtab (substr_after_colon act) in
  let operands := I64 code :: I64 receiver :: stack m in
  decode bs = Some (flatten dispatch)
  /\ trace_of (exec h dispatch m) = trace m ++ [(handler, operands)]
  /\ match h handler operands (st m) with
     | Some (stk', σ') =>
         exec h dispatch m
         = Normal {| stack := stk'; locals := locals m; st := σ';
                     trace := trace m ++ [(handler, operands)] |}
     | None =>
         exec h dispatch m
         = Trapped {| stack := operands; locals := locals m; st := st m;
                      trace := trace m ++ [(handler, operands)] |}
     end.
Proof.
  intros Hok Hacts Hls Hmiss Hhit dispatch handler operands.
  split; [by apply Encodes_decode, create_action_dispatch_tokens|].
  destruct m as [stk ls σ tr]. cbn in Hls. subst ls.
  unfold dispatch, action_dispatch_code, handler, operands.
  rewrite Hacts, action_chain_app.
  rewrite exec_action_chain_miss by by apply Forall_forall.
  cbn [action_chain]. rewrite (exec_action_block_hit _ _ h) by done.
  cbn [stack st trace locals].
  by destruct (h _ _ _) as [[stk' σ']|].
Qed.

Lemma action_dispatch_calls_first_match_witness :
  exists bs,
    create_action_dispatch string_to_name_spec Examples.contract = Ok tt bs
    /\ exec Runs.handlers
         (action_dispatch_code string_to_name_spec Examples.contract
            (first_occurrences (all_actions Examples.contract)))
         Runs.bye
       = Normal {| stack := []; locals := locals Runs.bye;
                   st := Examples.blank; trace := [(9, [I64 5; I64 5])] |}.
Proof.
  destruct (create_action_dispatch string_to_name_spec Examples.contract)
    as [[] bs| | |] eqn:Hok; try (vm_compute in Hok; discriminate Hok).
  exists bs. split; [done|].
  destruct (action_dispatch_calls_first_match string_to_name_spec
              Examples.contract bs Runs.handlers Runs.bye 5 5
              (u64 (string_to_name_spec "bye"))
              ["hi:hi_handler"] "bye:bye_handler" [] Hok)
    as (_ & _ & Hrun).
  - by vm_compute.
  - reflexivity.
  - apply (bool_decide_unpack _). by vm_compute.
  - by vm_compute.
  - exact Hrun.
Defined.

(** ** How the sync-call dispatcher can end *)

Section Throws.

Context {A B : Type}.

Lemma throws_only_bind P (m : outcome A) (f : A -> outcome B) :
  throws_only P m -> (forall a, throws_only P (f a)) ->
  throws_only P (m ≫= f).
Proof.
  destruct m as [a o| | |]; cbn; try done. intros _ Hf. specialize (Hf a).
  by destruct (f a).
Qed.

Lemma throws_only_no_throw P (m : outcome A) : no_throw m -> throws_only P m.
Proof. by destruct m. Qed.

Lemma bind_Throw (m : outcome A) (f : A -> outcome B) a o msg :
  m = Ok a o -> f a = Throw msg -> m ≫= f = Throw msg.
Proof. intros -> Hf. cbn. by rewrite Hf. Qed.

End Throws.

Lemma throws_only_for_each {A S} P (body : A -> S -> outcome S) l s :
  (forall x s', throws_only P (body x s')) -> throws_only P (for_each body l s).
Proof.
  intros Hbody. revert s. induction l as [|x l IH]; intros s; [done|].
  rewrite for_each_cons. by apply throws_only_bind.
Qed.

Section Call_dispatch_outcome.

Variable to_hash_id : string -> Z.
Variable config : Configuration.
Variable symtab : SymbolTable.

Lemma hasCalls_all_calls : hasCalls symtab = true <-> all_calls symtab <> [].
Proof.
  unfold hasCalls, all_calls.
  induction (objectFiles symtab) as [|File objs IH]; cbn [existsb map concat].
  - done.
  - destruct (getEosioCalls File) as [|c cs]; [|done].
    by rewrite orb_false_l, IH.
Qed.

Lemma create_call_if_returns call_name need_else d hd :
  find symtab "__eos_get_sync_call_data_" = Some d ->
  find symtab "__eos_get_sync_call_data_header_" = Some hd ->
  target_in_bounds symtab call_name = true ->
  exists bs, create_call_if to_hash_id symtab call_name need_else = Ok true bs.
Proof.
  unfold create_call_if, function_index_or_throw, target_in_bounds.
  intros -> ->.
  destruct (find symtab (substr_after_colon call_name)) as [f|]; [|done].
  intros ->. destruct need_else; cbn; by eexists.
Qed.

Lemma create_call_if_throws call_name need_else :
  create_call_if to_hash_id symtab call_name need_else
  = match find symtab "__eos_get_sync_call_data_",
          find symtab "__eos_get_sync_call_data_header_",
          find symtab (substr_after_colon call_name) with
    | None, _, _ =>
        Throw "wasm_ld internal error: __eos_get_sync_call_data_ not found"
    | Some _, None, _ =>
        Throw "wasm_ld internal error: __eos_get_sync_call_data_header_ not found"
    | Some _, Some _, None =>
        Throw "wasm_ld internal error sync call function not found"
    | Some _, Some _, Some f =>
        if getFunctionIndex f <? numSymbols symtab
        then create_call_if to_hash_id symtab call_name need_else
        else Throw "wasm_ld internal error sync call function index out of bound"
    end.
Proof.
  unfold create_call_if, function_index_or_throw.
  destruct (find symtab "__eos_get_sync_call_data_") as [d|];
    [|by destruct need_else].
  destruct (find symtab "__eos_get_sync_call_data_header_") as [hd|];
    [|by destruct need_else].
  destruct (find symtab (substr_after_colon call_name)) as [f|];
    [|by destruct need_else].
  destruct (getFunctionIndex f <? numSymbols symtab); [done|].
  by destruct need_else.
Qed.

Lemma throws_only_create_call_if call_name need_else :
  throws_only (fun msg => msg ∈ sync_call_complaints)
    (create_call_if to_hash_id symtab call_name need_else).
Proof.
  rewrite create_call_if_throws.
  destruct (find symtab "__eos_get_sync_call_data_") as [d|] eqn:Hd;
    [|cbn; set_solver].
  destruct (find symtab "__eos_get_sync_call_data_header_") as [hd|] eqn:Hhd;
    [|cbn; set_solver].
  destruct (find symtab (substr_after_colon call_name)) as [f|] eqn:Hf;
    [|cbn; set_solver].
  destruct (getFunctionIndex f <? numSymbols symtab) eqn:Hin;
    [|cbn; set_solver].
  destruct (create_call_if_returns call_name need_else d hd) as [bs ->];
    [done|done| |exact I].
  unfold target_in_bounds. by rewrite Hf.
Qed.

Lemma dispatch_call_eq c seen need_else cnt :
  dispatch_call to_hash_id symtab c (seen, need_else, cnt)
  = if decide (c ∈ seen) then mret (seen, need_else, cnt)
    else need_else' ← create_call_if to_hash_id symtab c need_else;
         mret ({[c]} ∪ seen, need_else', S cnt).
Proof. done. Qed.

Lemma dispatch_calls_seen l : forall seen need_else cnt seen' need_else' cnt' bs,
  for_each (dispatch_call to_hash_id symtab) l (seen, need_else, cnt)
  = Ok (seen', need_else', cnt') bs ->
  seen' = list_to_set l ∪ seen.
Proof.
  induction l as [|c l IH]; intros seen ne cnt seen' ne' cnt' bs.
  - intros [Hst _]%Ok_inj. injection Hst as <- _ _.
    by rewrite list_to_set_nil, (left_id_L ∅ (∪)).
  - rewrite for_each_cons, dispatch_call_eq. rewrite list_to_set_cons.
    destruct (decide (c ∈ seen)) as [Hc|Hc].
    + rewrite bind_ret_l. intros ->%IH. apply set_eq. intros x.
      rewrite !elem_of_union, elem_of_singleton. split; [tauto|].
      intros [[->|?]|?]; tauto.
    + intros ([[seen1 ne1] cnt1] & o1 & o2 & Hstep & ->%IH & _)%bind_Ok_inv.
      apply bind_Ok_inv in Hstep as (r & o3 & o4 & _ & [Hst _]%Ok_inj & _).
      injection Hst as <- _ _. by rewrite (assoc_L (∪)), (comm_L (∪) _ {[c]}).
Qed.

Lemma dispatch_calls_return l d hd :
  find symtab "__eos_get_sync_call_data_" = Some d ->
  find symtab "__eos_get_sync_call_data_header_" = Some hd ->
  Forall (fun c => target_in_bounds symtab c = true) l ->
  forall st, exists st' bs,
    for_each (dispatch_call to_hash_id symtab) l st = Ok st' bs.
Proof.
  intros Hd Hhd Hl. induction Hl as [|c l Hc _ IH]; intros [[seen ne] cnt].
  { by do 2 eexists. }
  rewrite for_each_cons, dispatch_call_eq.
  destruct (decide (c ∈ seen)) as [Hseen|Hseen].
  - rewrite bind_ret_l. apply IH.
  - destruct (create_call_if_returns c ne d hd Hd Hhd Hc) as [bs Hbs].
    rewrite Hbs. cbn [mbind outcome_bind mret outcome_ret].
    destruct (IH ({[c]} ∪ seen, true, S cnt)) as (st' & bs' & ->).
    by do 2 eexists.
Qed.

(** The first call whose block cannot be written ends the loop. *)
Lemma dispatch_calls_throw before c after d hd msg :
  find symtab "__eos_get_sync_call_data_" = Some d ->
  find symtab "__eos_get_sync_call_data_header_" = Some hd ->
  Forall (fun c' => target_in_bounds symtab c' = true) before ->
  target_in_bounds symtab c = false ->
  (forall need_else,
     create_call_if to_hash_id symtab c need_else = Throw msg) ->
  for_each (dispatch_call to_hash_id symtab) (before ++ c :: after)
    (∅, false, O)
  = Throw msg.
Proof.
  intros Hd Hhd Hbefore Hc Hthrow. rewrite for_each_app.
  destruct (dispatch_calls_return before d hd Hd Hhd Hbefore (∅, false, O))
    as ([[seen ne] cnt] & bs & Hloop).
  rewrite Hloop. apply dispatch_calls_seen in Hloop as ->.
  eapply bind_Throw; [done|].
  rewrite for_each_cons, dispatch_call_eq.
  rewrite decide_False.
  - by rewrite Hthrow.
  - rewrite elem_of_union, elem_of_list_to_set.
    intros [Hin|Hin]; [|set_solver].
    rewrite Forall_forall in Hbefore. apply Hbefore in Hin. congruence.
Qed.

Lemma create_call_dispatch_throws_only :
  throws_only
    (fun msg => msg ∈ sync_call_complaints
                \/ (all_calls symtab = []
                    /\ msg = "wasm_ld internal error: call_cnt must be greater than 0"))
    (create_call_dispatch to_hash_id symtab).
Proof.
  unfold create_call_dispatch. rewrite for_each_files.
  fold (all_calls symtab).
  destruct (for_each (dispatch_call to_hash_id symtab) (all_calls symtab)
              (∅, false, O)) as [[[seen ne] cnt] bs| | |] eqn:Hloop;
    try done.
  - destruct (all_calls symtab) as [|c calls] eqn:Hcalls.
    + apply Ok_inj in Hloop as [[= <- <- <-] _]. cbn. by right.
    + eapply dedup_loop in Hloop as [[= -> -> ->] _];
        [|reflexivity|apply create_call_if_tokens].
      rewrite filter_not_seen by set_solver. cbn.
      by rewrite write_ends_eq.
  - pose proof (throws_only_for_each
                  (fun msg => msg ∈ sync_call_complaints)
                  (dispatch_call to_hash_id symtab) (all_calls symtab)
                  (∅, false, O)) as Hthrows.
    rewrite Hloop in Hthrows. cbn. left. apply Hthrows.
    intros c [[seen ne] cnt]. unfold dispatch_call.
    case_decide; [done|].
    apply throws_only_bind; [apply throws_only_create_call_if|done].
Qed.

End Call_dispatch_outcome.

Section Call_dispatch_function.

Variable to_hash_id : string -> Z.
Variable config : Configuration.
Variable symtab : SymbolTable.

Lemma stack_canary_prologue_returns :
  (stackCanary config = true ->
   is_Some (find symtab "current_time")
   /\ is_Some (find symtab "__stack_canary")
   /\ is_Some (find symtab "__data_end")) ->
  exists bs,
    when (stackCanary config) (stack_canary_prologue symtab) = Ok tt bs.
Proof.
  unfold stack_canary_prologue.
  destruct (stackCanary config); [|by eexists].
  intros Hsyms. destruct (Hsyms eq_refl) as ([t ->] & [g ->] & [de ->]).
  cbn. by eexists.
Qed.

Lemma stack_canary_epilogue_returns :
  (stackCanary config = true ->
   is_Some (find symtab "__stack_canary")
   /\ is_Some (find symtab "__data_end")
   /\ is_Some (find symtab "eosio_assert_code")) ->
  exists bs,
    when (stackCanary config) (stack_canary_epilogue symtab) = Ok tt bs.
Proof.
  unfold stack_canary_epilogue.
  destruct (stackCanary config); [|by eexists].
  intros Hsyms. destruct (Hsyms eq_refl) as ([g ->] & [de ->] & [a ->]).
  cbn. by eexists.
Qed.

Lemma no_throw_stack_canary_epilogue :
  no_throw (when (stackCanary config) (stack_canary_epilogue symtab)).
Proof.
  unfold stack_canary_epilogue.
  by destruct (stackCanary config), (find symtab "__stack_canary"),
    (find symtab "__data_end"), (find symtab "eosio_assert_code").
Qed.

(** Once the preamble is written, a dispatch that throws ends the
    function. *)
Lemma createCallDispatchFunction_throws msg :
  is_Some (find symtab "eosio_set_contract_name") ->
  (stackCanary config = true ->
   is_Some (find symtab "current_time")
   /\ is_Some (find symtab "__stack_canary")
   /\ is_Some (find symtab "__data_end")) ->
  create_call_dispatch to_hash_id symtab = Throw msg ->
  createCallDispatchFunction to_hash_id config symtab = Throw msg.
Proof.
  intros [c Hc] Hcanary Hdispatch.
  unfold createCallDispatchFunction, call_dispatch_BodyContent.
  destruct call_ctors_Ok with symtab as [ctors Hctors].
  destruct (stack_canary_prologue_returns Hcanary) as [prologue Hprologue].
  rewrite Hc. cbn. rewrite Hctors. cbn. rewrite Hprologue. cbn.
  by rewrite Hdispatch.
Qed.

Lemma createCallDispatchFunction_returns dispatch :
  is_Some (find symtab "eosio_set_contract_name") ->
  (stackCanary config = true ->
   is_Some (find symtab "current_time")
   /\ is_Some (find symtab "__stack_canary")
   /\ is_Some (find symtab "__data_end")
   /\ is_Some (find symtab "eosio_assert_code")) ->
  create_call_dispatch to_hash_id symtab = Ok tt dispatch ->
  exists body,
    createCallDispatchFunction to_hash_id config symtab = Ok tt body.
Proof.
  intros [c Hc] Hcanary Hdispatch.
  unfold createCallDispatchFunction, call_dispatch_BodyContent.
  destruct call_ctors_Ok with symtab as [ctors Hctors].
  destruct (call_cxa_finalize_tokens symtab) as (fin & Hfin & _).
  destruct stack_canary_prologue_returns as [prologue Hprologue];
    [intros Hon; destruct (Hcanary Hon) as (? & ? & ? & ?); done|].
  destruct stack_canary_epilogue_returns as [epilogue Hepilogue];
    [intros Hon; destruct (Hcanary Hon) as (? & ? & ? & ?); done|].
  rewrite Hc. cbn. rewrite Hctors. cbn. rewrite Hprologue. cbn.
  rewrite Hdispatch. cbn. rewrite Hepilogue. cbn. rewrite Hfin. cbn.
  by eexists.
Qed.

Lemma createCallDispatchFunction_throws_only P :
  throws_only P (create_call_dispatch to_hash_id symtab) ->
  throws_only P (createCallDispatchFunction to_hash_id config symtab).
Proof.
  intros Hdispatch.
  assert (throws_only P (call_dispatch_BodyContent to_hash_id config symtab))
    as Hbody.
  { unfold call_dispatch_BodyContent.
    repeat (apply throws_only_bind; [done|intros ?]).
    apply throws_only_bind;
      [by destruct (find symtab "eosio_set_contract_name")|intros ?].
    repeat (apply throws_only_bind; [done|intros ?]).
    apply throws_only_bind;
      [by destruct call_ctors_Ok with symtab as [ctors ->]|intros ?].
    apply throws_only_bind;
      [apply throws_only_no_throw, no_throw_stack_canary_prologue|intros ?].
    apply throws_only_bind; [done|intros ?].
    apply throws_only_bind;
      [apply throws_only_no_throw, no_throw_stack_canary_epilogue|intros ?].
    apply throws_only_bind;
      [by destruct (call_cxa_finalize_tokens symtab) as (fin & -> & _)
      |intros ?].
    done. }
  unfold createCallDispatchFunction.
  by destruct (call_dispatch_BodyContent to_hash_id config symtab).
Qed.

End Call_dispatch_function.

(** X9: how [createCallDispatchFunction] ends once the preamble can be
    written ([eosio_set_contract_name] is known and, under [stackCanary],
    so are [current_time], [__stack_canary] and [__data_end]).  Without any
    sync call it throws the complaint about [call_cnt]; with calls, a
    missing [__eos_get_sync_call_data_] or
    [__eos_get_sync_call_data_header_] makes it throw, and so does the first
    call, in iteration order, whose target is missing or has a function
    index that is not below the number of symbols; when all of that is in
    order (and [eosio_assert_code] is known under [stackCanary]) it returns
    a body. *)
Theorem sync_call_dispatcher_returns_or_throws to_hash_id config symtab :
  is_Some (find symtab "eosio_set_contract_name") ->
  (stackCanary config = true ->
   is_Some (find symtab "current_time")
   /\ is_Some (find symtab "__stack_canary")
   /\ is_Some (find symtab "__data_end")) ->
  let result := createCallDispatchFunction to_hash_id config symtab in
  let calls := all_calls symtab in
  (calls = [] ->
   result = Throw "wasm_ld internal error: call_cnt must be greater than 0")
  /\ (calls <> [] ->
      find symtab "__eos_get_sync_call_data_" = None ->
      result
      = Throw "wasm_ld internal error: __eos_get_sync_call_data_ not found")
  /\ (calls <> [] ->
      is_Some (find symtab "__eos_get_sync_call_data_") ->
      find symtab "__eos_get_sync_call_data_header_" = None ->
      result
      = Throw "wasm_ld internal error: __eos_get_sync_call_data_header_ not found")
  /\ (is_Some (find symtab "__eos_get_sync_call_data_") ->
      is_Some (find symtab "__eos_get_sync_call_data_header_") ->
      forall before c after,
        calls = before ++ c :: after ->
        Forall (fun c' => target_in_bounds symtab c' = true) before ->
        (find symtab (substr_after_colon c) = None ->
         result
         = Throw "wasm_ld internal error sync call function not found")
        /\ (forall func_sym,
              find symtab (substr_after_colon c) = Some func_sym ->
              numSymbols symtab <= getFunctionIndex func_sym ->
              result
              = Throw "wasm_ld internal error sync call function index out of bound"))
  /\ (calls <> [] ->
      is_Some (find symtab "__eos_get_sync_call_data_") ->
      is_Some (find symtab "__eos_get_sync_call_data_header_") ->
      Forall (fun c => target_in_bounds symtab c = true) calls ->
      (stackCanary config = true ->
       is_Some (find symtab "eosio_assert_code")) ->
      exists body, result = Ok tt body).
Proof.
  intros Hcontract Hcanary result calls. unfold result.
  assert (create_call_dispatch to_hash_id symtab
          = '(_, _, call_cnt) ←
              for_each (dispatch_call to_hash_id symtab) calls (∅, false, O);
            (if (call_cnt =? 0)%nat
             then throw "wasm_ld internal error: call_cnt must be greater than 0"
             else mret tt);;
            writeU8 OPCODE_ELSE;;
            writeU8 OPCODE_I64_CONST;;
            writeSLEB128 SYNC_CALL_UNKNOWN_FUNCTION;;
            writeU8 OPCODE_RETURN;;
            write_ends call_cnt) as Hdispatch.
  { unfold create_call_dispatch. by rewrite for_each_files. }
  split; [|split; [|split; [|split]]].
  - intros Hcalls. apply createCallDispatchFunction_throws; [done..|].
    by rewrite Hdispatch, Hcalls.
  - intros Hcalls Hdata. apply createCallDispatchFunction_throws; [done..|].
    rewrite Hdispatch. destruct calls as [|c calls']; [done|].
    rewrite for_each_cons, dispatch_call_eq, decide_False by set_solver.
    by rewrite create_call_if_throws, Hdata.
  - intros Hcalls [d Hdata] Hheader.
    apply createCallDispatchFunction_throws; [done..|].
    rewrite Hdispatch. destruct calls as [|c calls']; [done|].
    rewrite for_each_cons, dispatch_call_eq, decide_False by set_solver.
    by rewrite create_call_if_throws, Hdata, Hheader.
  - intros [d Hdata] [hd Hheader] before c after Hcalls Hbefore. split.
    + intros Htarget. apply createCallDispatchFunction_throws; [done..|].
      rewrite Hdispatch, Hcalls.
      erewrite dispatch_calls_throw; [done|done|done|done| |].
      * unfold target_in_bounds. by rewrite Htarget.
      * intros ne. by rewrite create_call_if_throws, Hdata, Hheader, Htarget.
    + intros f Htarget Hout.
      apply createCallDispatchFunction_throws; [done..|].
      rewrite Hdispatch, Hcalls.
      assert ((getFunctionIndex f <? numSymbols symtab) = false) as Hbound
        by by apply Z.ltb_ge.
      erewrite dispatch_calls_throw; [done|done|done|done| |].
      * unfold target_in_bounds. by rewrite Htarget.
      * intros ne.
        by rewrite create_call_if_throws, Hdata, Hheader, Htarget, Hbound.
  - intros Hcalls [d Hdata] [hd Hheader] Htargets Hassert.
    destruct (dispatch_calls_return to_hash_id symtab calls d hd Hdata
                Hheader Htargets (∅, false, O))
      as ([[seen ne] cnt] & bs & Hloop).
    pose proof Hloop as Hstate.
    eapply dedup_loop in Hstate as [[= _ _ Hcnt] _];
      [|reflexivity|apply create_call_if_tokens].
    rewrite filter_not_seen in Hcnt by set_solver.
    assert (cnt <> O) as Hpos.
    { rewrite Hcnt. cbn. unfold calls in *.
      destruct (all_calls symtab); [done|]. done. }
    assert (exists dispatch,
              create_call_dispatch to_hash_id symtab = Ok tt dispatch)
      as [dispatch Hok].
    { rewrite Hdispatch, Hloop. destruct cnt as [|cnt']; [done|].
      cbn [mbind outcome_bind Nat.eqb]. rewrite write_ends_eq. cbn.
      by eexists. }
    eapply createCallDispatchFunction_returns; [done| |exact Hok].
    intros Hon. destruct (Hcanary Hon) as (? & ? & ?).
    repeat (split; [done|]). by apply Hassert.
Qed.

Lemma sync_call_dispatcher_returns_or_throws_witness :
  (exists body,
     createCallDispatchFunction Examples.hash_id (Examples.options false)
       Examples.contract = Ok tt body)
  /\ createCallDispatchFunction Examples.hash_id (Examples.options false)
       Calls.dangling
     = Throw "wasm_ld internal error sync call function not found".
Proof.
  split.
  - destruct (sync_call_dispatcher_returns_or_throws Examples.hash_id
                (Examples.options false) Examples.contract)
      as (_ & _ & _ & _ & Hreturns); [by eexists|done|].
    apply Hreturns;
      [done|by eexists|by eexists
      |apply (bool_decide_unpack _); by vm_compute|done].
  - destruct (sync_call_dispatcher_returns_or_throws Examples.hash_id
                (Examples.options false) Calls.dangling)
      as (_ & _ & _ & Hthrows & _); [by eexists|done|].
    destruct (Hthrows ltac:(by eexists) ltac:(by eexists)
                ["deposit:deposit_handler"; "deposit:deposit_handler"]
                "withdraw:withdraw_handler" [])
      as [Hmissing _].
    + reflexivity.
    + apply (bool_decide_unpack _). by vm_compute.
    + apply Hmissing. reflexivity.
Defined.

(** X10: [run] writes [sync_call] only when some object file has sync
    calls (and the entry is undefined), so the complaint about [call_cnt] is
    never thrown: whatever is thrown is one of the four complaints of
    [create_if].  When no file has sync calls nothing is written. *)
Theorem run_sync_call_never_without_calls
    to_hash_id config symtab syncCallEntryIsUndefined :
  throws_only (fun msg => msg ∈ sync_call_complaints)
    (run_sync_call to_hash_id config symtab syncCallEntryIsUndefined)
  /\ run_sync_call to_hash_id config symtab syncCallEntryIsUndefined
     <> Throw "wasm_ld internal error: call_cnt must be greater than 0"
  /\ (all_calls symtab = [] ->
      run_sync_call to_hash_id config symtab syncCallEntryIsUndefined
      = Ok tt []).
Proof.
  assert (throws_only (fun msg => msg ∈ sync_call_complaints)
            (run_sync_call to_hash_id config symtab syncCallEntryIsUndefined))
    as Hthrows.
  { unfold run_sync_call.
    destruct (hasCalls symtab) eqn:Hcalls; [|done].
    destruct syncCallEntryIsUndefined; [|done]. cbn [andb].
    apply hasCalls_all_calls in Hcalls.
    pose proof (createCallDispatchFunction_throws_only to_hash_id config
                  symtab _ (create_call_dispatch_throws_only to_hash_id
                              symtab)) as Hall.
    destruct (createCallDispatchFunction to_hash_id config symtab);
      try done.
    by destruct Hall as [?|[? _]]. }
  split; [done|]. split.
  - intros Heq. rewrite Heq in Hthrows. cbn in Hthrows.
    unfold sync_call_complaints in Hthrows.
    by repeat (apply elem_of_cons in Hthrows as [Hthrows|Hthrows]);
      [..|apply elem_of_nil in Hthrows].
  - intros Hnone. unfold run_sync_call.
    destruct (hasCalls symtab) eqn:Hcalls; [|done].
    by apply hasCalls_all_calls in Hcalls.
Qed.

(** ** The registration of the notification handlers *)

Section Notify_registration.

Lemma register_notify_eq notif seen cnt m :
  register_notify notif (seen, cnt, m)
  = if decide (notif ∈ seen) then mret (seen, cnt, m)
    else if malformed_notify notif then throw "basic_string::substr"
         else mret ({[notif]} ∪ seen, S cnt, push_notify m notif).
Proof.
  unfold register_notify, malformed_notify, push_notify, notify_rest,
    notify_pos, substr_from.
  case_decide; [done|]. by case_match.
Qed.

Lemma register_notify_loop l : forall seen cnt m,
  Forall (fun notif => malformed_notify notif = false) l ->
  for_each register_notify l (seen, cnt, m)
  = Ok (list_to_set l ∪ seen,
        (cnt + length (filter (fun x => x ∉ seen) (first_occurrences l)))%nat,
        foldl push_notify m
          (filter (fun x => x ∉ seen) (first_occurrences l))) [].
Proof.
  induction l as [|x l IH]; intros seen cnt m Hl.
  - cbn. by rewrite Nat.add_0_r, (left_id_L ∅ (∪)).
  - apply Forall_cons in Hl as [Hx Hl].
    rewrite for_each_cons, register_notify_eq. cbn [first_occurrences].
    rewrite list_to_set_cons.
    destruct (decide (x ∈ seen)) as [Hseen|Hseen].
    + rewrite bind_ret_l, IH by done.
      rewrite filter_cons_False by tauto.
      rewrite list_filter_filter_l by (intros y Hy ->; done).
      do 3 f_equal. apply set_eq. intros y.
      rewrite !elem_of_union, elem_of_singleton. split; [tauto|].
      intros [[->|?]|?]; tauto.
    + rewrite Hx, bind_ret_l, IH by done.
      rewrite filter_cons_True by done.
      rewrite list_filter_filter.
      assert (filter (fun y => (y ∉ seen) /\ (y <> x)) (first_occurrences l)
              = filter (fun y => y ∉ {[x]} ∪ seen) (first_occurrences l))
        as -> by (apply list_filter_iff; intros y;
                  rewrite elem_of_union, elem_of_singleton; tauto).
      cbn [length foldl].
      rewrite (assoc_L (∪)), (comm_L (∪) _ {[x]}), Nat.add_succ_r. done.
Qed.

(** The first malformed string ends the loop. *)
Lemma register_notify_throw before x after :
  Forall (fun notif => malformed_notify notif = false) before ->
  malformed_notify x = true ->
  for_each register_notify (before ++ x :: after) (∅, O, [])
  = Throw "basic_string::substr".
Proof.
  intros Hbefore Hx. rewrite for_each_app, register_notify_loop by done.
  eapply bind_Throw; [done|].
  rewrite for_each_cons, register_notify_eq, decide_False, Hx; [done|].
  rewrite elem_of_union, elem_of_list_to_set.
  intros [Hin|Hin]; [|set_solver].
  rewrite Forall_forall in Hbefore. apply Hbefore in Hin. congruence.
Qed.

Lemma first_malformed l :
  Exists (fun notif => malformed_notify notif = true) l ->
  exists before x after,
    l = before ++ x :: after
    /\ Forall (fun notif => malformed_notify notif = false) before
    /\ malformed_notify x = true.
Proof.
  induction l as [|y l IH]; intros Hex; [by apply Exists_nil in Hex|].
  destruct (malformed_notify y) eqn:Hy.
  - by exists [], y, l.
  - apply Exists_cons in Hex as [Hex|Hex]; [congruence|].
    destruct (IH Hex) as (before & x & after & -> & Hbefore & Hx).
    exists (y :: before), x, after. split; [done|]. split; [|done].
    by constructor.
Qed.

Lemma index_colon_lt s i :
  String.index 0 ":" s = Some i -> (i < String.length s)%nat.
Proof.
  revert i. induction s as [|c s IH]; intros i; [done|].
  cbn [String.index String.length].
  destruct (String.prefix ":" (String c s)); [intros [= <-]; lia|].
  destruct (String.index 0 ":" s) as [j|]; [|done].
  intros [= <-]. specialize (IH j eq_refl). lia.
Qed.

Lemma malformed_notify_iff notif :
  malformed_notify notif = true
  <-> notif = EmptyString
      \/ find_colon notif = Some (String.length notif - 1)%nat.
Proof.
  unfold malformed_notify, notify_pos, find_colon.
  destruct (String.index 0 ":" notif) as [i|] eqn:Hi.
  - apply index_colon_lt in Hi as Hlt. rewrite Nat.ltb_lt. split.
    + intros Hpos. right. f_equal. lia.
    + intros [->|[= ->]]; [done|lia].
  - rewrite Nat.ltb_lt. split.
    + intros Hpos. left. destruct notif; [done|cbn in Hpos; lia].
    + intros [->|]; [cbn; lia|done].
Qed.

End Notify_registration.



(** ** What the notification dispatcher writes *)

Section Notify_tokens.

Variable string_to_name : string -> Z.
Variable symtab : SymbolTable.

Lemma handler_chain_tokens l : forall need_else r bs,
  for_each (create_if string_to_name symtab) l need_else = Ok r bs ->
  Encodes bs (chain_tokens (action_tokens string_to_name symtab) need_else l).
Proof.
  induction l as [|str l IH]; intros ne r bs.
  - intros [_ <-]%Ok_inj. constructor.
  - rewrite for_each_cons.
    intros (ne' & o1 & o2 & [-> Hblk]%create_if_tokens & Hrest%IH & ->)
      %bind_Ok_inv.
    cbn [chain_tokens]. rewrite app_assoc. by apply Encodes_app.
Qed.

Lemma dispatch_code_name_tokens notif0 has_written need_else st' bs :
  dispatch_code_name string_to_name symtab notif0 (has_written, need_else)
  = Ok st' bs ->
  if String.eqb (fst notif0) "*"
  then st' = (has_written, need_else) /\ bs = []
  else st' = (true, true)
       /\ Encodes bs ((if need_else then [Else] else [])
                      ++ code_name_tokens string_to_name symtab notif0).
Proof.
  unfold dispatch_code_name.
  destruct (String.eqb (fst notif0) "*"); [by intros [<- <-]%Ok_inj|].
  destruct (for_each (create_if string_to_name symtab) (snd notif0) false)
    as [r chain| | |] eqn:Hchain;
    [|by destruct need_else..].
  apply handler_chain_tokens in Hchain. rewrite write_ends_eq.
  unfold code_name_tokens.
  destruct need_else; cbn; intros [<- <-]%Ok_inj; (split; [done|]).
  - apply Encodes_else.
    eapply Encodes_eq;
      [stream_shape; read_tokens; apply Encodes_app; [exact Hchain|];
       apply Encodes_ends_last|done].
  - eapply Encodes_eq;
      [stream_shape; read_tokens; apply Encodes_app; [exact Hchain|];
       apply Encodes_ends_last|done].
Qed.

Lemma code_names_loop_tokens m : forall has_written need_else st' bs,
  for_each (dispatch_code_name string_to_name symtab) m
    (has_written, need_else) = Ok st' bs ->
  fst st' = has_written
            || bool_decide (concrete_code_names m <> [])
  /\ Encodes bs (code_names_tokens string_to_name symtab need_else m).
Proof.
  induction m as [|notif0 m IH]; intros hw ne st' bs.
  - intros [<- <-]%Ok_inj. cbn. rewrite orb_false_r.
    split; [done|constructor].
  - rewrite for_each_cons.
    intros ([hw1 ne1] & o1 & o2 & Hone & Hrest & ->)%bind_Ok_inv.
    apply dispatch_code_name_tokens in Hone.
    unfold concrete_code_names in *. cbn [code_names_tokens map List.filter].
    destruct (String.eqb (fst notif0) "*"); cbn [negb].
    + destruct Hone as [[= -> ->] ->]. by apply IH in Hrest.
    + destruct Hone as [[= -> ->] Hblk]. apply IH in Hrest as [-> Hrest].
      split; [by rewrite (bool_decide_true (_ :: _ <> [])), orb_true_r|]. rewrite app_assoc. by apply Encodes_app.
Qed.

End Notify_tokens.

Section Notify_stream.

Variable string_to_name : string -> Z.
Variable symtab : SymbolTable.

Lemma register_all_notify st' bs :
  for_each register_notify (all_notify symtab) (∅, O, []) = Ok st' bs ->
  Forall (fun notif => malformed_notify notif = false) (all_notify symtab)
  /\ st' = (list_to_set (all_notify symtab) ∪ ∅,
            length (first_occurrences (all_notify symtab)),
            registered_handlers symtab)
  /\ bs = [].
Proof.
  intros Hloop.
  destruct (decide (Forall (fun notif => malformed_notify notif = false)
                      (all_notify symtab))) as [Hall|Hsome].
  - rewrite register_notify_loop in Hloop by done.
    apply Ok_inj in Hloop as [<- <-].
    rewrite filter_not_seen by set_solver. done.
  - apply not_Forall_Exists in Hsome; [|apply _].
    destruct (first_malformed (all_notify symtab))
      as (before & x & after & Heq & Hbefore & Hx).
    { eapply Exists_impl; [exact Hsome|]. intros notif Hn. unfold compose in Hn.
      destruct (malformed_notify notif); [done|exfalso; by apply Hn]. }
    rewrite Heq, register_notify_throw in Hloop by done. done.
Qed.

Lemma assert_on_onerror_tokens :
  exists guard,
    assert_on_onerror string_to_name symtab = Ok tt guard
    /\ Encodes guard (flatten (onerror_guard_code string_to_name symtab)).
Proof.
  unfold assert_on_onerror. cbn. eexists. split; [done|]. read_stream.
Qed.

Lemma create_notify_dispatch_tokens bs :
  create_notify_dispatch string_to_name symtab = Ok tt bs ->
  Forall (fun notif => malformed_notify notif = false) (all_notify symtab)
  /\ Encodes bs
       ((if has_onerror_handler
               (length (first_occurrences (all_notify symtab)))
               (registered_handlers symtab)
         then []
         else flatten (onerror_guard_code string_to_name symtab))
        ++ notify_dispatch_tokens string_to_name symtab
             (registered_handlers symtab)).
Proof.
  unfold create_notify_dispatch. rewrite for_each_files.
  fold (all_notify symtab).
  intros (st' & o1 & o2 & Hloop & Hrest & ->)%bind_Ok_inv.
  apply register_all_notify in Hloop as (Hall & -> & ->).
  split; [done|]. cbn [app].
  set (not_cnt := length (first_occurrences (all_notify symtab))) in *.
  set (handlers := registered_handlers symtab) in *.
  apply bind_Ok_inv in Hrest as ([] & guard & o3 & Hguard & Hrest & ->).
  apply bind_Ok_inv in Hrest as ([] & names & o4 & Hnames & Hrest & ->).
  apply bind_Ok_inv in Hrest as (r & wild & o5 & Hwild & Hrest & ->).
  apply bind_Ok_inv in Hrest as ([] & post & ends & Hpost & Hends & ->).
  rewrite write_ends_eq in Hends. apply Ok_inj in Hends as [_ <-].
  apply Encodes_app.
  { unfold when in Hguard.
    destruct (has_onerror_handler not_cnt handlers); cbn [negb] in Hguard.
    - apply Ok_inj in Hguard as [_ <-]. constructor.
    - destruct assert_on_onerror_tokens as (guard' & Heq & Htokens).
      rewrite Heq in Hguard. by apply Ok_inj in Hguard as [_ <-]. }
  unfold notify_dispatch_tokens.
  assert (Encodes names
            (code_names_tokens string_to_name symtab false handlers
             ++ match concrete_code_names handlers with
                | [] => []
                | _ => [Else]
                end)) as Hnames_tokens.
  { destruct (0 <? not_cnt)%nat eqn:Hcnt; cbn in Hnames.
    - apply bind_Ok_inv in Hnames
        as ([hw ne] & loop & o6 & Hloop & Hwritten & ->).
      apply code_names_loop_tokens in Hloop as [Hhw Hloop].
      cbn in Hhw. subst hw. apply Encodes_app; [done|].
      destruct (concrete_code_names handlers); cbn in Hwritten;
        apply Ok_inj in Hwritten as [_ <-]; [constructor|read_stream].
    - apply Ok_inj in Hnames as [_ <-].
      apply Nat.ltb_ge in Hcnt.
      assert (first_occurrences (all_notify symtab) = []) as Hnone
        by (apply length_zero_iff_nil; fold not_cnt; lia).
      unfold handlers, registered_handlers. rewrite Hnone. constructor. }
  rewrite (app_assoc (code_names_tokens _ _ _ _)).
  apply Encodes_app; [done|].
  apply Encodes_app; [by eapply handler_chain_tokens|].
  rewrite <- (app_nil_r (replicate _ (u8 OPCODE_END))).
  unfold post_sym in Hpost.
  destruct (find symtab "post_dispatch") as [p|]; cbn in Hpost;
    apply Ok_inj in Hpost as [_ <-].
  - eapply Encodes_eq; [stream_shape; read_tokens|]. cbn. done.
  - cbn [app]. apply Encodes_ends_last.
Qed.

End Notify_stream.



(** ** The map of the notification handlers *)

Section Handler_map.












Lemma registered_map_push k v m k' v' :
  registered k' v' (map_push k v m)
  <-> (k' = k /\ v' = v) \/ registered k' v' m.
Proof.
  unfold registered. induction m as [|[k0 vs] m IH]; cbn [map_push].
  - split.
    + intros (e & ->%list_elem_of_singleton & <- & Hv). cbn in Hv.
      apply list_elem_of_singleton in Hv. by left.
    + intros [[-> ->]|(e & []%elem_of_nil & _)].
      exists (k, [v]). split; [by left|]. split; [done|by left].
  - destruct (String.compare k k0) eqn:Hc.
    + apply String.compare_eq_iff in Hc as ->. split.
      * intros (e & [->|He]%elem_of_cons & <- & Hv); cbn in *.
        -- apply elem_of_app in Hv as [Hv| ->%list_elem_of_singleton];
             [|by left].
           right. exists (k0, vs). split; [by left|done].
        -- right. exists e. split; [by right|done].
      * intros [[-> ->]|(e & [->|He]%elem_of_cons & <- & Hv)]; cbn in *.
        -- exists (k0, vs ++ [v]). split; [by left|]. split; [done|].
           apply elem_of_app. right. by left.
        -- exists (k0, vs ++ [v]). split; [by left|]. split; [done|].
           apply elem_of_app. by left.
        -- exists e. split; [by right|done].
    + split.
      * intros (e & [->|He]%elem_of_cons & <- & Hv); cbn in *.
        -- apply list_elem_of_singleton in Hv. by left.
        -- right. by exists e.
      * intros [[-> ->]|(e & He & <- & Hv)].
        -- exists (k, [v]). split; [by left|]. split; [done|by left].
        -- exists e. split; [by right|done].
    + split.
      * intros (e & [->|He]%elem_of_cons & <- & Hv); cbn in *.
        -- right. exists (k0, vs). split; [by left|done].
        -- destruct (proj1 IH) as [Hnew|(e' & He' & Hk & Hv')];
             [by exists e|by left|].
           right. exists e'. split; [by right|done].
      * intros [Hnew|(e & [->|He]%elem_of_cons & <- & Hv)]; cbn in *.
        -- destruct (proj2 IH (or_introl Hnew)) as (e & He & Hk & Hv).
           exists e. split; [by right|done].
        -- exists (k0, vs). split; [by left|done].
        -- destruct (proj2 IH) as (e' & He' & Hk & Hv');
             [right; by exists e|].
           exists e'. split; [by right|done].
Qed.

Lemma registered_foldl l : forall m k v,
  registered k v (foldl push_notify m l)
  <-> registered k v m
      \/ exists notif, notif ∈ l /\ substr_to_colon notif = k
                       /\ notify_rest notif = v.
Proof.
  induction l as [|notif l IH]; intros m k v; cbn [foldl].
  - split; [by left|]. by intros [?|(? & []%elem_of_nil & _)].
  - rewrite IH. unfold push_notify at 1. rewrite registered_map_push.
    split.
    + intros [[[-> ->]|Hm]|(n & Hn & Hk & Hv)].
      * right. exists notif. split; [by left|done].
      * by left.
      * right. exists n. split; [by right|done].
    + intros [Hm|(n & [->|Hn]%elem_of_cons & Hk & Hv)].
      * left. by right.
      * left. left. done.
      * right. by exists n.
Qed.

Lemma has_onerror_handler_handles symtab :
  has_onerror_handler (length (first_occurrences (all_notify symtab)))
    (registered_handlers symtab)
  = existsb handles_onerror (all_notify symtab).
Proof.
  apply eq_true_iff_eq. unfold has_onerror_handler.
  rewrite andb_true_iff, !existsb_exists, Nat.ltb_lt. split.
  - intros (_ & e & He%list_elem_of_In & [Hk%String.eqb_eq Hv]%andb_true_iff).
    apply existsb_exists in Hv as (r & Hr%list_elem_of_In & Honerror).
    assert (registered "eosio" r (registered_handlers symtab)) as Hreg
      by by exists e.
    apply registered_foldl in Hreg
      as [(? & []%elem_of_nil & _)|(notif & Hnotif & Hcode & Hrest)].
    exists notif. split.
    + by apply list_elem_of_In, elem_of_first_occurrences.
    + unfold handles_onerror. rewrite Hcode, Hrest, Honerror. done.
  - intros (notif & Hnotif%list_elem_of_In
            & [Hk%String.eqb_eq Hv]%andb_true_iff).
    apply elem_of_first_occurrences in Hnotif as Hfirst.
    split.
    { destruct (first_occurrences (all_notify symtab));
        [by apply elem_of_nil in Hfirst|cbn; lia]. }
    destruct (proj2 (registered_foldl (first_occurrences (all_notify symtab))
                       [] "eosio" (notify_rest notif)))
      as (e & He & Hcode & Hrest); [right; by exists notif|].
    exists e. split; [by apply list_elem_of_In|].
    rewrite Hcode. cbn. apply existsb_exists.
    exists (notify_rest notif). split; [by apply list_elem_of_In|done].
Qed.

End Handler_map.

(** ** Counting the blocks *)

Section Counting.








Variable string_to_name : string -> Z.
Variable symtab : SymbolTable.




End Counting.

Section Notify_failure.

Variable string_to_name : string -> Z.
Variable symtab : SymbolTable.

Lemma no_throw_handler_chain l need_else :
  no_throw (for_each (create_if string_to_name symtab) l need_else).
Proof. apply no_throw_for_each. intros. apply no_throw_create_if. Qed.

Lemma no_throw_dispatch_code_name notif0 st :
  no_throw (dispatch_code_name string_to_name symtab notif0 st).
Proof.
  destruct st as [hw ne]. unfold dispatch_code_name.
  destruct (String.eqb (fst notif0) "*"); [done|].
  repeat (apply no_throw_bind; [by destruct ne|intros ?]).
  apply no_throw_bind; [apply no_throw_handler_chain|intros ?].
  apply no_throw_bind; [by rewrite write_ends_eq|done].
Qed.

Lemma create_notify_dispatch_registered :
  Forall (fun notif => malformed_notify notif = false) (all_notify symtab) ->
  no_throw (create_notify_dispatch string_to_name symtab).
Proof.
  intros Hall. unfold create_notify_dispatch. rewrite for_each_files.
  fold (all_notify symtab). rewrite register_notify_loop by done.
  rewrite bind_Ok_nil.
  apply no_throw_bind; [by destruct (negb _)|intros ?].
  apply no_throw_bind.
  { destruct (0 <? _)%nat; [|done]. cbn [when].
    apply no_throw_bind.
    - apply no_throw_for_each. intros. apply no_throw_dispatch_code_name.
    - intros [[] ?]; done. }
  intros ?. apply no_throw_bind; [apply no_throw_handler_chain|intros ?].
  apply no_throw_bind; [by destruct (post_sym symtab)|intros ?].
  by rewrite write_ends_eq.
Qed.

End Notify_failure.

(** X11: the registration loop of [create_notify_dispatch] takes what is
    behind [idx + 2] of each notification string, for [idx] the place of its
    first colon.  The dispatcher throws (the [std::out_of_range] of
    [substr]) exactly when some notification string is empty or ends in its
    first colon. *)
Theorem notify_dispatch_throws_on_malformed_string string_to_name symtab :
  ((exists msg, create_notify_dispatch string_to_name symtab = Throw msg)
   <-> Exists (fun notif => malformed_notify notif = true)
         (all_notify symtab))
  /\ forall notif,
       malformed_notify notif = true
       <-> notif = EmptyString
           \/ find_colon notif = Some (String.length notif - 1)%nat.
Proof.
  split; [|apply malformed_notify_iff]. split.
  - intros [msg Hthrow].
    destruct (decide (Forall (fun notif => malformed_notify notif = false)
                        (all_notify symtab))) as [Hall|Hsome].
    + pose proof (create_notify_dispatch_registered string_to_name symtab
                    Hall) as Hno.
      by rewrite Hthrow in Hno.
    + apply not_Forall_Exists in Hsome; [|apply _].
      eapply Exists_impl; [exact Hsome|]. intros notif Hn.
      unfold compose in Hn.
      destruct (malformed_notify notif); [done|exfalso; by apply Hn].
  - intros (before & x & after & Heq & Hbefore & Hx)%first_malformed.
    exists "basic_string::substr".
    unfold create_notify_dispatch. rewrite for_each_files.
    fold (all_notify symtab).
    by rewrite Heq, register_notify_throw.
Qed.

Section Onerror_guard.

Variable string_to_name : string -> Z.
Variable symtab : SymbolTable.
Variable h : host.

Lemma exec_onerror_guard stk receiver code action σ tr :
  exec h (onerror_guard_code string_to_name symtab)
       {| stack := stk; locals := [I64 receiver; I64 code; I64 action];
          st := σ; trace := tr |}
  = if (u64 (string_to_name "eosio") =? code)
       && (u64 (string_to_name "onerror") =? action)
    then
      let event := (u32 (assert_idx symtab),
                    I64 8000000000000000001 :: I32 0 :: stk) in
      match h (u32 (assert_idx symtab))
              (I64 8000000000000000001 :: I32 0 :: stk) σ with
      | Some (stk', σ') =>
          Normal {| stack := stk';
                    locals := [I64 receiver; I64 code; I64 action];
                    st := σ'; trace := tr ++ [event] |}
      | None =>
          Trapped {| stack := I64 8000000000000000001 :: I32 0 :: stk;
                     locals := [I64 receiver; I64 code; I64 action];
                     st := σ; trace := tr ++ [event] |}
      end
    else
      Normal {| stack := stk; locals := [I64 receiver; I64 code; I64 action];
                st := σ; trace := tr |}.
Proof.
  run. rewrite !to_int64_u64.
  destruct (u64 (string_to_name "eosio") =? code); run; [|done].
  destruct (u64 (string_to_name "onerror") =? action); run; [|done].
  by destruct (h _ _ _) as [[stk' σ']|].
Qed.

End Onerror_guard.

(** X12: unless some notification string is [eosio::onerror:...],
    [create_notify_dispatch] starts with a guard; what follows is the
    dispatch of the registered handlers.  Run on a notification of the
    action [onerror] from the code [eosio], the guard calls
    [eosio_assert_code(0, 8000000000000000001)] and nothing else; on any
    other notification it does nothing. *)
Theorem onerror_guard_unless_handled string_to_name symtab bs :
  create_notify_dispatch string_to_name symtab = Ok tt bs ->
  let guard := onerror_guard_code string_to_name symtab in
  decode bs
  = Some ((if existsb handles_onerror (all_notify symtab) then []
           else flatten guard)
          ++ notify_dispatch_tokens string_to_name symtab
               (registered_handlers symtab))
  /\ forall (h : host) (m : machine) receiver code action,
       locals m = [I64 receiver; I64 code; I64 action] ->
       (code = u64 (string_to_name "eosio") ->
        action = u64 (string_to_name "onerror") ->
        trace_of (exec h guard m)
        = trace m ++ [(u32 (assert_idx symtab),
                       I64 8000000000000000001 :: I32 0 :: stack m)])
       /\ (code <> u64 (string_to_name "eosio")
           \/ action <> u64 (string_to_name "onerror") ->
           exec h guard m = Normal m).
Proof.
  intros [_ Htokens]%create_notify_dispatch_tokens guard.
  rewrite has_onerror_handler_handles in Htokens.
  split; [by apply Encodes_decode|].
  intros h [stk ls σ tr] receiver code action Hls. cbn in Hls. subst ls.
  unfold guard. rewrite exec_onerror_guard. cbn [stack trace]. split.
  - intros -> ->. rewrite !Z.eqb_refl. cbn [andb].
    by destruct (h _ _ _) as [[stk' σ']|].
  - intros [Hcode|Haction].
    + destruct (Z.eqb_spec (u64 (string_to_name "eosio")) code); [done|].
      done.
    + destruct (Z.eqb_spec (u64 (string_to_name "onerror")) action); [done|].
      by rewrite andb_false_r.
Qed.



Lemma onerror_guard_unless_handled_witness :
  exists bs,
    create_notify_dispatch string_to_name_spec Notifications.listener
    = Ok tt bs
    /\ existsb handles_onerror (all_notify Notifications.listener) = false
    /\ trace_of (exec Examples.no_host
                   (onerror_guard_code string_to_name_spec
                      Notifications.listener)
                   Notifications.onerror)
       = [(2, [I64 8000000000000000001; I32 0])].
Proof.
  destruct (create_notify_dispatch string_to_name_spec
              Notifications.listener)
    as [[] bs| | |] eqn:Hok; try (vm_compute in Hok; discriminate Hok).
  exists bs. split; [done|]. split; [by vm_compute|].
  destruct (onerror_guard_unless_handled _ _ _ Hok) as [_ Hrun].
  destruct (Hrun Examples.no_host Notifications.onerror 5
              (u64 (string_to_name_spec "eosio"))
              (u64 (string_to_name_spec "onerror")) eq_refl)
    as [Hguard _].
  exact (Hguard eq_refl eq_refl).
Defined.




(** ** The blocks of the dispatcher body *)

Section Body_blocks.

Variable string_to_name : string -> Z.
Variable config : Configuration.
Variable symtab : SymbolTable.







End Body_blocks.



(** ** The target features *)

Section Target_features.

Import TargetFeatures.

Variable config : Configuration.
Variable symtab : SymbolTable.
Variable features : option (list string).
Variable checkFeatures : bool.
Variable getTargetFeatures : ObjFile -> list WasmFeatureEntry.

Lemma reports_nil l : reports l l [].
Proof. split; [done|by rewrite app_nil_r]. Qed.

Lemma reports_error l msg : reports l (error l msg) [msg].
Proof. done. Qed.

Lemma reports_trans l1 l2 l3 es1 es2 :
  reports l1 l2 es1 -> reports l2 l3 es2 -> reports l1 l3 (es1 ++ es2).
Proof.
  intros [(? & ? & ? & ?) He1] [(? & ? & ? & ?) He2]. split.
  - repeat split; congruence.
  - by rewrite He2, He1, app_assoc.
Qed.

Lemma is_Some_insert k v m f :
  is_Some (insert k v m !! f) <-> f = k \/ is_Some (m !! f).
Proof.
  unfold insert. destruct (m !! k) as [v'|] eqn:Hk.
  - split; [by right|]. intros [->|?]; [by rewrite Hk|done].
  - destruct (decide (f = k)) as [->|Hne].
    + rewrite lookup_insert_eq. split; [by left|done].
    + rewrite lookup_insert_ne by done. split; [by right|].
      by intros [?|?].
Qed.

Lemma named_snoc prefix f entries e :
  named prefix f (entries ++ [e])
  <-> named prefix f entries \/ (Name e = f /\ Prefix e = prefix).
Proof.
  unfold named. split.
  - intros (e' & [Hin| ->%list_elem_of_singleton]%elem_of_app & Hn & Hp).
    + left. by exists e'.
    + by right.
  - intros [(e' & Hin & Hn & Hp)|[Hn Hp]].
    + exists e'. split; [|done]. apply elem_of_app. by left.
    + exists e. split; [|done]. apply elem_of_app. right. by left.
Qed.

Lemma scan_feature_spec fileName p l entries e :
  policies_of p entries ->
  exists es,
    policies_of (fst (scan_feature fileName (p, l) e)) (entries ++ [e])
    /\ reports l (snd (scan_feature fileName (p, l) e)) es
    /\ (es = [] <-> recognized e).
Proof.
  intros (Hused & Hrequired & Hdisallowed).
  unfold scan_feature, recognized, policies_of, feature_used,
    feature_required, feature_disallowed.
  assert (WASM_FEATURE_PREFIX_USED <> WASM_FEATURE_PREFIX_REQUIRED)
    as Hur by done.
  assert (WASM_FEATURE_PREFIX_USED <> WASM_FEATURE_PREFIX_DISALLOWED)
    as Hud by done.
  assert (WASM_FEATURE_PREFIX_REQUIRED <> WASM_FEATURE_PREFIX_DISALLOWED)
    as Hrd by done.
  destruct (Z.eqb_spec (Prefix e) WASM_FEATURE_PREFIX_USED) as [Hp|Hnu].
  { exists []. split; [|split; [apply reports_nil|by split; [left|]]].
    cbn [fst used required disallowed]. split; [|split]; intros f;
      rewrite ?is_Some_insert, ?named_snoc, ?Hused, ?Hrequired, ?Hdisallowed;
      unfold feature_used, feature_required, feature_disallowed;
      intuition congruence. }
  destruct (Z.eqb_spec (Prefix e) WASM_FEATURE_PREFIX_REQUIRED) as [Hp|Hnr].
  { exists []. split; [|split; [apply reports_nil|by split; [right; left|]]].
    cbn [fst used required disallowed]. split; [|split]; intros f;
      rewrite ?is_Some_insert, ?named_snoc, ?Hused, ?Hrequired, ?Hdisallowed;
      unfold feature_used, feature_required, feature_disallowed;
      intuition congruence. }
  destruct (Z.eqb_spec (Prefix e) WASM_FEATURE_PREFIX_DISALLOWED) as [Hp|Hnd].
  { exists []. split; [|split; [apply reports_nil|by split; [right; right|]]].
    cbn [fst used required disallowed]. split; [|split]; intros f;
      rewrite ?is_Some_insert, ?named_snoc, ?Hused, ?Hrequired, ?Hdisallowed;
      unfold feature_used, feature_required, feature_disallowed;
      intuition congruence. }
  eexists. split; [|split; [apply reports_error|]].
  - cbn [fst]. split; [|split]; intros f;
      rewrite ?named_snoc, ?Hused, ?Hrequired, ?Hdisallowed;
      unfold feature_used, feature_required, feature_disallowed;
      intuition congruence.
  - split; [done|]. intros [?|[?|?]]; congruence.
Qed.

Lemma scan_features_spec fileName es0 : forall p l entries,
  policies_of p entries ->
  exists es,
    policies_of (fst (foldl (scan_feature fileName) (p, l) es0))
      (entries ++ es0)
    /\ reports l (snd (foldl (scan_feature fileName) (p, l) es0)) es
    /\ (es = [] <-> Forall recognized es0).
Proof.
  induction es0 as [|e es0 IH]; intros p l entries Hp.
  - exists []. rewrite app_nil_r. split; [done|].
    split; [apply reports_nil|by split].
  - cbn [foldl].
    destruct (scan_feature_spec fileName p l entries e Hp)
      as (es1 & Hp1 & Hr1 & Hes1).
    destruct (scan_feature fileName (p, l) e) as [p1 l1]. cbn [fst snd] in *.
    destruct (IH p1 l1 (entries ++ [e]) Hp1) as (es2 & Hp2 & Hr2 & Hes2).
    exists (es1 ++ es2). rewrite <- app_assoc in Hp2. split; [done|].
    split; [by eapply reports_trans|].
    rewrite Forall_cons, <- Hes1, <- Hes2. split.
    + by intros [-> ->]%app_eq_nil.
    + by intros [-> ->].
Qed.

Lemma scan_files_spec objs : forall p tlsUsed l entries,
  policies_of p entries ->
  exists p' l' es,
    foldl (scan_file getTargetFeatures) (p, tlsUsed, l) objs
    = (p',
       tlsUsed || existsb (fun file => existsb tls_segment (segments file))
                    objs,
       l')
    /\ policies_of p' (entries ++ concat (map getTargetFeatures objs))
    /\ reports l l' es
    /\ (es = [] <-> Forall recognized (concat (map getTargetFeatures objs))).
Proof.
  induction objs as [|file objs IH]; intros p tlsUsed l entries Hp.
  - exists p, l, []. cbn. rewrite orb_false_r, app_nil_r.
    split; [done|]. split; [done|]. split; [apply reports_nil|by split].
  - cbn [foldl map concat existsb]. unfold scan_file at 2.
    destruct (scan_features_spec (fileName file) (getTargetFeatures file)
                p l entries Hp) as (es1 & Hp1 & Hr1 & Hes1).
    destruct (foldl (scan_feature (fileName file)) (p, l)
                (getTargetFeatures file)) as [p1 l1].
    cbn [fst snd] in *.
    destruct (IH p1 (tlsUsed || existsb tls_segment (segments file)) l1
                (entries ++ getTargetFeatures file) Hp1)
      as (p' & l' & es2 & -> & Hp2 & Hr2 & Hes2).
    exists p', l', (es1 ++ es2). rewrite <- app_assoc in Hp2.
    rewrite orb_assoc. split; [done|]. split; [done|].
    split; [by eapply reports_trans|].
    rewrite Forall_app, <- Hes1, <- Hes2. split.
    + by intros [-> ->]%app_eq_nil.
    + by intros [-> ->].
Qed.

Lemma elem_of_keys k m : k ∈ keys m <-> is_Some (m !! k).
Proof.
  unfold keys. rewrite list_elem_of_fmap. split.
  - intros ([k' v] & -> & Hin%elem_of_map_to_list). by eexists.
  - intros [v Hv]. exists (k, v). split; [done|].
    by apply elem_of_map_to_list.
Qed.

Lemma count_true k m : count k m = true <-> is_Some (m !! k).
Proof. unfold count. by rewrite bool_decide_eq_true. Qed.

Lemma check_allowed_spec p out_features ks : forall l,
  exists es,
    reports l (foldl (check_allowed p out_features) l ks) es
    /\ (es = [] <-> Forall (fun k => k ∈ out_features) ks).
Proof.
  induction ks as [|k ks IH]; intros l.
  - exists []. split; [apply reports_nil|by split].
  - cbn [foldl]. unfold check_allowed at 2.
    case_bool_decide as Hk.
    + destruct (IH l) as (es & Hr & Hes). exists es. split; [done|].
      rewrite Forall_cons. tauto.
    + destruct (IH (error l ("Target feature '" +:+ k +:+ "' used by "
                             +:+ at_key k (used p) +:+ " is not allowed.")))
        as (es & Hr & Hes).
      eexists. split; [eapply reports_trans; [apply reports_error|done]|].
      rewrite Forall_cons. split; [done|tauto].
Qed.

Lemma check_features_spec p fileName entries : forall objectFeatures l,
  exists es,
    fst (foldl (check_feature p fileName) (objectFeatures, l) entries)
    = list_to_set
        (map Name
           (filter (fun e => Prefix e <> WASM_FEATURE_PREFIX_DISALLOWED)
              entries))
      ∪ objectFeatures
    /\ reports l
         (snd (foldl (check_feature p fileName) (objectFeatures, l) entries))
         es
    /\ (es = []
        <-> Forall (fun e => Prefix e <> WASM_FEATURE_PREFIX_DISALLOWED ->
                             ~ is_Some (disallowed p !! Name e)) entries).
Proof.
  induction entries as [|e entries IH]; intros objectFeatures l.
  - exists []. cbn. rewrite (left_id_L ∅ (∪)).
    split; [done|]. split; [apply reports_nil|by split].
  - cbn [foldl]. unfold check_feature at 2 4.
    destruct (Z.eqb_spec (Prefix e) WASM_FEATURE_PREFIX_DISALLOWED)
      as [Hd|Hd].
    + destruct (IH objectFeatures l) as (es & Hof & Hr & Hes).
      exists es. rewrite filter_cons_False by tauto.
      split; [done|]. split; [done|]. rewrite Forall_cons. tauto.
    + rewrite filter_cons_True by done. cbn [map].
      rewrite list_to_set_cons.
      destruct (count (Name e) (disallowed p)) eqn:Hcount.
      * destruct (IH ({[Name e]} ∪ objectFeatures)
                    (error l ("Target feature '" +:+ Name e +:+ "' used in "
                              +:+ fileName +:+ " is disallowed by "
                              +:+ at_key (Name e) (disallowed p)
                              +:+ ". Use --no-check-features to suppress.")))
          as (es & Hof & Hr & Hes).
        eexists. split; [|split].
        -- rewrite Hof. set_solver.
        -- eapply reports_trans; [apply reports_error|done].
        -- rewrite Forall_cons. split; [done|]. intros [Hno _].
           apply count_true in Hcount. by destruct (Hno Hd).
      * destruct (IH ({[Name e]} ∪ objectFeatures) l) as (es & Hof & Hr & Hes).
        exists es. split; [|split; [done|]].
        -- rewrite Hof. set_solver.
        -- rewrite Forall_cons, Hes. split; [|tauto]. intros Hall.
           split; [|done]. intros _ Hsome%count_true. congruence.
Qed.

Lemma check_required_spec p fileName objectFeatures ks : forall l,
  exists es,
    reports l (foldl (check_required p fileName objectFeatures) l ks) es
    /\ (es = [] <-> Forall (fun k => k ∈ objectFeatures) ks).
Proof.
  induction ks as [|k ks IH]; intros l.
  - exists []. split; [apply reports_nil|by split].
  - cbn [foldl]. unfold check_required at 2.
    case_bool_decide as Hk.
    + destruct (IH l) as (es & Hr & Hes). exists es. split; [done|].
      rewrite Forall_cons. tauto.
    + destruct (IH (error l ("Missing target feature '" +:+ k +:+ "' in "
                             +:+ fileName +:+ ", required by "
                             +:+ at_key k (required p)
                             +:+ ". Use --no-check-features to suppress.")))
        as (es & Hr & Hes).
      eexists. split; [eapply reports_trans; [apply reports_error|done]|].
      rewrite Forall_cons. split; [done|tauto].
Qed.

Lemma check_file_spec p l file :
  exists es,
    reports l (check_file getTargetFeatures p l file) es
    /\ (es = []
        <-> (forall e, e ∈ getTargetFeatures file ->
                       Prefix e <> WASM_FEATURE_PREFIX_DISALLOWED ->
                       ~ is_Some (disallowed p !! Name e))
            /\ (forall f, is_Some (required p !! f) ->
                          feature_present f (getTargetFeatures file))).
Proof.
  unfold check_file.
  destruct (check_features_spec p (fileName file) (getTargetFeatures file)
              ∅ l) as (es1 & Hof & Hr1 & Hes1).
  destruct (foldl (check_feature p (fileName file)) (∅, l)
              (getTargetFeatures file)) as [objectFeatures l1].
  cbn [fst snd] in *.
  destruct (check_required_spec p (fileName file) objectFeatures
              (keys (required p)) l1) as (es2 & Hr2 & Hes2).
  exists (es1 ++ es2). split; [by eapply reports_trans|].
  assert (forall f, f ∈ objectFeatures
                    <-> feature_present f (getTargetFeatures file))
    as Hpresent.
  { intros f. rewrite Hof, elem_of_union, elem_of_list_to_set,
      list_elem_of_fmap. unfold feature_present. split.
    - intros [(e & -> & [Hp Hin]%list_elem_of_filter)|[]%elem_of_empty].
      by exists e.
    - intros (e & Hin & <- & Hp). left. exists e. split; [done|].
      by apply list_elem_of_filter. }
  rewrite Forall_forall in Hes1. rewrite Forall_forall in Hes2.
  split.
  - intros [-> ->]%app_eq_nil. split.
    + by apply Hes1.
    + intros f Hf. apply Hpresent, Hes2; [done|]. by apply elem_of_keys.
  - intros [Hno Hall].
    rewrite (proj2 Hes1) by done.
    rewrite (proj2 Hes2); [done|].
    intros k Hk%elem_of_keys. apply Hpresent. by apply Hall.
Qed.

Lemma check_files_spec p objs : forall l,
  exists es,
    reports l (foldl (check_file getTargetFeatures p) l objs) es
    /\ (es = []
        <-> forall file,
              file ∈ objs ->
              (forall e, e ∈ getTargetFeatures file ->
                         Prefix e <> WASM_FEATURE_PREFIX_DISALLOWED ->
                         ~ is_Some (disallowed p !! Name e))
              /\ (forall f, is_Some (required p !! f) ->
                            feature_present f (getTargetFeatures file))).
Proof.
  induction objs as [|file objs IH]; intros l.
  - exists []. split; [apply reports_nil|]. split; [|done].
    by intros _ file []%elem_of_nil.
  - cbn [foldl].
    destruct (check_file_spec p l file) as (es1 & Hr1 & Hes1).
    destruct (IH (check_file getTargetFeatures p l file))
      as (es2 & Hr2 & Hes2).
    exists (es1 ++ es2). split; [by eapply reports_trans|]. split.
    + intros [-> ->]%app_eq_nil file' [->|Hin]%elem_of_cons.
      * by apply Hes1.
      * by apply Hes2.
    + intros Hall. rewrite (proj2 Hes1), (proj2 Hes2); [done| |].
      * intros file' Hin. apply Hall. by right.
      * apply Hall. by left.
Qed.

Lemma report_if (b : bool) l msg :
  exists es,
    reports l (if b then error l msg else l) es /\ (es = [] <-> b = false).
Proof.
  destruct b; eexists; (split; [apply reports_error || apply reports_nil|]);
    by split.
Qed.

Lemma policies_of_empty :
  policies_of {| used := ∅; required := ∅; disallowed := ∅ |} [].
Proof.
  unfold policies_of, feature_used, feature_required, feature_disallowed,
    named.
  split; [|split]; intros f; cbn; rewrite lookup_empty; split;
    try (by intros []);
    [intros [(? & []%elem_of_nil & _)|(? & []%elem_of_nil & _)]
    |intros (? & []%elem_of_nil & _)..].
Qed.

(** The stages of [populateTargetFeatures] once the features are read. *)
Lemma populateTargetFeatures_stages l :
  negb (negb (bool_decide (is_Some features))) && negb checkFeatures = false ->
  exists p l1 es1,
    policies_of p (all_features getTargetFeatures symtab)
    /\ reports l l1 es1
    /\ (es1 = []
        <-> Forall recognized (all_features getTargetFeatures symtab))
    /\ populateTargetFeatures config symtab features checkFeatures
         getTargetFeatures ∅ l
       = let inferFeatures := negb (bool_decide (is_Some features)) in
         let out_features :=
           (if inferFeatures then list_to_set (keys (used p)) else ∅)
           ∪ match features with
             | Some fs => list_to_set fs ∪ ∅
             | None => ∅
             end in
         let l2 :=
           if bool_decide ("atomics" ∈ out_features)
              && negb (sharedMemory config)
           then
             error l1
               (if inferFeatures
                then "'atomics' feature is used by "
                     +:+ at_key "atomics" (used p)
                     +:+ ", so --shared-memory must be used"
                else "'atomics' feature is used, so --shared-memory must be used")
           else l1 in
         if negb checkFeatures then (out_features, l2)
         else
           let l3 :=
             if count "atomics" (disallowed p) && sharedMemory config
             then error l2 ("'atomics' feature is disallowed by "
                            +:+ at_key "atomics" (disallowed p)
                            +:+ ", so --shared-memory must not be used")
             else l2 in
           let l4 :=
             if negb (count "bulk-memory" (used p)) && passiveSegments config
             then error l3 "'bulk-memory' feature must be used in order to emit passive segments"
             else l3 in
           let l5 :=
             if negb (count "bulk-memory" (used p)) && tls_used symtab
             then error l4 "'bulk-memory' feature must be used in order to use thread-local storage"
             else l4 in
           let l6 :=
             if negb inferFeatures
             then foldl (check_allowed p out_features) l5 (keys (used p))
             else l5 in
           (out_features,
            foldl (check_file getTargetFeatures p) l6 (objectFiles symtab)).
Proof.
  intros Hgo.
  destruct (scan_files_spec (objectFiles symtab)
              {| used := ∅; required := ∅; disallowed := ∅ |} false l []
              policies_of_empty) as (p & l1 & es1 & Hscan & Hp & Hr & Hes).
  exists p, l1, es1. split; [done|]. split; [done|]. split; [done|].
  unfold populateTargetFeatures. rewrite Hgo, Hscan. cbn [orb].
  fold (tls_used symtab).
  destruct features as [fs|]; cbn [negb];
    rewrite ?bool_decide_eq_true_2, ?bool_decide_eq_false_2
      by (try (intros []; done); by eexists);
    cbn [negb]; rewrite ?(left_id_L ∅ (∪)), ?(right_id_L ∅ (∪));
    by destruct (_ && negb (sharedMemory config)).
Qed.

End Target_features.

Section Target_feature_theorems.

Import TargetFeatures.

Variable config : Configuration.
Variable symtab : SymbolTable.
Variable features : option (list string).
Variable checkFeatures : bool.
Variable getTargetFeatures : ObjFile -> list WasmFeatureEntry.

Lemma reports_errors l l' es :
  reports l l' es -> (errors l' = errors l <-> es = []).
Proof.
  intros [_ ->]. split; [|intros ->; by rewrite app_nil_r].
  intros Heq. apply (app_inv_head (errors l)). by rewrite app_nil_r.
Qed.

Lemma out_features_inferred p entries f :
  policies_of p entries ->
  f ∈ (list_to_set (keys (used p)) : gset string) <-> feature_used f entries.
Proof.
  intros (Hused & _). by rewrite elem_of_list_to_set, elem_of_keys, Hused.
Qed.

(** What [populateTargetFeatures] reports, stage by stage, when it checks
    the features. *)
Lemma populateTargetFeatures_checked l :
  checkFeatures = true ->
  let entries := all_features getTargetFeatures symtab in
  exists es,
    reports l
      (snd (populateTargetFeatures config symtab features checkFeatures
              getTargetFeatures ∅ l)) es
    /\ (es = []
        <-> Forall recognized entries
            /\ (match features with
                | Some fs => "atomics" ∈ fs
                | None => feature_used "atomics" entries
                end -> sharedMemory config = true)
            /\ (feature_disallowed "atomics" entries ->
                sharedMemory config = false)
            /\ (passiveSegments config = true \/ tls_used symtab = true ->
                feature_used "bulk-memory" entries)
            /\ (forall fs, features = Some fs ->
                  forall f, feature_used f entries -> f ∈ fs)
            /\ (forall file,
                  file ∈ objectFiles symtab ->
                  (forall e, e ∈ getTargetFeatures file ->
                             Prefix e <> WASM_FEATURE_PREFIX_DISALLOWED ->
                             ~ feature_disallowed (Name e) entries)
                  /\ (forall f, feature_required f entries ->
                                feature_present f (getTargetFeatures file)))).
Proof.
  intros Hcheck entries.
  destruct (populateTargetFeatures_stages config symtab features
              checkFeatures getTargetFeatures l)
    as (p & l1 & es1 & Hp & Hr1 & Hes1 & ->).
  { rewrite Hcheck. apply andb_false_r. }
  rewrite Hcheck. cbn [negb]. cbn zeta.
  set (inferFeatures := negb (bool_decide (is_Some features))).
  set (out_features := (if inferFeatures then list_to_set (keys (used p))
                        else ∅)
                       ∪ match features with
                         | Some fs => list_to_set fs ∪ ∅
                         | None => ∅
                         end).
  pose proof Hp as (Hused & Hrequired & Hdisallowed).
  fold entries in Hp, Hes1, Hused, Hrequired, Hdisallowed.
  assert (("atomics" ∈ out_features)
          <-> match features with
              | Some fs => "atomics" ∈ fs
              | None => feature_used "atomics" entries
              end) as Hatomics.
  { unfold out_features, inferFeatures. destruct features as [fs|].
    - rewrite bool_decide_eq_true_2 by by eexists. cbn [negb].
      rewrite !elem_of_union, elem_of_list_to_set, elem_of_empty. tauto.
    - rewrite bool_decide_eq_false_2 by by intros []. cbn [negb].
      rewrite elem_of_union, elem_of_list_to_set, elem_of_keys, Hused,
        elem_of_empty. tauto. }
  match goal with
  | |- context [if ?b then error l1 ?msg else l1] =>
      destruct (report_if b l1 msg) as (es2 & Hr2 & Hes2);
      set (l2 := if b then error l1 msg else l1) in *
  end.
  match goal with
  | |- context [if ?b then error l2 ?msg else l2] =>
      destruct (report_if b l2 msg) as (es3 & Hr3 & Hes3);
      set (l3 := if b then error l2 msg else l2) in *
  end.
  match goal with
  | |- context [if ?b then error l3 ?msg else l3] =>
      destruct (report_if b l3 msg) as (es4 & Hr4 & Hes4);
      set (l4 := if b then error l3 msg else l3) in *
  end.
  match goal with
  | |- context [if ?b then error l4 ?msg else l4] =>
      destruct (report_if b l4 msg) as (es5 & Hr5 & Hes5);
      set (l5 := if b then error l4 msg else l4) in *
  end.
  assert (exists es6,
            reports l5
              (if negb inferFeatures
               then foldl (check_allowed p out_features) l5 (keys (used p))
               else l5) es6
            /\ (es6 = []
                <-> forall fs, features = Some fs ->
                      forall f, feature_used f entries -> f ∈ fs))
    as (es6 & Hr6 & Hes6).
  { unfold inferFeatures, out_features. destruct features as [fs|].
    - rewrite bool_decide_eq_true_2 by by eexists. cbn [negb].
      destruct (check_allowed_spec p (∅ ∪ (list_to_set fs ∪ ∅))
                  (keys (used p)) l5) as (es6 & Hr6 & Hes6).
      exists es6. split; [done|]. rewrite Hes6, Forall_forall. split.
      + intros Hall fs' [= <-] f Hf.
        assert (f ∈ (∅ ∪ (list_to_set fs ∪ ∅) : gset string)) as Hin
          by by apply Hall, elem_of_keys, Hused.
        revert Hin.
        rewrite !elem_of_union, elem_of_list_to_set, elem_of_empty. tauto.
      + intros Hall f Hf%elem_of_keys%Hused.
        rewrite !elem_of_union, elem_of_list_to_set, elem_of_empty.
        right. left. by eapply Hall.
    - rewrite bool_decide_eq_false_2 by by intros []. cbn [negb].
      exists []. split; [apply reports_nil|]. by split. }
  set (l6 := if negb inferFeatures
             then foldl (check_allowed p out_features) l5 (keys (used p))
             else l5) in *.
  destruct (check_files_spec getTargetFeatures p (objectFiles symtab) l6)
    as (es7 & Hr7 & Hes7).
  cbn [snd].
  exists (es1 ++ es2 ++ es3 ++ es4 ++ es5 ++ es6 ++ es7). split.
  { repeat (eapply reports_trans; [eassumption|]). done. }
  rewrite !app_nil, Hes1, Hes2, Hes3, Hes4, Hes5, Hes6, Hes7.
  rewrite !andb_false_iff, !negb_false_iff, !bool_decide_eq_false.
  split.
  - intros (Hrec & Hat & Hdis & Hbulk1 & Hbulk2 & Hallowed & Hfiles).
    split; [done|]. split.
    { intros Hin%Hatomics. by destruct Hat as [Hat|Hat]. }
    split.
    { intros Hd%Hdisallowed%count_true. destruct Hdis as [Hdis|Hdis];
        [congruence|done]. }
    split.
    { intros [Hpassive|Htls].
      - destruct Hbulk1 as [Hb|Hb]; [|congruence].
        by apply Hused, count_true.
      - destruct Hbulk2 as [Hb|Hb]; [|congruence].
        by apply Hused, count_true. }
    split; [done|].
    intros file Hfile. destruct (Hfiles file Hfile) as [Hno Hall]. split.
    + intros e He Hpre Hd%Hdisallowed. by eapply Hno.
    + intros f Hf%Hrequired. by apply Hall.
  - intros (Hrec & Hat & Hdis & Hbulk & Hallowed & Hfiles).
    split; [done|]. split.
    { destruct (sharedMemory config) eqn:Hshared; [by right|].
      left. intros Hin%Hatomics. by apply Hat in Hin. }
    split.
    { destruct (count "atomics" (disallowed p)) eqn:Hcount; [|by left].
      right. apply Hdis, Hdisallowed. by apply count_true. }
    split.
    { destruct (count "bulk-memory" (used p)) eqn:Hcount; [by left|].
      right. destruct (passiveSegments config) eqn:Hpassive; [|done].
      assert (feature_used "bulk-memory" entries) as Hb
        by (apply Hbulk; by left).
      apply Hused, count_true in Hb. congruence. }
    split.
    { destruct (count "bulk-memory" (used p)) eqn:Hcount; [by left|].
      right. destruct (tls_used symtab) eqn:Htls; [|done].
      assert (feature_used "bulk-memory" entries) as Hb
        by (apply Hbulk; by right).
      apply Hused, count_true in Hb. congruence. }
    split; [done|].
    intros file Hfile. destruct (Hfiles file Hfile) as [Hno Hall]. split.
    + intros e He Hpre Hd%Hdisallowed. by eapply Hno.
    + intros f Hf%Hrequired. by apply Hall.
Qed.

End Target_feature_theorems.

(** X14: the features [populateTargetFeatures] puts in the target features
    section are the given ones when features are given, and otherwise the
    features some object file uses or requires.  It changes nothing of the
    link but the errors, to which it only adds.  With features given and
    the checks off it reads no file and reports nothing; with inferred
    features and the checks off it still reports every unknown policy
    prefix, and ['atomics'] used without [--shared-memory], and nothing
    else. *)
Theorem target_features_of_the_output
    config symtab features checkFeatures getTargetFeatures l :
  let result :=
    TargetFeatures.populateTargetFeatures config symtab features
      checkFeatures getTargetFeatures ∅ l in
  let entries := all_features getTargetFeatures symtab in
  (exists es, reports l (snd result) es)
  /\ (forall f,
        f ∈ fst result
        <-> match features with
            | Some fs => f ∈ fs
            | None => feature_used f entries
            end)
  /\ (is_Some features -> checkFeatures = false -> snd result = l)
  /\ (features = None -> checkFeatures = false ->
      (errors (snd result) = errors l
       <-> Forall recognized entries
           /\ (feature_used "atomics" entries ->
               sharedMemory config = true))).
Proof.
  intros result entries.
  destruct (negb (negb (bool_decide (is_Some features)))
            && negb checkFeatures) eqn:Hgo.
  { (* features are given and not checked *)
    apply andb_true_iff in Hgo as [Hgiven Hcheck].
    apply negb_true_iff in Hcheck.
    destruct features as [fs|]; [|done].
    assert (result = (list_to_set fs ∪ ∅, l)) as ->.
    { unfold result, TargetFeatures.populateTargetFeatures.
      by rewrite Hcheck. }
    cbn [fst snd]. split; [exists []; apply reports_nil|].
    split; [|split; [done|done]].
    intros f. rewrite elem_of_union, elem_of_list_to_set, elem_of_empty.
    tauto. }
  destruct (populateTargetFeatures_stages config symtab features
              checkFeatures getTargetFeatures l Hgo)
    as (p & l1 & es1 & Hp & Hr1 & Hes1 & Hresult).
  fold result in Hresult. fold entries in Hp, Hes1.
  pose proof Hp as (Hused & _).
  assert (forall f,
            f ∈ fst result
            <-> match features with
                | Some fs => f ∈ fs
                | None => feature_used f entries
                end) as Hfeatures.
  { intros f. rewrite Hresult. cbn zeta.
    assert (forall (b : bool) (X : gset string) (a c : Linker),
              fst (if b then (X, a) else (X, c)) = X) as ->
      by by intros [].
    destruct features as [fs|].
    - rewrite bool_decide_eq_true_2 by by eexists. cbn [negb].
      rewrite !elem_of_union, elem_of_list_to_set, elem_of_empty. tauto.
    - rewrite bool_decide_eq_false_2 by by intros []. cbn [negb].
      rewrite elem_of_union, elem_of_list_to_set, elem_of_keys,
        Hused, elem_of_empty. tauto. }
  split; [|split; [done|split]].
  - destruct checkFeatures eqn:Hcheck.
    + destruct (populateTargetFeatures_checked config symtab features true
                  getTargetFeatures l eq_refl) as (es & Hr & _).
      by exists es.
    + rewrite Hresult. cbn [negb]. cbn zeta. cbn [snd].
      match goal with
      | |- context [if ?b then error l1 ?msg else l1] =>
          destruct (report_if b l1 msg) as (es2 & Hr2 & _)
      end.
      exists (es1 ++ es2). by eapply reports_trans.
  - intros [fs ->] ->. by cbv in Hgo.
  - intros -> ->. rewrite Hresult. cbn [negb]. cbn zeta. cbn [snd].
    rewrite (bool_decide_eq_false_2 (is_Some None)) by by intros [].
    match goal with
    | |- context [if ?b then error l1 ?msg else l1] =>
        destruct (report_if b l1 msg) as (es2 & Hr2 & Hes2)
    end.
    rewrite (reports_errors l _ (es1 ++ es2))
      by by eapply reports_trans.
    rewrite app_nil, Hes1, Hes2, andb_false_iff, negb_false_iff,
      bool_decide_eq_false. cbn [negb].
    rewrite elem_of_union, elem_of_list_to_set, elem_of_keys,
      Hused, elem_of_empty.
    split.
    + intros [Hrec [Hno|Hshared]]; (split; [done|]); [|done].
      intros Hat. destruct Hno. by left.
    + intros [Hrec Hat]. split; [done|].
      destruct (sharedMemory config); [by right|left].
      intros [Hin|[]]. by apply Hat in Hin.
Qed.

(** X15: with the checks on, [populateTargetFeatures] reports no error
    exactly when every policy prefix is one of the three; ['atomics'] is in
    the output features only under [--shared-memory] and is disallowed by
    no file under [--shared-memory]; ['bulk-memory'] is used by some file
    if passive segments are emitted or a live segment is thread-local;
    every used feature is among the given ones, if features are given; no
    file names, other than to disallow it, a feature that some file
    disallows; and every file names, other than to disallow it, every
    feature that some file requires. *)
Theorem target_features_accepted_exactly_when
    config symtab features getTargetFeatures l :
  let result :=
    TargetFeatures.populateTargetFeatures config symtab features true
      getTargetFeatures ∅ l in
  let entries := all_features getTargetFeatures symtab in
  errors (snd result) = errors l
  <-> Forall recognized entries
      /\ (match features with
          | Some fs => "atomics" ∈ fs
          | None => feature_used "atomics" entries
          end -> sharedMemory config = true)
      /\ (feature_disallowed "atomics" entries ->
          sharedMemory config = false)
      /\ (passiveSegments config = true \/ tls_used symtab = true ->
          feature_used "bulk-memory" entries)
      /\ (forall fs, features = Some fs ->
            forall f, feature_used f entries -> f ∈ fs)
      /\ (forall file,
            file ∈ objectFiles symtab ->
            (forall e, e ∈ getTargetFeatures file ->
                       TargetFeatures.Prefix e
                       <> TargetFeatures.WASM_FEATURE_PREFIX_DISALLOWED ->
                       ~ feature_disallowed (TargetFeatures.Name e) entries)
            /\ (forall f, feature_required f entries ->
                          feature_present f (getTargetFeatures file))).
Proof.
  intros result entries.
  destruct (populateTargetFeatures_checked config symtab features true
              getTargetFeatures l eq_refl) as (es & Hr & Hes).
  fold result entries in Hr, Hes.
  by rewrite (reports_errors _ _ _ Hr).
Qed.

Lemma target_features_of_the_output_witness :
  let result :=
    TargetFeatures.populateTargetFeatures Links.two_pages Toolchains.objects
      None false Toolchains.getTargetFeatures ∅ Links.fresh in
  snd result = Links.fresh
  /\ "mutable-globals" ∈ fst result
  /\ "atomics" ∉ fst result.
Proof.
  intros result.
  destruct (target_features_of_the_output Links.two_pages Toolchains.objects
              None false Toolchains.getTargetFeatures Links.fresh)
    as (_ & Hfeatures & _ & Herrors).
  fold result in Hfeatures, Herrors.
  assert (Forall recognized
            (all_features Toolchains.getTargetFeatures Toolchains.objects))
    as Hrecognized.
  { change (all_features Toolchains.getTargetFeatures Toolchains.objects)
      with [Toolchains.used_by "bulk-memory";
            Toolchains.required_by "mutable-globals";
            Toolchains.used_by "mutable-globals";
            Toolchains.disallowed_by "atomics";
            Toolchains.used_by "bulk-memory"].
    repeat first
      [ apply Forall_nil_2
      | apply Forall_cons; split;
        [first [by left|by right; left|by right; right]|] ]. }
  assert (forall f,
            feature_used f
              (all_features Toolchains.getTargetFeatures Toolchains.objects)
            <-> f = "bulk-memory" \/ f = "mutable-globals") as Hused.
  { intros f. unfold feature_used, named.
    change (all_features Toolchains.getTargetFeatures Toolchains.objects)
      with [Toolchains.used_by "bulk-memory";
            Toolchains.required_by "mutable-globals";
            Toolchains.used_by "mutable-globals";
            Toolchains.disallowed_by "atomics";
            Toolchains.used_by "bulk-memory"].
    split.
    - intros [(e & He & <- & Hp)|(e & He & <- & Hp)]; revert He Hp;
        rewrite !elem_of_cons, elem_of_nil;
        intros [->|[->|[->|[->|[->|[]]]]]]; cbn; intros; tauto || done.
    - intros [->| ->].
      + left. exists (Toolchains.used_by "bulk-memory").
        split; [by left|done].
      + left. exists (Toolchains.used_by "mutable-globals").
        split; [|done]. do 2 right. by left. }
  split; [|split].
  - assert (errors (snd result) = errors Links.fresh) as Hsame.
    { apply Herrors; [done..|]. split; [done|].
      by intros [?|?]%Hused. }
    destruct (target_features_of_the_output Links.two_pages
                Toolchains.objects None false Toolchains.getTargetFeatures
                Links.fresh) as ((es & (Hw & Hs & Ho & Hf) & _) & _).
    fold result in Hw, Hs, Ho, Hf. revert Hsame Hw Hs Ho Hf.
    destruct (snd result). cbn. by intros -> -> -> -> ->.
  - apply Hfeatures, Hused. by right.
  - intros [?|?]%Hfeatures%Hused; done.
Defined.

Lemma target_features_accepted_exactly_when_witness :
  errors (snd (TargetFeatures.populateTargetFeatures Links.two_pages
                 Toolchains.objects None true Toolchains.getTargetFeatures
                 ∅ Links.fresh))
  = errors Links.fresh
  /\ feature_present "mutable-globals"
       (Toolchains.getTargetFeatures Toolchains.b_o).
Proof.
  assert (errors (snd (TargetFeatures.populateTargetFeatures Links.two_pages
                         Toolchains.objects None true
                         Toolchains.getTargetFeatures ∅ Links.fresh))
          = errors Links.fresh) as Hsame by by vm_compute.
  split; [done|].
  apply target_features_accepted_exactly_when in Hsame
    as (_ & _ & _ & _ & _ & Hfiles).
  destruct (Hfiles Toolchains.b_o) as [_ Hrequired].
  { right. by left. }
  apply Hrequired. exists (Toolchains.required_by "mutable-globals").
  split; [|done]. right. by left.
Defined.

(** The same link when the second file names no [mutable-globals], which
    the first requires. *)
Example target_features_missing :
  errors (snd (TargetFeatures.populateTargetFeatures Links.two_pages
                 Toolchains.objects None true
                 Toolchains.getTargetFeatures_without ∅ Links.fresh))
  = ["Missing target feature 'mutable-globals' in b.o, required by a.o. Use --no-check-features to suppress."].
Proof. by vm_compute. Qed.

(** ** The alignment of the memory and the thread-local data *)

Section Align_and_tls.

Variable config : Configuration.

Lemma layoutSegments_align_tls segs : forall memoryPtr l segs' memoryPtr' l',
  layoutSegments segs memoryPtr l = (segs', memoryPtr', l') ->
  Out.memAlign (out l')
  = foldl (fun a seg => Z.max a (OutputSegment.alignment seg))
      (Out.memAlign (out l)) segs
  /\ WasmSym.tlsSize (wasmSym l')
     = tlsSize_after (WasmSym.tlsSize (wasmSym l)) segs.
Proof.
  induction segs as [|seg segs IH]; intros memoryPtr l segs' memoryPtr' l';
    cbn [layoutSegments].
  { by intros [= <- <- <-]. }
  destruct (layoutSegments segs _ _) as [[rest' mp] l1] eqn:Hrest.
  intros [= <- <- <-]. apply IH in Hrest as [-> ->].
  unfold tlsSize_after. cbn [foldl].
  by destruct (bool_decide _ && _).
Qed.

Lemma placeStack_align_tls memoryPtr l memoryPtr' l' o :
  placeStack config memoryPtr l = Ok (memoryPtr', l') o ->
  out l' = out l
  /\ WasmSym.tlsSize (wasmSym l') = WasmSym.tlsSize (wasmSym l)
  /\ writer l' = writer l.
Proof.
  unfold placeStack.
  destruct (relocatable config || isPic config);
    [by intros [[= <- <-] _]%Ok_inj|].
  destruct (negb _);
    (destruct (WasmSym.stackPointer (wasmSym _)) as [sp|]; [|done]);
    by intros [[= <- <-] _]%Ok_inj.
Qed.

Lemma layoutMemory_align_tls l l' o :
  layoutMemory config l = Ok l' o ->
  Out.memAlign (out l') = memAlign_of (Writer.segments (writer l))
  /\ WasmSym.tlsSize (wasmSym l')
     = tlsSize_after (WasmSym.tlsSize (wasmSym l))
         (Writer.segments (writer l)).
Proof.
  unfold layoutMemory. intros Hlayout.
  apply bind_Ok_inv in Hlayout as ([mp1 l1] & o1 & o2 & H1 & Hlayout & _).
  assert (out l1 = out l
          /\ WasmSym.tlsSize (wasmSym l1) = WasmSym.tlsSize (wasmSym l)
          /\ writer l1 = writer l) as (Ho1 & Ht1 & Hw1).
  { destruct (stackFirst config).
    - by apply placeStack_align_tls in H1.
    - by apply Ok_inj in H1 as [[= <- <-] _]. }
  clear H1. cbv zeta in Hlayout.
  destruct (layoutSegments _ _ _) as [[segs data_end] l2] eqn:Hsegs.
  apply layoutSegments_align_tls in Hsegs as [Ha2 Ht2].
  cbn in Ha2, Ht2. rewrite Hw1, Ht1 in *. fold (memAlign_of (Writer.segments (writer l))) in Ha2.
  destruct (shared config).
  { apply Ok_inj in Hlayout as [<- _]. by cbn. }
  apply bind_Ok_inv in Hlayout as ([mp3 l3] & o3 & o4 & H3 & Hlayout & _).
  assert (out l3 = out l2
          /\ WasmSym.tlsSize (wasmSym l3) = WasmSym.tlsSize (wasmSym l2))
    as (Ho3 & Ht3).
  { destruct (negb (stackFirst config)).
    - apply placeStack_align_tls in H3 as (? & ? & _). by cbn in *.
    - by apply Ok_inj in H3 as [[= <- <-] _]. }
  clear H3.
  destruct (if negb (initialMemory config =? 0) then _ else _)
    as [mem_size l5] eqn:Hinit.
  apply Ok_inj in Hlayout as [<- _].
  assert (out l5 = out l3
          /\ WasmSym.tlsSize (wasmSym l5) = WasmSym.tlsSize (wasmSym l3))
    as (Ho5 & Ht5).
  { destruct (negb (initialMemory config =? 0)).
    - destruct (negb (initialMemory config =? _));
        destruct (initialMemory config <? mp3);
        by injection Hinit as <- <-.
    - by injection Hinit as <- <-. }
  destruct (negb (maxMemory config =? 0) || sharedMemory config);
    [destruct (negb (maxMemory config =? _));
       destruct (maxMemory config <? mem_size)|];
    cbn; by rewrite ?Ho5, ?Ht5, ?Ho3, ?Ht3.
Qed.

End Align_and_tls.

Section Fold_facts.

Lemma foldl_max_spec segs : forall a,
  a <= foldl (fun a seg => Z.max a (OutputSegment.alignment seg)) a segs
  /\ (forall seg, seg ∈ segs ->
        OutputSegment.alignment seg
        <= foldl (fun a seg => Z.max a (OutputSegment.alignment seg)) a segs)
  /\ (foldl (fun a seg => Z.max a (OutputSegment.alignment seg)) a segs = a
      \/ exists seg,
           seg ∈ segs
           /\ foldl (fun a seg => Z.max a (OutputSegment.alignment seg)) a segs
              = OutputSegment.alignment seg).
Proof.
  induction segs as [|seg segs IH]; intros a; cbn [foldl].
  - split; [lia|]. split; [by intros ? []%elem_of_nil|by left].
  - destruct (IH (Z.max a (OutputSegment.alignment seg)))
      as (Hge & Hall & Hmax).
    split; [lia|]. split.
    + intros seg' [->|Hin]%elem_of_cons; [lia|by apply Hall].
    + destruct Hmax as [Heq|(seg' & Hin & Heq)].
      * rewrite Heq. destruct (Z.max_spec a (OutputSegment.alignment seg))
          as [[_ ->]|[_ ->]]; [|by left].
        right. exists seg. split; [by left|done].
      * right. exists seg'. split; [by right|done].
Qed.

Lemma tlsSize_after_None segs : tlsSize_after None segs = None.
Proof.
  unfold tlsSize_after. induction segs as [|seg segs IH]; [done|].
  cbn [foldl]. by rewrite bool_decide_eq_false_2 by by intros [].
Qed.

Lemma tlsSize_after_is_Some segs : forall ts,
  is_Some ts -> is_Some (tlsSize_after ts segs).
Proof.
  unfold tlsSize_after. induction segs as [|seg segs IH]; intros ts Hts;
    [done|].
  cbn [foldl]. apply IH. by destruct (_ && _).
Qed.

Lemma tlsSize_after_other segs : forall ts,
  (forall seg, seg ∈ segs -> OutputSegment.name seg <> ".tdata") ->
  tlsSize_after ts segs = ts.
Proof.
  unfold tlsSize_after. induction segs as [|seg segs IH]; intros ts Hno;
    [done|].
  cbn [foldl].
  assert (String.eqb (OutputSegment.name seg) ".tdata" = false) as ->
    by (apply String.eqb_neq, Hno; by left).
  rewrite andb_false_r. apply IH. intros seg' Hin. apply Hno. by right.
Qed.

Lemma tlsSize_after_tdata segs : forall ts seg,
  is_Some ts ->
  NoDup (map OutputSegment.name segs) ->
  seg ∈ segs ->
  OutputSegment.name seg = ".tdata" ->
  tlsSize_after ts segs = Some (OutputSegment.size seg).
Proof.
  induction segs as [|seg' segs IH]; intros ts seg Hts Hnodup Hin Hname;
    [by apply elem_of_nil in Hin|].
  cbn [map] in Hnodup. apply NoDup_cons in Hnodup as [Hfresh Hnodup].
  unfold tlsSize_after in *. cbn [foldl].
  rewrite bool_decide_eq_true_2 by done. cbn [andb].
  apply elem_of_cons in Hin as [<-|Hin].
  - rewrite Hname. cbn.
    apply (tlsSize_after_other segs). intros seg'' Hin Heq.
    apply Hfresh. rewrite Hname, <- Heq. by apply list_elem_of_fmap_2.
  - destruct (String.eqb_spec (OutputSegment.name seg') ".tdata") as [Heq|_].
    + exfalso. apply Hfresh. rewrite Heq, <- Hname.
      by apply list_elem_of_fmap_2.
    + by apply IH.
Qed.

End Fold_facts.

(** X16: [layoutMemory] leaves in [memAlign] the largest alignment of the
    output segments (0 when there is none or all are negative), and in
    [__tls_size], when that symbol exists, the size of the output segment
    [.tdata] (output segments have distinct names), and what it held when
    there is no [.tdata]. *)
Theorem memory_alignment_and_tls_size config l l' o :
  layoutMemory config l = Ok l' o ->
  let segs := Writer.segments (writer l) in
  0 <= Out.memAlign (out l')
  /\ (forall seg, seg ∈ segs ->
        OutputSegment.alignment seg <= Out.memAlign (out l'))
  /\ (Out.memAlign (out l') = 0
      \/ exists seg, seg ∈ segs
                     /\ Out.memAlign (out l') = OutputSegment.alignment seg)
  /\ (WasmSym.tlsSize (wasmSym l) = None ->
      WasmSym.tlsSize (wasmSym l') = None)
  /\ ((forall seg, seg ∈ segs -> OutputSegment.name seg <> ".tdata") ->
      WasmSym.tlsSize (wasmSym l') = WasmSym.tlsSize (wasmSym l))
  /\ (is_Some (WasmSym.tlsSize (wasmSym l)) ->
      NoDup (map OutputSegment.name segs) ->
      forall seg, seg ∈ segs -> OutputSegment.name seg = ".tdata" ->
        WasmSym.tlsSize (wasmSym l') = Some (OutputSegment.size seg)).
Proof.
  intros [Halign Htls]%layoutMemory_align_tls segs. fold segs in Halign, Htls.
  rewrite Halign, Htls. unfold memAlign_of.
  destruct (foldl_max_spec segs 0) as (Hge & Hall & Hmax).
  split; [done|]. split; [done|]. split; [done|]. split; [|split].
  - intros ->. apply tlsSize_after_None.
  - apply tlsSize_after_other.
  - intros Hts Hnodup seg Hin Hname. by apply tlsSize_after_tdata.
Qed.

Lemma memory_alignment_and_tls_size_witness :
  exists l',
    layoutMemory Links.two_pages Links.placed_objects = Ok l' []
    /\ (forall seg,
          seg ∈ Writer.segments (writer Links.placed_objects) ->
          OutputSegment.alignment seg <= Out.memAlign (out l'))
    /\ WasmSym.tlsSize (wasmSym l') = Some 8.
Proof.
  destruct (layoutMemory Links.two_pages Links.placed_objects)
    as [l' o| | |] eqn:Hl'; try (vm_compute in Hl'; discriminate Hl').
  assert (o = []) as -> by (vm_compute in Hl'; by injection Hl').
  exists l'. split; [done|].
  destruct (memory_alignment_and_tls_size _ _ _ _ Hl')
    as (_ & Hall & _ & _ & _ & Htls).
  split; [exact Hall|].
  destruct (Writer.segments (writer Links.placed_objects) !! 1%nat)
    as [seg|] eqn:Hseg; [|vm_compute in Hseg; discriminate Hseg].
  assert (OutputSegment.name seg = ".tdata" /\ OutputSegment.size seg = 8)
    as [Hname Hsize].
  { vm_compute in Hseg. injection Hseg as <-. by split. }
  rewrite <- Hsize. apply Htls.
  - by eexists.
  - apply (bool_decide_unpack _). by vm_compute.
  - by eapply list_elem_of_lookup_2.
  - done.
Defined.



(** X17: [run] sets [globalBase] to 0 in a relocatable or
    position-independent link before the memory is laid out, so that
    there, whatever [--global-base] and [--stack-first] say, [__global_base]
    and [__dso_handle] are 0, the data are laid out from address 0, no stack
    is placed ([__stack_pointer] is left alone) and, in a link that is not
    shared, [__heap_base] is the end of the data.  Any other link is laid
    out with the configuration as it is. *)
Theorem position_independent_data_start_at_zero config :
  (relocatable config || isPic config = false ->
   run_globalBase config = config)
  /\ (relocatable config || isPic config = true ->
      forall l l' o,
        layoutMemory (run_globalBase config) l = Ok l' o ->
        data_start (run_globalBase config) = 0
        /\ WasmSym.globalBase (wasmSym l')
           = WasmSym.setVirtualAddress (WasmSym.globalBase (wasmSym l)) 0
        /\ WasmSym.dsoHandle (wasmSym l')
           = WasmSym.setVirtualAddress (WasmSym.dsoHandle (wasmSym l)) 0
        /\ WasmSym.stackPointer (wasmSym l')
           = WasmSym.stackPointer (wasmSym l)
        /\ exists data_end,
             (layoutSegments (Writer.segments (writer l)) 0 l).1.2 = data_end
             /\ WasmSym.dataEnd (wasmSym l')
                = WasmSym.setVirtualAddress (WasmSym.dataEnd (wasmSym l))
                    data_end
             /\ (shared config = false ->
                 WasmSym.heapBase (wasmSym l')
                 = WasmSym.setVirtualAddress (WasmSym.heapBase (wasmSym l))
                     data_end)).
Proof.
  split.
  { unfold run_globalBase. by intros ->. }
  intros Hpic l l' o Hlayout.
  set (config' := run_globalBase config) in *.
  assert (globalBase config' = 0
          /\ relocatable config' = relocatable config
          /\ isPic config' = isPic config
          /\ shared config' = shared config) as (Hbase & Hreloc & Hpic' & Hsh).
  { unfold config', run_globalBase. by rewrite Hpic. }
  assert (stack_is_placed config' = false) as Hplaced.
  { unfold stack_is_placed. by rewrite Hreloc, Hpic', Hpic. }
  assert (data_start config' = 0) as Hstart.
  { unfold data_start. rewrite Hplaced, Hbase. by destruct (stackFirst _). }
  split; [done|].
  destruct (shared config') eqn:Hshared.
  - destruct (layoutMemory_shared_inv config' l l' o Hlayout Hshared)
      as (segs & data_end & es & Hsegs & _ & Hgb & Hdso & Hde & _ & Hsp & _).
    rewrite Hgb, Hdso, Hsp, Hde, Hbase, Hstart, Hplaced, andb_false_r.
    repeat (split; [done|]). exists data_end.
    rewrite Hstart in Hsegs. rewrite Hsegs. split; [done|]. split; [done|].
    intros Hno. congruence.
  - destruct (layoutMemory_Ok_inv config' l l' o Hlayout Hshared)
      as (segs & data_end & hb & ms & es & Hsegs & _ & Hgb & Hdso & Hde & Hhb
          & Hhbv & Hsp & _).
    rewrite Hgb, Hdso, Hsp, Hde, Hhb, Hbase, Hstart, Hplaced.
    repeat (split; [done|]). exists data_end.
    rewrite Hstart in Hsegs. rewrite Hsegs. split; [done|]. split; [done|].
    intros _. rewrite Hhbv, Hplaced. by rewrite orb_true_r.
Qed.

Lemma position_independent_data_start_at_zero_witness :
  exists l',
    layoutMemory (run_globalBase Links.pie) Links.placed_objects = Ok l' []
    /\ WasmSym.globalBase (wasmSym l') = Some 0
    /\ WasmSym.dsoHandle (wasmSym l') = Some 0
    /\ WasmSym.stackPointer (wasmSym l')
       = WasmSym.stackPointer (wasmSym Links.placed_objects).
Proof.
  destruct (layoutMemory (run_globalBase Links.pie) Links.placed_objects)
    as [l' o| | |] eqn:Hl'; try (vm_compute in Hl'; discriminate Hl').
  assert (o = []) as -> by (vm_compute in Hl'; by injection Hl').
  exists l'. split; [done|].
  destruct (position_independent_data_start_at_zero Links.pie)
    as [_ Hpie].
  destruct (Hpie eq_refl _ _ _ Hl') as (_ & Hgb & Hdso & Hsp & _).
  by rewrite Hgb, Hdso, Hsp.
Defined.

Section Custom_section_facts.

Import CustomSections.

Lemma synthesized_spec name :
  String.eqb name "linking" || String.eqb name "name"
  || String.eqb name "producers" || String.eqb name "target_features"
  || startswith name "reloc." = true <-> synthesized name.
Proof.
  unfold synthesized.
  rewrite !orb_true_iff, !String.eqb_eq, startswith_begins_with. tauto.
Qed.

Lemma named_sections_snoc name secs s :
  named_sections name (secs ++ [s])
  = named_sections name secs
    ++ (if String.eqb (getName s) name then [s] else []).
Proof. unfold named_sections. by rewrite List.filter_app. Qed.

(** What one section does to the vector of a name. *)
Lemma placeSection_lookup strip m section name :
  default [] (placeSection strip m section !! name)
  = default [] (m !! name)
    ++ (if String.eqb (getName section) name
        then if String.eqb name "linking" || String.eqb name "name"
                || String.eqb name "producers"
                || String.eqb name "target_features"
                || startswith name "reloc."
                || strip && startswith name ".debug_"
             then [] else [section]
        else []).
Proof.
  unfold placeSection, push_back.
  destruct (String.eqb (getName section) name) eqn:Hname.
  - apply String.eqb_eq in Hname. subst name.
    destruct (_ || startswith _ "reloc.") eqn:Hs; cbn [orb];
      [by rewrite app_nil_r|].
    destruct (strip && _); [by rewrite app_nil_r|].
    by rewrite lookup_insert_eq.
  - apply String.eqb_neq in Hname.
    rewrite app_nil_r.
    destruct (_ || startswith _ "reloc."); [done|].
    destruct (strip && _); [done|].
    by rewrite lookup_insert_ne.
Qed.

(** No name is given an empty vector. *)
Lemma placeSection_nonempty strip m section :
  (forall name, m !! name <> Some []) ->
  forall name, placeSection strip m section !! name <> Some [].
Proof.
  intros Hm name. unfold placeSection, push_back.
  destruct (_ || startswith _ "reloc."); [done|].
  destruct (strip && _); [done|].
  destruct (decide (getName section = name)) as [->|Hne].
  - rewrite lookup_insert_eq. intros [= H].
    by destruct (default [] _).
  - by rewrite lookup_insert_ne.
Qed.

Lemma placeSections_lookup strip secs m name :
  default [] (foldl (placeSection strip) m secs !! name)
  = default [] (m !! name)
    ++ (if String.eqb name "linking" || String.eqb name "name"
           || String.eqb name "producers"
           || String.eqb name "target_features"
           || startswith name "reloc."
           || strip && startswith name ".debug_"
        then [] else named_sections name secs).
Proof.
  induction secs as [|s secs IH] using rev_ind.
  - cbn. by destruct (_ || _); rewrite app_nil_r.
  - rewrite foldl_app. cbn [foldl].
    rewrite placeSection_lookup, IH, named_sections_snoc, <- app_assoc.
    f_equal.
    destruct (String.eqb (getName s) name);
      destruct (_ || _ && _); by rewrite ?app_nil_r.
Qed.

Lemma placeSections_nonempty strip secs m :
  (forall name, m !! name <> Some []) ->
  forall name, foldl (placeSection strip) m secs !! name <> Some [].
Proof.
  revert m. induction secs as [|s secs IH]; intros m Hm; [done|].
  cbn [foldl]. apply IH. by apply placeSection_nonempty.
Qed.

Lemma foldl_concat {A B} (f : A -> B -> A) (ls : list (list B)) a :
  foldl (fun a l => foldl f a l) a ls = foldl f a (concat ls).
Proof.
  revert a. induction ls as [|l ls IH]; intros a; [done|].
  cbn [foldl concat]. by rewrite foldl_app, IH.
Qed.

Variable stripDebug stripAll : bool.
Variable customSections : ObjFile -> list InputSection.

Lemma calculateCustomSections_eq symtab m :
  calculateCustomSections stripDebug stripAll customSections symtab m
  = foldl (placeSection (stripDebug || stripAll)) m
      (input_custom_sections customSections symtab).
Proof.
  unfold calculateCustomSections, input_custom_sections.
  generalize (objectFiles symtab). intros fs.
  revert m. induction fs as [|f fs IH]; intros m; [done|].
  cbn [foldl map concat]. by rewrite foldl_app, IH.
Qed.

(** X18: [calculateCustomSections], from an empty mapping, groups the custom
    sections of the object files by name: a name is a key exactly when some
    section has it, it is none of [linking], [name], [producers],
    [target_features] and [reloc.*], and it is not a [.debug_*] name when
    [--strip-debug] or [--strip-all] is given; its vector then holds the
    sections of that name, all of them, in the order of the input. *)
Theorem custom_sections_grouped_by_name symtab name :
  let m := calculateCustomSections stripDebug stripAll customSections
             symtab ∅ in
  let secs := named_sections name
                (input_custom_sections customSections symtab) in
  let copied := ~ synthesized name
                /\ ~ (stripDebug || stripAll = true
                      /\ begins_with name ".debug_") in
  (copied /\ secs <> [] -> m !! name = Some secs)
  /\ (~ (copied /\ secs <> []) -> m !! name = None).
Proof.
  intros m secs copied.
  pose proof (placeSections_lookup (stripDebug || stripAll)
    (input_custom_sections customSections symtab) ∅ name) as Hlook.
  rewrite <- calculateCustomSections_eq in Hlook.
  fold m secs in Hlook. rewrite lookup_empty in Hlook. cbn [default app] in Hlook.
  assert (m !! name <> Some []) as Hne.
  { unfold m. rewrite calculateCustomSections_eq.
    apply placeSections_nonempty. intros k. by rewrite lookup_empty. }
  assert (String.eqb name "linking" || String.eqb name "name"
           || String.eqb name "producers"
           || String.eqb name "target_features"
           || startswith name "reloc."
           || (stripDebug || stripAll) && startswith name ".debug_" = false
          <-> copied) as Hcopied.
  { unfold copied. rewrite <- synthesized_spec, <- startswith_begins_with.
    destruct (_ || startswith name "reloc."); cbn [orb];
      [intuition discriminate|].
    destruct (stripDebug || stripAll); cbn [andb];
      destruct (startswith name ".debug_"); intuition discriminate. }
  split.
  - intros [Hc Hsecs]. apply Hcopied in Hc. rewrite Hc in Hlook.
    destruct (m !! name) as [l|]; cbn in Hlook; by subst.
  - intros Hnot.
    destruct (m !! name) as [l|] eqn:Hm; [|done]. exfalso.
    cbn in Hlook.
    destruct (_ || _ && _) eqn:Hc; [by subst l|].
    apply Hnot. split; [by apply Hcopied|].
    intros Hnil. rewrite Hnil in Hlook. by subst l.
Qed.

End Custom_section_facts.

Lemma custom_sections_grouped_by_name_witness :
  CustomSections.calculateCustomSections true false
    Objects.customSections Objects.objects ∅ !! "notes"
  = Some [Objects.section "notes" 2; Objects.section "notes" 5]
  /\ CustomSections.calculateCustomSections true false
       Objects.customSections Objects.objects ∅ !! "name" = None
  /\ CustomSections.calculateCustomSections true false
       Objects.customSections Objects.objects ∅ !! ".debug_info" = None.
Proof.
  destruct (custom_sections_grouped_by_name true false
    Objects.customSections Objects.objects "notes") as [Hnotes _].
  destruct (custom_sections_grouped_by_name true false
    Objects.customSections Objects.objects "name") as [_ Hname].
  destruct (custom_sections_grouped_by_name true false
    Objects.customSections Objects.objects ".debug_info") as [_ Hdebug].
  split; [|split].
  - apply Hnotes. split; [|done]. split.
    + unfold synthesized. intros [H|[H|[H|[H|H]]]]; try discriminate H.
      by apply startswith_begins_with in H.
    + intros [_ H]. by apply startswith_begins_with in H.
  - apply Hname. intros [[Hs _] _]. apply Hs. unfold synthesized. tauto.
  - apply Hdebug. intros [[_ Hd] _]. apply Hd. split; [done|].
    by apply startswith_begins_with.
Defined.

Section Section_facts.

Import Sections.

Lemma addSection_needed sec w :
  isNeeded sec = true ->
  addSection sec w
  = make (fileSize w) (header w)
      (outputSections w
       ++ [set_sectionIndex sec (u32 (Z.of_nat (length (outputSections w))))]).
Proof. unfold addSection. by intros ->. Qed.

Lemma addSection_not_needed sec w :
  isNeeded sec = false -> addSection sec w = w.
Proof. unfold addSection. by intros ->. Qed.

Lemma addSection_each_app secs more w :
  addSection_each (secs ++ more) w
  = addSection_each more (addSection_each secs w).
Proof. unfold addSection_each. by rewrite foldl_app. Qed.

Lemma placed_at_app from l1 l2 :
  placed_at from l1 -> placed_at (from + length l1) l2 ->
  placed_at from (l1 ++ l2).
Proof.
  intros H1 H2 i s Hi. apply lookup_app_Some in Hi as [Hi|[Hle Hi]].
  - by apply H1.
  - apply H2 in Hi. replace (from + i)%nat with
      (from + length l1 + (i - length l1))%nat by lia. done.
Qed.

(** What a run of [addSection] adds. *)
Lemma addSection_each_spec secs w :
  exists added,
    addSection_each secs w
    = make (fileSize w) (header w) (outputSections w ++ added)
    /\ Forall2 same_but_sectionIndex (List.filter isNeeded secs) added
    /\ placed_at (length (outputSections w)) added.
Proof.
  revert w. induction secs as [|sec secs IH]; intros w.
  - exists []. cbn. rewrite app_nil_r. split; [by destruct w|].
    split; [constructor|]. by intros i s Hi.
  - cbn [addSection_each foldl List.filter].
    change (foldl _ ?w secs) with (addSection_each secs w).
    destruct (isNeeded sec) eqn:Hneeded.
    + rewrite addSection_needed by done.
      destruct (IH (make (fileSize w) (header w)
        (outputSections w
         ++ [set_sectionIndex sec
               (u32 (Z.of_nat (length (outputSections w))))])))
        as (added & -> & Hsame & Hplaced).
      cbn [fileSize header outputSections] in *.
      eexists (_ :: added). rewrite <- app_assoc. split; [done|]. split.
      * constructor; [done|exact Hsame].
      * rewrite length_app in Hplaced. cbn [length] in Hplaced.
        intros [|i] s Hi.
        -- injection Hi as <-. by rewrite Nat.add_0_r.
        -- apply Hplaced in Hi.
           by replace (length (outputSections w) + S i)%nat with
             (length (outputSections w) + 1 + i)%nat by lia.
    + rewrite addSection_not_needed by done. apply IH.
Qed.

Variable RelocSection : string -> OutputSection -> OutputSection.

Lemma reloc_sections_cons sec secs :
  reloc_sections RelocSection (sec :: secs)
  = (if has_relocations sec
     then match reloc_name sec with
          | Some n => [RelocSection n sec]
          | None => []
          end
     else []) ++ reloc_sections RelocSection secs.
Proof.
  unfold reloc_sections. cbn [omap list_omap].
  destruct (has_relocations sec); [|done].
  by destruct (reloc_name sec).
Qed.

Lemma createRelocSections_from_S n i w sec :
  outputSections w !! i = Some sec ->
  createRelocSections_from RelocSection (S n) i w
  = if has_relocations sec
    then match reloc_name sec with
         | Some name =>
             createRelocSections_from RelocSection n (S i)
               (addSection (RelocSection name sec) w)
         | None => None
         end
    else createRelocSections_from RelocSection n (S i) w.
Proof.
  intros Hsec. cbn [createRelocSections_from]. rewrite Hsec.
  cbn [mbind option_bind]. unfold has_relocations, reloc_name.
  destruct (u32 (getNumRelocations sec) =? 0); cbn [negb]; [done|].
  by destruct (type sec =? WASM_SEC_DATA), (type sec =? WASM_SEC_CODE),
    (type sec =? WASM_SEC_CUSTOM).
Qed.

(** The loop of [createRelocSections] reads the sections that were there
    when it began, whatever it adds. *)
Lemma createRelocSections_from_spec rest : forall done w,
  (exists added, outputSections w = done ++ rest ++ added) ->
  (createRelocSections_from RelocSection (length rest) (length done) w = None
   /\ Exists stray rest)
  \/ (createRelocSections_from RelocSection (length rest) (length done) w
      = Some (addSection_each (reloc_sections RelocSection rest) w)
      /\ Forall (fun sec => ~ stray sec) rest).
Proof.
  induction rest as [|sec rest IH]; intros done w [added Hw].
  - right. split; [done|constructor].
  - cbn [length].
    rewrite (createRelocSections_from_S _ _ _ sec).
    2:{ rewrite Hw. rewrite lookup_app_r by lia. by rewrite Nat.sub_diag. }
    rewrite reloc_sections_cons.
    destruct (has_relocations sec) eqn:Hrel.
    + destruct (reloc_name sec) as [n|] eqn:Hname.
      * destruct (IH (done ++ [sec]) (addSection (RelocSection n sec) w))
          as [[Hn He]|[Hs Hf]].
        { unfold addSection. destruct (negb _).
          - exists added. by rewrite Hw, <- !app_assoc.
          - eexists (added ++ [_]). cbn [outputSections].
            rewrite Hw, <- !app_assoc. cbn [app]. done. }
        -- left. rewrite length_app, Nat.add_1_r in Hn. split; [done|].
           by apply Exists_cons_tl.
        -- right. rewrite length_app, Nat.add_1_r in Hs. split; [done|].
           apply Forall_cons; split; [|done]. unfold stray.
           rewrite Hname. by intros [_ ?].
      * left. split; [done|]. by apply Exists_cons_hd.
    + destruct (IH (done ++ [sec]) w) as [[Hn He]|[Hs Hf]].
      { exists added. by rewrite Hw, <- !app_assoc. }
      * left. rewrite length_app, Nat.add_1_r in Hn. split; [done|].
        by apply Exists_cons_tl.
      * right. rewrite length_app, Nat.add_1_r in Hs. split; [done|].
        apply Forall_cons; split; [|done]. unfold stray.
        rewrite Hrel. by intros [? _].
Qed.

Lemma createRelocSections_spec w :
  (createRelocSections RelocSection w = None
   /\ Exists stray (outputSections w))
  \/ (createRelocSections RelocSection w
      = Some (addSection_each
                (reloc_sections RelocSection (outputSections w)) w)
      /\ Forall (fun sec => ~ stray sec) (outputSections w)).
Proof.
  unfold createRelocSections.
  apply (createRelocSections_from_spec (outputSections w) [] w).
  exists []. by rewrite app_nil_r.
Qed.

Lemma stray_type sec :
  stray sec
  <-> u32 (getNumRelocations sec) <> 0
      /\ type sec <> WASM_SEC_DATA /\ type sec <> WASM_SEC_CODE
      /\ type sec <> WASM_SEC_CUSTOM.
Proof.
  unfold stray, has_relocations, reloc_name.
  destruct (Z.eqb_spec (u32 (getNumRelocations sec)) 0) as [->|Hc];
    cbn [negb]; [intuition congruence|].
  destruct (Z.eqb_spec (type sec) WASM_SEC_DATA); [intuition congruence|].
  destruct (Z.eqb_spec (type sec) WASM_SEC_CODE); [intuition congruence|].
  destruct (Z.eqb_spec (type sec) WASM_SEC_CUSTOM); intuition congruence.
Qed.

(** X19: however many sections [addSection] is called on, before and after
    [createRelocSections], every section of [outputSections] is a needed
    one and has the place it stands at as its [sectionIndex]; the sections
    stand in the order of the calls, the relocation sections (one for each
    section with relocations that was added before, in their order) in
    between, the unneeded ones dropped.  [createRelocSections] reaches
    [llvm_unreachable] exactly when an added section with relocations is
    neither the data, nor the code, nor a custom section. *)
Theorem sections_are_indexed_in_call_order secs more :
  let w1 := addSection_each secs initial in
  (createRelocSections RelocSection w1 = None
   <-> exists sec, sec ∈ outputSections w1
         /\ u32 (getNumRelocations sec) <> 0
         /\ type sec <> WASM_SEC_DATA /\ type sec <> WASM_SEC_CODE
         /\ type sec <> WASM_SEC_CUSTOM)
  /\ (forall w2, createRelocSections RelocSection w1 = Some w2 ->
      let sections := outputSections (addSection_each more w2) in
      Forall2 same_but_sectionIndex
        (List.filter isNeeded
           (secs ++ reloc_sections RelocSection (outputSections w1) ++ more))
        sections
      /\ forall i sec, sections !! i = Some sec ->
           sectionIndex sec = u32 (Z.of_nat i) /\ isNeeded sec = true).
Proof.
  intros w1. split.
  - destruct (createRelocSections_spec w1) as [[-> He]|[-> Hf]].
    + split; [|done]. intros _. apply Exists_exists in He as (sec & Hin & Hs).
      exists sec. split; [done|]. by apply stray_type.
    + split; [done|]. intros (sec & Hin & Hs). apply stray_type in Hs.
      rewrite Forall_forall in Hf. by destruct (Hf sec Hin).
  - intros w2 Hw2 sections.
    destruct (createRelocSections_spec w1) as [[Hn _]|[Hs _]];
      [congruence|].
    rewrite Hs in Hw2. injection Hw2 as <-.
    unfold sections, w1.
    destruct (addSection_each_spec secs initial) as (a1 & E1 & S1 & P1).
    rewrite E1. cbn [outputSections initial app].
    destruct (addSection_each_spec (reloc_sections RelocSection a1)
      (make (fileSize initial) (header initial) a1)) as (a2 & E2 & S2 & P2).
    change (make (fileSize initial) (header initial) ([] ++ a1))
      with (make (fileSize initial) (header initial) a1).
    rewrite E2. cbn [outputSections fileSize header] in *.
    destruct (addSection_each_spec more
      (make (fileSize initial) (header initial) (a1 ++ a2)))
      as (a3 & E3 & S3 & P3).
    rewrite E3. cbn [outputSections fileSize header] in *.
    split.
    + rewrite !List.filter_app, <- app_assoc.
      apply Forall2_app; [done|]. by apply Forall2_app.
    + assert (placed_at 0 ((a1 ++ a2) ++ a3)) as Hplaced.
      { apply placed_at_app; [apply placed_at_app|]; done. }
      intros i sec Hi. by apply Hplaced in Hi.
Qed.

End Section_facts.

Section File_layout.

Import Sections.

Variable finalizeContents : OutputSection -> OutputSection.

Lemma u64_add_l a b : u64 (u64 a + b) = u64 (a + b).
Proof. unfold u64. by rewrite Z.add_mod_idemp_l. Qed.

Lemma total_size_snoc secs s :
  total_size (secs ++ [s]) = total_size secs + getSize s.
Proof.
  unfold total_size. induction secs as [|s' secs IH]; cbn; [lia|].
  cbn in IH. rewrite IH. lia.
Qed.

Hypothesis finalizeContents_offset :
  forall s, offset (finalizeContents s) = offset s.

Lemma u64_small a : 0 <= a < 2 ^ 64 -> u64 a = a.
Proof. unfold u64. intros H. by apply Z.mod_small. Qed.

Lemma u64_bounds a : 0 <= u64 a < 2 ^ 64.
Proof. unfold u64. by apply Z.mod_pos_bound. Qed.

Lemma finalizeSections_loop secs : forall done start,
  0 <= start < 2 ^ 64 ->
  exists finals,
    foldl (finalizeSection finalizeContents) (done, start) secs
    = (done ++ finals, u64 (start + total_size finals))
    /\ Forall2 (finalized finalizeContents) secs finals
    /\ forall i s', finals !! i = Some s' ->
          offset s' = u64 (start + total_size (take i finals)).
Proof.
  induction secs as [|s secs IH]; intros done start Hstart.
  - exists []. cbn. rewrite app_nil_r, Z.add_0_r, u64_small by done.
    split; [done|]. split; [constructor|]. by intros i s' Hi.
  - cbn [foldl finalizeSection].
    set (s1 := finalizeContents (setOffset s start)).
    assert (offset s1 = start) as Hoff.
    { unfold s1. by rewrite finalizeContents_offset. }
    destruct (IH (done ++ [s1]) (u64 (start + getSize s1)))
      as (finals & -> & Hfin & Hoffs); [apply u64_bounds|].
    exists (s1 :: finals). rewrite <- app_assoc. cbn [app].
    split; [|split].
    + f_equal. cbn [total_size foldr]. fold (total_size finals).
      rewrite u64_add_l. f_equal. lia.
    + constructor; [|done]. unfold finalized. by rewrite Hoff.
    + intros [|i] s' Hi.
      * injection Hi as <-. cbn. by rewrite Z.add_0_r, u64_small.
      * apply Hoffs in Hi. rewrite Hi. cbn [take total_size foldr].
        fold (total_size (take i finals)). rewrite u64_add_l. f_equal. lia.
Qed.

(** X20: [createHeader] and [finalizeSections], in a new writer, lay the
    file out as the eight bytes of the header (the magic number and the
    version) and then the sections back to back: each section is finalized
    at the offset where the one before it ends (sizes as they are after
    [finalizeContents], sums in [uint64_t]), and [fileSize] is the end of
    the last one. *)
Theorem sections_follow_the_header_back_to_back w :
  fileSize w = 0 -> header w = [] ->
  let w' := finalizeSections finalizeContents (createHeader w) in
  header w' = [0; 97; 115; 109; 1; 0; 0; 0]
  /\ Forall2 (finalized finalizeContents) (outputSections w) (outputSections w')
  /\ (forall i s', outputSections w' !! i = Some s' ->
        offset s' = u64 (8 + total_size (take i (outputSections w'))))
  /\ fileSize w' = u64 (8 + total_size (outputSections w')).
Proof.
  intros Hsize Hheader w'. unfold w', finalizeSections, createHeader.
  rewrite Hsize, Hheader. cbn [app length fileSize header outputSections].
  change (u64 (0 + Z.of_nat _)) with 8.
  destruct (finalizeSections_loop (outputSections w) [] 8)
    as (finals & -> & Hfin & Hoffs); [by vm_compute|].
  cbn [app header outputSections fileSize]. done.
Qed.

End File_layout.


Lemma sections_are_indexed_in_call_order_witness :
  exists w2,
    Sections.createRelocSections Files.RelocSection
      (addSection_each
         [Files.type_sec; Files.event_sec; Files.code_sec; Files.data_sec]
         Sections.initial) = Some w2
    /\ map Sections.name
         (Sections.outputSections (addSection_each [Files.name_sec] w2))
       = ["TYPE"; "CODE"; "DATA"; "reloc.CODE"; "name"]
    /\ forall i sec,
         Sections.outputSections (addSection_each [Files.name_sec] w2) !! i
         = Some sec ->
         Sections.sectionIndex sec = u32 (Z.of_nat i)
         /\ Sections.isNeeded sec = true.
Proof.
  destruct (Sections.createRelocSections Files.RelocSection
      (addSection_each
         [Files.type_sec; Files.event_sec; Files.code_sec; Files.data_sec]
         Sections.initial)) as [w2|] eqn:Hw2;
    [|vm_compute in Hw2; discriminate Hw2].
  exists w2. split; [done|].
  destruct (sections_are_indexed_in_call_order Files.RelocSection
    [Files.type_sec; Files.event_sec; Files.code_sec; Files.data_sec]
    [Files.name_sec]) as [_ Hsome].
  destruct (Hsome w2 Hw2) as [_ Hplaced].
  split; [|exact Hplaced].
  vm_compute in Hw2. injection Hw2 as <-. by vm_compute.
Defined.

Lemma sections_follow_the_header_back_to_back_witness :
  map Sections.offset
    (Sections.outputSections
       (Sections.finalizeSections Files.finalizeContents
          (Sections.createHeader
             (addSection_each [Files.type_sec; Files.code_sec; Files.data_sec]
                Sections.initial))))
  = [8; 18; 118]
  /\ Sections.fileSize
       (Sections.finalizeSections Files.finalizeContents
          (Sections.createHeader
             (addSection_each [Files.type_sec; Files.code_sec; Files.data_sec]
                Sections.initial))) = 148.
Proof.
  destruct (sections_follow_the_header_back_to_back Files.finalizeContents
    (fun s => eq_refl)
    (addSection_each [Files.type_sec; Files.code_sec; Files.data_sec]
       Sections.initial) eq_refl eq_refl) as (_ & _ & Hoffs & Hsize).
  split; [|by rewrite Hsize].
  by vm_compute.
Defined.

Section Function_bodies.



(** What [createFunction] installs reads back as its content, when the
    size fits the 32 bits it is written from. *)
Lemma read_function_createFunction content groups ts :
  Z.of_nat (length (createFunction content)) < 2 ^ 32 ->
  decode_body content = Some (groups, ts) ->
  read_function (createFunction content) = Some (groups, ts).
Proof.
  unfold createFunction, read_function. rewrite length_app.
  intros Hsize Hbody.
  assert (u32 (Z.of_nat (length content)) = Z.of_nat (length content))
    as -> by (apply u32_small; lia).
  rewrite decodeULEB128_encode by lia. cbn.
  by rewrite Z.eqb_refl.
Qed.


End Function_bodies.

(** C7: the init functions the writer ends up with are in ascending order of
    priority; when they are collected at all (the link is relocatable or
    [__wasm_call_ctors] is live) they are the discovered ones, those of one
    priority in the order of their discovery across the object files; and
    the body installed in a live [__wasm_call_ctors], read back (its size,
    which fits 32 bits, then its content), has no locals and is, in this
    order, the call of [__wasm_init_memory] under passive segments, the call
    of [__wasm_apply_relocs] under PIC, one call for each init function in
    the sorted order, and [end]. *)
Theorem init_functions_sorted_and_called config symtab NDEBUG l l' o :
  Writer.initFunctions (writer l) = [] ->
  calculateInitFunctions config symtab NDEBUG l = Ok l' o ->
  ascending (Writer.initFunctions (writer l'))
  /\ (relocatable config = true
      \/ (exists c, WasmSym.callCtors (wasmSym l) = Some c
                    /\ isLive c = true) ->
      Writer.initFunctions (writer l') ≡ₚ discovered symtab
      /\ forall p,
           of_priority p (Writer.initFunctions (writer l'))
           = of_priority p (discovered symtab))
  /\ (forall c,
        WasmSym.callCtors (wasmSym l) = Some c -> isLive c = true ->
        (passiveSegments config = true ->
         is_Some (WasmSym.initMemory (wasmSym l))) ->
        (isPic config = true ->
         is_Some (WasmSym.applyRelocs (wasmSym l))) ->
        exists body,
          createCallCtorsFunction config l' = Ok tt body
          /\ (Z.of_nat (length body) < 2 ^ 32 ->
              read_function body
              = Some ([], call_ctors_tokens config (wasmSym l')
                            (Writer.initFunctions (writer l'))))).
Proof.
  intros Hnone [Hsym Hfs]%calculateInitFunctions_Ok.
  rewrite Hnone in Hfs. cbn [app] in Hfs. split; [|split].
  - destruct Hfs as [(_ & _ & ->)|[_ ->]];
      [apply ascending_nil|apply stable_sort_ascending].
  - intros Hcollect.
    destruct Hfs as [(Hreloc & (c & Hc & Hdead) & _)|[_ ->]].
    { destruct Hcollect as [Hreloc'|(c' & Hc' & Hlive)]; [congruence|].
      rewrite Hc in Hc'. injection Hc' as <-. congruence. }
    split; [apply stable_sort_Permutation|].
    intros p. apply stable_sort_of_priority.
  - intros c Hc Hlive Hmem Hrelocs. rewrite <- Hsym in Hc, Hmem, Hrelocs.
    destruct (callCtors_bodyContent_tokens config l' Hmem Hrelocs)
      as (bodyContent & Hbody & Htokens).
    exists (createFunction bodyContent). split.
    + unfold createCallCtorsFunction. rewrite Hc. unfold deref.
      rewrite bind_ret_l, Hlive. cbn [negb]. by rewrite Hbody.
    + intros Hsize. by apply read_function_createFunction.
Qed.

Lemma init_functions_sorted_and_called_witness :
  exists l',
    calculateInitFunctions Links.two_pages Links.objects false Links.fresh
    = Ok l' []
    /\ ascending (Writer.initFunctions (writer l'))
    /\ (forall p,
          of_priority p (Writer.initFunctions (writer l'))
          = of_priority p (discovered Links.objects))
    /\ exists body,
         createCallCtorsFunction Links.two_pages l' = Ok tt body
         /\ read_function body
            = Some ([], [Op (Call 21); Op (Call 22); Op (Call 20); End]).
Proof.
  destruct (calculateInitFunctions Links.two_pages Links.objects false
              Links.fresh) as [l' o| | |] eqn:Hl';
    try (vm_compute in Hl'; discriminate Hl').
  assert (o = []) as -> by (vm_compute in Hl'; by injection Hl').
  exists l'. split; [done|].
  destruct (init_functions_sorted_and_called Links.two_pages Links.objects
              false Links.fresh l' [] eq_refl Hl') as (Hasc & Hsame & Hbody).
  split; [done|]. split.
  - apply Hsame. right. eexists. split; reflexivity.
  - destruct (Hbody _ eq_refl eq_refl ltac:(discriminate)
                ltac:(discriminate)) as (body & Hinstalled & Hread).
    exists body. split; [done|].
    assert (call_ctors_tokens Links.two_pages (wasmSym l')
              (Writer.initFunctions (writer l'))
            = [Op (Call 21); Op (Call 22); Op (Call 20); End]) as <-.
    { vm_compute in Hl'. apply Ok_inj in Hl' as [<- _]. by vm_compute. }
    apply Hread.
    assert (length body = 9%nat) as ->; [|lia].
    vm_compute in Hl'. apply Ok_inj in Hl' as [<- _].
    vm_compute in Hinstalled. by apply Ok_inj in Hinstalled as [_ <-].
Defined.

(** C2: the ABIs of a link are the non-empty ABIs of its object files, in
    the order of the files.  With none, [writeABI] leaves the link as it is
    and writes no file.  Otherwise, when the merger seeded with the last ABI
    and fed every ABI of the list in its order comes out as [merger], and
    the file can be created and committed, then after [writeABI] the file at
    [outputFile] with its extension replaced by [.abi] holds the ABI string
    of [merger], and every other file and the rest of the link are as they
    were.  Whatever happens, [writeABI] touches no file but that one, and
    what it leaves there is what was there or such an ABI string. *)
Theorem abi_file_from_seeded_fold {ojson ABIMerger : Type}
    (parse : string -> try ojson) (new_ABIMerger : ojson -> try ABIMerger)
    (merge : ABIMerger -> ojson -> try ojson)
    (set_abi : ABIMerger -> ojson -> ABIMerger)
    (get_abi_string : ABIMerger -> string)
    (replace_extension : string -> string -> string)
    (create_error commit_error : string -> option string)
    (config : Configuration) (symtab : SymbolTable) (l : Linker) :
  let path := replace_extension (outputFile config) ".abi" in
  Writer.abis (createOutputSegments config symtab Writer.initial)
  = collected_abis symtab
  /\ (Writer.abis (writer l) = [] ->
      writeABI parse new_ABIMerger merge set_abi get_abi_string
        replace_extension create_error commit_error config l = Ok l [])
  /\ (forall merger,
        Writer.abis (writer l) <> [] ->
        seeded_and_folded parse new_ABIMerger merge set_abi
          (Writer.abis (writer l)) merger ->
        create_error path = None ->
        commit_error path = None ->
        exists l',
          writeABI parse new_ABIMerger merge set_abi get_abi_string
            replace_extension create_error commit_error config l
          = Ok l' []
          /\ files l' !! path = Some (get_abi_string merger)
          /\ (forall other, other <> path ->
                files l' !! other = files l !! other)
          /\ writer l' = writer l /\ wasmSym l' = wasmSym l
          /\ out l' = out l /\ errors l' = errors l)
  /\ (forall l' o,
        writeABI parse new_ABIMerger merge set_abi get_abi_string
          replace_extension create_error commit_error config l = Ok l' o ->
        (forall other, other <> path ->
           files l' !! other = files l !! other)
        /\ (files l' !! path = files l !! path
            \/ exists merger,
                 Writer.abis (writer l) <> []
                 /\ seeded_and_folded parse new_ABIMerger merge set_abi
                      (Writer.abis (writer l)) merger
                 /\ files l' !! path = Some (get_abi_string merger))).
Proof.
  intros path. split; [|split; [|split]].
  - unfold createOutputSegments. by rewrite placeObjFiles_abis.
  - intros Hnone. unfold writeABI. by rewrite bool_decide_eq_true_2.
  - intros merger Hsome Hmerger%merged_abis_seeded Hcreate Hcommit; [|done].
    eexists. split.
    { unfold writeABI. rewrite bool_decide_eq_false_2 by done.
      fold path. by rewrite Hmerger, Hcreate, Hcommit. }
    cbn [set_files files writer wasmSym out errors].
    split; [by rewrite lookup_insert_eq|].
    split; [|done]. intros other Hother. by rewrite lookup_insert_ne.
  - intros l' o. unfold writeABI. fold path. case_bool_decide as Hsome.
    { intros [<- _]%Ok_inj. split; [done|by left]. }
    destruct (merged_abis _ _ _ _ _) as [[what|]|merger] eqn:Hmerger.
    + done.
    + intros [<- _]%Ok_inj. split; [done|by left].
    + destruct (create_error _);
        [intros [<- _]%Ok_inj; split; [done|by left]|].
      destruct (commit_error _); [done|].
      intros [<- _]%Ok_inj. cbn [set_files files]. split.
      * intros other Hother. by rewrite lookup_insert_ne.
      * right. exists merger. split; [done|].
        split; [by apply merged_abis_seeded|by rewrite lookup_insert_eq].
Qed.

Lemma abi_file_from_seeded_fold_witness :
  Writer.abis (writer Links.placed_objects) = ["{a}"; "{c}"]
  /\ seeded_and_folded Links.parse Links.new_ABIMerger Links.merge
       Links.set_abi ["{a}"; "{c}"] "{c}{a}{c}"
  /\ exists l',
       writeABI Links.parse Links.new_ABIMerger Links.merge Links.set_abi
         Links.get_abi_string Links.replace_extension Links.no_error
         Links.no_error Links.two_pages Links.placed_objects = Ok l' []
       /\ files l' !! "contract.abi" = Some "{c}{a}{c}".
Proof.
  assert (seeded_and_folded Links.parse Links.new_ABIMerger Links.merge
            Links.set_abi ["{a}"; "{c}"] "{c}{a}{c}") as Hfold.
  { exists "{c}", "{c}", "{c}". repeat split.
    eapply folded_cons; [reflexivity|reflexivity|].
    eapply folded_cons; [reflexivity|reflexivity|]. apply folded_nil. }
  split; [by vm_compute|]. split; [done|].
  destruct (abi_file_from_seeded_fold Links.parse Links.new_ABIMerger
              Links.merge Links.set_abi Links.get_abi_string
              Links.replace_extension Links.no_error Links.no_error
              Links.two_pages Links.objects Links.placed_objects)
    as (_ & _ & Hwritten & _).
  destruct (Hwritten "{c}{a}{c}") as (l' & Hl' & Hfile & _); try done.
  by exists l'.
Defined.

Section Export_facts.

Import Exports.

Variable NDEBUG : bool.
Variable config : Configuration.
Variable symtab : SymbolTable.
Variable exportAll importMemory exportTable : bool.
Variable ask : Symbol -> asked.
Variable getNumImportedGlobals numInputGlobals : Z.

Lemma exportSymbol_skipped o idx sym :
  exportable exportAll ask sym = false ->
  exportSymbol NDEBUG exportAll ask (o, idx) sym = Returns (o, idx).
Proof.
  unfold exportable, exportSymbol.
  destruct (isDefined (ask sym)); cbn [negb andb]; [|done].
  destruct (isHidden (ask sym)), exportAll; cbn [negb andb orb]; try done;
    destruct (isLocal (ask sym)); cbn [negb andb]; try done;
    by intros ->.
Qed.

Lemma exportSymbol_exportable o idx sym :
  exportable exportAll ask sym = true ->
  exportSymbol NDEBUG exportAll ask (o, idx) sym
  = match cast (ask sym) with
    | AsDefinedFunction =>
        Returns (push_back {| Name := getName sym;
                              Kind := WASM_EXTERNAL_FUNCTION;
                              Index := getFunctionIndex sym |} o, idx)
    | AsDefinedGlobal Mutable =>
        if Mutable then
          if NDEBUG || isStackPointerOrTlsBase (ask sym)
          then Returns (o, idx)
          else AssertionFailed
                 "g == WasmSym::stackPointer || g == WasmSym::tlsBase"
        else Returns (push_back {| Name := getName sym;
                                   Kind := WASM_EXTERNAL_GLOBAL;
                                   Index := getGlobalIndex sym |} o, idx)
    | AsDefinedEvent =>
        Returns (push_back {| Name := getName sym;
                              Kind := WASM_EXTERNAL_EVENT;
                              Index := getEventIndex (ask sym) |} o, idx)
    | AsDefinedData =>
        Returns (push_back {| Name := getName sym;
                              Kind := WASM_EXTERNAL_GLOBAL; Index := idx |}
                   (make (exports o) (definedFakeGlobals o ++ [sym])),
                 u32 (idx + 1))
    | AsOther =>
        if NDEBUG then Undefined
        else AssertionFailed "cast<Ty>() argument of incompatible type!"
    end.
Proof.
  unfold exportable, exportSymbol.
  rewrite !andb_true_iff, negb_true_iff.
  intros [[[-> Hhidden] ->] ->]. cbn [negb].
  by destruct (isHidden (ask sym)), exportAll.
Qed.

Lemma u32_succ base n :
  u32 (u32 (base + Z.of_nat n) + 1) = u32 (base + Z.of_nat (S n)).
Proof.
  unfold u32. rewrite Z.add_mod_idemp_l by lia. f_equal. lia.
Qed.

Lemma exported_skip sym syms :
  exportable exportAll ask sym && negb (is_mutable_global ask sym) = false ->
  exported exportAll ask (sym :: syms) = exported exportAll ask syms.
Proof. unfold exported. cbn [List.filter]. by intros ->. Qed.

Lemma exported_keep sym syms :
  exportable exportAll ask sym && negb (is_mutable_global ask sym) = true ->
  exported exportAll ask (sym :: syms)
  = sym :: exported exportAll ask syms.
Proof. unfold exported. cbn [List.filter]. by intros ->. Qed.

(** The loop over the symbols, after [n] fake globals. *)
Lemma exportSymbols_spec base syms : forall o n,
  (stopped NDEBUG
     (exportSymbols NDEBUG exportAll ask syms (o, u32 (base + Z.of_nat n)))
   /\ Exists (stops_export NDEBUG exportAll ask) syms)
  \/ (exists es,
        let data :=
          List.filter (is_data ask) (exported exportAll ask syms) in
        exportSymbols NDEBUG exportAll ask syms (o, u32 (base + Z.of_nat n))
        = Returns (make (exports o ++ es) (definedFakeGlobals o ++ data),
                   u32 (base + Z.of_nat (n + length data)))
        /\ exports_added NDEBUG exportAll ask base syms n es).
Proof.
  unfold exports_added.
  induction syms as [|sym syms IH]; intros o n.
  - right. exists []. cbn. rewrite !app_nil_r, Nat.add_0_r.
    split; [by destruct o|]. split; [constructor|]. split; [constructor|].
    by intros k d Hk.
  - cbn [exportSymbols].
    destruct (exportable exportAll ask sym) eqn:Hexp.
    2:{ rewrite exportSymbol_skipped by done.
        rewrite exported_skip by by rewrite Hexp.
        destruct (IH o n) as [[Hn He]|(es & Hs & Hf & H2 & Hk)].
        - left. split; [done|]. by apply Exists_cons_tl.
        - right. exists es. split; [done|]. split; [|done].
          apply Forall_cons; split; [|done]. unfold stops_export.
          rewrite Hexp. by intros [? _]. }
    rewrite exportSymbol_exportable by done.
    assert (forall e,
      is_mutable_global ask sym = false -> is_data ask sym = false ->
      export_of ask sym e -> ~ stops_export NDEBUG exportAll ask sym ->
      (stopped NDEBUG
         (exportSymbols NDEBUG exportAll ask syms
            (push_back e o, u32 (base + Z.of_nat n)))
       /\ Exists (stops_export NDEBUG exportAll ask) (sym :: syms))
      \/ (exists es,
            let data :=
              List.filter (is_data ask)
                (exported exportAll ask (sym :: syms)) in
            exportSymbols NDEBUG exportAll ask syms
              (push_back e o, u32 (base + Z.of_nat n))
            = Returns
                (make (exports o ++ es) (definedFakeGlobals o ++ data),
                 u32 (base + Z.of_nat (n + length data)))
            /\ Forall (fun sym => ~ stops_export NDEBUG exportAll ask sym)
                 (sym :: syms)
            /\ Forall2 (export_of ask)
                 (exported exportAll ask (sym :: syms)) es
            /\ forall k d,
                 data !! k = Some d ->
                 exists i,
                   exported exportAll ask (sym :: syms) !! i = Some d
                   /\ es !! i = Some (fake_global_export base (n + k) d)))
      as Hplain.
    { intros e Hmut Hdata He Hnot.
      rewrite exported_keep by by rewrite Hexp, Hmut.
      cbn [List.filter]. rewrite Hdata.
      destruct (IH (push_back e o) n) as [[Hn Hex]|(es & Hs & Hf & H2 & Hk)].
      - left. split; [done|]. by apply Exists_cons_tl.
      - right. exists (e :: es).
        cbn [push_back exports definedFakeGlobals] in Hs.
        rewrite <- app_assoc in Hs. split; [done|].
        split; [by apply Forall_cons|]. split; [by constructor|].
        intros k d Hd. destruct (Hk k d Hd) as (i & Hi & Hei).
        by exists (S i). }
    destruct (cast (ask sym)) as [|[]| | |] eqn:Hcast.
    2:{ destruct (NDEBUG || isStackPointerOrTlsBase (ask sym)) eqn:Hassert.
        - rewrite exported_skip
            by (unfold is_mutable_global; by rewrite Hexp, Hcast).
          destruct (IH o n) as [[Hn He]|(es & Hs & Hf & H2 & Hk)].
          + left. split; [done|]. by apply Exists_cons_tl.
          + right. exists es. split; [done|]. split; [|done].
            apply Forall_cons; split; [|done]. unfold stops_export.
            rewrite Hcast. apply orb_true_iff in Hassert.
            intros [_ [?|(? & _ & ?)]]; [done|]. destruct Hassert; congruence.
        - apply orb_false_iff in Hassert as [Hdebug Hother].
          left. split; [done|]. apply Exists_cons_hd. unfold stops_export.
          split; [done|]. by right. }
    1-3: apply Hplain;
      [unfold is_mutable_global; by rewrite Hcast
      |unfold is_data; by rewrite Hcast
      |unfold export_of; by rewrite Hcast
      |unfold stops_export; rewrite Hcast;
       by intros [_ [?|(_ & ? & _)]]].
    + rewrite u32_succ.
      rewrite exported_keep
        by (unfold is_mutable_global; by rewrite Hexp, Hcast).
      cbn [List.filter].
      assert (is_data ask sym = true) as ->
        by (unfold is_data; by rewrite Hcast).
      set (e := {| Name := getName sym; Kind := WASM_EXTERNAL_GLOBAL;
                   Index := u32 (base + Z.of_nat n) |}).
      destruct (IH (push_back e
        (make (exports o) (definedFakeGlobals o ++ [sym]))) (S n))
        as [[Hn Hex]|(es & Hs & Hf & H2 & Hk)].
      * left. split; [done|]. by apply Exists_cons_tl.
      * right. exists (e :: es).
        cbn [push_back exports definedFakeGlobals] in Hs.
        rewrite <- !app_assoc in Hs. cbn [app length] in Hs |- *.
        rewrite Nat.add_succ_r. split; [done|]. split.
        { apply Forall_cons; split; [|done]. unfold stops_export.
          rewrite Hcast. by intros [_ [?|(_ & ? & _)]]. }
        split.
        { constructor; [|done]. unfold export_of. by rewrite Hcast. }
        intros [|k] d Hd.
        -- injection Hd as <-. exists 0%nat. split; [done|].
           cbn. unfold fake_global_export, e. by rewrite Nat.add_0_r.
        -- destruct (Hk k d Hd) as (i & Hi & Hei). exists (S i).
           split; [done|]. cbn. by rewrite Nat.add_succ_r.
    + left. split; [by destruct NDEBUG|]. apply Exists_cons_hd.
      split; [done|]. by left.
Qed.

(** X21: in a relocatable link [calculateExports] exports nothing.
    Otherwise it exports the memory unless it is imported, the table if
    asked, and then, in the order of the symbol table, each symbol that is
    defined, not hidden (unless everything is exported), not local, live and
    no mutable global, under its name and with its function, global or event
    index; a data symbol is also added to [definedFakeGlobals], and the
    [k]-th of them is exported as the global of index
    [getNumImportedGlobals() + inputGlobals.size() + k] (in [uint32_t]).
    It does not return exactly when a symbol up for export is none of the
    four kinds the casts know or, in a build with assertions, is a mutable
    global other than [__stack_pointer] and [__tls_base]; then an assertion
    fails in a build with assertions, and without them [cast<DefinedData>]
    is undefined. *)
Theorem exports_follow_the_symbol_table o :
  let calculated :=
    calculateExports NDEBUG config symtab exportAll importMemory
      exportTable ask getNumImportedGlobals numInputGlobals o in
  let syms := exported exportAll ask (getSymbols symtab) in
  let data := List.filter (is_data ask) syms in
  let base := getNumImportedGlobals + numInputGlobals in
  (relocatable config = true -> calculated = Returns o)
  /\ (relocatable config = false ->
      ((forall o', calculated <> Returns o')
       <-> exists sym, sym ∈ getSymbols symtab
             /\ stops_export NDEBUG exportAll ask sym)
      /\ (calculated = Undefined -> NDEBUG = true)
      /\ (forall what, calculated = AssertionFailed what -> NDEBUG = false)
      /\ forall o', calculated = Returns o' ->
           definedFakeGlobals o' = definedFakeGlobals o ++ data
           /\ exists es,
                exports o'
                = exports o ++ fixed_exports importMemory exportTable ++ es
                /\ Forall2 (export_of ask) syms es
                /\ forall k d, data !! k = Some d ->
                     exists i, syms !! i = Some d
                       /\ es !! i = Some (fake_global_export base k d)).
Proof.
  intros calculated syms data base. unfold calculated, calculateExports.
  split; [by intros ->|]. intros ->. cbn [negb andb].
  set (o2 := if exportTable then _ else _).
  assert (definedFakeGlobals o2 = definedFakeGlobals o
          /\ exports o2
             = exports o ++ fixed_exports importMemory exportTable)
    as [Hfake Hexports].
  { unfold o2, fixed_exports.
    destruct importMemory, exportTable;
      cbn [negb push_back exports definedFakeGlobals];
      rewrite <- ?app_assoc, ?app_nil_r; done. }
  destruct (exportSymbols_spec base (getSymbols symtab) o2 0)
    as [[Hn He]|(es & Hs & Hf & H2 & Hk)].
  - unfold base in Hn. rewrite Z.add_0_r in Hn.
    destruct (exportSymbols _ _ _ _ _) as [[o3 idx]|what|]; [done|..];
      cbn in Hn; (split; [split; [by intros _; apply Exists_exists in He|done]|]);
      repeat split; try done; by intros ? [= <-].
  - unfold base in Hs. rewrite Z.add_0_r in Hs. rewrite Hs.
    split; [|split; [done|split; [done|]]].
    + split; [intros Hno; by destruct (Hno _ eq_refl)|].
      intros (sym & Hin & Hsym).
      rewrite Forall_forall in Hf. by destruct (Hf sym Hin).
    + intros o' [= <-]. cbn [exports definedFakeGlobals].
      rewrite Hfake, Hexports, <- app_assoc. split; [done|].
      exists es. split; [done|]. split; [done|]. exact Hk.
Qed.

End Export_facts.

Lemma exports_follow_the_symbol_table_witness :
  exists o',
    Exports.calculateExports false Links.two_pages Exporting.symbols false
      false false Exporting.ask 2 3 (Exports.make [] [])
    = Exports.Returns o'
    /\ map getName (Exports.definedFakeGlobals o') = ["table"; "version"]
    /\ map Exports.Name (Exports.exports o')
       = ["memory"; "apply"; "table"; "version"]
    /\ map Exports.Index (Exports.exports o') = [0; 7; 5; 6].
Proof.
  destruct (exports_follow_the_symbol_table false Links.two_pages
    Exporting.symbols false false false Exporting.ask 2 3
    (Exports.make [] [])) as [_ Hexports].
  destruct (Hexports eq_refl) as (_ & _ & _ & Hsome).
  destruct (Exports.calculateExports false Links.two_pages
    Exporting.symbols false false false Exporting.ask 2 3
    (Exports.make [] []))
    as [o'| |] eqn:Ho'; try (vm_compute in Ho'; discriminate Ho').
  exists o'. split; [done|].
  destruct (Hsome o' eq_refl) as [Hfake _].
  split; [by rewrite Hfake|].
  vm_compute in Ho'. injection Ho' as <-. by vm_compute.
Defined.

(** A mutable global other than [__stack_pointer] and [__tls_base] that is
    up for export: the assertion of a build with assertions fails, and a
    build without them skips the symbol. *)
Example exports_mutable_global :
  Exports.calculateExports false Links.two_pages Exporting.symbols false
    false false Exporting.ask_counter 2 3 (Exports.make [] [])
  = Exports.AssertionFailed
      "g == WasmSym::stackPointer || g == WasmSym::tlsBase"
  /\ exists o',
       Exports.calculateExports true Links.two_pages Exporting.symbols false
         false false Exporting.ask_counter 2 3 (Exports.make [] [])
       = Exports.Returns o'
       /\ map Exports.Name (Exports.exports o')
          = ["memory"; "apply"; "table"; "version"].
Proof. split; [by vm_compute|]. eexists. split; by vm_compute. Qed.

Section Body_tokens.

Variable string_to_name : string -> Z.
Variable to_hash_id : string -> Z.
Variable config : Configuration.
Variable symtab : SymbolTable.






End Body_tokens.

Section Whole_runs.

Variable config : Configuration.
Variable symtab : SymbolTable.
Variable h : host.





End Whole_runs.

Section Sync_call_runs.

Variable to_hash_id : string -> Z.
Variable config : Configuration.
Variable symtab : SymbolTable.
Variable h : host.



End Sync_call_runs.





Section Dispatcher_runs.

Variable string_to_name : string -> Z.
Variable config : Configuration.
Variable symtab : SymbolTable.
Variable h : host.


End Dispatcher_runs.



